(* ===== verification/_CoqProject ===== *)
-Q . S2P
Prelude.v
Bits.v
Memory.v
MemCopy.v
MemCopyProof.v
MemMoveProof.v
CStr.v
CStrProof.v
StrCopyProof.v
StrToken.v
Memb.v
MembSet.v
Tlsf.v
TlsfMap.v
TlsfHeap.v
TlsfWp.v
TlsfLists.v
TlsfAlloc.v
TlsfApi.v
TlsfPool.v
TlsfMemalign.v
TlsfRealloc.v
TlsfClient.v
TlsfCheck.v
Mm.v
Bcl.v
BitStream.v
Tree.v
SymTable.v
Huffman.v
HuffTree.v
TreeCode.v
HuffProof.v
Sf.v
SfProof.v
Rice.v
RiceBits.v
RiceProof.v
Rle.v
Prs.v
PrsProof.v
Lz.v
LzMatch.v
LzProof.v
CallbackList.v
ScuDma.v
ScuDmaProof.v
DmaQueue.v
DmaQueueSpec.v
DmaQueueProof.v
DmaQueueClaims.v
Fix16.v
VtParse.v
Cons.v
ConsProof.v
Vdp2Dev.v
Vdp2Proof.v
Ctype.v
Conv.v
Stdio.v
StdioProof.v
Crc.v
Gdb.v
GdbProof.v
GdbBreak.v
Tga.v
TgaProof.v
Smpc.v
SmpcProof.v
