(* ===== verification/Prelude.v ===== *)
(** * A verification library for libyaul

    libyaul is the C runtime of the Yaul SDK for the SEGA Saturn (SH-2, big-endian,
    32-bit pointers, gcc).  The library models parts of it that compute
    something: its memory allocators, its C library, the compression library
    libbcl, the image reader libtga, the kernel's DMA queues with the SCU-DMA driver
    and the callback lists under them, the debug console, the GDB stub, the driver
    of the peripherals and fixed-point numbers.  Every C function of these parts is
    a definition of the same name, with its guards, early returns and machine
    integers; parts of long functions are definitions of their own.

    ** Conventions (Prelude, Bits, Memory)

    A C integer is a [Z] in the range of its type; the conversions [u8], [u32],
    [i8], ... are written where C converts.  A function that can stop at a fault (a
    failed assertion, an access outside an array or through a null pointer, a
    shift by the width or more, a misaligned word access, or a loop of the model
    that runs out of fuel) is an [outcome]; one that changes a state as well is in the monad [M].  [yields]
    and [wp] say that such a computation returns, without a fault, with a result
    that satisfies a predicate, so every theorem that uses them also excludes
    faults and shows that the fuel is enough.  An array is a list and a pointer
    into it an index, except in the allocators and the C library, whose memory is
    the byte memory of Memory.v.  Bits.v turns shifts and masks into arithmetic.
    A loop has a number of rounds as fuel; [iterZ] takes it as an integer, for
    loops that may run up to 2^32 times, and [iterZ_iter] relates it to [iter].

    ** The C library: src/libyaul/lib

    - MemCopy.v: [memcpy], [memset], [memmove] with the word accesses that gcc
      compiles.  MemCopyProof.v, MemMoveProof.v: [memcpy_is_mem_copy] and
      [memset_is_mem_fill] identify the first two with the byte-by-byte
      [mem_copy] and [mem_fill] of Memory.v, which stand for them in the
      allocators; [memmove_moves] covers regions that overlap.
    - CStr.v: searching, comparing and copying strings, a word at a time where
      the code does.  CStrProof.v: the test for a zero byte in a word
      ([HASZERO_spec]), the scans, [string_search].  StrCopyProof.v: the copying
      functions, [strlcat_appends].  StrToken.v: spans over sets of bytes and
      [strtok_r_token].  A walk over a string has as fuel a number that the
      theorems require to exceed the length of the string.
    - Ctype.v: the classes of characters.  Conv.v: [strtol], [atoi], [atol],
      comparisons without case, [swab]; [strtol_spec], [atoi_agrees].  Stdio.v:
      [vsprintf] with every conversion, and [fix16_str] of src/libyaul/math.
      StdioProof.v: [sprintf_strtol_round_trip], and formats that print wrongly.
      Crc.v: the checksum by table is a polynomial division ([crc_is_division]) and
      detects a changed byte ([crc_detects_byte]).  The fuel of a number's digits is
      eleven, more than the digits of 32 bits.

    ** Memory: memb.c, tlsf.c and internal.c (src/libyaul/kernel/mm)

    - Memb.v: pools of blocks of one size.  [memb_alloc_correct],
      [memb_free_correct]: allocation and release on every reachable pool.
      [memb_alloc_misses_block_0]: block 0 can be missed.  MembSet.v: a pool as the
      set of blocks handed out, for its clients.
    - Tlsf.v: the two-level segregated-fit allocator, all functions, with headers
      in the byte memory.  TlsfMap.v: size classes and bit searches.  TlsfHeap.v:
      the physical blocks ([tile], [hdr]).  TlsfWp.v: block operations.
      TlsfLists.v: the free lists and bitmaps.  TlsfAlloc.v: the invariant [heap].
      TlsfApi.v, TlsfPool.v, TlsfMemalign.v, TlsfRealloc.v: the interface
      functions.  TlsfClient.v: what a client sees, for every sequence of calls
      ([run], [agrees]): fresh, aligned, disjoint blocks whose contents are kept,
      released blocks joined with their free neighbours ([coalesced],
      [free_block]), success when there is room, and three requests that go wrong.  TlsfCheck.v:
      the code's own integrity checks pass in every reachable state.
      Loops over blocks and lists have the number of blocks as fuel.
    - Mm.v: the two pools of the kernel (internal.c), malloc and its companions
      (src/libyaul/lib/stdlib), [strdup] and [strndup].  [strdup_copies] puts the
      allocator, [strlen] and [memcpy] together; [internal_memalign_swapped] is
      a call with its arguments exchanged.

    ** Compression: src/libbcl

    - Bcl.v: buffers and histograms.  Rle.v (rle.c); Lz.v, LzMatch.v, LzProof.v
      (lz.c); BitStream.v, Tree.v, SymTable.v, Huffman.v, HuffTree.v, TreeCode.v,
      HuffProof.v (huffman.c); Sf.v, SfProof.v (shannonfano.c, which shares the bit
      streams, tables and loops of huffman.c); Rice.v, RiceBits.v, RiceProof.v
      (rice.c); Prs.v, PrsProof.v (prs.c).
    - For each coder: what the decompressor makes of the compressor's output is
      the input, and neither leaves its buffer of the documented size, or of the
      size that is really needed ([rle_round_trip], [lz_round_trip],
      [lz_fast_round_trip], [huffman_round_trip], [sf_round_trip],
      [rice_round_trip], [prs_round_trip]).  [lz_fast_equals_brute_force]: the two
      match searches of lz.c give the same output.  [prs_decompress_size_agrees]:
      so do the two readers of prs.c.  The bounds on the data (2^25 bytes or more)
      are where indices or codes of 32 bits would wrap.
    - Where a coder fails: [lz_compress_reads_past_input],
      [huffman_code_of_33_bits], [sf_compress_overflows], [rice_loses_last_word],
      [rice_32_bit_words], [prs_finish_unwritten_byte].

    ** DMA: callback-list.c, scu_dma.c, dma-queue.c

    - CallbackList.v (src/libyaul/kernel/sys/callback-list.c): lists of callbacks,
      and the finite map they implement ([callback_list_refines]).
    - ScuDma.v (src/libyaul/scu/scu_dma.c, scu/dma.h, and what they use of scu/ic.h
      and cpu/intc.h): the three DMA levels.  The hardware (what the status
      register reads, when a transfer ends) and the BIOS are the class [Machine].
      Writes to registers and calls of a client's functions are events.
      ScuDmaProof.v: waiting ends ([scu_dma_level_wait_returns]), a transfer is
      programmed and started by exactly its register writes ([scu_dma_transfer]).
      Interrupts at the end of a transfer are taken before reads of the status
      register.  The fuel of a wait is the number of reads after which the hardware
      is idle, which the theorems assume to be bounded.
    - DmaQueue.v (src/libyaul/kernel/sys/dma-queue.c): three rings of 32 requests
      with counters of eight bits.  DmaQueueSpec.v is their contract: three FIFO
      queues and at most one flush under way.  DmaQueueProof.v relates the two
      ([ring], [sim]); the counters may wrap around.  DmaQueueClaims.v:
      [dma_queue_refines], [dma_queue_flush_completes], and two ways in which
      requests are lost.  256 rounds are enough for the loops that move [head]
      towards another counter of eight bits.
      The refinement assumes room: 32 requests on a tag, 31 while one of them is
      being transferred; the code checks less.

    ** The debug console: src/libyaul/kernel/dbgio/devices

    - VtParse.v (cons/vt_parse.inc and its table, row by row): the parser of escape
      sequences.  Cons.v (cons/cons.c): cursor and actions, over a record of a
      device's functions that may be null.  ConsProof.v: the class [ConsDevice] of
      what the console needs of a device, and [cons_buffer_ok] for every device.
    - Vdp2Dev.v (vdp2.c, vdp2-simple.inc): the device of the VDP2, with its page of
      pattern names and its font.  Vdp2Proof.v: it is a [ConsDevice];
      [vdp2_console_safe] for every text with bounded control sequences and line
      feeds, [vdp2_puts_text] for the cells of plain text; writes outside arrays and
      through null pointers ([vdp2_flush_overruns], [cons_line_partial_clear_null],
      [vt_params_overrun]).

    ** The GDB stub: src/libyaul/common/gdb

    - Gdb.v (gdb.c, sh2.inc): packets over a device that is a list of received and
      one of sent bytes, memory in hexadecimal, registers, breakpoints, steps and
      the commands.  Loops that wait for a byte have the number of bytes to come as
      fuel; a run that waits for one that never comes ends with [OutOfFuel].
      GdbProof.v: [gdb_packet_arrives], [gdb_hex_round_trip],
      [gdb_bad_checksum_delivered].  GdbBreak.v: breakpoints implement a set of
      addresses and leave the program as it was ([gdb_breakpoints_refine_set]).

    ** Peripherals: src/libyaul/scu/bus/cpu/smpc

    - Smpc.v: the interrupt handler that collects a report, its parser, whose
      records are blocks of a pool of Memb.v, and the pads.  SmpcProof.v:
      [smpc_session_safe] for every sequence of interrupts and calls with reports of
      at most 49 parts, which return exactly if the reports are [supported], a
      condition on their bytes; [smpc_pads_reported]; [smpc_multitap_lost].

    ** Images and numbers

    - Tga.v (src/libtga): all of the reader.  TgaProof.v: [tga_rle_equals_plain] for
      24 and 32 bits, [tga_tiles_in_place] for 8 bits and at most 1024 whole
      tiles, and the files on which it fails.  An image has its number of pixels as fuel, since every packet
      has one.
    - Fix16.v (src/libyaul/math): products, conversions, square root
      ([fix16_sqrt_root], exact up to 16384.0, and [fix16_sqrt_overflows] above),
      logarithm and powers of two.

    ** Not modelled

    - Functions of clients (handlers, callbacks) are events or parameters; handlers
      that call the DMA queue themselves are outside the model, and so are
      interrupts between two steps of the queue's code.
    - Messages printed by the coders; the 64-bit and non-gcc variants of tlsf.c.
    - Drivers that consist of register writes (video, CD block, cartridges, CPU
      modules, SMPC commands), assembly, start-up, the initialisation of the GDB stub,
      and the tools of the host, of which tools/bcl is a copy of libbcl.
    - That an operation on one pool leaves the blocks of the other alone: the
      theorems on tlsf.c say what happens to its own blocks.
    - Substring search (strstr, strcasestr, memmem) and strverscmp, trigonometry and
      colours, libsega3d and the file systems are not modelled. *)

From stdpp Require Export base tactics numbers option list gmap.
From Stdlib Require Export ZArith Lia.

#[global] Set Default Goal Selector "!".
#[global] Open Scope Z_scope.

(** ** Machine integers

    A C value of an unsigned [w]-bit type is a [Z] in [0, 2^w); of a signed
    one, a [Z] in [-2^(w-1), 2^(w-1)).  The conversion functions below are the
    C conversions to the named types (SH-2, gcc: two's complement, modular). *)

Definition wrapu (w x : Z) : Z := x mod 2 ^ w.
Definition wraps (w x : Z) : Z := (x + 2 ^ (w - 1)) mod 2 ^ w - 2 ^ (w - 1).

Abbreviation u8 := (wrapu 8).
Abbreviation u16 := (wrapu 16).
Abbreviation u32 := (wrapu 32).
Abbreviation i8 := (wraps 8).
Abbreviation i16 := (wraps 16).
Abbreviation i32 := (wraps 32).

Abbreviation in_u8 x := (0 ≤ x < 256).
Abbreviation in_u16 x := (0 ≤ x < 65536).
Abbreviation in_u32 x := (0 ≤ x < 4294967296).

(** [b2z] is C's value of a comparison; [testz] is C's truth test of an
    integer. *)
Definition b2z (b : bool) : Z := if b then 1 else 0.
Definition testz (x : Z) : bool := negb (x =? 0).

(** ** Faults and the state monad

    A run of a C function either returns or stops at a fault: a failed
    [assert], an access outside an array, an access through a null pointer, a
    shift by the width of the type or more, a word access at an address that is
    not a multiple of its size, or the exhaustion of the fuel that bounds a loop
    of the model. *)

Inductive fault :=
| AssertFailed
| OutOfBounds
| NullPointer
| BadShift
| Misaligned
| OutOfFuel.

Inductive outcome (A : Type) :=
| Ok (a : A)
| Fault (e : fault).
Arguments Ok {A} a.
Arguments Fault {A} e.

#[global] Instance fault_eq_dec : EqDecision fault.
Proof. solve_decision. Defined.

#[global] Instance outcome_ret : MRet outcome := @Ok.
#[global] Instance outcome_bind : MBind outcome := λ A B f c,
  match c with Ok a => f a | Fault e => Fault e end.

Definition M (S A : Type) : Type := S → outcome (A * S).

#[global] Instance M_ret {S} : MRet (M S) := λ A a s, Ok (a, s).
#[global] Instance M_bind {S} : MBind (M S) := λ A B f c s,
  match c s with Ok (a, s') => f a s' | Fault e => Fault e end.

Section Primitives.
Context {S : Type}.

Definition gets {A} (f : S → A) : M S A := λ s, Ok (f s, s).
Definition modify (f : S → S) : M S unit := λ s, Ok (tt, f s).
Definition raise {A} (e : fault) : M S A := λ _, Fault e.
Definition assert_ (b : bool) : M S unit :=
  λ s, if b then Ok (tt, s) else Fault AssertFailed.
Definition lift {A} (o : outcome A) : M S A :=
  λ s, match o with Ok a => Ok (a, s) | Fault e => Fault e end.
Definition when (b : bool) (c : M S unit) : M S unit :=
  if b then c else mret tt.

End Primitives.

(** C shifts of 32-bit values: the shift count has to be less than 32. *)
Definition shl32 (x n : Z) : outcome Z :=
  if (0 <=? n) && (n <? 32) then Ok (u32 (Z.shiftl x n)) else Fault BadShift.

Definition shr32 (x n : Z) : outcome Z :=
  if (0 <=? n) && (n <? 32) then Ok (Z.shiftr x n) else Fault BadShift.

(** C array access: an index outside the array is a fault. *)
Definition arr_get {A} (l : list A) (i : Z) : outcome A :=
  if i <? 0 then Fault OutOfBounds
  else match l !! Z.to_nat i with Some a => Ok a | None => Fault OutOfBounds end.

Definition arr_set {A} (l : list A) (i : Z) (a : A) : outcome (list A) :=
  if (i <? 0) || (Z.of_nat (length l) <=? i) then Fault OutOfBounds
  else Ok (<[Z.to_nat i := a]> l).

(** ** Total correctness

    [wp c s Q]: from [s], [c] returns without a fault, in a state and with a
    value that satisfy [Q]. *)
Definition wp {S A} (c : M S A) (s : S) (Q : A → S → Prop) : Prop :=
  match c s with Ok (a, s') => Q a s' | Fault _ => False end.

Section Wp.
Context {S : Type}.

Lemma wp_ret {A} (a : A) s (Q : A → S → Prop) : Q a s → wp (mret a) s Q.
Proof. done. Qed.

Lemma wp_bind {A B} (c : M S A) (f : A → M S B) s (Q : B → S → Prop) :
  wp c s (λ a s', wp (f a) s' Q) → wp (mbind f c) s Q.
Proof. unfold wp, mbind, M_bind. by destruct (c s) as [[a s']|]. Qed.

Lemma wp_bind_inv {A B} (c : M S A) (f : A → M S B) s (Q : B → S → Prop) :
  wp (mbind f c) s Q → wp c s (λ a s', wp (f a) s' Q).
Proof. unfold wp, mbind, M_bind. by destruct (c s) as [[a s']|]. Qed.

Lemma wp_mono {A} (c : M S A) s (P Q : A → S → Prop) :
  wp c s P → (∀ a s', P a s' → Q a s') → wp c s Q.
Proof. unfold wp. destruct (c s) as [[a s']|]; auto. Qed.

Lemma wp_gets {A} (f : S → A) s (Q : A → S → Prop) : Q (f s) s → wp (gets f) s Q.
Proof. done. Qed.

Lemma wp_modify (f : S → S) s (Q : unit → S → Prop) : Q tt (f s) → wp (modify f) s Q.
Proof. done. Qed.

Lemma wp_assert b s (Q : unit → S → Prop) : b = true → Q tt s → wp (assert_ b) s Q.
Proof. intros ->. done. Qed.

Lemma wp_lift {A} (o : outcome A) a s (Q : A → S → Prop) :
  o = Ok a → Q a s → wp (lift o) s Q.
Proof. intros ->. done. Qed.

Lemma wp_when (b : bool) (c : M S unit) s Q :
  (b = true → wp c s Q) → (b = false → Q tt s) → wp (when b c) s Q.
Proof. intros. destruct b; unfold when; [auto | by apply wp_ret; auto]. Qed.

Lemma wp_Ok {A} (c : M S A) s Q :
  wp c s Q ↔ ∃ a s', c s = Ok (a, s') ∧ Q a s'.
Proof.
  unfold wp. destruct (c s) as [[a s']|e]; split.
  - intros HQ. eauto.
  - by intros (? & ? & [= <- <-] & ?).
  - done.
  - by intros (? & ? & ? & ?).
Qed.

End Wp.

Create HintDb yaul.
#[export] Hint Resolve wp_ret wp_gets wp_modify : yaul.

(** One symbolic-execution step of a [wp] goal. *)
Ltac wp_step :=
  lazymatch goal with
  | |- wp (mbind _ _) _ _ => apply wp_bind
  | |- wp (mret _) _ _ => apply wp_ret
  | |- wp (gets _) _ _ => apply wp_gets
  | |- wp (modify _) _ _ => apply wp_modify
  | |- wp (assert_ _) _ _ => apply wp_assert
  end; cbv beta.
Ltac wp_steps := repeat wp_step.

(** The same for a computation without state. *)
Definition yields {A} (o : outcome A) (Q : A → Prop) : Prop :=
  match o with Ok a => Q a | Fault _ => False end.

Lemma yields_bind {A B} (o : outcome A) (f : A → outcome B) Q :
  yields o (λ a, yields (f a) Q) → yields (mbind f o) Q.
Proof. by destruct o. Qed.

Lemma yields_mono {A} (o : outcome A) (P Q : A → Prop) :
  yields o P → (∀ a, P a → Q a) → yields o Q.
Proof. destruct o; simpl; auto. Qed.

Lemma yields_Ok {A} (o : outcome A) Q : yields o Q ↔ ∃ a, o = Ok a ∧ Q a.
Proof.
  destruct o; simpl; split.
  - eauto.
  - by intros (? & [= <-] & ?).
  - done.
  - by intros (? & ? & ?).
Qed.

(** ** Loops

    [for_up n i body a] is [for (j = i; j < i + n; ++j) a = body(j, a)];
    [iter] is a loop whose body either goes on with new values of the variables
    ([inl]) or leaves it with a result ([inr]).  Its fuel is a bound on the
    number of rounds: every theorem that shows that a loop yields a result shows
    that the bound chosen is enough. *)
Fixpoint for_up {A} (n : nat) (i : Z) (body : Z → A → outcome A) (a : A) : outcome A :=
  match n with
  | O => Ok a
  | S n => a' ← body i a; for_up n (i + 1) body a'
  end.

(** [for (i = n - 1; i >= 0; --i) a = body(i, a)] *)
Fixpoint for_down {A} (n : nat) (body : Z → A → outcome A) (a : A) : outcome A :=
  match n with
  | O => Ok a
  | S n => a' ← body (Z.of_nat n) a; for_down n body a'
  end.

Fixpoint iter {A B} (fuel : nat) (body : A → outcome (A + B)) (a : A) : outcome B :=
  match fuel with
  | O => Fault OutOfFuel
  | S fuel =>
      r ← body a;
      match r with inl a' => iter fuel body a' | inr b => Ok b end
  end.

(** The same loop with its fuel in binary, for loops that count down from a
    large number and usually end early. *)
Fixpoint iter_pos {A B} (p : positive) (body : A → outcome (A + B)) (a : A) : outcome (A + B) :=
  match p with
  | xH => body a
  | xO p => r ← iter_pos p body a; match r with inl a' => iter_pos p body a' | inr b => Ok (inr b) end
  | xI p =>
      r ← body a;
      match r with
      | inl a => r ← iter_pos p body a; match r with inl a' => iter_pos p body a' | inr b => Ok (inr b) end
      | inr b => Ok (inr b)
      end
  end.

Definition iterZ {A B} (fuel : Z) (body : A → outcome (A + B)) (a : A) : outcome B :=
  match fuel with
  | Zpos p => r ← iter_pos p body a; match r with inl _ => Fault OutOfFuel | inr b => Ok b end
  | _ => Fault OutOfFuel
  end.

Lemma iter_pos_iter {A B} p (body : A → outcome (A + B)) a n :
  iter (Pos.to_nat p + n) body a =
    (r ← iter_pos p body a; match r with inl a' => iter n body a' | inr b => Ok b end).
Proof.
  revert a n. induction p as [p IH|p IH|]; intros a n.
  - rewrite Pos2Nat.inj_xI. replace (S (2 * Pos.to_nat p) + n)%nat with (S (Pos.to_nat p + (Pos.to_nat p + n)))%nat by lia.
    cbn [iter iter_pos]. destruct (body a) as [[a'|b]|]; cbn; [|done..]. rewrite IH.
    destruct (iter_pos p body a') as [[a''|b]|]; cbn; [|done..]. apply IH.
  - rewrite Pos2Nat.inj_xO. replace (2 * Pos.to_nat p + n)%nat with (Pos.to_nat p + (Pos.to_nat p + n))%nat by lia.
    rewrite IH. cbn [iter_pos]. destruct (iter_pos p body a) as [[a''|b]|]; cbn; [|done..]. apply IH.
  - reflexivity.
Qed.

Lemma iterZ_iter {A B} fuel (body : A → outcome (A + B)) a : iterZ fuel body a = iter (Z.to_nat fuel) body a.
Proof.
  destruct fuel as [|p|p]; cbn [iterZ]; [done| |done].
  change (Z.to_nat (Z.pos p)) with (Pos.to_nat p). rewrite <- (Nat.add_0_r (Pos.to_nat p)), iter_pos_iter. done.
Qed.

(** The invariant rule of each. *)
Lemma for_up_inv {A} (I : Z → A → Prop) n i body (a : A) :
  I i a →
  (∀ j b, i ≤ j < i + Z.of_nat n → I j b → yields (body j b) (I (j + 1))) →
  yields (for_up n i body a) (I (i + Z.of_nat n)).
Proof.
  revert i a. induction n as [|n IH]; intros i a HI Hb; simpl.
  - by rewrite Z.add_0_r.
  - apply yields_bind, (yields_mono _ (I (i + 1))); [apply Hb; [lia | done]|].
    intros a' HI'. replace (i + Z.of_nat (S n)) with (i + 1 + Z.of_nat n) by lia.
    apply IH; [done|]. intros j b Hj. apply Hb. lia.
Qed.

Lemma for_down_inv {A} (I : Z → A → Prop) n body (a : A) :
  I (Z.of_nat n) a →
  (∀ j b, 0 ≤ j < Z.of_nat n → I (j + 1) b → yields (body j b) (I j)) →
  yields (for_down n body a) (I 0).
Proof.
  revert a. induction n as [|n IH]; intros a HI Hb; simpl; [done|].
  apply yields_bind, (yields_mono _ (I (Z.of_nat n))).
  - apply Hb; [lia|]. by replace (Z.of_nat n + 1) with (Z.of_nat (S n)) by lia.
  - intros a' HI'. apply IH; [done|]. intros j b Hj. apply Hb. lia.
Qed.

Lemma iter_inv {A B} (I : A → Prop) (measure : A → nat) (Q : B → Prop) fuel body a :
  I a → (measure a < fuel)%nat →
  (∀ b, I b → yields (body b) (λ r,
     match r with inl b' => I b' ∧ (measure b' < measure b)%nat | inr c => Q c end)) →
  yields (iter fuel body a) Q.
Proof.
  intros HI Hf Hb. revert a HI Hf. induction fuel as [|fuel IH]; intros a HI Hf; [lia|].
  simpl. apply yields_bind. eapply yields_mono; [by apply Hb|].
  intros [a'|c]; [|done]. intros [HI' Hm]. apply IH; [done | lia].
Qed.

(** Bodies that agree on the states of the loop. *)
Lemma iter_agree {A B} (I : A → Prop) fuel (f g : A → outcome (A + B)) a :
  I a → (∀ b, I b → g b = f b ∧ ∀ b', f b = Ok (inl b') → I b') →
  iter fuel g a = iter fuel f a.
Proof.
  intros HI Hb. revert a HI. induction fuel as [|fuel IH]; intros a HI; [done|]. simpl.
  destruct (Hb a HI) as [-> Hnext]. destruct (f a) as [[a'|c]|] eqn:E; simpl; auto.
Qed.

(** ** Boolean tests *)

(** Case analysis on the comparisons the C code branches on. *)
Ltac case_cmp :=
  match goal with
  | |- context [?a <? ?b] => destruct (Z.ltb_spec a b)
  | |- context [?a <=? ?b] => destruct (Z.leb_spec a b)
  | |- context [?a =? ?b] => destruct (Z.eqb_spec a b)
  | H : context [?a <? ?b] |- _ => destruct (Z.ltb_spec a b)
  | H : context [?a <=? ?b] |- _ => destruct (Z.leb_spec a b)
  | H : context [?a =? ?b] |- _ => destruct (Z.eqb_spec a b)
  end.

(** ** Integer lemmas *)

Lemma testz_true x : testz x = true ↔ x ≠ 0.
Proof. unfold testz. case_cmp; naive_solver. Qed.

Lemma testz_false x : testz x = false ↔ x = 0.
Proof. unfold testz. case_cmp; naive_solver. Qed.

Lemma wrapu_range w x : 0 ≤ w → 0 ≤ wrapu w x < 2 ^ w.
Proof. intros. apply Z.mod_pos_bound. lia. Qed.

Lemma wrapu_small w x : 0 ≤ x < 2 ^ w → wrapu w x = x.
Proof. apply Z.mod_small. Qed.

Lemma wraps_range w x : 0 < w → - 2 ^ (w - 1) ≤ wraps w x < 2 ^ (w - 1).
Proof.
  intros. unfold wraps.
  pose proof (Z.mod_pos_bound (x + 2 ^ (w - 1)) (2 ^ w)).
  replace (2 ^ w) with (2 * 2 ^ (w - 1)) in *
    by (rewrite <- Z.pow_succ_r by lia; f_equal; lia).
  lia.
Qed.

Lemma wraps_small w x : 0 < w → - 2 ^ (w - 1) ≤ x < 2 ^ (w - 1) → wraps w x = x.
Proof.
  intros. unfold wraps. rewrite Z.mod_small; [lia|].
  replace (2 ^ w) with (2 * 2 ^ (w - 1))
    by (rewrite <- Z.pow_succ_r by lia; f_equal; lia).
  lia.
Qed.

(** ** Array lemmas *)

Lemma arr_get_Ok {A} (l : list A) i a :
  arr_get l i = Ok a ↔ 0 ≤ i ∧ l !! Z.to_nat i = Some a.
Proof.
  unfold arr_get. case_cmp.
  - split; [done | lia].
  - destruct (l !! Z.to_nat i); split; [by intros [= ->] | by intros [_ [= ->]] | done | by intros [_ ?]].
Qed.

Lemma arr_get_in_range {A} (l : list A) i :
  0 ≤ i < Z.of_nat (length l) → ∃ a, arr_get l i = Ok a ∧ l !! Z.to_nat i = Some a.
Proof.
  intros Hi. destruct (lookup_lt_is_Some_2 l (Z.to_nat i)) as [a Ha]; [lia|].
  exists a. split; [|done]. apply arr_get_Ok. auto with lia.
Qed.

Lemma arr_set_in_range {A} (l : list A) i a :
  0 ≤ i < Z.of_nat (length l) → arr_set l i a = Ok (<[Z.to_nat i := a]> l).
Proof. intros Hi. unfold arr_set. repeat case_cmp; try lia. done. Qed.

Lemma arr_get_app {A} (l r : list A) x i :
  i = Z.of_nat (length l) → arr_get (l ++ x :: r) i = Ok x.
Proof. intros ->. apply arr_get_Ok. split; [lia|]. rewrite Nat2Z.id. by apply list_lookup_middle. Qed.

Lemma arr_set_app {A} (l r : list A) x y i :
  i = Z.of_nat (length l) → arr_set (l ++ x :: r) i y = Ok ((l ++ [y]) ++ r).
Proof.
  intros ->. rewrite arr_set_in_range by (rewrite length_app; simpl; lia).
  rewrite Nat2Z.id, insert_app_r_alt, Nat.sub_diag by lia. simpl. by rewrite <- app_assoc.
Qed.
