(* ===== verification/Bits.v ===== *)
(** * Bit fields as arithmetic

    The shifts, masks and disjunctions of the coders, as [*], [/], [mod] and [+]. *)

From S2P Require Import Prelude.

(** [lia] with division and remainder by constants. *)
Ltac dlia := Z.div_mod_to_equations; lia.

Lemma testbit_above x n i : 0 ≤ x < 2 ^ n → n ≤ i → Z.testbit x i = false.
Proof.
  intros Hx Hi. destruct (decide (0 ≤ n)); [|rewrite Z.pow_neg_r in Hx; lia].
  destruct (decide (x = 0)) as [->|]; [apply Z.bits_0|].
  apply Z.bits_above_log2; [lia|]. apply Z.log2_lt_pow2; [lia|].
  pose proof (Z.pow_le_mono_r 2 n i). lia.
Qed.

(** Disjoint fields add. *)
Lemma lor_add x y n : 0 ≤ n → 0 ≤ x < 2 ^ n → Z.lor (y * 2 ^ n) x = y * 2 ^ n + x.
Proof.
  intros Hn Hx.
  assert (Z.land (y * 2 ^ n) x = 0) as Hland.
  { apply Z.bits_inj'. intros i Hi. rewrite Z.land_spec, Z.bits_0.
    destruct (decide (n ≤ i)).
    - by rewrite (testbit_above x n), andb_false_r.
    - rewrite Z.mul_pow2_bits_low by lia. done. }
  rewrite Z.add_nocarry_lxor by done. symmetry. by apply Z.lxor_lor.
Qed.

Lemma lor_pow2 x n : 0 ≤ n → 0 ≤ x < 2 ^ n → Z.lor x (2 ^ n) = 2 ^ n + x.
Proof. intros. rewrite Z.lor_comm. pose proof (lor_add x 1 n). rewrite Z.mul_1_l in *. auto. Qed.

Lemma land_mask x n m : 0 ≤ n → m = 2 ^ n - 1 → Z.land x m = x mod 2 ^ n.
Proof. intros ? ->. rewrite Z.sub_1_r, <- Z.ones_equiv. by apply Z.land_ones. Qed.

(** The test of one bit. *)
Lemma land_bit_test x n : 0 ≤ n → testz (Z.land x (2 ^ n)) = Z.testbit x n.
Proof.
  intros Hn. destruct (Z.testbit x n) eqn:Hb.
  - apply testz_true. intros Hz. assert (Z.testbit (Z.land x (2 ^ n)) n = false) as Hf by (rewrite Hz; apply Z.bits_0).
    rewrite Z.land_spec, Hb, Z.pow2_bits_true in Hf; done.
  - apply testz_false. apply Z.bits_inj'. intros i Hi. rewrite Z.land_spec, Z.bits_0, Z.pow2_bits_eqb by done.
    destruct (Z.eqb_spec n i) as [<-|]; [by rewrite Hb | by rewrite andb_false_r].
Qed.

Lemma testbit_div x n : 0 ≤ n → Z.testbit x n = (x / 2 ^ n mod 2 =? 1).
Proof.
  intros Hn.
  pose proof (Z.testbit_spec' x n Hn) as Hs. destruct (Z.testbit x n); simpl in Hs; rewrite <- Hs; done.
Qed.

Lemma land_shiftl w a k : 0 ≤ k → Z.land w (Z.shiftl a k) = Z.shiftl (Z.land (Z.shiftr w k) a) k.
Proof.
  intros Hk. apply Z.bits_inj'. intros i Hi.
  rewrite Z.land_spec, !Z.shiftl_spec, Z.land_spec by lia.
  destruct (Z.lt_ge_cases i k).
  - by rewrite !(Z.testbit_neg_r _ (i - k)), andb_false_r by lia.
  - rewrite Z.shiftr_spec by lia. by replace (i - k + k) with i by lia.
Qed.

(** A mask of the top [n] bits tests whether a word reaches [2^(32-n)]. *)
Lemma land_high_mask w n : in_u32 w → 0 < n ≤ 32 →
  Z.land w (Z.shiftl (Z.ones n) (32 - n)) = 0 ↔ w < 2 ^ (32 - n).
Proof.
  intros Hw Hn.
  rewrite land_shiftl, Z.land_ones, Z.shiftr_div_pow2, Z.shiftl_mul_pow2 by lia.
  rewrite Z.mod_small.
  - assert (0 < 2 ^ (32 - n)) by lia. split; intros H0.
    + assert (w / 2 ^ (32 - n) = 0) as Hd by nia. rewrite Z.div_small_iff in Hd; lia.
    + by rewrite Z.div_small by lia.
  - split; [apply Z.div_pos; lia|]. apply Z.div_lt_upper_bound; [lia|].
    rewrite <- Z.pow_add_r by lia. replace (32 - n + n) with 32 by lia. lia.
Qed.

(** Facts about all bytes, decided one by one. *)
Lemma all_bytes (P : Z → bool) : forallb P (seqZ 0 256) = true → ∀ c, in_u8 c → P c = true.
Proof. intros H c Hc. rewrite forallb_forall in H. apply H, list_elem_of_In, elem_of_seqZ. lia. Qed.
