(* ===== verification/Memory.v ===== *)
(** * Byte memory of the SH-2

    Memory is a finite map from byte addresses to bytes; an address that was
    never written reads as some byte fixed by the map.  Words are big-endian,
    as on the SH-2 the library is compiled for.  [mem_fill] and [mem_copy] are
    the byte-by-byte meaning of [memset] and [memcpy], used where the kernel
    calls them on memory it owns. *)

From S2P Require Import Prelude.

Abbreviation mem := (gmap Z Z).

Definition load8 (m : mem) (a : Z) : Z := u8 (m !!! a).
Definition store8 (m : mem) (a v : Z) : mem := <[a := u8 v]> m.

Definition load32 (m : mem) (a : Z) : Z :=
  load8 m a * 2 ^ 24 + load8 m (a + 1) * 2 ^ 16 + load8 m (a + 2) * 2 ^ 8 + load8 m (a + 3).

Definition store32 (m : mem) (a v : Z) : mem :=
  store8 (store8 (store8 (store8 m a (v / 2 ^ 24)) (a + 1) (v / 2 ^ 16)) (a + 2) (v / 2 ^ 8)) (a + 3) v.

(** Half words; the accesses with [a] fault at an odd address, as the CPU does. *)
Definition load16 (m : mem) (a : Z) : Z := load8 m a * 256 + load8 m (a + 1).
Definition store16 (m : mem) (a v : Z) : mem := store8 (store8 m a (Z.shiftr v 8)) (a + 1) v.
Definition load16a (m : mem) (a : Z) : outcome Z := if a mod 2 =? 0 then Ok (load16 m a) else Fault Misaligned.
Definition store16a (m : mem) (a v : Z) : outcome mem := if a mod 2 =? 0 then Ok (store16 m a v) else Fault Misaligned.

Fixpoint mem_fill (m : mem) (a c : Z) (n : nat) : mem :=
  match n with
  | O => m
  | S n => mem_fill (store8 m a c) (a + 1) c n
  end.

Fixpoint mem_copy (m : mem) (d s : Z) (n : nat) : mem :=
  match n with
  | O => m
  | S n => mem_copy (store8 m d (load8 m s)) (d + 1) (s + 1) n
  end.

(** ** Reads after writes *)

Lemma load8_range m a : in_u8 (load8 m a).
Proof. unfold load8. apply (wrapu_range 8). lia. Qed.

Lemma load8_store8 m a b v :
  load8 (store8 m a v) b = if decide (a = b) then u8 v else load8 m b.
Proof.
  unfold load8, store8. case_decide as Hab.
  - subst. rewrite lookup_total_insert_eq. apply wrapu_small, wrapu_range. lia.
  - by rewrite lookup_total_insert_ne.
Qed.

Lemma load8_store8_eq m a v : load8 (store8 m a v) a = u8 v.
Proof. rewrite load8_store8. by case_decide. Qed.

Lemma load8_store8_ne m a b v : a ≠ b → load8 (store8 m a v) b = load8 m b.
Proof. intros. rewrite load8_store8. by case_decide. Qed.

Lemma load8_store32_ne m a b v :
  b < a ∨ a + 4 ≤ b → load8 (store32 m a v) b = load8 m b.
Proof. intros. unfold store32. by rewrite !load8_store8_ne by lia. Qed.

Lemma load32_ext m m' a :
  (∀ b, a ≤ b < a + 4 → load8 m' b = load8 m b) → load32 m' a = load32 m a.
Proof. intros H. unfold load32. by rewrite !H by lia. Qed.

Lemma load32_range m a : in_u32 (load32 m a).
Proof.
  unfold load32. pose proof (load8_range m a). pose proof (load8_range m (a + 1)).
  pose proof (load8_range m (a + 2)). pose proof (load8_range m (a + 3)). lia.
Qed.

Lemma load32_store32_eq m a v : load32 (store32 m a v) a = u32 v.
Proof.
  unfold load32, store32.
  repeat (rewrite load8_store8; case_decide; try lia).
  unfold wrapu. Z.div_mod_to_equations. lia.
Qed.

Lemma load32_store32_ne m a b v :
  b + 4 ≤ a ∨ a + 4 ≤ b → load32 (store32 m a v) b = load32 m b.
Proof. intros. apply load32_ext. intros. apply load8_store32_ne. lia. Qed.

Lemma load32_store8_ne m a b v :
  a < b ∨ b + 4 ≤ a → load32 (store8 m a v) b = load32 m b.
Proof. intros. apply load32_ext. intros. apply load8_store8_ne. lia. Qed.

(** ** Fill and copy *)

Lemma load8_mem_fill m a c n b :
  load8 (mem_fill m a c n) b =
    if (a <=? b) && (b <? a + Z.of_nat n) then u8 c else load8 m b.
Proof.
  revert m a. induction n as [|n IH]; intros m a; simpl.
  - repeat case_cmp; simpl; try done; lia.
  - rewrite IH, load8_store8. repeat case_cmp; case_decide; simpl; try done; lia.
Qed.

Lemma load8_mem_copy_ne m d s n b :
  b < d ∨ d + Z.of_nat n ≤ b → load8 (mem_copy m d s n) b = load8 m b.
Proof.
  revert m d s. induction n as [|n IH]; intros m d s Hb; simpl; [done|].
  rewrite IH by lia. apply load8_store8_ne. lia.
Qed.

Lemma load8_mem_copy_in m d s n i :
  d + Z.of_nat n ≤ s ∨ s + Z.of_nat n ≤ d →
  0 ≤ i < Z.of_nat n →
  load8 (mem_copy m d s n) (d + i) = load8 m (s + i).
Proof.
  revert m d s i. induction n as [|n IH]; intros m d s i Hdis Hi; [lia|]. simpl.
  destruct (decide (i = 0)) as [->|].
  - rewrite load8_mem_copy_ne by lia. rewrite !Z.add_0_r, load8_store8_eq.
    apply wrapu_small. apply load8_range.
  - replace (d + i) with (d + 1 + (i - 1)) by lia.
    rewrite IH by lia. replace (s + 1 + (i - 1)) with (s + i) by lia.
    apply load8_store8_ne. lia.
Qed.

(** The bytes of a buffer. *)
Definition bytes_at (m : mem) (a n : Z) : list Z := (λ i, load8 m (a + i)) <$> seqZ 0 n.

Lemma bytes_at_range m a n : Forall (λ b, in_u8 b) (bytes_at m a n).
Proof. apply Forall_fmap, Forall_forall. intros i _. apply load8_range. Qed.

Lemma bytes_at_snoc m a n : 0 ≤ n → bytes_at m a (n + 1) = bytes_at m a n ++ [load8 m (a + n)].
Proof. intros Hn. unfold bytes_at. rewrite seqZ_app by lia. by rewrite fmap_app. Qed.

Lemma load16_range m a : in_u16 (load16 m a).
Proof. unfold load16. pose proof (load8_range m a). pose proof (load8_range m (a + 1)). lia. Qed.

Lemma load16_store16_eq m a v : in_u16 v → load16 (store16 m a v) a = v.
Proof.
  intros Hv. unfold load16, store16. rewrite load8_store8_ne, !load8_store8_eq by lia.
  rewrite Z.shiftr_div_pow2 by lia. change (2 ^ 8) with 256. unfold wrapu. Z.div_mod_to_equations. lia.
Qed.

Lemma load16_bytes m m' a : load16 m a = load16 m' a → load8 m a = load8 m' a ∧ load8 m (a + 1) = load8 m' (a + 1).
Proof.
  unfold load16. pose proof (load8_range m a). pose proof (load8_range m (a + 1)).
  pose proof (load8_range m' a). pose proof (load8_range m' (a + 1)). lia.
Qed.

(** The memory after bytes were stored one behind the other. *)
Fixpoint store_bytes (m : mem) (a : Z) (l : list Z) : mem :=
  match l with
  | [] => m
  | c :: l => store_bytes (store8 m a c) (a + 1) l
  end.

Lemma store_bytes_snoc m a c l : store_bytes m a (l ++ [c]) = store8 (store_bytes m a l) (a + Z.of_nat (length l)) c.
Proof.
  revert m a. induction l as [|d l IH]; intros m a; cbn [app length store_bytes]; [f_equal; lia|].
  rewrite IH. f_equal. lia.
Qed.

Lemma store_bytes_out m a l x : x < a ∨ a + Z.of_nat (length l) ≤ x → load8 (store_bytes m a l) x = load8 m x.
Proof.
  revert m a. induction l as [|c l IH]; intros m a Hx; cbn [store_bytes length] in *; [done|].
  rewrite IH by lia. by rewrite load8_store8_ne by lia.
Qed.

Lemma store_bytes_in m a l i c : 0 ≤ i → l !! Z.to_nat i = Some c → load8 (store_bytes m a l) (a + i) = u8 c.
Proof.
  revert m a i. induction l as [|d l IH]; intros m a i Hi Hc; [done|]. cbn [store_bytes]. destruct (Z.eq_dec i 0) as [->|].
  - injection Hc as ->. rewrite store_bytes_out by lia. rewrite Z.add_0_r. apply load8_store8_eq.
  - replace (Z.to_nat i) with (S (Z.to_nat (i - 1))) in Hc by lia. replace (a + i) with (a + 1 + (i - 1)) by lia. apply IH; [lia | done].
Qed.

#[export] Hint Rewrite load32_store32_eq : yaul_mem.
#[export] Hint Rewrite load32_store32_ne using lia : yaul_mem.
#[export] Hint Resolve load8_range load32_range : yaul.
