(* ===== verification/MemCopy.v ===== *)
(** * Copying and filling memory (lib/string)

    [memcpy], [memset] and [memmove] as written, with their word accesses, and
    the functions that only call them.  The compiler is gcc, so the branches
    under [__GNUC__] are the code.  A word access faults unless its address is a
    multiple of the size of the word, as on the SH-2. *)

From S2P Require Import Prelude Bits Memory.

(** ** Word accesses *)

Definition load32a (m : mem) (a : Z) : outcome Z :=
  if a mod 4 =? 0 then Ok (load32 m a) else Fault Misaligned.

Definition store32a (m : mem) (a v : Z) : outcome mem :=
  if a mod 4 =? 0 then Ok (store32 m a v) else Fault Misaligned.

Definition store64a (m : mem) (a v : Z) : outcome mem :=
  if a mod 8 =? 0 then Ok (store32 (store32 m a (v / 2 ^ 32)) (a + 4) v) else Fault Misaligned.

(** ** memcpy *)

Module Memcpy.

(** The memory and the moving pointers [d] and [s]. *)
Record cursors := Cursors { cmem : mem; cdst : Z; csrc : Z }.

(** [*d++ = *s++] *)
Definition copy_byte (x : cursors) : cursors :=
  Cursors (store8 (cmem x) (cdst x) (load8 (cmem x) (csrc x))) (cdst x + 1) (csrc x + 1).

Definition copy_bytes (k : nat) (x : cursors) : cursors := Nat.iter k copy_byte x.

(** The assignment of the word at [s + o] to the word at [d + o]. *)
Definition copy_word (o : Z) (x : cursors) : outcome cursors :=
  v ← load32a (cmem x) (csrc x + o);
  m ← store32a (cmem x) (cdst x + o) v;
  Ok (Cursors m (cdst x) (csrc x)).

(** [s += k, d += k] *)
Definition advance_both (k : Z) (x : cursors) : cursors :=
  Cursors (cmem x) (cdst x + k) (csrc x + k).

Definition memcpy_head (x : cursors) (n : Z) : outcome (cursors * Z) :=
  iter (S (Z.to_nat n)) (λ '(x, n),
    if testz (csrc x mod 4) && testz n then Ok (inl (copy_byte x, n - 1))
    else Ok (inr (x, n))) (x, n).

Definition memcpy_aligned (x : cursors) (n : Z) : outcome cursors :=
  '(x, n) ← iter (S (Z.to_nat n)) (λ '(x, n),
    if 16 <=? n then
      x ← copy_word 0 x; x ← copy_word 4 x; x ← copy_word 8 x; x ← copy_word 12 x;
      Ok (inl (advance_both 16 x, n - 16))
    else Ok (inr (x, n))) (x, n);
  x ← (if testz (Z.land n 8) then x ← copy_word 0 x; x ← copy_word 4 x; Ok (advance_both 8 x) else Ok x);
  x ← (if testz (Z.land n 4) then x ← copy_word 0 x; Ok (advance_both 4 x) else Ok x);
  let x := if testz (Z.land n 2) then copy_bytes 2 x else x in
  Ok (if testz (Z.land n 1) then copy_byte x else x).

(** [(w << lsh) | (x >> rsh)] on [uint32_t] *)
Definition merge (lsh rsh w x : Z) : Z := Z.lor (u32 (Z.shiftl w lsh)) (Z.shiftr x rsh).

(** One case of the switch on [d % 4]: [head] bytes, then 16 bytes a round from
    words that are read [off] bytes ahead of [s], while [n >= bound]. *)
Definition memcpy_shift (head : nat) (off lsh rsh bound : Z) (x : cursors) (n : Z) :
    outcome (cursors * Z) :=
  w ← load32a (cmem x) (csrc x);
  let x := copy_bytes head x in
  let n := n - Z.of_nat head in
  iter (S (Z.to_nat n)) (λ '(c, n, w),
    if bound <=? n then
      let d := cdst c in
      let s := csrc c in
      x ← load32a (cmem c) (s + off);
      m ← store32a (cmem c) (d + 0) (merge lsh rsh w x);
      w ← load32a m (s + (off + 4));
      m ← store32a m (d + 4) (merge lsh rsh x w);
      x ← load32a m (s + (off + 8));
      m ← store32a m (d + 8) (merge lsh rsh w x);
      w ← load32a m (s + (off + 12));
      m ← store32a m (d + 12) (merge lsh rsh x w);
      Ok (inl (Cursors m (d + 16) (s + 16), n - 16, w))
    else Ok (inr (c, n))) (x, n, w).

Definition memcpy_tail (x : cursors) (n : Z) : cursors :=
  let x := if testz (Z.land n 16) then copy_bytes 16 x else x in
  let x := if testz (Z.land n 8) then copy_bytes 8 x else x in
  let x := if testz (Z.land n 4) then copy_bytes 4 x else x in
  let x := if testz (Z.land n 2) then copy_bytes 2 x else x in
  if testz (Z.land n 1) then copy_byte x else x.

Definition memcpy_switch (x : cursors) (n : Z) : outcome (cursors * Z) :=
  if 32 <=? n then
    match cdst x mod 4 with
    | 1 => memcpy_shift 3 1 24 8 17 x n
    | 2 => memcpy_shift 2 2 16 16 18 x n
    | 3 => memcpy_shift 1 3 8 24 19 x n
    | _ => Ok (x, n)
    end
  else Ok (x, n).

(** The result is the memory and the pointer returned. *)
Definition memcpy (m : mem) (dest src n : Z) : outcome (mem * Z) :=
  '(x, n) ← memcpy_head (Cursors m dest src) n;
  if cdst x mod 4 =? 0 then x ← memcpy_aligned x n; Ok (cmem x, dest)
  else
    '(x, n) ← memcpy_switch x n;
    Ok (cmem (memcpy_tail x n), dest).

Definition mempcpy (m : mem) (dest src n : Z) : outcome (mem * Z) :=
  '(m, p) ← memcpy m dest src n; Ok (m, p + n).

End Memcpy.
Import Memcpy.

(** ** memset *)

(** [c32] and [c64] *)
Definition memset_c32 (c : Z) : Z := u32 ((2 ^ 32 - 1) / 255 * u8 c).
Definition memset_c64 (c : Z) : Z := Z.lor (memset_c32 c) (wrapu 64 (Z.shiftl (memset_c32 c) 32)).

(** From the alignment of [s] on, for [n > 8]. *)
Definition memset_words (m : mem) (s c n : Z) : outcome mem :=
  let k := Z.land (u32 (- s)) 3 in
  let s := s + k in
  let n := Z.land (n - k) (u32 (- 4)) in
  let c32 := memset_c32 c in
  m ← store32a m (s + 0) c32;
  m ← store32a m (s + n - 4) c32;
  if n <=? 8 then Ok m else
  m ← store32a m (s + 4) c32;
  m ← store32a m (s + 8) c32;
  m ← store32a m (s + n - 12) c32;
  m ← store32a m (s + n - 8) c32;
  if n <=? 24 then Ok m else
  m ← store32a m (s + 12) c32;
  m ← store32a m (s + 16) c32;
  m ← store32a m (s + 20) c32;
  m ← store32a m (s + 24) c32;
  m ← store32a m (s + n - 28) c32;
  m ← store32a m (s + n - 24) c32;
  m ← store32a m (s + n - 20) c32;
  m ← store32a m (s + n - 16) c32;
  let k := 24 + Z.land s 4 in
  let c64 := memset_c64 c in
  iter (S (Z.to_nat n)) (λ '(m, s, n),
    if 32 <=? n then
      m ← store64a m (s + 0) c64;
      m ← store64a m (s + 8) c64;
      m ← store64a m (s + 16) c64;
      m ← store64a m (s + 24) c64;
      Ok (inl (m, s + 32, n - 32))
    else Ok (inr m)) (m, s + k, n - k).

Definition memset (m : mem) (dest c n : Z) : outcome (mem * Z) :=
  let s := dest in
  if n =? 0 then Ok (m, dest) else
  let m := store8 m (s + 0) c in
  let m := store8 m (s + (n - 1)) c in
  if n <=? 2 then Ok (m, dest) else
  let m := store8 m (s + 1) c in
  let m := store8 m (s + 2) c in
  let m := store8 m (s + (n - 2)) c in
  let m := store8 m (s + (n - 3)) c in
  if n <=? 6 then Ok (m, dest) else
  let m := store8 m (s + 3) c in
  let m := store8 m (s + (n - 4)) c in
  if n <=? 8 then Ok (m, dest) else
  m ← memset_words m s c n;
  Ok (m, dest).

Definition bzero (m : mem) (s n : Z) : outcome mem := '(m, _) ← memset m s 0 n; Ok m.

(** ** memmove *)

Module Memmove.

Definition WS : Z := 4.

(** [while (d % WS) { if (!n--) return dest; *d++ = *s++; }]; the second
    component of the result is the early return. *)
Definition align_dest_up (m : mem) (d s n : Z) : outcome ((mem * Z * Z * Z) * bool) :=
  iter (S (S (Z.to_nat n))) (λ '(m, d, s, n),
    if testz (d mod WS) then
      if n =? 0 then Ok (inr ((m, d, s, n), true))
      else Ok (inl (store8 m d (load8 m s), d + 1, s + 1, n - 1))
    else Ok (inr ((m, d, s, n), false))) (m, d, s, n).

Definition words_up (m : mem) (d s n : Z) : outcome (mem * Z * Z * Z) :=
  iter (S (Z.to_nat n)) (λ '(m, d, s, n),
    if WS <=? n then
      v ← load32a m s;
      m ← store32a m d v;
      Ok (inl (m, d + WS, s + WS, n - WS))
    else Ok (inr (m, d, s, n))) (m, d, s, n).

(** [for (; n; n--) *d++ = *s++] *)
Definition bytes_up (m : mem) (d s n : Z) : outcome mem :=
  iter (S (Z.to_nat n)) (λ '(m, d, s, n),
    if testz n then Ok (inl (store8 m d (load8 m s), d + 1, s + 1, n - 1))
    else Ok (inr m)) (m, d, s, n).

Definition move_up (m : mem) (d s n : Z) : outcome mem :=
  if s mod WS =? d mod WS then
    '(x, ret) ← align_dest_up m d s n;
    let '(m, d, s, n) := x in
    if (ret : bool) then Ok m
    else
      '(m, d, s, n) ← words_up m d s n;
      bytes_up m d s n
  else bytes_up m d s n.

(** [while ((d + n) % WS) { if (!n--) return dest; d[n] = s[n]; }] *)
Definition align_dest_down (m : mem) (d s n : Z) : outcome ((mem * Z) * bool) :=
  iter (S (S (Z.to_nat n))) (λ '(m, n),
    if testz ((d + n) mod WS) then
      if n =? 0 then Ok (inr ((m, n), true))
      else
        let n := n - 1 in
        Ok (inl (store8 m (d + n) (load8 m (s + n)), n))
    else Ok (inr ((m, n), false))) (m, n).

Definition words_down (m : mem) (d s n : Z) : outcome (mem * Z) :=
  iter (S (Z.to_nat n)) (λ '(m, n),
    if WS <=? n then
      let n := n - WS in
      v ← load32a m (s + n);
      m ← store32a m (d + n) v;
      Ok (inl (m, n))
    else Ok (inr (m, n))) (m, n).

(** [while (n) n--, d[n] = s[n]] *)
Definition bytes_down (m : mem) (d s n : Z) : outcome mem :=
  iter (S (Z.to_nat n)) (λ '(m, n),
    if testz n then
      let n := n - 1 in
      Ok (inl (store8 m (d + n) (load8 m (s + n)), n))
    else Ok (inr m)) (m, n).

Definition move_down (m : mem) (d s n : Z) : outcome mem :=
  if s mod WS =? d mod WS then
    '(x, ret) ← align_dest_down m d s n;
    let '(m, n) := x in
    if (ret : bool) then Ok m
    else
      '(m, n) ← words_down m d s n;
      bytes_down m d s n
  else bytes_down m d s n.

Definition memmove (m : mem) (dest src n : Z) : outcome (mem * Z) :=
  if dest =? src then Ok (m, dest)
  else if u32 (src - dest - n) <=? u32 (- 2 * n) then memcpy m dest src n
  else
    m ← (if dest <? src then move_up m dest src n else move_down m dest src n);
    Ok (m, dest).

Definition bcopy (m : mem) (s1 s2 n : Z) : outcome mem := '(m, _) ← memmove m s2 s1 n; Ok m.

End Memmove.
Import Memmove.
