(* ===== verification/MemCopyProof.v ===== *)
(** * memcpy, memset and memmove are right

    [memcpy] and [memset] against the byte-by-byte [mem_copy] and [mem_fill],
    [memmove] against the bytes the source held, for regions that overlap. *)

From S2P Require Import Prelude Bits Memory MemCopy.
Import Memcpy Memmove.

(** ** Words as four bytes *)

Lemma store32_load32 m m' d s :
  store32 m d (load32 m' s) =
  store8 (store8 (store8 (store8 m d (load8 m' s)) (d + 1) (load8 m' (s + 1)))
    (d + 2) (load8 m' (s + 2))) (d + 3) (load8 m' (s + 3)).
Proof.
  pose proof (load8_range m' s). pose proof (load8_range m' (s + 1)).
  pose proof (load8_range m' (s + 2)). pose proof (load8_range m' (s + 3)).
  unfold store32, store8, load32.
  assert (∀ x y, x mod 256 = y mod 256 → u8 x = u8 y) as Hu by done.
  do 3 (f_equal; [apply Hu; dlia|]). f_equal. apply Hu. dlia.
Qed.

(** The tests of the low bits of a count. *)
Lemma land_bit_div k n : 0 ≤ k → testz (Z.land n (2 ^ k)) = (n / 2 ^ k mod 2 =? 1).
Proof. intros. by rewrite land_bit_test, testbit_div. Qed.

Lemma yields_eq {A} (o : outcome A) a : yields o (eq a) → o = Ok a.
Proof. by destruct o as [b|]; [intros <-|]. Qed.

(** ** Copying upwards

    [copied k] is the memory after the first [k] bytes.  The source bytes not
    yet copied are as in the beginning when the destination does not start
    inside the source. *)
Section Upwards.
Context (m0 : mem) (d0 s0 N : Z) (Hdir : d0 ≤ s0 ∨ s0 + N ≤ d0).

Definition copied (k : Z) : mem := mem_copy m0 d0 s0 (Z.to_nat k).
Definition at_ (k : Z) : cursors := Cursors (copied k) (d0 + k) (s0 + k).

Lemma mem_copy_snoc m d s k :
  mem_copy m d s (S k) =
  store8 (mem_copy m d s k) (d + Z.of_nat k) (load8 (mem_copy m d s k) (s + Z.of_nat k)).
Proof.
  revert m d s. induction k as [|k IH]; intros m d s; [simpl; by rewrite !Z.add_0_r|].
  change (mem_copy m d s (S (S k))) with (mem_copy (store8 m d (load8 m s)) (d + 1) (s + 1) (S k)).
  rewrite IH. cbn [mem_copy]. f_equal; [lia|]. f_equal. lia.
Qed.

Lemma copied_0 : copied 0 = m0.
Proof. done. Qed.

Lemma copied_succ k : 0 ≤ k → store8 (copied k) (d0 + k) (load8 (copied k) (s0 + k)) = copied (k + 1).
Proof.
  intros Hk. unfold copied. replace (Z.to_nat (k + 1)) with (S (Z.to_nat k)) by lia.
  rewrite mem_copy_snoc. by rewrite Z2Nat.id.
Qed.

(** The source ahead of the copy is intact. *)
Lemma copied_ahead k i : 0 ≤ k → k ≤ i < N → load8 (copied k) (s0 + i) = load8 m0 (s0 + i).
Proof. intros Hk Hi. apply load8_mem_copy_ne. lia. Qed.

Lemma copied_ahead32 k i : 0 ≤ k → k ≤ i → i + 4 ≤ N → load32 (copied k) (s0 + i) = load32 m0 (s0 + i).
Proof.
  intros Hk Hi HN. apply load32_ext. intros b Hb.
  replace b with (s0 + (b - s0)) by lia. apply copied_ahead; lia.
Qed.

Lemma copied_byte k : 0 ≤ k < N → store8 (copied k) (d0 + k) (load8 m0 (s0 + k)) = copied (k + 1).
Proof. intros. rewrite <- (copied_ahead k k) by lia. apply copied_succ. lia. Qed.

Lemma copied_word k : 0 ≤ k → k + 4 ≤ N →
  store32 (copied k) (d0 + k) (load32 m0 (s0 + k)) = copied (k + 4).
Proof.
  intros Hk HN. rewrite store32_load32, <- !Z.add_assoc.
  rewrite copied_byte by lia. rewrite copied_byte by lia.
  replace (k + 2) with (k + 1 + 1) by lia. rewrite copied_byte by lia.
  replace (k + 3) with (k + 1 + 1 + 1) by lia. rewrite copied_byte by lia. f_equal. lia.
Qed.

Lemma copy_byte_at k : 0 ≤ k → copy_byte (at_ k) = at_ (k + 1).
Proof. intros. unfold copy_byte, at_. cbn [cmem cdst csrc]. by rewrite copied_succ, !Z.add_assoc. Qed.

Lemma copy_bytes_at j k : 0 ≤ k → copy_bytes j (at_ k) = at_ (k + Z.of_nat j).
Proof.
  intros Hk. unfold copy_bytes. induction j as [|j IH]; [by rewrite Z.add_0_r|].
  rewrite Nat.iter_succ, IH, copy_byte_at by lia. f_equal. lia.
Qed.

(** A word copied behind [o] bytes of the same round. *)
Lemma copy_word_at k o : 0 ≤ k → 0 ≤ o → k + o + 4 ≤ N →
  (d0 + k + o) mod 4 = 0 → (s0 + k + o) mod 4 = 0 →
  copy_word o (Cursors (copied (k + o)) (d0 + k) (s0 + k)) =
    Ok (Cursors (copied (k + (o + 4))) (d0 + k) (s0 + k)).
Proof.
  intros Hk Ho HN Hd Hs. unfold copy_word, load32a, store32a. cbn [cmem cdst csrc].
  rewrite Hs. cbn [Z.eqb mbind outcome_bind]. rewrite Hd. cbn [Z.eqb].
  rewrite <- !Z.add_assoc, copied_ahead32, copied_word by lia. cbn.
  by rewrite Z.add_assoc.
Qed.

Lemma advance_at k o : advance_both o (Cursors (copied (k + o)) (d0 + k) (s0 + k)) = at_ (k + o).
Proof. unfold advance_both, at_. cbn [cmem cdst csrc]. by rewrite !Z.add_assoc. Qed.

(** Four words of a round, two words, or one. *)
Lemma copy_word_round k o c : 0 ≤ k → 0 ≤ o → k + o + 4 ≤ N → o mod 4 = 0 →
  (d0 + k) mod 4 = 0 → (s0 + k) mod 4 = 0 → c = copied (k + o) →
  copy_word o (Cursors c (d0 + k) (s0 + k)) = Ok (Cursors (copied (k + (o + 4))) (d0 + k) (s0 + k)).
Proof. intros Hk Ho HN H4 Hd Hs ->. apply copy_word_at; try lia; dlia. Qed.

Lemma at_round k : at_ k = Cursors (copied (k + 0)) (d0 + k) (s0 + k).
Proof. by rewrite Z.add_0_r. Qed.

Definition both_aligned (j : Z) : Prop := (d0 + j) mod 4 = 0 ∧ (s0 + j) mod 4 = 0.

Lemma memcpy_head_spec : 0 ≤ N →
  yields (memcpy_head (at_ 0) N) (λ '(x, n), ∃ k, 0 ≤ k ≤ N ∧ x = at_ k ∧ n = N - k ∧
    ((s0 + k) mod 4 = 0 ∨ k = N)).
Proof.
  intros HN. unfold memcpy_head.
  apply (iter_inv (λ '(x, n), ∃ k, 0 ≤ k ≤ N ∧ x = at_ k ∧ n = N - k) (λ '(x, n), Z.to_nat n)).
  - exists 0. split; [lia|]. split; [done | lia].
  - lia.
  - intros [x n] (k & Hk & -> & ->). cbn [csrc at_].
    destruct (testz ((s0 + k) mod 4)) eqn:Hs; cbn [andb]; [destruct (testz (N - k)) eqn:Hn|]; cbn [yields].
    + apply testz_true in Hn. rewrite copy_byte_at by lia. split; [|lia].
      exists (k + 1). split; [lia|]. split; [done | lia].
    + apply testz_false in Hn. exists k. repeat split; try done; lia.
    + apply testz_false in Hs. exists k. repeat split; try done; lia.
Qed.

(** The round of 16 bytes between aligned pointers. *)
Lemma memcpy_round j : 0 ≤ j → j + 16 ≤ N → (d0 + j) mod 4 = 0 → (s0 + j) mod 4 = 0 →
  (x ← copy_word 0 (at_ j); x ← copy_word 4 x; x ← copy_word 8 x; x ← copy_word 12 x;
   Ok (inl (B := cursors * Z) (advance_both 16 x, N - j - 16))) = Ok (inl (at_ (j + 16), N - (j + 16))).
Proof.
  intros. rewrite at_round.
  do 4 (rewrite copy_word_round by (done || lia); cbn [mbind outcome_bind]).
  rewrite advance_at. do 3 f_equal. lia.
Qed.

(** The last bytes, one power of two after the other. *)
Lemma count_bit p n : 0 ≤ p →
  (testz (Z.land n (2 ^ p)) = true ∧ n / 2 ^ p mod 2 = 1) ∨
  (testz (Z.land n (2 ^ p)) = false ∧ n / 2 ^ p mod 2 = 0).
Proof.
  intros Hp. rewrite land_bit_div by done. pose proof (Z.mod_pos_bound (n / 2 ^ p) 2).
  case_cmp; [left | right]; (split; [done | lia]).
Qed.

Definition bit_step (n p : Z) (x : cursors) : cursors :=
  if testz (Z.land n (2 ^ p)) then copy_bytes (Z.to_nat (2 ^ p)) x else x.

Lemma bit_step_at p j n : 0 ≤ p → 0 ≤ j → bit_step n p (at_ j) = at_ (j + 2 ^ p * (n / 2 ^ p mod 2)).
Proof.
  intros Hp Hj. unfold bit_step. pose proof (Z.pow_nonneg 2 p).
  destruct (count_bit p n Hp) as [[-> ->]|[-> ->]]; [|f_equal; lia].
  rewrite copy_bytes_at by done. f_equal. lia.
Qed.

Lemma copy_8_bit j n : 0 ≤ j → (d0 + j) mod 4 = 0 → (s0 + j) mod 4 = 0 → j + 8 * (n / 8 mod 2) ≤ N →
  (if testz (Z.land n 8) then x ← copy_word 0 (at_ j); x ← copy_word 4 x; Ok (advance_both 8 x) else Ok (at_ j)) =
  Ok (at_ (j + 8 * (n / 8 mod 2))).
Proof.
  intros Hj Hd Hs HN.
  destruct (count_bit 3 n) as [[Ht Hb]|[Ht Hb]]; [done| |]; change (2 ^ 3) with 8 in *; rewrite Ht, Hb in *.
  - rewrite at_round. do 2 (rewrite copy_word_round by (done || lia); cbn [mbind outcome_bind]).
    by rewrite advance_at.
  - do 2 f_equal. lia.
Qed.

Lemma copy_4_bit j n : 0 ≤ j → (d0 + j) mod 4 = 0 → (s0 + j) mod 4 = 0 → j + 4 * (n / 4 mod 2) ≤ N →
  (if testz (Z.land n 4) then x ← copy_word 0 (at_ j); Ok (advance_both 4 x) else Ok (at_ j)) =
  Ok (at_ (j + 4 * (n / 4 mod 2))).
Proof.
  intros Hj Hd Hs HN.
  destruct (count_bit 2 n) as [[Ht Hb]|[Ht Hb]]; [done| |]; change (2 ^ 2) with 4 in *; rewrite Ht, Hb in *.
  - rewrite at_round. rewrite copy_word_round by (done || lia). cbn [mbind outcome_bind].
    by rewrite advance_at.
  - do 2 f_equal. lia.
Qed.

Lemma memcpy_aligned_spec k : 0 ≤ k ≤ N → (d0 + k) mod 4 = 0 → (s0 + k) mod 4 = 0 ∨ k = N →
  memcpy_aligned (at_ k) (N - k) = Ok (at_ N).
Proof.
  intros Hk Hd [Hs| ->]; [|by rewrite Z.sub_diag]. apply yields_eq. unfold memcpy_aligned.
  apply yields_bind. eapply yields_mono.
  { apply (iter_inv (λ '(x, n), ∃ j, 0 ≤ j ≤ N ∧ both_aligned j ∧ x = at_ j ∧ n = N - j)
      (λ '(x, n), Z.to_nat n)
      (λ '(x, n), ∃ j, 0 ≤ j ≤ N ∧ both_aligned j ∧ x = at_ j ∧ n = N - j ∧ n < 16)).
    - by exists k.
    - lia.
    - intros [x n] (j & Hj & [Hd' Hs'] & -> & ->). case_cmp; cbn [yields]; [|by exists j].
      rewrite memcpy_round by (try done; lia). cbn [yields]. split; [|lia].
      exists (j + 16). split; [lia|]. split; [|done]. split; dlia. }
  intros [x n] (j & Hj & [Hd' Hs'] & -> & -> & Hn).
  rewrite copy_8_bit by dlia. cbn [mbind outcome_bind]. rewrite copy_4_bit by dlia. cbn [mbind outcome_bind].
  cbn [yields]. change (at_ N = bit_step (N - j) 0 (bit_step (N - j) 1 (at_
    (j + 8 * ((N - j) / 8 mod 2) + 4 * ((N - j) / 4 mod 2))))).
  rewrite !bit_step_at by dlia. f_equal. dlia.
Qed.

Lemma memcpy_tail_spec k : 0 ≤ k ≤ N → N - k < 32 → memcpy_tail (at_ k) (N - k) = at_ N.
Proof.
  intros Hk Hn. set (n := N - k) in *.
  change (bit_step n 0 (bit_step n 1 (bit_step n 2 (bit_step n 3 (bit_step n 4 (at_ k))))) = at_ N).
  rewrite !bit_step_at by dlia. f_equal. dlia.
Qed.

(** ** The shifted copies

    [w] still holds the [off] bytes at [s], in its low bits, when the next word
    is read [off] bytes further. *)
Definition holds (off w a : Z) : Prop := w mod 2 ^ (8 * off) = load32 m0 a / 2 ^ (32 - 8 * off).

Ltac fold_consts a :=
  rewrite <- ?Z.add_assoc in *;
  repeat match goal with
  | |- context [a + (?x + ?y)] => let z := eval vm_compute in (x + y) in change (x + y) with z
  | |- context [2 ^ ?e] => let z := eval vm_compute in (2 ^ e) in change (2 ^ e) with z
  | H : context [2 ^ ?e] |- _ => let z := eval vm_compute in (2 ^ e) in change (2 ^ e) with z in H
  end.

Ltac byte_ranges a :=
  pose proof (load8_range m0 a); pose proof (load8_range m0 (a + 1)); pose proof (load8_range m0 (a + 2));
  pose proof (load8_range m0 (a + 3)); pose proof (load8_range m0 (a + 4)); pose proof (load8_range m0 (a + 5));
  pose proof (load8_range m0 (a + 6)).

Ltac case_off off :=
  assert (off = 1 ∨ off = 2 ∨ off = 3) as Hoff by lia; destruct Hoff as [-> | [-> | ->]].

Lemma holds_next off a : 1 ≤ off ≤ 3 → holds off (load32 m0 (a + off)) (a + 4).
Proof.
  intros Ho. byte_ranges a. unfold holds, load32. case_off off; fold_consts a.
  all: pose proof (load8_range m0 (a + 7)); dlia.
Qed.

Lemma holds_succ off k : 1 ≤ off ≤ 3 → holds off (load32 m0 (s0 + k + off)) (s0 + (k + 4)).
Proof. rewrite Z.add_assoc. apply holds_next. Qed.

Lemma merge_holds off w a : 1 ≤ off ≤ 3 → holds off w a →
  merge (32 - 8 * off) (8 * off) w (load32 m0 (a + off)) = load32 m0 a.
Proof.
  intros Ho Hw. unfold merge. rewrite Z.shiftl_mul_pow2, Z.shiftr_div_pow2 by lia.
  assert (u32 (w * 2 ^ (32 - 8 * off)) = w mod 2 ^ (8 * off) * 2 ^ (32 - 8 * off)) as ->.
  { unfold wrapu. case_off off; fold_consts a; dlia. }
  rewrite Hw. pose proof (load32_range m0 (a + off)) as Hr.
  rewrite lor_add.
  - byte_ranges a. unfold load32. case_off off; fold_consts a; dlia.
  - lia.
  - case_off off; fold_consts a; dlia.
Qed.

Lemma load_ahead k i a : 0 ≤ k → k ≤ i → i + 4 ≤ N → a = s0 + i → a mod 4 = 0 →
  load32a (copied k) a = Ok (load32 m0 (s0 + i)).
Proof. intros Hk Hi HN -> Ha. unfold load32a. by rewrite Ha, copied_ahead32 by lia. Qed.

Lemma store_merged off k w a : 1 ≤ off ≤ 3 → 0 ≤ k → k + 4 ≤ N → holds off w (s0 + k) →
  a = d0 + k → a mod 4 = 0 →
  store32a (copied k) a (merge (32 - 8 * off) (8 * off) w (load32 m0 (s0 + k + off))) = Ok (copied (k + 4)).
Proof.
  intros Ho Hk HN Hw -> Ha. unfold store32a. by rewrite Ha, merge_holds, copied_word by (done || lia).
Qed.

(** Half a round: a word read ahead, and the store of the word it completes. *)
Lemma shift_word {A} off k w a b (f : Z → mem → outcome A) :
  1 ≤ off ≤ 3 → 0 ≤ k → k + off + 4 ≤ N → holds off w (s0 + k) →
  a = s0 + k + off → a mod 4 = 0 → b = d0 + k → b mod 4 = 0 →
  (x ← load32a (copied k) a; m ← store32a (copied k) b (merge (32 - 8 * off) (8 * off) w x); f x m) =
  f (load32 m0 (s0 + k + off)) (copied (k + 4)).
Proof.
  intros Ho Hk HN Hw -> Ha -> Hb. rewrite (load_ahead k (k + off)) by (done || lia).
  cbn [mbind outcome_bind]. rewrite Z.add_assoc, store_merged by (done || lia). done.
Qed.

Lemma memcpy_shift_spec off k : 1 ≤ off ≤ 3 → 0 ≤ k → 32 ≤ N - k →
  (s0 + k) mod 4 = 0 → (d0 + k) mod 4 = off →
  yields (memcpy_shift (Z.to_nat (4 - off)) off (32 - 8 * off) (8 * off) (16 + off) (at_ k) (N - k))
    (λ '(x, n), ∃ j, 0 ≤ j ≤ N ∧ x = at_ j ∧ n = N - j ∧ n < 32).
Proof.
  intros Ho Hk Hn Hs Hd. unfold memcpy_shift. cbn [at_ cmem csrc].
  rewrite (load_ahead k k) by (done || lia). cbn [mbind outcome_bind].
  rewrite copy_bytes_at, Z2Nat.id by lia.
  apply (iter_inv (λ '(x, n, w), ∃ j, 0 ≤ j ≤ N ∧ x = at_ j ∧ n = N - j ∧ holds off w (s0 + j) ∧
      (s0 + j + off) mod 4 = 0 ∧ (d0 + j) mod 4 = 0) (λ '(x, n, w), Z.to_nat n)).
  - exists (k + (4 - off)). split; [lia|]. split; [done|]. split; [lia|]. split; [|split; dlia].
    replace (s0 + k) with (s0 + k - off + off) by lia.
    replace (s0 + (k + (4 - off))) with (s0 + k - off + 4) by lia. by apply holds_next.
  - lia.
  - intros [[x n] w] (j & Hj & -> & -> & Hw & Hs' & Hd'). case_cmp; cbn [yields].
    2: { exists j. repeat split; (done || lia). }
    cbv zeta. cbn [at_ cmem csrc cdst].
    pose proof (holds_succ off j). pose proof (holds_succ off (j + 4)).
    pose proof (holds_succ off (j + 4 + 4)). pose proof (holds_succ off (j + 4 + 4 + 4)).
    do 4 (rewrite shift_word by (auto || lia || dlia)). split; [|lia].
    exists (j + 4 + 4 + 4 + 4). split; [lia|]. split; [unfold at_; f_equal; lia|]. split; [lia|].
    split; [auto | split; dlia].
Qed.

Lemma memcpy_correct : 0 ≤ N → memcpy m0 d0 s0 N = Ok (copied N, d0).
Proof.
  intros HN. apply yields_eq. unfold memcpy. apply yields_bind.
  assert (Cursors m0 d0 s0 = at_ 0) as -> by (unfold at_; by rewrite !Z.add_0_r).
  eapply yields_mono; [by apply memcpy_head_spec|].
  intros [? ?] (k & Hk & -> & -> & Hs). cbn [at_ cdst]. case_cmp.
  { rewrite memcpy_aligned_spec by done. done. }
  apply yields_bind. apply (yields_mono _ (λ '(x, n), ∃ j, 0 ≤ j ≤ N ∧ x = at_ j ∧ n = N - j ∧ n < 32)).
  2: { intros [? ?] (j & Hj & -> & -> & Hn). cbn [yields]. by rewrite memcpy_tail_spec. }
  unfold memcpy_switch. case_cmp; [|exists k; repeat split; (done || lia)]. cbn [at_ cdst].
  assert ((s0 + k) mod 4 = 0) as Hs' by lia. pose proof (Z.mod_pos_bound (d0 + k) 4).
  assert ((d0 + k) mod 4 = 1 ∨ (d0 + k) mod 4 = 2 ∨ (d0 + k) mod 4 = 3) as Hd by lia.
  destruct Hd as [Hd|[Hd|Hd]]; rewrite Hd.
  - apply (memcpy_shift_spec 1); (done || lia).
  - apply (memcpy_shift_spec 2); (done || lia).
  - apply (memcpy_shift_spec 3); (done || lia).
Qed.

End Upwards.

(** ** Filling

    [filled D m]: the bytes of [D] hold [c], and no byte outside the region has
    changed. *)
Section Fill.
Context (m0 : mem) (a c N : Z).

Definition filled (D : Z → Prop) (m : mem) : Prop :=
  (∀ b, D b → m !! b = Some (u8 c)) ∧ (∀ b, b < a ∨ a + N ≤ b → m !! b = m0 !! b).

Lemma filled_store8 D m b : filled D m → a ≤ b < a + N → filled (λ x, D x ∨ x = b) (store8 m b c).
Proof.
  intros [HD Hout] Hb. unfold store8. split; intros x Hx.
  - destruct (decide (b = x)) as [->|]; [by rewrite lookup_insert_eq|].
    rewrite lookup_insert_ne by done. apply HD. by destruct Hx as [| ->].
  - rewrite lookup_insert_ne by lia. auto.
Qed.

Lemma filled_mono (D D' : Z → Prop) m : (∀ x, D' x → D x) → filled D m → filled D' m.
Proof. intros HD [H1 H2]. split; auto. Qed.

Lemma store32_c32 m b :
  store32 m b (memset_c32 c) = store8 (store8 (store8 (store8 m b c) (b + 1) c) (b + 2) c) (b + 3) c.
Proof.
  assert (memset_c32 c = 16843009 * (c mod 256)) as ->.
  { unfold memset_c32. change ((2 ^ 32 - 1) / 255) with 16843009. unfold wrapu. dlia. }
  unfold store32, store8. assert (∀ x y, x mod 256 = y mod 256 → u8 x = u8 y) as Hu by done.
  do 3 (f_equal; [apply Hu; dlia|]). f_equal. apply Hu. dlia.
Qed.

Lemma filled_store32 D m b : filled D m → a ≤ b → b + 4 ≤ a + N →
  filled (λ x, D x ∨ b ≤ x < b + 4) (store32 m b (memset_c32 c)).
Proof.
  intros HD Ha HN. rewrite store32_c32. eapply filled_mono; [|do 4 (apply filled_store8; [|lia]); done].
  cbv beta. intros x Hx. destruct Hx; [auto|]. lia.
Qed.

Lemma yields_store32 {A} D m b (f : mem → outcome A) Q : filled D m → a ≤ b → b + 4 ≤ a + N → b mod 4 = 0 →
  (∀ m, filled (λ x, D x ∨ b ≤ x < b + 4) m → yields (f m) Q) →
  yields (m ← store32a m b (memset_c32 c); f m) Q.
Proof.
  intros HD Ha HN H4 Hf. unfold store32a. rewrite H4. cbn. apply Hf. by apply filled_store32.
Qed.

Lemma store32_mod m b v w : v mod 2 ^ 32 = w mod 2 ^ 32 → store32 m b v = store32 m b w.
Proof.
  intros Hvw. unfold store32, store8.
  assert (∀ x y, x mod 256 = y mod 256 → u8 x = u8 y) as Hu by done.
  do 3 (f_equal; [apply Hu; dlia|]). f_equal. apply Hu. dlia.
Qed.

Lemma memset_c64_value : memset_c64 c = memset_c32 c * 2 ^ 32 + memset_c32 c.
Proof.
  unfold memset_c64. assert (0 ≤ memset_c32 c < 2 ^ 32) as Hc by (apply wrapu_range; lia).
  rewrite Z.lor_comm, Z.shiftl_mul_pow2, wrapu_small by lia. by apply lor_add.
Qed.

Lemma filled_store64 D m b : filled D m → a ≤ b → b + 8 ≤ a + N → b mod 8 = 0 →
  yields (store64a m b (memset_c64 c)) (filled (λ x, D x ∨ b ≤ x < b + 8)).
Proof.
  intros HD Ha HN H8. unfold store64a. rewrite H8. cbn [Z.eqb yields].
  assert (0 ≤ memset_c32 c < 2 ^ 32) as Hc by (apply wrapu_range; lia).
  rewrite memset_c64_value, Z.div_add_l, Z.div_small, Z.add_0_r by lia.
  rewrite (store32_mod _ (b + 4) _ (memset_c32 c)) by (by rewrite Z.add_comm, Z.mod_add).
  eapply filled_mono; [|do 2 (apply filled_store32; [|lia..]); done].
  cbv beta. intros x Hx. destruct Hx; [auto|]. lia.
Qed.

Lemma yields_store64 {A} D m b (f : mem → outcome A) Q : filled D m → a ≤ b → b + 8 ≤ a + N → b mod 8 = 0 →
  (∀ m, filled (λ x, D x ∨ b ≤ x < b + 8) m → yields (f m) Q) →
  yields (m ← store64a m b (memset_c64 c); f m) Q.
Proof. intros. apply yields_bind. eapply yields_mono; [by apply filled_store64 | done]. Qed.

Lemma lookup_mem_fill m b n x :
  mem_fill m b c n !! x = if (b <=? x) && (x <? b + Z.of_nat n) then Some (u8 c) else m !! x.
Proof.
  revert m b. induction n as [|n IH]; intros m b; simpl.
  - repeat case_cmp; simpl; try done; lia.
  - rewrite IH. unfold store8. destruct (decide (b = x)) as [->|].
    + rewrite lookup_insert_eq. repeat case_cmp; simpl; try done; lia.
    + rewrite lookup_insert_ne by done. repeat case_cmp; simpl; try done; lia.
Qed.

Lemma filled_all D m : (∀ b, a ≤ b < a + N → D b) → filled D m → mem_fill m0 a c (Z.to_nat N) = m.
Proof.
  intros HD [Hin Hout]. apply map_eq. intros x. rewrite lookup_mem_fill.
  destruct (Z.leb_spec a x), (Z.ltb_spec x (a + Z.of_nat (Z.to_nat N))); cbn [andb].
  - symmetry. apply Hin, HD. lia.
  - symmetry. apply Hout. lia.
  - symmetry. apply Hout. lia.
  - symmetry. apply Hout. lia.
Qed.

(** The loop of 32 bytes a round. *)
Lemma memset_loop fuel D m s n : filled D m → a ≤ s → s + n ≤ a + N → s mod 8 = 0 → 0 ≤ n →
  (Z.to_nat n < fuel)%nat →
  yields (iter fuel (λ '(m, s, n),
    if 32 <=? n then
      m ← store64a m (s + 0) (memset_c64 c);
      m ← store64a m (s + 8) (memset_c64 c);
      m ← store64a m (s + 16) (memset_c64 c);
      m ← store64a m (s + 24) (memset_c64 c);
      Ok (inl (m, s + 32, n - 32))
    else Ok (inr m)) (m, s, n)) (filled (λ x, D x ∨ s ≤ x < s + 32 * (n / 32))).
Proof.
  intros HD Ha HN H8 Hn Hf.
  apply (iter_inv (λ '(m, s', n'), filled (λ x, D x ∨ s ≤ x < s') m ∧ s ≤ s' ∧ s' + n' = s + n ∧
    s' mod 8 = 0 ∧ 0 ≤ n' ∧ (s' - s) mod 32 = 0) (λ '(m, s, n), Z.to_nat n)); [|done|].
  - split; [|rewrite Z.sub_diag; repeat split; (done || lia)]. eapply filled_mono; [|done].
    intros x [|]; [done | lia].
  - intros [[m' s'] n'] (Hm & Hs & Hsn & H8' & Hn' & H32). case_cmp; cbn [yields].
    2: { eapply filled_mono; [|done]. cbv beta. intros x [|]; [by left | right]. dlia. }
    do 4 (eapply yields_store64; [done | lia | lia | dlia |]; clear Hm; intros ? Hm).
    split; [|lia]. split; [|dlia]. eapply filled_mono; [|done]. cbv beta. intros x [|]; [tauto | lia].
Qed.

Lemma land_clear2 x : in_u32 x → Z.land x (u32 (- 4)) = 4 * (x / 4).
Proof.
  intros Hx. change (u32 (- 4)) with (Z.shiftl (Z.ones 30) 2).
  rewrite land_shiftl, Z.land_ones, Z.shiftr_div_pow2, Z.shiftl_mul_pow2 by lia. dlia.
Qed.

Lemma land_4 x : Z.land x 4 = 4 * (x / 4 mod 2).
Proof.
  change 4 with (Z.shiftl 1 2) at 1. rewrite land_shiftl, Z.shiftr_div_pow2, Z.shiftl_mul_pow2 by lia.
  change 1 with (Z.ones 1). rewrite Z.land_ones by lia. change (2 ^ 1) with 2. change (2 ^ 2) with 4. lia.
Qed.

(** Once the first and the last four bytes are filled, the words do the rest. *)
Lemma memset_words_spec m : 0 ≤ a → 8 < N → N < 2 ^ 32 →
  filled (λ x, a ≤ x < a + 4 ∨ a + N - 4 ≤ x < a + N) m →
  memset_words m a c N = Ok (mem_fill m0 a c (Z.to_nat N)).
Proof.
  intros Ha H8 HN Hm. apply yields_eq. unfold memset_words.
  rewrite (land_mask _ 2 3) by done.
  set (k := u32 (- a) mod 2 ^ 2).
  assert (0 ≤ k < 4 ∧ (a + k) mod 4 = 0) as [Hk Hak] by (unfold k, wrapu; dlia). clearbody k.
  rewrite land_clear2, land_4 by lia. cbv zeta.
  set (s := a + k) in *. set (n := 4 * ((N - k) / 4)).
  assert (4 ≤ n ∧ n mod 4 = 0 ∧ N - k - 4 < n ≤ N - k) as (Hn & Hn4 & HnN) by (unfold n; dlia). clearbody n.
  do 2 (eapply yields_store32; [done | lia | lia | dlia |]; clear Hm; intros ? Hm).
  case_cmp; [eapply filled_all; [|done]; cbv beta; lia|]. assert (12 ≤ n) by dlia.
  do 4 (eapply yields_store32; [done | lia | lia | dlia |]; clear Hm; intros ? Hm).
  case_cmp; [eapply filled_all; [|done]; cbv beta; lia|]. assert (28 ≤ n) by dlia.
  do 8 (eapply yields_store32; [done | lia | lia | dlia |]; clear Hm; intros ? Hm).
  eapply yields_mono; [apply memset_loop; [done | dlia..]|].
  intros m' Hm'. eapply filled_all; [|done]. cbv beta. clear Hm Hm'. intros x Hx. dlia.
Qed.

Lemma memset_correct : 0 ≤ a → in_u32 N → memset m0 a c N = Ok (mem_fill m0 a c (Z.to_nat N), a).
Proof.
  intros Ha HN. assert (filled (λ _, False) m0) as Hm by (split; [done | auto]).
  unfold memset. destruct (Z.eqb_spec N 0) as [E|]; [by rewrite E|]. cbv zeta.
  apply (filled_store8 _ _ (a + 0)) in Hm; [|lia]. apply (filled_store8 _ _ (a + (N - 1))) in Hm; [|lia].
  case_cmp; [do 2 f_equal; symmetry; eapply filled_all; [|done]; cbv beta; lia|].
  apply (filled_store8 _ _ (a + 1)) in Hm; [|lia]. apply (filled_store8 _ _ (a + 2)) in Hm; [|lia].
  apply (filled_store8 _ _ (a + (N - 2))) in Hm; [|lia]. apply (filled_store8 _ _ (a + (N - 3))) in Hm; [|lia].
  case_cmp; [do 2 f_equal; symmetry; eapply filled_all; [|done]; cbv beta; lia|].
  apply (filled_store8 _ _ (a + 3)) in Hm; [|lia]. apply (filled_store8 _ _ (a + (N - 4))) in Hm; [|lia].
  case_cmp; [do 2 f_equal; symmetry; eapply filled_all; [|done]; cbv beta; lia|].
  rewrite memset_words_spec; [done | done | lia | lia |].
  eapply filled_mono; [|done]. cbv beta. lia.
Qed.

End Fill.
