(* ===== verification/MemMoveProof.v ===== *)
(** * memmove, and the claims on copying and filling memory *)

From S2P Require Import Prelude Bits Memory MemCopy MemCopyProof.
Import Memcpy Memmove.

(** The bytes at [d] are those that were at [s], and no other byte changed. *)
Definition moved (m m' : mem) (d s n : Z) : Prop :=
  (∀ i, 0 ≤ i < n → load8 m' (d + i) = load8 m (s + i)) ∧
  (∀ b, b < d ∨ d + n ≤ b → load8 m' b = load8 m b).

(** ** Upwards *)
Section MoveUp.
Context (m0 : mem) (d0 s0 N : Z) (Hdir : d0 ≤ s0 ∨ s0 + N ≤ d0) (HN : 0 ≤ N).

#[local] Abbreviation copied := (copied m0 d0 s0).

Lemma copied_moved : moved m0 (copied N) d0 s0 N.
Proof.
  assert (∀ k : nat, Z.of_nat k ≤ N → moved m0 (copied (Z.of_nat k)) d0 s0 (Z.of_nat k)) as Hk.
  { induction k as [|k IH]; intros Hk; [split; [lia | done]|].
    destruct IH as [Hin Hout]; [lia|]. replace (Z.of_nat (S k)) with (Z.of_nat k + 1) by lia.
    rewrite <- (copied_byte m0 d0 s0 N) by (done || lia). split.
    - intros i Hi. rewrite load8_store8. case_decide.
      + replace i with (Z.of_nat k) by lia. apply wrapu_small, load8_range.
      + apply Hin. lia.
    - intros b Hb. rewrite load8_store8_ne by lia. apply Hout. lia. }
  specialize (Hk (Z.to_nat N)). rewrite Z2Nat.id in Hk by done. apply Hk. lia.
Qed.

(** The variables of the loops after [k] bytes. *)
Definition vars (k : Z) : mem * Z * Z * Z := (copied k, d0 + k, s0 + k, N - k).

Lemma vars_byte k : 0 ≤ k →
  (store8 (copied k) (d0 + k) (load8 (copied k) (s0 + k)), d0 + k + 1, s0 + k + 1, N - k - 1) = vars (k + 1).
Proof. intros. unfold vars. rewrite copied_succ by lia. f_equal; [f_equal; [f_equal; lia | lia] | lia]. Qed.

Lemma align_up_spec : yields (align_dest_up m0 d0 s0 N) (λ '(x, ret),
  ∃ k, 0 ≤ k ≤ N ∧ x = vars k ∧ (if (ret : bool) then k = N else (d0 + k) mod 4 = 0)).
Proof.
  unfold align_dest_up.
  apply (iter_inv (λ x, ∃ k, 0 ≤ k ≤ N ∧ x = vars k) (λ '(_, _, _, n), Z.to_nat n)).
  - exists 0. split; [lia|]. unfold vars. by rewrite !Z.add_0_r, Z.sub_0_r.
  - lia.
  - intros x (k & Hk & ->). unfold vars at 1. change WS with 4.
    destruct (testz ((d0 + k) mod 4)) eqn:Ht; [case_cmp|]; cbn [yields].
    + exists k. repeat split; lia.
    + rewrite vars_byte by lia. split; [|unfold vars; lia]. exists (k + 1). split; [lia | done].
    + apply testz_false in Ht. exists k. done.
Qed.

Lemma words_up_spec k : 0 ≤ k ≤ N → (d0 + k) mod 4 = 0 → (s0 + k) mod 4 = 0 →
  yields (words_up (copied k) (d0 + k) (s0 + k) (N - k)) (λ x, ∃ j, 0 ≤ j ≤ N ∧ x = vars j).
Proof.
  intros Hk Hd Hs. unfold words_up.
  apply (iter_inv (λ x, ∃ j, 0 ≤ j ≤ N ∧ x = vars j ∧ (d0 + j) mod 4 = 0 ∧ (s0 + j) mod 4 = 0)
    (λ '(_, _, _, n), Z.to_nat n)).
  - by exists k.
  - lia.
  - intros x (j & Hj & -> & Hd' & Hs'). unfold vars at 1. change WS with 4.
    case_cmp; cbn [yields]; [|by exists j].
    rewrite (load_ahead m0 d0 s0 N Hdir j j) by (done || lia). cbn [mbind outcome_bind].
    unfold store32a. rewrite Hd'. cbn [Z.eqb mbind outcome_bind yields].
    rewrite (copied_word m0 d0 s0 N) by (done || lia). split; [|unfold vars; lia].
    exists (j + 4). unfold vars. split; [lia|]. split; [|split; dlia].
    f_equal; [f_equal; [f_equal; lia | lia] | lia].
Qed.

Lemma bytes_up_spec k : 0 ≤ k ≤ N →
  yields (bytes_up (copied k) (d0 + k) (s0 + k) (N - k)) (eq (copied N)).
Proof.
  intros Hk. unfold bytes_up.
  apply (iter_inv (λ x, ∃ j, 0 ≤ j ≤ N ∧ x = vars j) (λ '(_, _, _, n), Z.to_nat n)).
  - by exists k.
  - lia.
  - intros x (j & Hj & ->). unfold vars at 1. destruct (testz (N - j)) eqn:Ht; cbn [yields].
    + apply testz_true in Ht. rewrite vars_byte by lia. split; [|unfold vars; lia]. exists (j + 1). split; [lia | done].
    + apply testz_false in Ht. f_equal. lia.
Qed.

Lemma move_up_spec : yields (move_up m0 d0 s0 N) (eq (copied N)).
Proof.
  unfold move_up. change WS with 4. case_cmp.
  - apply yields_bind. eapply yields_mono; [apply align_up_spec|].
    intros [x ret] (k & Hk & -> & Hret). unfold vars. destruct ret; [by rewrite Hret|].
    apply yields_bind. eapply yields_mono; [apply words_up_spec; [done | done | dlia]|].
    intros x (j & Hj & ->). unfold vars. by apply bytes_up_spec.
  - pose proof (bytes_up_spec 0) as Hb. rewrite !Z.add_0_r, Z.sub_0_r in Hb. apply Hb. lia.
Qed.

End MoveUp.

(** ** Downwards *)
Section MoveDown.
Context (m0 : mem) (d0 s0 N : Z) (Hdir : s0 ≤ d0) (HN : 0 ≤ N).

(** The bytes from [k] on have been moved. *)
Definition lowered (k : Z) (m : mem) : Prop := moved m0 m (d0 + k) (s0 + k) (N - k).

Lemma lowered_byte k m : 0 ≤ k < N → lowered (k + 1) m →
  lowered k (store8 m (d0 + k) (load8 m (s0 + k))).
Proof.
  intros Hk [Hin Hout]. split.
  - intros i Hi. rewrite load8_store8. case_decide as E.
    + replace i with 0 by lia. rewrite Z.add_0_r, Hout by lia. apply wrapu_small, load8_range.
    + replace (d0 + k + i) with (d0 + (k + 1) + (i - 1)) by lia.
      replace (s0 + k + i) with (s0 + (k + 1) + (i - 1)) by lia. apply Hin. lia.
  - intros b Hb. rewrite load8_store8_ne by lia. apply Hout. lia.
Qed.

(** A word is four bytes, stored after all of them were read. *)
Lemma load8_store32_load32 m m' d s i : 0 ≤ i < 4 →
  load8 (store32 m d (load32 m' s)) (d + i) = load8 m' (s + i).
Proof.
  intros Hi. rewrite store32_load32. pose proof (λ b, wrapu_small 8 _ (load8_range m' b)) as Hr.
  assert (i = 0 ∨ i = 1 ∨ i = 2 ∨ i = 3) as Hc by lia.
  destruct Hc as [-> | [-> | [-> | ->]]]; repeat (rewrite load8_store8; case_decide; try lia);
    rewrite ?Z.add_0_r; apply Hr.
Qed.

Lemma lowered_word k m : 0 ≤ k → k + 4 ≤ N → lowered (k + 4) m →
  lowered k (store32 m (d0 + k) (load32 m (s0 + k))).
Proof.
  intros Hk HkN [Hin Hout]. split.
  - intros i Hi. destruct (decide (i < 4)).
    + rewrite load8_store32_load32 by lia. apply Hout. lia.
    + rewrite load8_store32_ne by lia.
      replace (d0 + k + i) with (d0 + (k + 4) + (i - 4)) by lia.
      replace (s0 + k + i) with (s0 + (k + 4) + (i - 4)) by lia. apply Hin. lia.
  - intros b Hb. rewrite load8_store32_ne by lia. apply Hout. lia.
Qed.

Lemma lowered_N : lowered N m0.
Proof. split; [lia | done]. Qed.

Lemma align_down_spec : yields (align_dest_down m0 d0 s0 N) (λ '(x, ret),
  lowered x.2 x.1 ∧ 0 ≤ x.2 ≤ N ∧ if (ret : bool) then x.2 = 0 else (d0 + x.2) mod 4 = 0).
Proof.
  unfold align_dest_down.
  apply (iter_inv (λ '(m, n), lowered n m ∧ 0 ≤ n ≤ N) (λ '(m, n), Z.to_nat n)).
  - split; [apply lowered_N | lia].
  - lia.
  - intros [m n] [Hm Hn]. change WS with 4.
    destruct (testz ((d0 + n) mod 4)) eqn:Ht; [case_cmp|]; cbn [yields fst snd].
    + split; [done | lia].
    + split; [split; [|lia] | lia]. apply lowered_byte; [lia|]. by rewrite Z.sub_add.
    + apply testz_false in Ht. done.
Qed.

Lemma words_down_spec m n : lowered n m → 0 ≤ n ≤ N → (d0 + n) mod 4 = 0 → (s0 + n) mod 4 = 0 →
  yields (words_down m d0 s0 n) (λ '(m, n), lowered n m ∧ 0 ≤ n ≤ N).
Proof.
  intros Hm Hn Hd Hs. unfold words_down.
  apply (iter_inv (λ '(m, n), lowered n m ∧ 0 ≤ n ≤ N ∧ (d0 + n) mod 4 = 0 ∧ (s0 + n) mod 4 = 0)
    (λ '(m, n), Z.to_nat n)); [done | lia |].
  intros [m' n'] (Hm' & Hn' & Hd' & Hs'). change WS with 4. case_cmp; cbn [yields]; [|done].
  unfold load32a, store32a. replace ((s0 + (n' - 4)) mod 4) with 0 by dlia. cbn [Z.eqb mbind outcome_bind].
  replace ((d0 + (n' - 4)) mod 4) with 0 by dlia. cbn [Z.eqb mbind outcome_bind yields].
  split; [|lia]. split; [|split; [lia | split; dlia]].
  apply lowered_word; [lia | lia |]. by rewrite Z.sub_add.
Qed.

Lemma bytes_down_spec m n : lowered n m → 0 ≤ n ≤ N → yields (bytes_down m d0 s0 n) (lowered 0).
Proof.
  intros Hm Hn. unfold bytes_down.
  apply (iter_inv (λ '(m, n), lowered n m ∧ 0 ≤ n ≤ N) (λ '(m, n), Z.to_nat n)); [done | lia |].
  intros [m' n'] [Hm' Hn']. destruct (testz n') eqn:Ht; cbn [yields].
  - apply testz_true in Ht. split; [split; [|lia] | lia]. apply lowered_byte; [lia|]. by rewrite Z.sub_add.
  - apply testz_false in Ht. by subst.
Qed.

Lemma move_down_spec : yields (move_down m0 d0 s0 N) (λ m, moved m0 m d0 s0 N).
Proof.
  assert (∀ m, lowered 0 m → moved m0 m d0 s0 N) as H0.
  { intros m. unfold lowered. by rewrite !Z.add_0_r, Z.sub_0_r. }
  unfold move_down. change WS with 4. case_cmp.
  - apply yields_bind. eapply yields_mono; [apply align_down_spec|].
    intros [[m n] ret] (Hm & Hn & Hret). cbn [fst snd] in *. destruct ret; [subst; by apply H0|].
    apply yields_bind. eapply yields_mono; [apply words_down_spec; [done | done | done | dlia]|].
    intros [m' n'] [Hm' Hn']. eapply yields_mono; [by apply bytes_down_spec | done].
  - eapply yields_mono; [apply bytes_down_spec; [apply lowered_N | lia] | done].
Qed.

End MoveDown.

(** The unsigned comparison of [memmove] detects that the regions are disjoint. *)
Lemma memmove_test d s n : 0 ≤ d → 0 ≤ s → d + n ≤ 2 ^ 32 → s + n ≤ 2 ^ 32 → 0 ≤ n ≤ 2 ^ 31 →
  u32 (s - d - n) <= u32 (- 2 * n) → d + n ≤ s ∨ s + n ≤ d.
Proof. intros. unfold wrapu in *. dlia. Qed.

Lemma memmove_correct m d s n : 0 ≤ d → 0 ≤ s → d + n ≤ 2 ^ 32 → s + n ≤ 2 ^ 32 → 0 ≤ n ≤ 2 ^ 31 →
  yields (memmove m d s n) (λ '(m', p), p = d ∧ moved m m' d s n).
Proof.
  intros Hd Hs Hdn Hsn Hn. unfold memmove.
  destruct (Z.eqb_spec d s) as [->|Hne]; [by split; [|split]|].
  destruct (Z.leb_spec (u32 (s - d - n)) (u32 (- 2 * n))) as [Ht|].
  - apply memmove_test in Ht; [|done..]. rewrite memcpy_correct by lia. split; [done|].
    apply copied_moved; lia.
  - destruct (Z.ltb_spec d s); apply yields_bind.
    + eapply yields_mono; [apply move_up_spec; lia|]. intros m' <-. split; [done|]. apply copied_moved; lia.
    + eapply yields_mono; [apply move_down_spec; lia | done].
Qed.

(** ** Claims *)

(** C11: [memcpy] with any alignment of the two pointers returns its first
    argument and leaves the memory that copying the bytes one by one from the
    first to the last leaves, never reading or writing a word at an address that
    is not a multiple of four.  The regions may be disjoint, or overlap with the
    destination below the source. *)
Theorem memcpy_is_mem_copy m d s n : 0 ≤ n → d ≤ s ∨ s + n ≤ d →
  memcpy m d s n = Ok (mem_copy m d s (Z.to_nat n), d).
Proof. intros. by apply memcpy_correct. Qed.

(** 45 bytes from 0x1003 to 0x2001: three bytes, two shifted rounds, the rest. *)
Definition demo_src : mem := list_to_map (imap (λ i b, (4099 + Z.of_nat i, b)) (Z.of_nat <$> seq 1 45)).

Lemma memcpy_is_mem_copy_witness :
  ∃ m', memcpy demo_src 8193 4099 45 = Ok (m', 8193) ∧ load8 m' 8193 = 1 ∧ load8 m' 8237 = 45.
Proof.
  exists (mem_copy demo_src 8193 4099 (Z.to_nat 45)). split.
  - apply (memcpy_is_mem_copy demo_src 8193 4099 45); [lia | right; lia].
  - vm_compute. done.
Defined.

(** C13: [memset] returns its first argument and leaves exactly the [n] bytes at
    it set to the value converted to [uint8_t], whatever the alignment; its
    word stores are aligned. *)
Theorem memset_is_mem_fill m s c n : 0 ≤ s → in_u32 n →
  memset m s c n = Ok (mem_fill m s c (Z.to_nat n), s).
Proof. apply memset_correct. Qed.

Lemma memset_is_mem_fill_witness :
  ∃ m', memset demo_src 4098 (-1) 200 = Ok (m', 4098) ∧ load8 m' 4297 = 255 ∧ load8 m' 4298 = load8 demo_src 4298.
Proof.
  exists (mem_fill demo_src 4098 (-1) (Z.to_nat 200)). split.
  - apply (memset_is_mem_fill demo_src 4098 (-1) 200); lia.
  - vm_compute. done.
Defined.

(** C12: [memmove] of up to 2^31 bytes inside the address space returns its first
    argument, puts at the destination the bytes the source held before the call,
    however the two regions overlap, and changes no other byte. *)
Theorem memmove_moves m d s n : 0 ≤ d → 0 ≤ s → d + n ≤ 2 ^ 32 → s + n ≤ 2 ^ 32 → 0 ≤ n ≤ 2 ^ 31 →
  ∃ m', memmove m d s n = Ok (m', d) ∧
    (∀ i, 0 ≤ i < n → load8 m' (d + i) = load8 m (s + i)) ∧
    (∀ b, b < d ∨ d + n ≤ b → load8 m' b = load8 m b).
Proof.
  intros Hd Hs Hdn Hsn Hn. pose proof (memmove_correct m d s n Hd Hs Hdn Hsn Hn) as Hm.
  apply yields_Ok in Hm. destruct Hm as ([m' p] & E & -> & Hin & Hout). by exists m'.
Qed.

(** The 45 bytes moved up by four, over themselves. *)
Lemma memmove_moves_witness :
  ∃ m', memmove demo_src 4103 4099 45 = Ok (m', 4103) ∧ load8 m' (4103 + 44) = load8 demo_src (4099 + 44).
Proof.
  destruct (memmove_moves demo_src 4103 4099 45) as (m' & E & Hin & _); [lia..|].
  exists m'. split; [exact E | apply Hin; lia].
Defined.
