(* ===== verification/CStr.v ===== *)
(** * Strings (lib/string)

    The functions on zero-terminated strings, with the scans a word at a time
    that gcc compiles.  A string has no length to bound a loop with, so the
    functions that walk one take the number of rounds they may make; the
    theorems ask for more rounds than the string has bytes.  [char] is only
    compared for equality, so a byte is its value as [uint8_t]. *)

From S2P Require Import Prelude Memory MemCopy.
Import Memcpy.

(** ** Bytes of a word *)

Definition ALIGN : Z := 4.
Definition ONES : Z := (2 ^ 32 - 1) / 255.
Definition HIGHS : Z := u32 (ONES * (255 / 2 + 1)).
Definition HASZERO (x : Z) : Z := Z.land (Z.land (u32 (x - ONES)) (u32 (Z.lnot x))) HIGHS.

(** ** Searching *)

Module Search.

(** [for (; s % ALIGN; s++) if (hit(s)) return ...]: the position, and whether
    the loop returned. *)
Definition align_scan (fuel : nat) (hit : Z → bool) (s : Z) : outcome (Z * bool) :=
  iter fuel (λ s,
    if testz (s mod ALIGN) then
      if hit s then Ok (inr (s, true)) else Ok (inl (s + 1))
    else Ok (inr (s, false))) s.

(** [for (w = s; go( *w); w++)] *)
Definition word_scan (fuel : nat) (m : mem) (go : Z → bool) (w : Z) : outcome Z :=
  iter fuel (λ w, v ← load32a m w; Ok (if go v then inl (w + 4) else inr w)) w.

(** [for (; go(s); s++)] *)
Definition byte_scan (fuel : nat) (go : Z → bool) (s : Z) : outcome Z :=
  iter fuel (λ s, Ok (if go s then inl (s + 1) else inr s)) s.

Definition strlen (fuel : nat) (m : mem) (s : Z) : outcome Z :=
  let a := s in
  '(s, ret) ← align_scan fuel (λ s, load8 m s =? 0) s;
  if (ret : bool) then Ok (s - a) else
  s ← word_scan fuel m (λ v, negb (testz (HASZERO v))) s;
  s ← byte_scan fuel (λ s, testz (load8 m s)) s;
  Ok (s - a).

Definition strchrnul (fuel : nat) (m : mem) (s c : Z) : outcome Z :=
  let c := u8 c in
  if c =? 0 then n ← strlen fuel m s; Ok (s + n) else
  '(s, ret) ← align_scan fuel (λ s, (load8 m s =? 0) || (load8 m s =? c)) s;
  if (ret : bool) then Ok s else
  let k := u32 (ONES * c) in
  s ← word_scan fuel m (λ v, negb (testz (HASZERO v)) && negb (testz (HASZERO (Z.lxor v k)))) s;
  byte_scan fuel (λ s, testz (load8 m s) && negb (load8 m s =? c)) s.

(** The null pointer is 0. *)
Definition strchr (fuel : nat) (m : mem) (s c : Z) : outcome Z :=
  r ← strchrnul fuel m s c;
  Ok (if load8 m r =? u8 c then r else 0).

Definition index (fuel : nat) (m : mem) (s c : Z) : outcome Z := strchr fuel m s c.

(** [for (; go(s) && n; s++, n--)], with the order of the tests of the callers. *)
Definition count_scan (go : Z → Z → bool) (s n : Z) : outcome (Z * Z) :=
  iterZ (n + 1) (λ '(s, n), Ok (if go s n then inl (s + 1, n - 1) else inr (s, n))) (s, n).

Definition memchr (m : mem) (src c n : Z) : outcome Z :=
  let c := u8 c in
  '(s, n) ← count_scan (λ s n, testz (Z.land s (ALIGN - 1)) && testz n && negb (load8 m s =? c)) src n;
  '(s, n) ← (if testz n && negb (load8 m s =? c) then
      let k := u32 (ONES * c) in
      iterZ (n + 1) (λ '(w, n),
        if 4 <=? n then
          v ← load32a m w;
          Ok (if negb (testz (HASZERO (Z.lxor v k))) then inl (w + 4, n - 4) else inr (w, n))
        else Ok (inr (w, n))) (s, n)
    else Ok (s, n));
  '(s, n) ← count_scan (λ s n, testz n && negb (load8 m s =? c)) s n;
  Ok (if testz n then s else 0).

Definition strnlen (m : mem) (s n : Z) : outcome Z :=
  p ← memchr m s 0 n;
  Ok (if testz p then p - s else n).

Definition memrchr (m : mem) (s c n : Z) : outcome Z :=
  let c := u8 c in
  iter (S (Z.to_nat n)) (λ n,
    if testz n then
      let n := n - 1 in
      Ok (if load8 m (s + n) =? c then inr (s + n) else inl n)
    else Ok (inr 0)) n.

Definition strrchr (fuel : nat) (m : mem) (s c : Z) : outcome Z :=
  n ← strlen fuel m s;
  memrchr m s c (n + 1).

Definition rindex (fuel : nat) (m : mem) (s c : Z) : outcome Z := strrchr fuel m s c.

End Search.
Import Search.

(** ** Comparing *)

Module Compare.

Definition memcmp (m : mem) (vl vr n : Z) : outcome Z :=
  iter (S (Z.to_nat n)) (λ '(l, r, n),
    if testz n && (load8 m l =? load8 m r) then Ok (inl (l + 1, r + 1, n - 1))
    else Ok (inr (if testz n then load8 m l - load8 m r else 0))) (vl, vr, n).

Definition bcmp (m : mem) (s1 s2 n : Z) : outcome Z := memcmp m s1 s2 n.

Definition strcmp (fuel : nat) (m : mem) (l r : Z) : outcome Z :=
  iter fuel (λ '(l, r),
    if (load8 m l =? load8 m r) && testz (load8 m l) then Ok (inl (l + 1, r + 1))
    else Ok (inr (load8 m l - load8 m r))) (l, r).

Definition strncmp (m : mem) (l r n : Z) : outcome Z :=
  if n =? 0 then Ok 0
  else
    iter (S (Z.to_nat n)) (λ '(l, r, n),
      if testz (load8 m l) && testz (load8 m r) && testz n && (load8 m l =? load8 m r)
      then Ok (inl (l + 1, r + 1, n - 1))
      else Ok (inr (load8 m l - load8 m r))) (l, r, n - 1).

End Compare.
Import Compare.

(** ** Copying *)

Module StrCopy.

(** The two loops of [stpcpy] on strings of the same alignment, and its last. *)
Definition stpcpy_head (fuel : nat) (m : mem) (d s : Z) : outcome ((mem * Z * Z) * bool) :=
  iter fuel (λ '(m, d, s),
    if testz (s mod ALIGN) then
      let v := load8 m s in
      let m := store8 m d v in
      if testz v then Ok (inl (m, d + 1, s + 1)) else Ok (inr ((m, d, s), true))
    else Ok (inr ((m, d, s), false))) (m, d, s).

Definition stpcpy_words (fuel : nat) (m : mem) (d s : Z) : outcome (mem * Z * Z) :=
  iter fuel (λ '(m, wd, ws),
    v ← load32a m ws;
    if testz (HASZERO v) then Ok (inr (m, wd, ws))
    else m ← store32a m wd v; Ok (inl (m, wd + 4, ws + 4))) (m, d, s).

Definition stpcpy_bytes (fuel : nat) (m : mem) (d s : Z) : outcome (mem * Z) :=
  iter fuel (λ '(m, d, s),
    let v := load8 m s in
    let m := store8 m d v in
    if testz v then Ok (inl (m, d + 1, s + 1)) else Ok (inr (m, d))) (m, d, s).

Definition stpcpy (fuel : nat) (m : mem) (d s : Z) : outcome (mem * Z) :=
  if s mod ALIGN =? d mod ALIGN then
    '(x, ret) ← stpcpy_head fuel m d s;
    let '(m, d, s) := x in
    if (ret : bool) then Ok (m, d)
    else
      '(m, d, s) ← stpcpy_words fuel m d s;
      stpcpy_bytes fuel m d s
  else stpcpy_bytes fuel m d s.

Definition strcpy (fuel : nat) (m : mem) (dst src : Z) : outcome (mem * Z) :=
  '(m, _) ← stpcpy fuel m dst src; Ok (m, dst).

Definition strcat (fuel : nat) (m : mem) (dest src : Z) : outcome (mem * Z) :=
  n ← strlen fuel m dest;
  '(m, _) ← strcpy fuel m (dest + n) src;
  Ok (m, dest).

(** [for (; go(s) && n && !stop( *d = *s); n--, s++, d++)] *)
Definition copy_bytes_until (go : Z → bool) (stop : Z → bool) (m : mem) (d s n : Z) :
    outcome (mem * Z * Z * Z) :=
  iter (S (Z.to_nat n)) (λ '(m, d, s, n),
    if go s && testz n then
      let v := load8 m s in
      let m := store8 m d v in
      if stop v then Ok (inr (m, d, s, n)) else Ok (inl (m, d + 1, s + 1, n - 1))
    else Ok (inr (m, d, s, n))) (m, d, s, n).

(** [for (; n >= sizeof(size_t) && !has( *ws); n -= sizeof(size_t), ws++, wd++) *wd = *ws] *)
Definition copy_words_until (has : Z → bool) (m : mem) (d s n : Z) : outcome (mem * Z * Z * Z) :=
  iter (S (Z.to_nat n)) (λ '(m, wd, ws, n),
    if 4 <=? n then
      v ← load32a m ws;
      if has v then Ok (inr (m, wd, ws, n))
      else m ← store32a m wd v; Ok (inl (m, wd + 4, ws + 4, n - 4))
    else Ok (inr (m, wd, ws, n))) (m, d, s, n).

Definition unaligned (s : Z) : bool := testz (Z.land s (ALIGN - 1)).

Definition stpncpy (m : mem) (d s n : Z) : outcome (mem * Z) :=
  '(m, d, s, n) ← (if Z.land s (ALIGN - 1) =? Z.land d (ALIGN - 1) then
      '(m, d, s, n) ← copy_bytes_until unaligned (λ v, v =? 0) m d s n;
      if (n =? 0) || (load8 m s =? 0) then Ok (m, d, s, n)
      else
        '(m, d, s, n) ← copy_words_until (λ v, testz (HASZERO v)) m d s n;
        copy_bytes_until (λ _, true) (λ v, v =? 0) m d s n
    else copy_bytes_until (λ _, true) (λ v, v =? 0) m d s n);
  '(m, _) ← memset m d 0 n;
  Ok (m, d).

Definition strncpy (m : mem) (d s n : Z) : outcome (mem * Z) :=
  '(m, _) ← stpncpy m d s n; Ok (m, d).

Definition strlcpy (fuel : nat) (m : mem) (d s n : Z) : outcome (mem * Z) :=
  let d0 := d in
  if n =? 0 then l ← strlen fuel m s; Ok (m, d - d0 + l) else
  let n := n - 1 in
  '(m, d, s, n) ← (if Z.land s (ALIGN - 1) =? Z.land d (ALIGN - 1) then
      '(m, d, s, n) ← copy_bytes_until unaligned (λ v, v =? 0) m d s n;
      if testz n && testz (load8 m s) then copy_words_until (λ v, testz (HASZERO v)) m d s n
      else Ok (m, d, s, n)
    else Ok (m, d, s, n));
  '(m, d, s, n) ← copy_bytes_until (λ _, true) (λ v, v =? 0) m d s n;
  let m := store8 m d 0 in
  l ← strlen fuel m s;
  Ok (m, d - d0 + l).

Definition strlcat (fuel : nat) (m : mem) (d s n : Z) : outcome (mem * Z) :=
  l ← strnlen m d n;
  if l =? n then k ← strlen fuel m s; Ok (m, l + k)
  else '(m, k) ← strlcpy fuel m (d + l) s (n - l); Ok (m, l + k).

Definition memccpy (m : mem) (dest src c n : Z) : outcome (mem * Z) :=
  let c := u8 c in
  let d := dest in
  let s := src in
  '(m, d, s, n) ← (if Z.land s (ALIGN - 1) =? Z.land d (ALIGN - 1) then
      '(m, d, s, n) ← copy_bytes_until unaligned (λ v, v =? c) m d s n;
      if testz (Z.land s (ALIGN - 1)) then Ok (m, d, s, n)
      else
        let k := u32 (ONES * c) in
        '(m, d, s, n) ← copy_words_until (λ v, testz (HASZERO (Z.lxor v k))) m d s n;
        copy_bytes_until (λ _, true) (λ v, v =? c) m d s n
    else copy_bytes_until (λ _, true) (λ v, v =? c) m d s n);
  Ok (m, if testz n && (load8 m s =? c) then d + 1 else 0).

Definition strncat (fuel : nat) (m : mem) (d s n : Z) : outcome (mem * Z) :=
  let a := d in
  l ← strlen fuel m d;
  '(m, d) ← iter (S (Z.to_nat n)) (λ '(m, d, s, n),
    if testz n && testz (load8 m s) then Ok (inl (store8 m d (load8 m s), d + 1, s + 1, n - 1))
    else Ok (inr (m, d))) (m, d + l, s, n);
  Ok (store8 m d 0, a).

End StrCopy.
Import StrCopy.
