(* ===== verification/CStrProof.v ===== *)
(** * The string functions are right *)

From S2P Require Import Prelude Bits Memory MemCopy MemCopyProof MemMoveProof CStr.
From Stdlib Require Import Btauto.
Import Memcpy Search Compare StrCopy.

(** ** HASZERO *)

Definition byte_of (x i : Z) : Z := x / 2 ^ (8 * i) mod 256.

Definition high_bit (x j : Z) : bool := Z.testbit (u32 (x - ONES)) j && negb (Z.testbit x j).

Lemma HASZERO_high x : in_u32 x →
  testz (HASZERO x) = high_bit x 7 || high_bit x 15 || high_bit x 23 || high_bit x 31.
Proof.
  intros Hx. unfold HASZERO. change HIGHS with (Z.lor (Z.lor (Z.lor (2 ^ 7) (2 ^ 15)) (2 ^ 23)) (2 ^ 31)).
  rewrite !Z.land_lor_distr_r.
  assert (∀ a b, testz (Z.lor a b) = testz a || testz b) as Hor.
  { intros a b. unfold testz. destruct (Z.eqb_spec a 0) as [->|Ha]; [done|]. cbn.
    destruct (Z.eqb_spec (Z.lor a b) 0) as [E|]; [|done]. apply Z.lor_eq_0_iff in E. tauto. }
  rewrite !Hor, !land_bit_test by lia. unfold high_bit.
  assert (∀ j, 0 ≤ j < 32 → Z.testbit (u32 (Z.lnot x)) j = negb (Z.testbit x j)) as Hn.
  { intros j Hj. unfold wrapu. rewrite Z.mod_pow2_bits_low by lia. apply Z.lnot_spec; lia. }
  by rewrite !Z.land_spec, !Hn by lia.
Qed.

Lemma high_bit_arith x j : 0 ≤ j →
  high_bit x j = ((x - 16843009) mod 2 ^ 32 / 2 ^ j mod 2 =? 1) && negb (x / 2 ^ j mod 2 =? 1).
Proof. intros. unfold high_bit. by rewrite !testbit_div. Qed.

Lemma byte_split x : in_u32 x → ∃ b0 b1 b2 b3, in_u8 b0 ∧ in_u8 b1 ∧ in_u8 b2 ∧ in_u8 b3 ∧
  x = b0 + 256 * b1 + 65536 * b2 + 16777216 * b3 ∧
  byte_of x 0 = b0 ∧ byte_of x 1 = b1 ∧ byte_of x 2 = b2 ∧ byte_of x 3 = b3.
Proof.
  intros Hx. exists (byte_of x 0), (byte_of x 1), (byte_of x 2), (byte_of x 3). unfold byte_of.
  change (2 ^ (8 * 0)) with 1. change (2 ^ (8 * 1)) with 256. change (2 ^ (8 * 2)) with 65536.
  change (2 ^ (8 * 3)) with 16777216. do 4 (split; [dlia|]). split; [dlia | done].
Qed.

(** Subtracting [ONES] borrows from no byte below the lowest zero byte. *)
Lemma HASZERO_spec x : in_u32 x →
  testz (HASZERO x) = (byte_of x 0 =? 0) || (byte_of x 1 =? 0) || (byte_of x 2 =? 0) || (byte_of x 3 =? 0).
Proof.
  intros Hx. rewrite HASZERO_high by done. rewrite !high_bit_arith by lia.
  destruct (byte_split x Hx) as (b0 & b1 & b2 & b3 & H0 & H1 & H2 & H3 & E & -> & -> & -> & ->).
  change (2 ^ 32) with 4294967296.
  change (2 ^ 7) with 128. change (2 ^ 15) with 32768. change (2 ^ 23) with 8388608. change (2 ^ 31) with 2147483648.
  apply eq_true_iff_eq. rewrite !orb_true_iff, !andb_true_iff, !negb_true_iff, !Z.eqb_eq, !Z.eqb_neq.
  destruct (decide (b0 = 0)) as [->|]; [|destruct (decide (b1 = 0)) as [->|];
    [|destruct (decide (b2 = 0)) as [->|]; [|destruct (decide (b3 = 0)) as [->|]]]].
  - split; [lia|]. intros _. left. left. left. dlia.
  - split; [lia|]. intros _. left. left. right. dlia.
  - split; [lia|]. intros _. left. right. dlia.
  - split; [lia|]. intros _. right. dlia.
  - rewrite (Z.mod_small (x - 16843009)) by lia. split; [|intros; lia]. intros [[[H|H]|H]|H]; dlia.
Qed.

(** A byte among the four at [a]. *)
Definition word_has (m : mem) (hit : Z → bool) (a : Z) : bool :=
  hit (load8 m a) || hit (load8 m (a + 1)) || hit (load8 m (a + 2)) || hit (load8 m (a + 3)).

Lemma byte_of_load32 m a i : 0 ≤ i < 4 → byte_of (load32 m a) i = load8 m (a + (3 - i)).
Proof.
  intros Hi. unfold byte_of, load32.
  pose proof (load8_range m a). pose proof (load8_range m (a + 1)). pose proof (load8_range m (a + 2)).
  pose proof (load8_range m (a + 3)).
  assert (i = 0 ∨ i = 1 ∨ i = 2 ∨ i = 3) as Hc by lia.
  destruct Hc as [-> | [-> | [-> | ->]]]; [| | |change (3 - 3) with 0; rewrite Z.add_0_r].
  - change (3 - 0) with 3. change (2 ^ (8 * 0)) with 1. dlia.
  - change (3 - 1) with 2. change (2 ^ (8 * 1)) with 256. dlia.
  - change (3 - 2) with 1. change (2 ^ (8 * 2)) with 65536. dlia.
  - change (2 ^ (8 * 3)) with 16777216. dlia.
Qed.

Lemma byte_of_lxor x y i : 0 ≤ i → byte_of (Z.lxor x y) i = Z.lxor (byte_of x i) (byte_of y i).
Proof.
  intros Hi. unfold byte_of. change 256 with (2 ^ 8).
  rewrite <- !Z.land_ones, <- !Z.shiftr_div_pow2 by lia. apply Z.bits_inj'. intros j Hj.
  rewrite Z.lxor_spec, !Z.land_spec, !Z.shiftr_spec, Z.lxor_spec by done.
  by destruct (Z.testbit x _), (Z.testbit y _), (Z.testbit (Z.ones 8) j).
Qed.

Lemma byte_of_ones c i : in_u8 c → 0 ≤ i < 4 → byte_of (u32 (ONES * c)) i = c.
Proof.
  intros Hc Hi. change ONES with 16843009. unfold byte_of, wrapu.
  assert (i = 0 ∨ i = 1 ∨ i = 2 ∨ i = 3) as [-> | [-> | [-> | ->]]] by lia.
  - change (2 ^ (8 * 0)) with 1. dlia.
  - change (2 ^ (8 * 1)) with 256. dlia.
  - change (2 ^ (8 * 2)) with 65536. dlia.
  - change (2 ^ (8 * 3)) with 16777216. dlia.
Qed.

Lemma HASZERO_load m a : testz (HASZERO (load32 m a)) = word_has m (λ b, b =? 0) a.
Proof.
  rewrite HASZERO_spec, !byte_of_load32 by (lia || apply load32_range). unfold word_has.
  change (3 - 3) with 0. rewrite Z.add_0_r.
  by destruct (_ =? 0), (_ =? 0), (_ =? 0), (_ =? 0).
Qed.

Lemma lxor_range x y : in_u32 x → in_u32 y → in_u32 (Z.lxor x y).
Proof.
  intros Hx Hy. split; [apply Z.lxor_nonneg; lia|].
  destruct (decide (Z.lxor x y = 0)) as [->|]; [done|]. change 4294967296 with (2 ^ 32).
  assert (0 ≤ Z.lxor x y) by (apply Z.lxor_nonneg; lia).
  apply Z.log2_lt_pow2; [lia|]. eapply Z.le_lt_trans; [apply Z.log2_lxor; lia|].
  apply Z.max_lub_lt; (destruct (decide (x = 0)) as [->|], (decide (y = 0)) as [->|]; try done; apply Z.log2_lt_pow2; lia).
Qed.

Lemma HASZERO_load_xor m a c : in_u8 c →
  testz (HASZERO (Z.lxor (load32 m a) (u32 (ONES * c)))) = word_has m (λ b, b =? c) a.
Proof.
  intros Hc. rewrite HASZERO_spec.
  2: { apply lxor_range; [apply load32_range | apply (wrapu_range 32); lia]. }
  rewrite !byte_of_lxor, !byte_of_load32, !byte_of_ones by lia. unfold word_has.
  change (3 - 3) with 0. rewrite Z.add_0_r.
  assert (∀ b, (Z.lxor b c =? 0) = (b =? c)) as Hl.
  { intros b. apply eq_true_iff_eq. rewrite !Z.eqb_eq. apply Z.lxor_eq_0_iff. }
  rewrite !Hl. by destruct (_ =? c), (_ =? c), (_ =? c), (_ =? c).
Qed.

(** ** Searching *)

(** The first position from [s] on that [hit] accepts is [s + n]. *)
Definition first_at (hit : Z → bool) (s n : Z) : Prop :=
  0 ≤ n ∧ (∀ i, 0 ≤ i < n → hit (s + i) = false) ∧ hit (s + n) = true.

Lemma first_at_lt hit s n k : first_at hit s n → 0 ≤ k ≤ n → hit (s + k) = false → k < n.
Proof. intros (Hn & _ & Ht) Hk Hf. destruct (decide (k = n)) as [->|]; [congruence | lia]. Qed.

Lemma first_at_eq hit s n k : first_at hit s n → 0 ≤ k ≤ n → hit (s + k) = true → k = n.
Proof. intros (Hn & Hf & _) Hk Ht. destruct (decide (k = n)); [done|]. rewrite Hf in Ht; [done | lia]. Qed.

Section Scan.
Context (hit : Z → bool) (s n : Z) (Hfirst : first_at hit s n) (fuel : nat) (Hfuel : (Z.to_nat n < fuel)%nat).

Lemma align_scan_spec : yields (align_scan fuel hit s) (λ '(p, ret),
  ∃ k, 0 ≤ k ≤ n ∧ p = s + k ∧ if (ret : bool) then k = n else (s + k) mod 4 = 0).
Proof.
  pose proof (proj1 Hfirst) as Hn. unfold align_scan.
  apply (iter_inv (λ p, ∃ k, 0 ≤ k ≤ n ∧ p = s + k) (λ p, Z.to_nat (s + n - p))).
  - exists 0. lia.
  - lia.
  - intros p (k & Hk & ->). change ALIGN with 4. destruct (testz ((s + k) mod 4)) eqn:Ht.
    + destruct (hit (s + k)) eqn:Hh; cbn [yields].
      * exists k. by eauto using first_at_eq.
      * pose proof (first_at_lt _ _ _ _ Hfirst Hk Hh). split; [|lia]. exists (k + 1). lia.
    + apply testz_false in Ht. by exists k.
Qed.

Lemma word_scan_spec m go k :
  (∀ w, go (load32 m w) = negb (hit w || hit (w + 1) || hit (w + 2) || hit (w + 3))) →
  0 ≤ k ≤ n → (s + k) mod 4 = 0 →
  yields (word_scan fuel m go (s + k)) (λ p, ∃ j, 0 ≤ j ≤ n ∧ p = s + j).
Proof.
  intros Hgo Hk Ha. unfold word_scan.
  apply (iter_inv (λ p, ∃ j, 0 ≤ j ≤ n ∧ p = s + j ∧ p mod 4 = 0) (λ p, Z.to_nat (s + n - p))).
  - by exists k.
  - lia.
  - intros p (j & Hj & -> & Ha'). unfold load32a. rewrite Ha'. cbn [Z.eqb mbind outcome_bind yields].
    rewrite Hgo. destruct (_ || _) eqn:Hh; cbn [negb]; [by exists j|].
    rewrite !orb_false_iff in Hh. destruct Hh as [[[H0 H1] H2] H3]. rewrite <- !Z.add_assoc in *.
    assert (j < n) by eauto using first_at_lt.
    assert (j + 1 < n) by (eapply first_at_lt; [done | lia | done]).
    assert (j + 2 < n) by (eapply first_at_lt; [done | lia | done]).
    assert (j + 3 < n) by (eapply first_at_lt; [done | lia | done]).
    split; [|lia]. exists (j + 4). split; [lia|]. split; [lia | dlia].
Qed.

Lemma byte_scan_spec go k : (∀ p, go p = negb (hit p)) → 0 ≤ k ≤ n →
  yields (byte_scan fuel go (s + k)) (eq (s + n)).
Proof.
  intros Hgo Hk. unfold byte_scan.
  apply (iter_inv (λ p, ∃ j, 0 ≤ j ≤ n ∧ p = s + j) (λ p, Z.to_nat (s + n - p))).
  - by exists k.
  - lia.
  - intros p (j & Hj & ->). cbn [yields]. rewrite Hgo. destruct (hit (s + j)) eqn:Hh; cbn [negb].
    + f_equal. symmetry. by eapply first_at_eq.
    + pose proof (first_at_lt _ _ _ _ Hfirst Hj Hh). split; [|lia]. exists (j + 1). lia.
Qed.

End Scan.

(** A string of length [n] at [s]. *)
Definition cstring (m : mem) (s n : Z) : Prop := first_at (λ p, load8 m p =? 0) s n.

(** Deciding it. *)
Lemma cstring_check m s n : 0 ≤ n →
  forallb (λ i, negb (load8 m (s + i) =? 0)) (seqZ 0 n) && (load8 m (s + n) =? 0) = true → cstring m s n.
Proof.
  intros Hn [Hall Hz]%andb_true_iff. split; [done|]. split; [|done]. intros i Hi.
  apply negb_true_iff. rewrite forallb_forall in Hall. apply Hall, list_elem_of_In, elem_of_seqZ. lia.
Qed.

Lemma strlen_spec fuel m s n : cstring m s n → (Z.to_nat n < fuel)%nat → strlen fuel m s = Ok n.
Proof.
  intros Hs Hf. apply yields_eq. unfold strlen. apply yields_bind.
  eapply yields_mono; [by apply align_scan_spec|]. intros [p ret] (k & Hk & -> & Hret).
  destruct ret; [cbn; lia|]. apply yields_bind.
  eapply yields_mono; [apply (word_scan_spec _ s n Hs fuel Hf m _ k); [|done..]|].
  { intros w. rewrite HASZERO_load. done. }
  intros p (j & Hj & ->). apply yields_bind.
  eapply yields_mono; [apply (byte_scan_spec _ s n Hs fuel Hf); [done | done]|].
  intros p <-. cbn. lia.
Qed.

Lemma strchrnul_spec fuel m s c n : first_at (λ p, (load8 m p =? 0) || (load8 m p =? u8 c)) s n →
  (Z.to_nat n < fuel)%nat → strchrnul fuel m s c = Ok (s + n).
Proof.
  intros Hs Hf. unfold strchrnul. destruct (Z.eqb_spec (u8 c) 0) as [E|Hc].
  { rewrite (strlen_spec _ _ _ n); [done | | done]. unfold cstring.
    destruct Hs as (Hn & Hfalse & Ht). rewrite E in *. split; [done|]. split.
    - intros i Hi. specialize (Hfalse i Hi). apply orb_false_iff in Hfalse as [Hz _]. exact Hz.
    - by apply orb_true_iff in Ht as [|]. }
  apply yields_eq, yields_bind. eapply yields_mono; [by apply align_scan_spec|].
  intros [p ret] (k & Hk & -> & Hret). destruct ret; [cbn; by subst|]. apply yields_bind.
  eapply yields_mono; [apply (word_scan_spec _ s n Hs fuel Hf m _ k); [|done..]|].
  { intros w. rewrite HASZERO_load, HASZERO_load_xor by (apply (wrapu_range 8); lia). unfold word_has. btauto. }
  intros p (j & Hj & ->). apply (byte_scan_spec _ s n Hs fuel Hf); [|done].
  intros p. unfold testz. btauto.
Qed.

Lemma first_exists hit s n : 0 ≤ n → hit (s + n) = true → ∃ k, 0 ≤ k ≤ n ∧ first_at hit s k.
Proof.
  intros Hn Ht. assert (∀ j : nat, Z.of_nat j ≤ n →
    (∃ k, 0 ≤ k ≤ n ∧ first_at hit s k) ∨ ∀ i, 0 ≤ i < Z.of_nat j → hit (s + i) = false) as Hj.
  { induction j as [|j IH]; intros Hj; [right; lia|].
    destruct IH as [|IH]; [lia | by left|]. destruct (hit (s + Z.of_nat j)) eqn:E.
    - left. exists (Z.of_nat j). split; [lia|]. split; [lia | done].
    - right. intros i Hi. destruct (decide (i = Z.of_nat j)) as [->|]; [done|]. apply IH. lia. }
  destruct (Hj (Z.to_nat n)) as [|H]; [lia | done|].
  exists n. split; [lia|]. split; [done|]. split; [intros; apply H; lia | done].
Qed.

(** The position of the first [c] in a string with its terminator, if any. *)
Lemma strchr_spec fuel m s n c : cstring m s n → (Z.to_nat n < fuel)%nat →
  (∃ k, 0 ≤ k ≤ n ∧ load8 m (s + k) = u8 c ∧ (∀ i, 0 ≤ i < k → load8 m (s + i) ≠ u8 c) ∧
     strchr fuel m s c = Ok (s + k)) ∨
  (∀ i, 0 ≤ i ≤ n → load8 m (s + i) ≠ u8 c) ∧ strchr fuel m s c = Ok 0.
Proof.
  intros Hs Hf. pose proof Hs as (Hn & Hf0 & H0).
  destruct (first_exists (λ p, (load8 m p =? 0) || (load8 m p =? u8 c)) s n) as (k & Hk & Hfst);
    [done | by rewrite H0|].
  assert (strchr fuel m s c = Ok (if load8 m (s + k) =? u8 c then s + k else 0)) as ->.
  { unfold strchr. rewrite (strchrnul_spec _ _ _ _ k) by (done || lia). done. }
  destruct Hfst as (_ & Hbefore & Hat).
  assert (∀ i, 0 ≤ i < k → load8 m (s + i) ≠ u8 c) as Hne.
  { intros i Hi. specialize (Hbefore i Hi). apply orb_false_iff in Hbefore as [_ Hb]. by apply Z.eqb_neq. }
  destruct (Z.eqb_spec (load8 m (s + k)) (u8 c)) as [E|E]; [left; by exists k|]. right.
  split; [|done]. rewrite orb_false_r in Hat.
  assert (k = n) as -> by (by apply (first_at_eq _ _ _ k Hs)).
  intros i Hi. destruct (decide (i = n)) as [->|]; [done|]. apply Hne. lia.
Qed.

(** ** Searching and copying with a count

    [hit] accepts none of the first [K] positions from [s] on, and the next one
    if it is still among the [n]. *)
Definition stops_at (hit : Z → bool) (s K n : Z) : Prop :=
  0 ≤ K ≤ n ∧ (∀ i, 0 ≤ i < K → hit (s + i) = false) ∧ (K < n → hit (s + K) = true).

Lemma stops_at_lt hit s K n k : stops_at hit s K n → 0 ≤ k ≤ K → k < n → hit (s + k) = false → k < K.
Proof. intros (HK & _ & Ht) Hk Hn Hf. destruct (decide (k = K)) as [->|]; [rewrite Ht in Hf by lia; done | lia]. Qed.

Lemma stops_at_eq hit s K n k : stops_at hit s K n → 0 ≤ k ≤ K → hit (s + k) = true → k = K.
Proof. intros (HK & Hf & _) Hk Ht. destruct (decide (k = K)); [done|]. rewrite Hf in Ht; [done | lia]. Qed.

Lemma stops_exists hit s n : 0 ≤ n → ∃ K, stops_at hit s K n.
Proof.
  intros Hn. destruct (first_exists (λ p, hit p || (p =? s + n)) s n) as (K & HK & _ & Hf & Ht); [done| |].
  { by rewrite Z.eqb_refl, orb_true_r. }
  exists K. split; [done|]. split.
  - intros i Hi. specialize (Hf i Hi). apply orb_false_iff in Hf as [Hf _]. exact Hf.
  - intros Hlt. apply orb_true_iff in Ht as [|Ht]; [done|]. apply Z.eqb_eq in Ht. lia.
Qed.

(** A word without a byte to stop at. *)
Lemma stops_at_word m P s K n j : stops_at (λ p, P (load8 m p)) s K n → 0 ≤ j ≤ K → j + 4 ≤ n →
  word_has m P (s + j) = false → j + 4 ≤ K.
Proof.
  intros Hst Hj Hn Hw. unfold word_has in Hw. rewrite !orb_false_iff in Hw.
  destruct Hw as [[[H0 H1] H2] H3]. rewrite <- !Z.add_assoc in *.
  assert (j < K) by (eapply stops_at_lt; [exact Hst | lia | lia | exact H0]).
  assert (j + 1 < K) by (eapply stops_at_lt; [exact Hst | lia | lia | exact H1]).
  assert (j + 2 < K) by (eapply stops_at_lt; [exact Hst | lia | lia | exact H2]).
  assert (j + 3 < K) by (eapply stops_at_lt; [exact Hst | lia | lia | exact H3]). lia.
Qed.

Lemma land_3 s : Z.land s (ALIGN - 1) = s mod 4.
Proof. by apply (land_mask s 2). Qed.

Section CountScan.
Context (hit : Z → bool) (s K n : Z) (Hstops : stops_at hit s K n).

Lemma count_scan_spec go j : (∀ p q, go p q = true → q ≠ 0 ∧ hit p = false) → 0 ≤ j ≤ K →
  yields (count_scan go (s + j) (n - j)) (λ '(p, q), ∃ k, 0 ≤ k ≤ K ∧ p = s + k ∧ q = n - k ∧ go p q = false).
Proof.
  intros Hgo Hj. pose proof (proj1 Hstops) as HK. unfold count_scan. rewrite iterZ_iter.
  apply (iter_inv (λ '(p, q), ∃ k, 0 ≤ k ≤ K ∧ p = s + k ∧ q = n - k) (λ '(p, q), Z.to_nat q)).
  - by exists j.
  - lia.
  - intros [p q] (k & Hk & -> & ->). cbn [yields]. destruct (go (s + k) (n - k)) eqn:E; [|by exists k].
    destruct (Hgo _ _ E) as [Hq Hh]. assert (k < K) by (eapply stops_at_lt; eauto; lia).
    split; [|lia]. exists (k + 1). lia.
Qed.
End CountScan.

Lemma memchr_spec m s c K n : stops_at (λ p, load8 m p =? u8 c) s K n →
  memchr m s c n = Ok (if K <? n then s + K else 0).
Proof.
  intros Hst. pose proof Hst as (HK & _ & Hat). apply yields_eq. unfold memchr. apply yields_bind.
  pose proof (count_scan_spec _ s K n Hst (λ s n, testz (Z.land s (ALIGN - 1)) && testz n && negb (load8 m s =? u8 c)) 0) as H0.
  rewrite Z.add_0_r, Z.sub_0_r in H0. eapply yields_mono; [apply H0; [|lia]|].
  { intros p q E. rewrite !andb_true_iff, negb_true_iff in E. destruct E as [[_ E1] E2]. by apply testz_true in E1. }
  clear H0. intros [p q] (k & Hk & -> & -> & Hex). apply yields_bind.
  apply (yields_mono _ (λ '(p, q), ∃ k, 0 ≤ k ≤ K ∧ p = s + k ∧ q = n - k)).
  - destruct (testz (n - k) && _) eqn:E; [|by exists k]. rewrite <- andb_assoc, E, andb_true_r, land_3 in Hex.
    apply testz_false in Hex. rewrite iterZ_iter.
    apply (iter_inv (λ '(p, q), ∃ k, 0 ≤ k ≤ K ∧ p = s + k ∧ q = n - k ∧ p mod 4 = 0) (λ '(p, q), Z.to_nat q)).
    + by exists k.
    + lia.
    + intros [p q] (j & Hj & -> & -> & Ha). case_cmp; [|by exists j].
      unfold load32a. rewrite Ha. cbn [Z.eqb mbind outcome_bind yields].
      rewrite HASZERO_load_xor by (apply (wrapu_range 8); lia).
      destruct (word_has _ _ _) eqn:Hw; cbn [negb]; [by exists j|].
      assert (j + 4 ≤ K) by (apply (stops_at_word m (λ b, b =? u8 c) s K n); [exact Hst | done | lia | exact Hw]).
      split; [|lia]. exists (j + 4). split; [lia|]. split; [lia|]. split; [lia | dlia].
  - intros [p q] (j & Hj & -> & ->). apply yields_bind.
    eapply yields_mono; [apply (count_scan_spec _ s K n Hst); [|done]|].
    { intros p q E. rewrite andb_true_iff, negb_true_iff in E. destruct E as [E1 E2]. by apply testz_true in E1. }
    intros [p q] (i & Hi & -> & -> & E). cbn [yields]. destruct (testz (n - i)) eqn:Hn.
    + apply testz_true in Hn. cbn [andb] in E. rewrite negb_false_iff in E.
      assert (i = K) as -> by (by apply (stops_at_eq _ s K n i Hst)). case_cmp; [done | lia].
    + apply testz_false in Hn. case_cmp; [lia | done].
Qed.

Lemma strnlen_spec m s K n : 0 < s → stops_at (λ p, load8 m p =? 0) s K n → strnlen m s n = Ok K.
Proof.
  intros Hs Hst. unfold strnlen. pose proof (proj1 Hst) as HK.
  rewrite (memchr_spec _ _ _ K) by done. cbn [mbind outcome_bind].
  destruct (Z.ltb_spec K n); [|f_equal; cbn; lia]. destruct (testz (s + K)) eqn:E; [f_equal; lia|].
  apply testz_false in E. lia.
Qed.

(** ** The last occurrence *)

Lemma memrchr_spec m s c n : 0 ≤ n →
  (∃ j, 0 ≤ j < n ∧ load8 m (s + j) = u8 c ∧ (∀ i, j < i < n → load8 m (s + i) ≠ u8 c) ∧
     memrchr m s c n = Ok (s + j)) ∨
  (∀ i, 0 ≤ i < n → load8 m (s + i) ≠ u8 c) ∧ memrchr m s c n = Ok 0.
Proof.
  intros Hn. assert (yields (memrchr m s c n) (λ p,
    (∃ j, 0 ≤ j < n ∧ load8 m (s + j) = u8 c ∧ (∀ i, j < i < n → load8 m (s + i) ≠ u8 c) ∧ p = s + j) ∨
    (∀ i, 0 ≤ i < n → load8 m (s + i) ≠ u8 c) ∧ p = 0)) as Hy.
  { unfold memrchr.
    apply (iter_inv (λ k, 0 ≤ k ≤ n ∧ ∀ i, k ≤ i < n → load8 m (s + i) ≠ u8 c) Z.to_nat); [split; [lia | intros; lia] | lia |].
    intros k [Hk Hne]. destruct (testz k) eqn:Ht; cbn [yields].
    - apply testz_true in Ht. destruct (Z.eqb_spec (load8 m (s + (k - 1))) (u8 c)) as [E|E].
      + left. exists (k - 1). split; [lia|]. split; [done|]. split; [|done]. intros i Hi. apply Hne. lia.
      + split; [|lia]. split; [lia|]. intros i Hi.
        destruct (decide (i = k - 1)) as [->|]; [done|]. apply Hne. lia.
    - apply testz_false in Ht. right. split; [|done]. intros i Hi. apply Hne. lia. }
  apply yields_Ok in Hy. destruct Hy as (p & -> & [(j & Hj & E & Hne & ->)|[Hne ->]]);
    [left; by exists j | by right].
Qed.

(** ** Comparing *)

(** The difference at the first position where the bytes differ. *)
Lemma memcmp_spec m l r n K : stops_at (λ i, negb (load8 m (l + i) =? load8 m (r + i))) 0 K n →
  memcmp m l r n = Ok (if K <? n then load8 m (l + K) - load8 m (r + K) else 0).
Proof.
  intros Hst. pose proof (proj1 Hst) as HK. apply yields_eq. unfold memcmp.
  apply (iter_inv (λ '(p, q, x), ∃ k, 0 ≤ k ≤ K ∧ p = l + k ∧ q = r + k ∧ x = n - k) (λ '(_, _, x), Z.to_nat x)).
  - exists 0. lia.
  - lia.
  - intros [[p q] x] (k & Hk & -> & -> & ->). destruct (testz (n - k)) eqn:Hn; cbn [andb].
    2: { apply testz_false in Hn. cbn [yields]. case_cmp; [lia | done]. }
    apply testz_true in Hn. destruct (load8 m (l + k) =? load8 m (r + k)) eqn:E; cbn [yields].
    + assert (k < K) by (eapply (stops_at_lt _ 0); [exact Hst | lia | lia | cbv beta; by rewrite Z.add_0_l, E]).
      split; [|lia]. exists (k + 1). lia.
    + assert (k = K) as -> by (eapply (stops_at_eq _ 0); [exact Hst | lia | cbv beta; by rewrite Z.add_0_l, E]).
      case_cmp; [done | lia].
Qed.

Lemma strcmp_spec fuel m l r k :
  first_at (λ i, negb ((load8 m (l + i) =? load8 m (r + i)) && testz (load8 m (l + i)))) 0 k →
  (Z.to_nat k < fuel)%nat → strcmp fuel m l r = Ok (load8 m (l + k) - load8 m (r + k)).
Proof.
  intros Hf Hfuel. pose proof (proj1 Hf) as Hk. apply yields_eq. unfold strcmp.
  apply (iter_inv (λ '(p, q), ∃ j, 0 ≤ j ≤ k ∧ p = l + j ∧ q = r + j) (λ '(p, _), Z.to_nat (l + k - p))).
  - exists 0. lia.
  - lia.
  - intros [p q] (j & Hj & -> & ->). destruct (_ && _) eqn:E; cbn [yields].
    + assert (j < k) by (eapply (first_at_lt _ 0); [exact Hf | lia | cbv beta; by rewrite Z.add_0_l, E]).
      split; [|lia]. exists (j + 1). lia.
    + assert (j = k) as -> by (eapply (first_at_eq _ 0); [exact Hf | lia | cbv beta; by rewrite Z.add_0_l, E]). done.
Qed.

(** ** Claim *)

(** C33: on a string of [n] bytes, whatever its alignment, [strlen] returns [n];
    [strchr] and [strrchr] return the addresses of the first and of the last
    byte equal to [c], the terminator included, and the null pointer exactly
    when there is none.  No word is read at an address that is not a multiple
    of four. *)
Theorem string_search fuel m s n c : cstring m s n → (Z.to_nat n < fuel)%nat →
  strlen fuel m s = Ok n ∧
  ((∃ k j, 0 ≤ k ≤ j ∧ j ≤ n ∧ load8 m (s + k) = u8 c ∧ load8 m (s + j) = u8 c ∧
      (∀ i, 0 ≤ i < k → load8 m (s + i) ≠ u8 c) ∧ (∀ i, j < i ≤ n → load8 m (s + i) ≠ u8 c) ∧
      strchr fuel m s c = Ok (s + k) ∧ strrchr fuel m s c = Ok (s + j)) ∨
   (∀ i, 0 ≤ i ≤ n → load8 m (s + i) ≠ u8 c) ∧ strchr fuel m s c = Ok 0 ∧ strrchr fuel m s c = Ok 0).
Proof.
  intros Hs Hf. pose proof (proj1 Hs) as Hn. split; [by apply strlen_spec|].
  assert (strrchr fuel m s c = memrchr m s c (n + 1)) as Hr by (unfold strrchr; by rewrite (strlen_spec _ _ _ n)).
  rewrite Hr. destruct (memrchr_spec m s c (n + 1)) as [(j & Hj & Ej & Hlast & ->)|[Hnone ->]]; [lia| |];
    destruct (strchr_spec fuel m s n c Hs Hf) as [(k & Hk & Ek & Hfirst & ->)|[Hnone' ->]].
  - left. exists k, j. repeat split; try done; try lia; [|intros; apply Hlast; lia].
    destruct (decide (k ≤ j)); [done|]. destruct (Hlast k); [lia | done].
  - destruct (Hnone' j); [lia | done].
  - destruct (Hnone k); [lia | done].
  - right. split; [|done]. intros i Hi. apply Hnone. lia.
Qed.

(** The string "yaul" at 0x1002. *)
Definition demo_string : mem := list_to_map [(4098, 121); (4099, 97); (4100, 117); (4101, 108); (4102, 0)].

Lemma string_search_witness : cstring demo_string 4098 4 ∧ strlen 5 demo_string 4098 = Ok 4.
Proof.
  assert (cstring demo_string 4098 4) as Hs by (apply cstring_check; [lia | reflexivity]).
  split; [exact Hs|]. apply (string_search 5 demo_string 4098 4 97); [exact Hs | lia].
Defined.
