(* ===== verification/StrCopyProof.v ===== *)
(** * The copying string functions are right *)

From S2P Require Import Prelude Bits Memory MemCopy MemCopyProof MemMoveProof CStr CStrProof.
Import Memcpy Search Compare StrCopy.

(** ** The loops

    At most [n] bytes are copied from [s0] to [d0], up to the first byte that [P]
    accepts, which is [K] bytes away; the [W] bytes at [d0] are the only ones
    that may change, and none of them is among the bytes to copy. *)
Section CopyUntil.
Context (m0 : mem) (d0 s0 K n W : Z) (P : Z → bool).
Context (Hstops : stops_at (λ p, P (load8 m0 p)) s0 K n).
Context (HW : Z.min (K + 1) n ≤ W).
Context (Hdisj : d0 + W ≤ s0 ∨ s0 + Z.min (K + 1) n ≤ d0).

(** The first [k] bytes have been copied. *)
Definition part (k : Z) (m : mem) : Prop :=
  (∀ i, 0 ≤ i < k → load8 m (d0 + i) = load8 m0 (s0 + i)) ∧
  (∀ b, b < d0 ∨ d0 + W ≤ b → load8 m b = load8 m0 b).

Lemma part_0 : part 0 m0.
Proof. split; [lia | done]. Qed.

Lemma part_source k m i : part k m → 0 ≤ i < Z.min (K + 1) n → load8 m (s0 + i) = load8 m0 (s0 + i).
Proof. intros [_ Hout] Hi. apply Hout. lia. Qed.

Lemma part_byte k m : part k m → 0 ≤ k < Z.min (K + 1) n →
  part (k + 1) (store8 m (d0 + k) (load8 m (s0 + k))).
Proof.
  intros Hm Hk. rewrite (part_source k m k) by done. destruct Hm as [Hin Hout]. split.
  - intros i Hi. rewrite load8_store8. case_decide.
    + replace i with k by lia. apply wrapu_small, load8_range.
    + apply Hin. lia.
  - intros b Hb. rewrite load8_store8_ne by lia. apply Hout. lia.
Qed.

Lemma part_mono k k' m : k' ≤ k → part k m → part k' m.
Proof. intros Hk [Hin Hout]. split; [|done]. intros i Hi. apply Hin. lia. Qed.

Lemma part_word k m : part k m → 0 ≤ k → k + 4 ≤ Z.min (K + 1) n →
  part (k + 4) (store32 m (d0 + k) (load32 m (s0 + k))).
Proof.
  intros Hm Hk Hk4. pose proof (part_source k m) as Hsrc. pose proof Hm as [Hin Hout]. split.
  - intros i Hi. destruct (decide (i < k)).
    + rewrite load8_store32_ne by lia. apply Hin. lia.
    + replace (d0 + i) with (d0 + k + (i - k)) by lia. rewrite load8_store32_load32 by lia.
      replace (s0 + k + (i - k)) with (s0 + i) by lia. apply Hsrc; [done | lia].
  - intros b Hb. rewrite load8_store32_ne by lia. apply Hout. lia.
Qed.

(** The stop byte is seen where it is, whatever has been copied. *)
Lemma part_stop k m : part k m → 0 ≤ k ≤ K → k < n → P (load8 m (s0 + k)) = true → k = K.
Proof.
  intros Hm Hk Hn HP. rewrite (part_source k m) in HP by (done || lia). by apply (stops_at_eq _ s0 K n k Hstops).
Qed.

Lemma part_go k m : part k m → 0 ≤ k ≤ K → k < n → P (load8 m (s0 + k)) = false → k < K.
Proof.
  intros Hm Hk Hn HP. rewrite (part_source k m) in HP by (done || lia). by apply (stops_at_lt _ s0 K n k Hstops).
Qed.

Lemma part_word_go k m : part k m → 0 ≤ k ≤ K → k + 4 ≤ n → word_has m P (s0 + k) = false → k + 4 ≤ K.
Proof.
  intros Hm Hk Hn Hw. unfold word_has in Hw. rewrite !orb_false_iff in Hw.
  destruct Hw as [[[H0 H1] H2] H3]. rewrite <- !Z.add_assoc in *.
  assert (∀ j, 0 ≤ j ≤ K → j < n → P (load8 m (s0 + j)) = false → j < K) as Hlt.
  { intros j Hj Hjn HP. rewrite (part_source k m) in HP by (done || lia). by apply (stops_at_lt _ s0 K n j Hstops). }
  assert (k < K) by (apply Hlt; [lia | lia | done]). assert (k + 1 < K) by (apply Hlt; [lia | lia | done]).
  assert (k + 2 < K) by (apply Hlt; [lia | lia | done]). assert (k + 3 < K) by (apply Hlt; [lia | lia | done]). lia.
Qed.

(** The variables of the loops. *)
Definition at_part (k : Z) (x : mem * Z * Z * Z) : Prop :=
  0 ≤ k ≤ K ∧ ∃ m, x = (m, d0 + k, s0 + k, n - k) ∧ part k m.

Lemma copy_bytes_until_spec go m j : 0 ≤ j ≤ K → part j m →
  yields (copy_bytes_until go P m (d0 + j) (s0 + j) (n - j)) (λ x, ∃ k, at_part k x ∧
    (go (s0 + k) = false ∨ k = K ∧ (K < n → part (K + 1) x.1.1.1))).
Proof.
  intros Hj Hm. pose proof (proj1 Hstops) as HK. unfold copy_bytes_until.
  apply (iter_inv (λ x, ∃ k, at_part k x) (λ '(_, _, _, q), Z.to_nat q)).
  - exists j. split; [done|]. by exists m.
  - lia.
  - intros x (k & Hk & m' & -> & Hm'). destruct (go (s0 + k)) eqn:Hgo; cbn [andb].
    2: { exists k. split; [split; [done|]; by exists m' | by left]. }
    destruct (testz (n - k)) eqn:Hn; cbn [yields].
    2: { apply testz_false in Hn. exists k. split; [split; [done|]; by exists m' | right; lia]. }
    apply testz_true in Hn. assert (part (k + 1) (store8 m' (d0 + k) (load8 m' (s0 + k)))) as Hm1
      by (apply part_byte; [done | lia]).
    destruct (P (load8 m' (s0 + k))) eqn:HP; cbn [yields].
    + exists k. assert (k = K) as -> by (eapply part_stop; eauto; lia).
      split; [|by right]. split; [done|]. eexists. split; [done|]. by apply (part_mono (K + 1)); [lia|].
    + assert (k < K) by (eapply part_go; eauto; lia). split; [|lia]. exists (k + 1).
      split; [lia|]. eexists. split; [|done]. f_equal; [f_equal; [f_equal; lia | lia] | lia].
Qed.

Lemma copy_words_until_spec has m j : (∀ m a, has (load32 m a) = word_has m P a) →
  0 ≤ j ≤ K → part j m → (s0 + j) mod 4 = 0 → (d0 + j) mod 4 = 0 →
  yields (copy_words_until has m (d0 + j) (s0 + j) (n - j)) (λ x, ∃ k, at_part k x).
Proof.
  intros Hhas Hj Hm Hs Hd. pose proof (proj1 Hstops) as HK. unfold copy_words_until.
  apply (iter_inv (λ x, ∃ k, at_part k x ∧ (s0 + k) mod 4 = 0 ∧ (d0 + k) mod 4 = 0) (λ '(_, _, _, q), Z.to_nat q)).
  - exists j. split; [|done]. split; [done|]. by exists m.
  - lia.
  - intros x (k & (Hk & m' & -> & Hm') & Hs' & Hd'). case_cmp.
    2: { exists k. split; [done|]. by exists m'. }
    unfold load32a. rewrite Hs'. cbn [Z.eqb mbind outcome_bind]. rewrite Hhas.
    destruct (word_has m' P (s0 + k)) eqn:Hw; cbn [yields].
    { exists k. split; [done|]. by exists m'. }
    unfold store32a. rewrite Hd'. cbn [Z.eqb mbind outcome_bind yields].
    assert (k + 4 ≤ K) by (eapply part_word_go; eauto; lia).
    split; [|lia]. exists (k + 4). split; [|split; dlia]. split; [lia|]. eexists. split.
    + f_equal; [f_equal; [f_equal; lia | lia] | lia].
    + apply part_word; [done | lia | lia].
Qed.

(** At the stop byte or after [n] bytes; a stop byte has been copied too. *)
Definition done_at (x : mem * Z * Z * Z) : Prop := at_part K x ∧ (K < n → part (K + 1) x.1.1.1).

Lemma last_loop_spec x : (∃ k, at_part k x) →
  yields (let '(m, d, s, q) := x in copy_bytes_until (λ _, true) P m d s q) done_at.
Proof.
  intros (k & Hk & m & -> & Hm). eapply yields_mono; [by apply copy_bytes_until_spec|].
  intros x (j & Hj & [|[-> Hp]]); [done|]. by split.
Qed.

(** The first loop ends at an aligned position or is the last one. *)
Lemma head_loop_spec : Z.land s0 (ALIGN - 1) = Z.land d0 (ALIGN - 1) →
  yields (copy_bytes_until unaligned P m0 d0 s0 n) (λ x, ∃ k, at_part k x ∧
    ((s0 + k) mod 4 = 0 ∧ (d0 + k) mod 4 = 0 ∨ k = K ∧ (K < n → part (K + 1) x.1.1.1))).
Proof.
  intros Hal. rewrite !land_3 in Hal. pose proof (copy_bytes_until_spec unaligned m0 0) as H0.
  rewrite !Z.add_0_r, Z.sub_0_r in H0. pose proof (proj1 Hstops) as HK.
  eapply yields_mono; [apply H0; [lia | apply part_0]|]. clear H0.
  intros x (k & Hk & Hex). exists k. split; [done|]. destruct Hex as [Hex|]; [left | by right].
  unfold unaligned in Hex. rewrite land_3 in Hex. apply testz_false in Hex. split; [done | dlia].
Qed.

Lemma start_at_part : at_part 0 (m0, d0, s0, n).
Proof.
  pose proof (proj1 Hstops). split; [lia|]. exists m0. rewrite !Z.add_0_r, Z.sub_0_r. split; [done | apply part_0].
Qed.

(** What the byte under the source pointer tells. *)
Lemma at_part_end k m : 0 ≤ k ≤ K → part k m →
  n - k = 0 ∨ P (load8 m (s0 + k)) = true → k = K.
Proof.
  intros Hk Hm Hend. pose proof (proj1 Hstops). destruct (decide (k = n)) as [->|]; [lia|].
  destruct Hend as [|Hend]; [lia|]. apply (part_stop k m); (done || lia).
Qed.

Lemma part_at_stop k m : part k m → K < n → P (load8 m (s0 + K)) = true.
Proof.
  intros Hm HKn. pose proof (proj1 Hstops). rewrite (part_source k m) by (done || lia). by apply Hstops.
Qed.

End CopyUntil.

(** ** stpncpy *)

(** The first [K] bytes at [d] are those of the string, the others zero. *)
Lemma stpncpy_spec m d s K n : 0 ≤ d → in_u32 n →
  stops_at (λ p, load8 m p =? 0) s K n → d + n ≤ s ∨ s + Z.min (K + 1) n ≤ d →
  yields (stpncpy m d s n) (λ '(m', p), p = d + K ∧
    (∀ i, 0 ≤ i < K → load8 m' (d + i) = load8 m (s + i)) ∧
    (∀ i, K ≤ i < n → load8 m' (d + i) = 0) ∧
    (∀ b, b < d ∨ d + n ≤ b → load8 m' b = load8 m b)).
Proof.
  intros Hd Hn Hst Hdis. pose proof (proj1 Hst) as HK.
  assert (Z.min (K + 1) n ≤ n) as HW by lia.
  unfold stpncpy. apply yields_bind.
  apply (yields_mono _ (at_part m d s K n n K)).
  - destruct (Z.eqb_spec (Z.land s (ALIGN - 1)) (Z.land d (ALIGN - 1))) as [Hal|].
    2: { eapply yields_mono; [apply (last_loop_spec m d s K n n (λ b, b =? 0) Hst HW Hdis (m, d, s, n))|].
         - exists 0. apply (start_at_part m d s K n n (λ b, b =? 0) Hst).
         - intros x Hx. apply Hx. }
    apply yields_bind. eapply yields_mono; [apply (head_loop_spec m d s K n n (λ b, b =? 0)); done|].
    intros [[[m1 d1] s1] n1] (k & (Hk & m2 & [= -> -> -> ->] & Hm) & Hex).
    destruct ((n - k =? 0) || (load8 m2 (s + k) =? 0)) eqn:E.
    { assert (k = K) as ->.
      { eapply (at_part_end m d s K n n (λ b, b =? 0)); [done..|].
        apply orb_true_iff in E as [E|E]; [left; lia | by right]. }
      split; [done|]. by exists m2. }
    destruct Hex as [[Hsa Hda]|[-> _]].
    2: { apply orb_false_iff in E as [E1 E2].
         rewrite (part_at_stop m d s K n n (λ b, b =? 0) Hst Hdis K m2) in E2; [done | done | lia]. }
    apply yields_bind. eapply yields_mono.
    { apply (copy_words_until_spec m d s K n n (λ b, b =? 0)); try done. intros. apply HASZERO_load. }
    intros x Hx. eapply yields_mono; [by apply (last_loop_spec m d s K n n (λ b, b =? 0))|].
    intros y Hy. apply Hy.
  - intros x (_ & m' & -> & Hin & Hout). rewrite memset_correct by lia. cbn [mbind outcome_bind yields].
    split; [done|]. split; [|split].
    + intros i Hi. rewrite load8_mem_fill. repeat case_cmp; cbn [andb]; try lia; apply Hin; lia.
    + intros i Hi. rewrite load8_mem_fill. repeat case_cmp; cbn [andb]; (done || lia).
    + intros b Hb. rewrite load8_mem_fill. repeat case_cmp; cbn [andb]; try lia; apply Hout; lia.
Qed.

(** ** strlcpy and strlcat *)

Lemma cstring_stops m s L n : cstring m s L → 0 ≤ n → stops_at (λ p, load8 m p =? 0) s (Z.min L n) n.
Proof.
  intros (HL & Hf & Ht) Hn. split; [lia|]. split.
  - intros i Hi. apply Hf. lia.
  - intros Hlt. replace (Z.min L n) with L by lia. done.
Qed.

Lemma cstring_tail m m' s L k : cstring m s L → 0 ≤ k ≤ L →
  (∀ i, k ≤ i ≤ L → load8 m' (s + i) = load8 m (s + i)) → cstring m' (s + k) (L - k).
Proof.
  intros (HL & Hf & Ht) Hk Hm. split; [lia|]. split.
  - intros i Hi. rewrite <- Z.add_assoc, Hm by lia. apply Hf. lia.
  - replace (s + k + (L - k)) with (s + L) by lia. by rewrite Hm by lia.
Qed.

Section Strlcpy.
Context (fuel : nat) (m : mem) (d s L n : Z).
Context (Hstr : cstring m s L) (Hfuel : (Z.to_nat L < fuel)%nat).
Context (Hn : 0 < n) (Hdisj : d + Z.min (L + 1) n ≤ s ∨ s + L + 1 ≤ d).

(** Up to the last loop. *)
Lemma strlcpy_head : let K := Z.min L (n - 1) in
  yields (if Z.land s (ALIGN - 1) =? Z.land d (ALIGN - 1) then
      '(m, d, s, n) ← copy_bytes_until unaligned (λ v, v =? 0) m d s (n - 1);
      if testz n && testz (load8 m s) then copy_words_until (λ v, testz (HASZERO v)) m d s n
      else Ok (m, d, s, n)
    else Ok (m, d, s, n - 1)) (λ x, ∃ k, at_part m d s K (n - 1) (K + 1) k x).
Proof.
  intros K. pose proof (cstring_stops m s L (n - 1) Hstr) as Hst. fold K in Hst.
  assert (stops_at (λ p, load8 m p =? 0) s K (n - 1)) as Hs by (apply Hst; lia). clear Hst.
  pose proof (proj1 Hs) as HK. pose proof (proj1 Hstr) as HL.
  assert (Z.min (K + 1) (n - 1) ≤ K + 1) as HW by lia.
  assert (d + (K + 1) ≤ s ∨ s + Z.min (K + 1) (n - 1) ≤ d) as Hdis by lia.
  destruct (Z.eqb_spec (Z.land s (ALIGN - 1)) (Z.land d (ALIGN - 1))) as [Hal|].
  2: { exists 0. apply (start_at_part m d s K (n - 1) (K + 1) (λ b, b =? 0) Hs). }
  apply yields_bind. eapply yields_mono; [by apply (head_loop_spec m d s K (n - 1) (K + 1) (λ b, b =? 0))|].
  intros [[[m1 d1] s1] n1] (k & (Hk & m2 & [= -> -> -> ->] & Hm) & Hex).
  destruct (testz (n - 1 - k) && testz (load8 m2 (s + k))) eqn:E.
  2: { exists k. split; [done|]. by exists m2. }
  apply andb_true_iff in E as [E1 E2]. apply testz_true in E1, E2.
  destruct Hex as [[Hsa Hda]|[-> _]].
  - apply (copy_words_until_spec m d s K (n - 1) (K + 1) (λ b, b =? 0)); try done. intros. apply HASZERO_load.
  - pose proof (part_at_stop m d s K (n - 1) (K + 1) (λ b, b =? 0) Hs Hdis K m2 Hm) as Hstop. cbv beta in Hstop.
    rewrite Z.eqb_eq in Hstop. lia.
Qed.

Lemma strlcpy_spec : yields (strlcpy fuel m d s n) (λ '(m', r), r = L ∧
  (∀ i, 0 ≤ i < Z.min L (n - 1) → load8 m' (d + i) = load8 m (s + i)) ∧
  load8 m' (d + Z.min L (n - 1)) = 0 ∧
  (∀ b, b < d ∨ d + Z.min L (n - 1) + 1 ≤ b → load8 m' b = load8 m b)).
Proof.
  pose proof (cstring_stops m s L (n - 1) Hstr) as Hst. pose proof strlcpy_head as Hhead. cbv zeta in Hhead.
  set (K := Z.min L (n - 1)) in *. pose proof (proj1 Hstr) as HL.
  assert (stops_at (λ p, load8 m p =? 0) s K (n - 1)) as Hs by (apply Hst; lia). pose proof (proj1 Hs) as HK.
  assert (Z.min (K + 1) (n - 1) ≤ K + 1) as HW by lia.
  assert (d + (K + 1) ≤ s ∨ s + Z.min (K + 1) (n - 1) ≤ d) as Hdis by lia.
  unfold strlcpy. destruct (Z.eqb_spec n 0); [lia|]. apply yields_bind. eapply yields_mono; [exact Hhead|].
  intros x Hx. pose proof (last_loop_spec m d s K (n - 1) (K + 1) (λ b, b =? 0) Hs HW Hdis x Hx) as Hlast.
  destruct x as [[[m1 d1] s1] n1]. apply yields_bind. eapply yields_mono; [exact Hlast|]. clear Hhead Hx Hlast.
  intros y ((_ & m2 & -> & Hin & Hout) & _).
  rewrite (strlen_spec _ _ _ (L - K)); [|apply (cstring_tail m); [done | lia|] | lia].
  2: { intros i Hi. rewrite load8_store8_ne by lia. apply Hout. lia. }
  cbn [mbind outcome_bind yields]. split; [lia|]. split; [|split].
  - intros i Hi. rewrite load8_store8_ne by lia. by apply Hin.
  - by rewrite load8_store8_eq.
  - intros b Hb. rewrite load8_store8_ne by lia. apply Hout. lia.
Qed.

End Strlcpy.

Lemma strlcat_spec fuel m d s l L n : 0 < d → stops_at (λ p, load8 m p =? 0) d l n → cstring m s L →
  (Z.to_nat L < fuel)%nat → d + Z.min (l + L + 1) n ≤ s ∨ s + L + 1 ≤ d →
  yields (strlcat fuel m d s n) (λ '(m', r), r = l + L ∧
    if l =? n then m' = m
    else
      (∀ i, 0 ≤ i < l → load8 m' (d + i) = load8 m (d + i)) ∧
      (∀ i, 0 ≤ i < Z.min L (n - l - 1) → load8 m' (d + l + i) = load8 m (s + i)) ∧
      load8 m' (d + Z.min (l + L) (n - 1)) = 0 ∧
      (∀ b, b < d ∨ d + Z.min (l + L) (n - 1) + 1 ≤ b → load8 m' b = load8 m b)).
Proof.
  intros Hd Hst Hs Hf Hdis. pose proof (proj1 Hst) as Hl. pose proof (proj1 Hs) as HL.
  unfold strlcat. rewrite (strnlen_spec _ _ l) by done. cbn [mbind outcome_bind].
  destruct (Z.eqb_spec l n) as [->|].
  { by rewrite (strlen_spec _ _ _ L). }
  apply yields_bind. eapply yields_mono; [apply (strlcpy_spec fuel m (d + l) s L (n - l) Hs Hf); lia|].
  intros [m' r] (-> & Hin & Hz & Hout). cbn [yields]. split; [done|]. split; [|split; [|split]].
  - intros i Hi. apply Hout. lia.
  - exact Hin.
  - replace (d + Z.min (l + L) (n - 1)) with (d + l + Z.min L (n - l - 1)) by lia. done.
  - intros b Hb. apply Hout. lia.
Qed.

(** ** memccpy *)

Lemma memccpy_spec m d s c K n : stops_at (λ p, load8 m p =? u8 c) s K n →
  d + Z.min (K + 1) n ≤ s ∨ s + Z.min (K + 1) n ≤ d →
  yields (memccpy m d s c n) (λ '(m', p), p = (if K <? n then d + K + 1 else 0) ∧
    moved m m' d s (Z.min (K + 1) n)).
Proof.
  intros Hs Hdis. pose proof (proj1 Hs) as HK. set (W := Z.min (K + 1) n) in *.
  assert (Z.min (K + 1) n ≤ W) as HW by lia. unfold memccpy. apply yields_bind.
  apply (yields_mono _ (done_at m d s K n W)).
  - destruct (Z.eqb_spec (Z.land s (ALIGN - 1)) (Z.land d (ALIGN - 1))) as [Hal|].
    2: { apply (last_loop_spec m d s K n W (λ b, b =? u8 c) Hs HW Hdis (m, d, s, n)). exists 0.
         apply (start_at_part m d s K n W (λ b, b =? u8 c) Hs). }
    apply yields_bind. eapply yields_mono; [by apply (head_loop_spec m d s K n W (λ b, b =? u8 c))|].
    intros [[[m1 d1] s1] n1] (k & (Hk & m2 & [= -> -> -> ->] & Hm) & Hex). rewrite land_3.
    destruct (testz ((s + k) mod 4)) eqn:E.
    { destruct Hex as [[Ha _]|[-> Hp]]; [by rewrite Ha in E|]. split; [|done]. split; [done|]. by exists m2. }
    apply testz_false in E. rewrite !land_3 in Hal. apply yields_bind. eapply yields_mono.
    { apply (copy_words_until_spec m d s K n W (λ b, b =? u8 c)); try done; [|dlia].
      intros. apply HASZERO_load_xor, (wrapu_range 8). lia. }
    intros x Hx. by apply (last_loop_spec m d s K n W (λ b, b =? u8 c)).
  - intros x ((_ & m2 & -> & Hm) & Hp). cbn [fst] in Hp. cbn [yields].
    destruct (Z.ltb_spec K n).
    + rewrite (proj2 (testz_true (n - K))) by lia.
      rewrite (part_at_stop m d s K n W (λ b, b =? u8 c) Hs Hdis K m2) by done. cbn [andb].
      split; [lia|]. unfold W. rewrite Z.min_l by lia. destruct (Hp ltac:(done)) as [Hin Hout].
      split; [done|]. intros b Hb. apply Hout. lia.
    + rewrite (proj2 (testz_false (n - K))) by lia. split; [done|]. destruct Hm as [Hin Hout].
      split; [|done]. intros i Hi. apply Hin. lia.
Qed.

(** ** stpcpy *)

Section Stpcpy.
Context (fuel : nat) (m : mem) (d s L : Z).
Context (Hstr : cstring m s L) (Hfuel : (Z.to_nat L < fuel)%nat).
Context (Hdisj : d + L + 1 ≤ s ∨ s + L + 1 ≤ d).

#[local] Abbreviation part := (part m d s (L + 1)).

Lemma stpcpy_stops : stops_at (λ p, load8 m p =? 0) s L (L + 4).
Proof.
  pose proof (proj1 Hstr). replace L with (Z.min L (L + 4)) at 1 by lia. apply cstring_stops; [done | lia].
Qed.

(** The variables of the loops. *)
Definition at_stpcpy '(m', p, q) : Prop := ∃ k, 0 ≤ k ≤ L ∧ p = d + k ∧ q = s + k ∧ part k m'.

(** One byte, which is the terminator or not. *)
Lemma stpcpy_byte k m' : 0 ≤ k ≤ L → part k m' →
  part (k + 1) (store8 m' (d + k) (load8 m' (s + k))) ∧
  if testz (load8 m' (s + k)) then k < L else k = L.
Proof.
  intros Hk Hm. pose proof stpcpy_stops as Hst. split.
  - apply (part_byte m d s L (L + 4)); (done || lia).
  - destruct (testz (load8 m' (s + k))) eqn:E.
    + apply testz_true, Z.eqb_neq in E.
      eapply (part_go m d s L (L + 4) (L + 1) (λ b, b =? 0)); (exact Hst || exact Hm || exact E || lia).
    + apply testz_false, Z.eqb_eq in E.
      eapply (part_stop m d s L (L + 4) (L + 1) (λ b, b =? 0)); (exact Hst || exact Hm || exact E || lia).
Qed.

Lemma stpcpy_bytes_spec m' p q : at_stpcpy (m', p, q) →
  yields (stpcpy_bytes fuel m' p q) (λ '(m'', p), p = d + L ∧ part (L + 1) m'').
Proof.
  intros Hx. unfold stpcpy_bytes.
  apply (iter_inv at_stpcpy (λ '(_, _, q), Z.to_nat (s + L - q))); [done | destruct Hx; lia |].
  intros [[m1 p1] q1] (j & Hj & -> & -> & Hm1). destruct (stpcpy_byte j m1 Hj Hm1) as [Hm2 Ht].
  destruct (testz (load8 m1 (s + j))); cbn [yields].
  - split; [|lia]. exists (j + 1). repeat split; (lia || apply Hm2).
  - subst. by split.
Qed.

Lemma stpcpy_head_spec : yields (stpcpy_head fuel m d s) (λ '(x, ret),
  if (ret : bool) then x.1.2 = d + L ∧ part (L + 1) x.1.1 else at_stpcpy x ∧ x.2 mod 4 = 0).
Proof.
  pose proof (proj1 Hstr) as HL. unfold stpcpy_head.
  apply (iter_inv at_stpcpy (λ '(_, _, q), Z.to_nat (s + L - q))).
  - exists 0. repeat split; lia.
  - lia.
  - intros [[m1 p] q] (j & Hj & -> & -> & Hm1). change ALIGN with 4.
    destruct (testz ((s + j) mod 4)) eqn:Ea.
    2: { apply testz_false in Ea. split; [by exists j | done]. }
    destruct (stpcpy_byte j m1 Hj Hm1) as [Hm2 Ht].
    destruct (testz (load8 m1 (s + j))); cbn [yields].
    + split; [|lia]. exists (j + 1). repeat split; (lia || apply Hm2).
    + subst. by split.
Qed.

Lemma stpcpy_words_spec m' p q : at_stpcpy (m', p, q) → q mod 4 = 0 → s mod 4 = d mod 4 →
  yields (stpcpy_words fuel m' p q) at_stpcpy.
Proof.
  intros Hx Ha Hal. unfold stpcpy_words. pose proof stpcpy_stops as Hst.
  apply (iter_inv (λ x, at_stpcpy x ∧ x.2 mod 4 = 0) (λ '(_, _, q), Z.to_nat (s + L - q)));
    [done | destruct Hx; lia |].
  intros [[m2 p2] q2] [(j & Hj & -> & -> & Hm2) Ha2]. cbn [snd] in Ha2. unfold load32a. rewrite Ha2.
  cbn [Z.eqb mbind outcome_bind]. rewrite HASZERO_load.
  destruct (word_has m2 _ (s + j)) eqn:Hw; cbn [yields]; [by exists j|].
  assert (j + 4 ≤ L).
  { eapply (part_word_go m d s L (L + 4) (L + 1) (λ b, b =? 0)); (exact Hst || exact Hm2 || exact Hw || lia). }
  unfold store32a. replace ((d + j) mod 4) with 0 by dlia. cbn [Z.eqb mbind outcome_bind yields].
  assert (part (j + 4) (store32 m2 (d + j) (load32 m2 (s + j)))) as Hm3
    by (apply (part_word m d s L (L + 4)); (done || lia)).
  split; [|lia]. split; [|cbn [snd]; dlia]. exists (j + 4). repeat split; (lia || apply Hm3).
Qed.

Lemma stpcpy_spec : yields (stpcpy fuel m d s) (λ '(m', p), p = d + L ∧ moved m m' d s (L + 1)).
Proof.
  pose proof (proj1 Hstr) as HL. unfold stpcpy. change ALIGN with 4.
  destruct (Z.eqb_spec (s mod 4) (d mod 4)) as [Hal|].
  2: { apply stpcpy_bytes_spec. exists 0. repeat split; lia. }
  apply yields_bind. eapply yields_mono; [apply stpcpy_head_spec|].
  intros [[[m1 d1] s1] ret] Hret. destruct ret; [exact Hret|]. destruct Hret as [Hx Ha].
  apply yields_bind. eapply yields_mono; [by apply stpcpy_words_spec|].
  intros [[m2 d2] s2]. apply stpcpy_bytes_spec.
Qed.

End Stpcpy.

(** ** strcat and strncat *)

Lemma strcat_spec fuel m d s l L : cstring m d l → cstring m s L →
  (Z.to_nat l < fuel)%nat → (Z.to_nat L < fuel)%nat → d + l + L + 1 ≤ s ∨ s + L + 1 ≤ d + l →
  yields (strcat fuel m d s) (λ '(m', p), p = d ∧ moved m m' (d + l) s (L + 1)).
Proof.
  intros Hd Hs Hl HL Hdis. unfold strcat. rewrite (strlen_spec _ _ _ l) by done. cbn [mbind outcome_bind].
  unfold strcpy. pose proof (stpcpy_spec fuel m (d + l) s L Hs HL) as Hc. apply yields_bind, yields_bind.
  eapply yields_mono; [apply Hc; lia|]. intros [m' p] [_ Hm]. by split.
Qed.

Lemma strncat_spec fuel m d s l L n : cstring m d l → cstring m s L → 0 ≤ n → (Z.to_nat l < fuel)%nat →
  d + l + Z.min L n + 1 ≤ s ∨ s + Z.min (L + 1) n ≤ d + l →
  yields (strncat fuel m d s n) (λ '(m', p), p = d ∧
    (∀ i, 0 ≤ i < Z.min L n → load8 m' (d + l + i) = load8 m (s + i)) ∧
    load8 m' (d + l + Z.min L n) = 0 ∧
    (∀ b, b < d + l ∨ d + l + Z.min L n + 1 ≤ b → load8 m' b = load8 m b)).
Proof.
  intros Hd Hs Hn Hl Hdis. unfold strncat. rewrite (strlen_spec _ _ _ l) by done. cbn [mbind outcome_bind].
  pose proof (cstring_stops m s L n Hs Hn) as Hst. pose proof (proj1 Hs) as HL.
  set (K := Z.min L n) in *. set (t := d + l) in *.
  assert (Z.min (K + 1) n ≤ K + 1) as HW by lia.
  assert (t + (K + 1) ≤ s ∨ s + Z.min (K + 1) n ≤ t) as Hdis' by lia. apply yields_bind.
  apply (yields_mono _ (λ '(m', p), p = t + K ∧ part m t s (K + 1) K m')).
  - apply (iter_inv (λ x, ∃ k, at_part m t s K n (K + 1) k x) (λ '(_, _, _, q), Z.to_nat q)).
    + exists 0. apply (start_at_part m t s K n (K + 1) (λ b, b =? 0) Hst).
    + lia.
    + intros x (k & Hk & m1 & -> & Hm1). destruct (testz (n - k)) eqn:Ht; cbn [andb].
      2: { apply testz_false in Ht. cbn [yields]. assert (k = K) as -> by lia. by split. }
      apply testz_true in Ht. destruct (testz (load8 m1 (s + k))) eqn:Hb; cbn [yields].
      * apply testz_true, Z.eqb_neq in Hb. pose proof (proj1 Hst).
        assert (k < K) by (eapply (part_go m t s K n (K + 1) (λ b, b =? 0)); (exact Hst || exact Hm1 || exact Hb || lia)).
        split; [|lia]. exists (k + 1). split; [lia|]. eexists. split; [f_equal; [f_equal; [f_equal; lia | lia] | lia]|].
        apply (part_byte m t s K n); (done || lia).
      * apply testz_false, Z.eqb_eq in Hb. pose proof (proj1 Hst).
        assert (k = K) as -> by (eapply (part_stop m t s K n (K + 1) (λ b, b =? 0)); (exact Hst || exact Hm1 || exact Hb || lia)).
        by split.
  - intros [m' p] [-> [Hin Hout]]. cbn [yields]. split; [done|]. split; [|split].
    + intros i Hi. rewrite load8_store8_ne by lia. by apply Hin.
    + by rewrite load8_store8_eq.
    + intros b Hb. rewrite load8_store8_ne by lia. apply Hout. lia.
Qed.

(** ** Claim *)

(** C32: [strlcat] on a string of [l] bytes in a buffer of [n], and a string of
    [L] bytes that the part of the buffer written does not overlap: it returns
    [l + L]; the buffer then holds a string of [min (l + L) (n - 1)] bytes, the
    old one followed by as much of the other as fits; no byte beyond its
    terminator changes.  A buffer without a terminator is left alone, and counts
    as a string of [n] bytes. *)
Theorem strlcat_appends fuel m d s l L n : 0 < d → stops_at (λ p, load8 m p =? 0) d l n →
  cstring m s L → (Z.to_nat L < fuel)%nat → d + Z.min (l + L + 1) n ≤ s ∨ s + L + 1 ≤ d →
  ∃ m', strlcat fuel m d s n = Ok (m', l + L) ∧
    if l =? n then m' = m
    else
      cstring m' d (Z.min (l + L) (n - 1)) ∧
      (∀ i, 0 ≤ i < l → load8 m' (d + i) = load8 m (d + i)) ∧
      (∀ i, 0 ≤ i < Z.min L (n - l - 1) → load8 m' (d + l + i) = load8 m (s + i)) ∧
      (∀ b, b < d ∨ d + Z.min (l + L) (n - 1) < b → load8 m' b = load8 m b).
Proof.
  intros Hd Hst Hs Hf Hdis. pose proof (strlcat_spec fuel m d s l L n Hd Hst Hs Hf Hdis) as Hy.
  apply yields_Ok in Hy. destruct Hy as ([m' r] & E & -> & Hm). exists m'. split; [done|].
  destruct (Z.eqb_spec l n); [done|]. destruct Hm as (Hold & Hnew & Hz & Hout).
  pose proof Hst as ([Hl0 Hln] & Hfl & _). pose proof Hs as (HL & HfL & _).
  split; [|split; [done | split; [done | intros b Hb; apply Hout; lia]]].
  split; [lia|]. split; [|by rewrite Hz]. intros i Hi. destruct (decide (i < l)).
  - rewrite Hold by lia. apply Hfl. lia.
  - replace (d + i) with (d + l + (i - l)) by lia. rewrite Hnew by lia. apply HfL. lia.
Qed.

(** "yaul" appended to an empty string in a buffer of 3 bytes. *)
Definition demo_buffer : mem := <[8192 := 0]> demo_string.

Lemma strlcat_appends_witness : ∃ m', strlcat 9 demo_buffer 8192 4098 3 = Ok (m', 4) ∧ cstring m' 8192 2.
Proof.
  destruct (strlcat_appends 9 demo_buffer 8192 4098 0 4 3) as (m' & E & Hc & _).
  - lia.
  - split; [lia|]. split; [intros; lia | done].
  - split; [lia|]. split; [|done]. intros i Hi.
    assert (i = 0 ∨ i = 1 ∨ i = 2 ∨ i = 3) as [-> | [-> | [-> | ->]]] by lia; done.
  - lia.
  - lia.
  - exists m'. split; [exact E | exact Hc].
Defined.
