(* ===== verification/StrToken.v ===== *)
(** * Spans and tokens (lib/string)

    [strspn] and [strcspn] with their sets of bytes as bit arrays, and the
    functions that cut a string with them. *)

From S2P Require Import Prelude Bits Memory MemCopy CStr CStrProof StrCopyProof.
Import Search.

(** ** The bit array *)

(** [byteset[b / 32] |= (size_t)1 << (b % 32)], and the value of the assignment. *)
Definition BITOP_or (byteset : list Z) (b : Z) : outcome (list Z * Z) :=
  w ← arr_get byteset (b / 32);
  k ← shl32 1 (b mod 32);
  let v := Z.lor w k in
  byteset ← arr_set byteset (b / 32) v;
  Ok (byteset, v).

(** [byteset[b / 32] & (size_t)1 << (b % 32)] *)
Definition BITOP_and (byteset : list Z) (b : Z) : outcome Z :=
  w ← arr_get byteset (b / 32);
  k ← shl32 1 (b mod 32);
  Ok (Z.land w k).

(** [for (; *c && BITOP(byteset, *(uint8_t* )c, |= ); c++)] *)
Definition byteset_fill (fuel : nat) (m : mem) (c : Z) (byteset : list Z) : outcome (list Z) :=
  iter fuel (λ '(c, byteset),
    if testz (load8 m c) then
      '(byteset, v) ← BITOP_or byteset (load8 m c);
      Ok (if testz v then inl (c + 1, byteset) else inr byteset)
    else Ok (inr byteset)) (c, byteset).

(** [for (; *s && go(BITOP(byteset, *(uint8_t* )s, &)); s++)] *)
Definition byteset_scan (fuel : nat) (go : Z → bool) (m : mem) (byteset : list Z) (s : Z) : outcome Z :=
  iter fuel (λ s,
    if testz (load8 m s) then
      v ← BITOP_and byteset (load8 m s);
      Ok (if go v then inl (s + 1) else inr s)
    else Ok (inr s)) s.

Definition strspn (fuel : nat) (m : mem) (s c : Z) : outcome Z :=
  let a := s in
  let byteset := replicate 8 0 in
  if load8 m c =? 0 then Ok 0
  else if load8 m (c + 1) =? 0 then
    s ← byte_scan fuel (λ s, load8 m s =? load8 m c) s; Ok (s - a)
  else
    byteset ← byteset_fill fuel m c byteset;
    s ← byteset_scan fuel testz m byteset s;
    Ok (s - a).

Definition strcspn (fuel : nat) (m : mem) (s c : Z) : outcome Z :=
  let a := s in
  if (load8 m c =? 0) || (load8 m (c + 1) =? 0) then
    p ← strchrnul fuel m s (load8 m c); Ok (p - a)
  else
    let byteset := replicate 8 0 in
    byteset ← byteset_fill fuel m c byteset;
    s ← byteset_scan fuel (λ v, negb (testz v)) m byteset s;
    Ok (s - a).

Definition strpbrk (fuel : nat) (m : mem) (s b : Z) : outcome Z :=
  k ← strcspn fuel m s b;
  let s := s + k in
  Ok (if testz (load8 m s) then s else 0).

(** The results are the memory, the value returned, and the new value of the
    pointer that the caller passes by address. *)
Definition strsep (fuel : nat) (m : mem) (str sep : Z) : outcome (mem * Z * Z) :=
  let s := str in
  if s =? 0 then Ok (m, 0, str)
  else
    k ← strcspn fuel m s sep;
    let end_ := s + k in
    if testz (load8 m end_) then Ok (store8 m end_ 0, s, end_ + 1)
    else Ok (m, s, 0).

Definition strtok_r (fuel : nat) (m : mem) (s sep p : Z) : outcome (mem * Z * Z) :=
  let s := if s =? 0 then p else s in
  if s =? 0 then Ok (m, 0, p)
  else
    k ← strspn fuel m s sep;
    let s := s + k in
    if load8 m s =? 0 then Ok (m, 0, 0)
    else
      k ← strcspn fuel m s sep;
      let p := s + k in
      if testz (load8 m p) then Ok (store8 m p 0, s, p + 1)
      else Ok (m, s, 0).

(** [strtok] has the body of [strtok_r] on a static pointer. *)
Definition strtok (fuel : nat) (m : mem) (s sep p : Z) : outcome (mem * Z * Z) := strtok_r fuel m s sep p.

(** ** The bit array is a set of bytes *)

Definition has_bit (byteset : list Z) (b : Z) : bool := Z.testbit (byteset !!! Z.to_nat (b / 32)) (b mod 32).

Lemma arr_get_byteset (bs : list Z) b : length bs = 8%nat → in_u8 b →
  arr_get bs (b / 32) = Ok (bs !!! Z.to_nat (b / 32)).
Proof.
  intros Hl Hb. destruct (arr_get_in_range bs (b / 32)) as (x & Hg & Hx); [rewrite Hl; dlia|].
  rewrite Hg. by rewrite (list_lookup_total_correct _ _ _ Hx).
Qed.

Lemma shl32_bit k : 0 ≤ k < 32 → shl32 1 k = Ok (2 ^ k).
Proof.
  intros Hk. unfold shl32. destruct (Z.leb_spec 0 k), (Z.ltb_spec k 32); try lia. cbn [andb]. f_equal.
  rewrite Z.shiftl_1_l. apply wrapu_small. split; [lia|]. apply Z.pow_lt_mono_r; lia.
Qed.

Lemma BITOP_and_spec bs b : length bs = 8%nat → in_u8 b →
  yields (BITOP_and bs b) (λ v, testz v = has_bit bs b).
Proof.
  intros Hl Hb. unfold BITOP_and. rewrite arr_get_byteset by done. cbn [mbind outcome_bind].
  rewrite shl32_bit by dlia. cbn [mbind outcome_bind yields]. apply land_bit_test. dlia.
Qed.

Lemma BITOP_or_spec bs b : length bs = 8%nat → in_u8 b →
  yields (BITOP_or bs b) (λ '(bs', v), v ≠ 0 ∧ length bs' = 8%nat ∧
    ∀ b', in_u8 b' → has_bit bs' b' = (b' =? b) || has_bit bs b').
Proof.
  intros Hl Hb. unfold BITOP_or. rewrite arr_get_byteset by done. cbn [mbind outcome_bind].
  rewrite shl32_bit by dlia. cbn [mbind outcome_bind].
  set (w := bs !!! Z.to_nat (b / 32)).
  rewrite arr_set_in_range by (rewrite Hl; dlia). cbn [mbind outcome_bind yields]. split; [|split].
  - intros E. apply Z.lor_eq_0_iff in E as [_ E]. pose proof (Z.pow_pos_nonneg 2 (b mod 32)).
    pose proof (Z.mod_pos_bound b 32). lia.
  - by rewrite length_insert.
  - intros b' Hb'. unfold has_bit. destruct (decide (b' / 32 = b / 32)) as [E|E].
    + rewrite E, list_lookup_total_insert_eq by (rewrite Hl; dlia). fold w.
      rewrite Z.lor_spec, Z.pow2_bits_eqb by dlia. rewrite orb_comm. f_equal.
      apply eq_true_iff_eq. rewrite !Z.eqb_eq. dlia.
    + rewrite list_lookup_total_insert_ne by dlia.
      destruct (Z.eqb_spec b' b) as [->|]; [done|]. done.
Qed.

(** ** Spans *)

Section Spans.
Context (fuel : nat) (m : mem) (s L c Lc : Z).
Context (Hs : cstring m s L) (Hc : cstring m c Lc).
Context (Hfs : (Z.to_nat L < fuel)%nat) (Hfc : (Z.to_nat Lc < fuel)%nat).

(** The byte is one of the string at [c]. *)
Definition in_set (b : Z) : Prop := ∃ i, 0 ≤ i < Lc ∧ load8 m (c + i) = b.

Lemma string_byte i : 0 ≤ i ≤ L → if testz (load8 m (s + i)) then i < L else i = L.
Proof.
  intros Hi. unfold testz. destruct (load8 m (s + i) =? 0) eqn:E; cbn [negb].
  - by apply (first_at_eq _ _ _ _ Hs).
  - by apply (first_at_lt _ _ _ _ Hs).
Qed.

Lemma set_byte i : 0 ≤ i ≤ Lc → if testz (load8 m (c + i)) then i < Lc else i = Lc.
Proof.
  intros Hi. unfold testz. destruct (load8 m (c + i) =? 0) eqn:E; cbn [negb].
  - by apply (first_at_eq _ _ _ _ Hc).
  - by apply (first_at_lt _ _ _ _ Hc).
Qed.

Lemma zero_not_in_set : ¬ in_set 0.
Proof. intros (i & Hi & E). pose proof (set_byte i ltac:(lia)) as Hb. rewrite E in Hb. cbn in Hb. lia. Qed.

Lemma byteset_fill_spec : yields (byteset_fill fuel m c (replicate 8 0)) (λ bs,
  length bs = 8%nat ∧ ∀ b, in_u8 b → has_bit bs b = true ↔ in_set b).
Proof.
  pose proof (proj1 Hc) as HL. unfold byteset_fill.
  apply (iter_inv (λ '(p, bs), ∃ k, 0 ≤ k ≤ Lc ∧ p = c + k ∧ length bs = 8%nat ∧
    ∀ b, in_u8 b → has_bit bs b = true ↔ ∃ i, 0 ≤ i < k ∧ load8 m (c + i) = b) (λ '(p, _), Z.to_nat (c + Lc - p))).
  - exists 0. split; [lia|]. split; [lia|]. split; [done|]. intros b Hb. split; [|intros (i & Hi & _); lia].
    unfold has_bit. assert (b / 32 = 0 ∨ b / 32 = 1 ∨ b / 32 = 2 ∨ b / 32 = 3 ∨ b / 32 = 4 ∨ b / 32 = 5 ∨
      b / 32 = 6 ∨ b / 32 = 7) as Hq by dlia.
    destruct Hq as [-> | [-> | [-> | [-> | [-> | [-> | [-> | ->]]]]]]]; cbn; by rewrite Z.bits_0.
  - lia.
  - intros [p bs] (k & Hk & -> & Hl & Hbs). pose proof (set_byte k Hk) as Hb.
    destruct (testz (load8 m (c + k))) eqn:Ht; cbn [yields]; [|subst; by split].
    apply yields_bind. eapply yields_mono; [apply BITOP_or_spec; [done | apply load8_range]|].
    intros [bs' v] (Hv & Hl' & Hbs'). cbn [yields]. rewrite (proj2 (testz_true v)) by done.
    split; [|lia]. exists (k + 1). split; [lia|]. split; [lia|]. split; [done|]. intros b Hb8.
    rewrite Hbs' by done. rewrite orb_true_iff, Z.eqb_eq, Hbs by done. split.
    + intros [->|(i & Hi & E)]; [exists k; lia | exists i; lia].
    + intros (i & Hi & E). destruct (decide (i = k)) as [->|]; [by left|]. right. exists i. split; [lia | done].
Qed.

(** The scan that goes on while membership is [want]. *)
Lemma byteset_scan_spec (want : bool) go bs : length bs = 8%nat →
  (∀ v, go v = Bool.eqb (testz v) want) →
  yields (byteset_scan fuel go m bs s) (λ p, ∃ k, 0 ≤ k ≤ L ∧ p = s + k ∧
    (∀ i, 0 ≤ i < k → has_bit bs (load8 m (s + i)) = want) ∧
    (k = L ∨ has_bit bs (load8 m (s + k)) = negb want)).
Proof.
  intros Hl Hgo. pose proof (proj1 Hs) as HL. unfold byteset_scan.
  apply (iter_inv (λ p, ∃ k, 0 ≤ k ≤ L ∧ p = s + k ∧
    ∀ i, 0 ≤ i < k → has_bit bs (load8 m (s + i)) = want) (λ p, Z.to_nat (s + L - p))).
  - exists 0. split; [lia|]. split; [lia | intros; lia].
  - lia.
  - intros p (k & Hk & -> & Hall). pose proof (string_byte k Hk) as Hb.
    destruct (testz (load8 m (s + k))) eqn:Ht; cbn [yields]; [|exists k; repeat split; (done || lia || by left)].
    apply yields_bind. eapply yields_mono; [apply BITOP_and_spec; [done | apply load8_range]|].
    intros v Hv. cbn [yields]. rewrite Hgo, Hv. destruct (Bool.eqb _ _) eqn:E.
    + apply Bool.eqb_prop in E. split; [|lia]. exists (k + 1). split; [lia|]. split; [lia|].
      intros i Hi. destruct (decide (i = k)) as [->|]; [done|]. apply Hall. lia.
    + exists k. repeat split; try (done || lia). right. by destruct (has_bit _ _), want.
Qed.

Lemma strspn_spec : yields (strspn fuel m s c) (λ k, 0 ≤ k ≤ L ∧
  (∀ i, 0 ≤ i < k → in_set (load8 m (s + i))) ∧ ¬ in_set (load8 m (s + k))).
Proof.
  pose proof (proj1 Hs) as HL. pose proof (proj1 Hc) as HLc. pose proof (string_byte L ltac:(lia)) as HzL.
  assert (load8 m (s + L) = 0) as Hz by (destruct Hs as (_ & _ & Ht); by apply Z.eqb_eq in Ht).
  unfold strspn. destruct (Z.eqb_spec (load8 m c) 0) as [E0|E0].
  { cbn [yields]. split; [lia|]. split; [intros; lia|]. intros (i & Hi & _).
    pose proof (set_byte 0 ltac:(lia)) as Hb. rewrite Z.add_0_r, E0 in Hb. cbn in Hb. lia. }
  destruct (Z.eqb_spec (load8 m (c + 1)) 0) as [E1|E1].
  - pose proof (set_byte 0 ltac:(lia)) as Hb0. rewrite Z.add_0_r, (proj2 (testz_true _) E0) in Hb0.
    pose proof (set_byte 1 ltac:(lia)) as Hb1. rewrite E1 in Hb1. cbn in Hb1.
    destruct (first_exists (λ p, negb (load8 m p =? load8 m c)) s L) as (k & Hk & Hf); [done| |].
    { rewrite Hz. destruct (Z.eqb_spec 0 (load8 m c)); [lia | done]. }
    apply yields_bind. eapply yields_mono.
    { pose proof (byte_scan_spec _ s k Hf fuel ltac:(lia) (λ p, load8 m p =? load8 m c) 0) as Hb.
      rewrite Z.add_0_r in Hb. apply Hb; [intros; by rewrite negb_involutive | lia]. }
    intros p <-. cbn [yields]. replace (s + k - s) with k by lia. destruct Hf as (_ & Hin & Hout).
    split; [done|]. split.
    + intros i Hi. specialize (Hin i Hi). apply negb_false_iff, Z.eqb_eq in Hin. exists 0. rewrite Z.add_0_r. split; [lia | done].
    + intros (i & Hi & E). replace i with 0 in E by lia. rewrite Z.add_0_r in E. rewrite E, Z.eqb_refl in Hout. done.
  - apply yields_bind. eapply yields_mono; [apply byteset_fill_spec|]. intros bs [Hl Hset].
    apply yields_bind. eapply yields_mono; [apply (byteset_scan_spec true); [done | intros v; by destruct (testz v)]|].
    intros p (k & Hk & -> & Hin & Hout). cbn [yields]. replace (s + k - s) with k by lia. split; [done|]. split.
    + intros i Hi. apply Hset; [apply load8_range | by apply Hin].
    + destruct Hout as [->|Hout]; [rewrite Hz; apply zero_not_in_set|].
      intros Hm. apply Hset in Hm; [|apply load8_range]. by rewrite Hout in Hm.
Qed.

(** Sets of at most one byte. *)
Lemma small_set : load8 m c = 0 ∨ load8 m (c + 1) = 0 →
  ∀ b, b ≠ 0 → in_set b ↔ b = load8 m c.
Proof.
  intros H01 b Hb. pose proof (proj1 Hc) as HLc. pose proof (set_byte 0 ltac:(lia)) as Hb0. rewrite Z.add_0_r in Hb0.
  split.
  - intros (i & Hi & <-). destruct H01 as [E|E]; [rewrite E in Hb0; cbn in Hb0; lia|].
    destruct (decide (Lc = 1)) as [E1|]; [replace i with 0 by lia; by rewrite Z.add_0_r|].
    pose proof (set_byte 1 ltac:(lia)) as Hb1. rewrite E in Hb1. cbn in Hb1. lia.
  - intros ->. rewrite (proj2 (testz_true _) Hb) in Hb0. exists 0. rewrite Z.add_0_r. split; [lia | done].
Qed.

Lemma strcspn_spec : yields (strcspn fuel m s c) (λ k, 0 ≤ k ≤ L ∧
  (∀ i, 0 ≤ i < k → ¬ in_set (load8 m (s + i))) ∧ (k = L ∨ in_set (load8 m (s + k)))).
Proof.
  pose proof (proj1 Hs) as HL. pose proof Hs as (_ & Hnz & Hz). unfold strcspn.
  destruct ((load8 m c =? 0) || (load8 m (c + 1) =? 0)) eqn:E.
  - rewrite orb_true_iff, !Z.eqb_eq in E. pose proof (small_set E) as Hset.
    destruct (first_exists (λ p, (load8 m p =? 0) || (load8 m p =? u8 (load8 m c))) s L) as (k & Hk & Hf);
      [done | by rewrite Hz|].
    rewrite (strchrnul_spec _ _ _ _ k Hf) by lia. rewrite wrapu_small in Hf by apply load8_range.
    cbn [mbind outcome_bind yields]. replace (s + k - s) with k by lia. destruct Hf as (_ & Hbefore & Hat).
    split; [done|]. split.
    + intros i Hi. specialize (Hbefore i Hi). rewrite orb_false_iff, !Z.eqb_neq in Hbefore.
      destruct Hbefore as [Hb1 Hb2]. by rewrite (Hset _ Hb1).
    + rewrite orb_true_iff, !Z.eqb_eq in Hat. destruct (decide (load8 m (s + k) = 0)) as [E0|E0].
      * left. apply (first_at_eq _ _ _ _ Hs Hk). by apply Z.eqb_eq.
      * right. apply (Hset _ E0). tauto.
  - apply yields_bind. eapply yields_mono; [apply byteset_fill_spec|]. intros bs [Hl Hset].
    apply yields_bind. eapply yields_mono; [apply (byteset_scan_spec false); [done | intros v; by destruct (testz v)]|].
    intros p (k & Hk & -> & Hin & Hout). cbn [yields]. replace (s + k - s) with k by lia. split; [done|]. split.
    + intros i Hi Hm. apply Hset in Hm; [|apply load8_range]. by rewrite Hin in Hm.
    + destruct Hout as [->|Hout]; [by left | right]. apply Hset; [apply load8_range | done].
Qed.

End Spans.

(** ** Tokens *)

Lemma cstring_end m s L : cstring m s L → load8 m (s + L) = 0.
Proof. intros (_ & _ & Ht). by apply Z.eqb_eq in Ht. Qed.

(** Cutting a string at [b]. *)
Lemma cstring_cut m s L a b : cstring m s L → 0 ≤ a ≤ b → b < L →
  let m' := store8 m (s + b) 0 in
  cstring m' (s + a) (b - a) ∧ cstring m' (s + b + 1) (L - b - 1).
Proof.
  intros (HL & Hf & Ht) Ha Hb m'. split; split_and!; try lia.
  - intros i Hi. unfold m'. rewrite load8_store8_ne, <- Z.add_assoc by lia. apply Hf. lia.
  - replace (s + a + (b - a)) with (s + b) by lia. unfold m'. by rewrite load8_store8_eq.
  - intros i Hi. unfold m'. rewrite load8_store8_ne by lia.
    replace (s + b + 1 + i) with (s + (b + 1 + i)) by lia. apply Hf. lia.
  - replace (s + b + 1 + (L - b - 1)) with (s + L) by lia. unfold m'. by rewrite load8_store8_ne by lia.
Qed.

Lemma cstring_suffix m s L a : cstring m s L → 0 ≤ a ≤ L → cstring m (s + a) (L - a).
Proof. intros Hs Ha. by apply (cstring_tail m). Qed.

(** [strsep] returns the string up to the first separator, and moves the pointer
    behind it, to null after the last. *)
Lemma strsep_spec fuel m s L c Lc : 0 < s → cstring m s L → cstring m c Lc →
  (Z.to_nat L < fuel)%nat → (Z.to_nat Lc < fuel)%nat →
  yields (strsep fuel m s c) (λ '(m', r, str), r = s ∧ ∃ b, 0 ≤ b ≤ L ∧
    (∀ i, 0 ≤ i < b → ¬ in_set m c Lc (load8 m (s + i))) ∧
    (b = L ∧ str = 0 ∧ m' = m ∨
     b < L ∧ in_set m c Lc (load8 m (s + b)) ∧ str = s + b + 1 ∧ m' = store8 m (s + b) 0)).
Proof.
  intros Hpos Hs Hc Hfs Hfc. unfold strsep. destruct (Z.eqb_spec s 0); [lia|].
  apply yields_bind. eapply yields_mono; [by apply (strcspn_spec fuel m s L c Lc)|].
  intros b (Hb & Hin & Hout). pose proof (string_byte m s L Hs b Hb) as Hz.
  destruct (testz (load8 m (s + b))); cbn [yields]; split; try done; exists b; repeat split; try (done || lia).
  - right. repeat split; try (done || lia). destruct Hout; [lia | done].
  - by left.
Qed.

(** C34: a call of [strtok_r] on a string, or with null where the last call left
    off, skips the separators and returns the following token, a maximal run of
    other bytes, as a string of its own; the pointer is then null after the last
    token, and otherwise at the rest of the string, with which the next call
    goes on.  Only the separator after the token is overwritten.  It returns
    null when there are only separators left. *)
Theorem strtok_r_token fuel m s0 p0 s L c Lc : s = (if s0 =? 0 then p0 else s0) → 0 < s →
  cstring m s L → cstring m c Lc → (Z.to_nat L < fuel)%nat → (Z.to_nat Lc < fuel)%nat →
  (strtok_r fuel m s0 c p0 = Ok (m, 0, 0) ∧ ∀ i, 0 ≤ i < L → in_set m c Lc (load8 m (s + i))) ∨
  ∃ a b m' p, strtok_r fuel m s0 c p0 = Ok (m', s + a, p) ∧ 0 ≤ a < b ∧ b ≤ L ∧
    (∀ i, 0 ≤ i < a → in_set m c Lc (load8 m (s + i))) ∧
    (∀ i, a ≤ i < b → ¬ in_set m c Lc (load8 m (s + i))) ∧
    cstring m' (s + a) (b - a) ∧
    (b = L ∧ p = 0 ∧ m' = m ∨
     b < L ∧ in_set m c Lc (load8 m (s + b)) ∧ m' = store8 m (s + b) 0 ∧
     p = s + b + 1 ∧ cstring m' p (L - b - 1)).
Proof.
  intros Es Hpos Hs Hc Hfs Hfc. unfold strtok_r. rewrite <- Es. destruct (Z.eqb_spec s 0); [lia|].
  pose proof (strspn_spec fuel m s L c Lc Hs Hc Hfs Hfc) as (a & -> & Ha & Hin & Hout)%yields_Ok.
  cbn [mbind outcome_bind]. pose proof (string_byte m s L Hs a Ha) as Hz. unfold testz in Hz.
  destruct (Z.eqb_spec (load8 m (s + a)) 0); cbn [negb] in Hz; [left; subst; done|].
  pose proof (cstring_suffix m s L a Hs Ha) as Hs'.
  pose proof (strcspn_spec fuel m (s + a) (L - a) c Lc Hs' Hc ltac:(lia) Hfc) as (k & -> & Hk & Hnot & Hend)%yields_Ok.
  cbn [mbind outcome_bind]. right.
  assert (0 < k) as Hk0.
  { destruct (decide (k = 0)) as [->|]; [|lia]. rewrite Z.add_0_r in Hend. destruct Hend; [lia | done]. }
  pose proof (string_byte m (s + a) (L - a) Hs' k Hk) as Hzk. rewrite <- Z.add_assoc in *.
  assert (∀ i, a ≤ i < a + k → ¬ in_set m c Lc (load8 m (s + i))) as Htok.
  { intros i Hi. specialize (Hnot (i - a)). rewrite <- Z.add_assoc in Hnot.
    replace (a + (i - a)) with i in Hnot by lia. apply Hnot. lia. }
  destruct (testz (load8 m (s + (a + k)))) eqn:Et; eexists a, (a + k), _, _; (split; [reflexivity|]);
    split_and!; try (done || lia).
  - apply (cstring_cut m s L a (a + k) Hs); lia.
  - right. split_and!; try (done || lia); [by destruct Hend; [lia|]|].
    by apply (cstring_cut m s L a (a + k) Hs); lia.
  - replace (a + k - a) with (L - a) by lia. done.
  - left. split_and!; (done || lia).
Qed.

(** "ya" and "ul", with separators around them. *)
Definition demo_tokens : mem := list_to_map (zip (seqZ 4096 10) [32; 121; 97; 44; 117; 108; 0; 44; 32; 0]).

Lemma strtok_r_token_witness : cstring demo_tokens 4096 6 ∧
  ∃ a b m' p, strtok_r 9 demo_tokens 4096 4103 0 = Ok (m', 4096 + a, p) ∧ cstring m' (4096 + a) (b - a).
Proof.
  assert (cstring demo_tokens 4096 6) as Hs by (apply cstring_check; [lia | reflexivity]).
  assert (cstring demo_tokens 4103 2) as Hc by (apply cstring_check; [lia | reflexivity]).
  split; [exact Hs|].
  destruct (strtok_r_token 9 demo_tokens 4096 0 4096 6 4103 2) as [[_ Hall]|H];
    [reflexivity | lia | exact Hs | exact Hc | lia | lia | | ].
  - destruct (Hall 1) as (i & Hi & E); [lia|]. assert (i = 0 ∨ i = 1) as [-> | ->] by lia; discriminate E.
  - destruct H as (a & b & m' & p & E & _ & _ & _ & _ & Hcut & _). exists a, b, m', p. split; [exact E | exact Hcut].
Defined.
