(* ===== verification/Memb.v ===== *)
(** * Block pools: [libyaul/kernel/mm/memb.c]

    A [memb_t] is a pool of [m_bnum] blocks of [m_bsize] bytes.  The model
    keeps the structure as a record and the pool's bytes in [mem]; a null
    [memb_t *] is [None]. *)

From S2P Require Import Prelude Memory.

Inductive memb_ref_type_t :=
| MEMB_REF_AVAILABLE
| MEMB_REF_RESERVED.

#[global] Instance memb_ref_type_eq_dec : EqDecision memb_ref_type_t.
Proof. solve_decision. Defined.

Record memb_t := MkMemb {
  m_bsize : Z;
  m_bnum : Z;
  m_breftype : list memb_ref_type_t;
  m_bidx : Z;
  m_size : Z;
  m_bpool : Z;
}.

Definition set_m_bidx (mb : memb_t) (i : Z) : memb_t :=
  MkMemb (m_bsize mb) (m_bnum mb) (m_breftype mb) i (m_size mb) (m_bpool mb).
Definition set_m_size (mb : memb_t) (n : Z) : memb_t :=
  MkMemb (m_bsize mb) (m_bnum mb) (m_breftype mb) (m_bidx mb) n (m_bpool mb).
Definition set_m_breftype (mb : memb_t) (l : list memb_ref_type_t) : memb_t :=
  MkMemb (m_bsize mb) (m_bnum mb) l (m_bidx mb) (m_size mb) (m_bpool mb).

(** The static initializer [MEMB(name, structure, num, align)], for a
    structure of [sz] bytes placed at [pool]. *)
Definition MEMB (sz num pool : Z) : memb_t :=
  MkMemb sz num (replicate (Z.to_nat num) MEMB_REF_AVAILABLE) 0 0 pool.

Definition MEMB_PTR_BOUND (mb : memb_t) (ptr : Z) : bool :=
  (m_bpool mb <=? ptr) && (ptr <? u32 (m_bpool mb + u32 (m_bnum mb * m_bsize mb))).

Fixpoint memb_init_loop (n : nat) (bidx : Z) (l : list memb_ref_type_t)
    : outcome (list memb_ref_type_t) :=
  match n with
  | O => Ok l
  | S n => l ← arr_set l bidx MEMB_REF_AVAILABLE; memb_init_loop n (bidx + 1) l
  end.

Definition memb_init (mb : memb_t) (m : mem) : outcome (memb_t * mem) :=
  l ← memb_init_loop (Z.to_nat (m_bnum mb)) 0 (m_breftype mb);
  let mb := set_m_size (set_m_breftype mb l) 0 in
  Ok (mb, mem_fill m (m_bpool mb) 0 (Z.to_nat (u32 (m_bsize mb * m_bnum mb)))).

Definition _incr_block_index (mb : memb_t) : memb_t :=
  let mb := if u32 (m_bnum mb - 1) <=? m_bidx mb then set_m_bidx mb 0 else mb in
  set_m_bidx mb (u32 (m_bidx mb + 1)).

(** The [do ... while (cur_bidx != bidx)] loop of [memb_alloc]: the index of an
    available block, if the loop leaves by [goto allocate]. *)
Fixpoint memb_first_fit (fuel : nat) (cur_bidx : Z) (mb : memb_t)
    : outcome (option Z * memb_t) :=
  match fuel with
  | O => Fault OutOfFuel
  | S fuel =>
      let mb := _incr_block_index mb in
      let bidx := m_bidx mb in
      r ← arr_get (m_breftype mb) bidx;
      if decide (r = MEMB_REF_AVAILABLE) then Ok (Some bidx, mb)
      else if cur_bidx =? bidx then Ok (None, mb)
      else memb_first_fit fuel cur_bidx mb
  end.

(** The code at the label [allocate]. *)
Definition memb_allocate (mb : memb_t) (bidx : Z) : outcome (Z * memb_t) :=
  let block := m_bpool mb + bidx * m_bsize mb in
  l ← arr_set (m_breftype mb) bidx MEMB_REF_RESERVED;
  let mb := _incr_block_index (set_m_breftype mb l) in
  Ok (block, set_m_size mb (u32 (m_size mb + 1))).

Definition memb_alloc (p : option memb_t) : outcome (Z * option memb_t) :=
  match p with
  | None => Ok (0, None)
  | Some mb =>
      if m_bnum mb <=? m_bidx mb then Ok (0, Some mb)
      else
        let bidx := m_bidx mb in
        r ← arr_get (m_breftype mb) bidx;
        if decide (r = MEMB_REF_AVAILABLE) then
          '(block, mb) ← memb_allocate mb bidx; Ok (block, Some mb)
        else
          '(found, mb) ← memb_first_fit (S (Z.to_nat (m_bnum mb))) bidx mb;
          match found with
          | Some bidx => '(block, mb) ← memb_allocate mb bidx; Ok (block, Some mb)
          | None => Ok (0, Some mb)
          end
  end.

Fixpoint memb_free_loop (n : nat) (bidx block addr : Z) (mb : memb_t)
    : outcome (Z * memb_t) :=
  match n with
  | O => Ok (-1, mb)
  | S n =>
      if block =? addr then
        r ← arr_get (m_breftype mb) bidx;
        if decide (r = MEMB_REF_AVAILABLE) then Ok (-1, mb)
        else
          l ← arr_set (m_breftype mb) bidx MEMB_REF_AVAILABLE;
          let mb := set_m_breftype mb l in
          let mb := set_m_size mb (u32 (m_size mb - 1)) in
          Ok (0, set_m_bidx mb (if m_size mb =? 0 then 0 else bidx))
      else memb_free_loop n (bidx + 1) (block + m_bsize mb) addr mb
  end.

Definition memb_free (p : option memb_t) (addr : Z) : outcome (Z * option memb_t) :=
  match p with
  | None => Ok (-1, None)
  | Some mb =>
      if negb (MEMB_PTR_BOUND mb addr) then Ok (-1, Some mb)
      else '(ret, mb) ← memb_free_loop (Z.to_nat (m_bnum mb)) 0 (m_bpool mb) addr mb;
           Ok (ret, Some mb)
  end.

Definition memb_size (p : option memb_t) : Z :=
  match p with None => -1 | Some mb => i32 (m_size mb) end.

Definition memb_bounds (mb : memb_t) (addr : Z) : bool := MEMB_PTR_BOUND mb addr.

(** ** Invariant *)

Fixpoint reserved (l : list memb_ref_type_t) : Z :=
  match l with
  | [] => 0
  | MEMB_REF_RESERVED :: l => 1 + reserved l
  | MEMB_REF_AVAILABLE :: l => reserved l
  end.

Record memb_wf (mb : memb_t) : Prop := {
  wf_len : Z.of_nat (length (m_breftype mb)) = m_bnum mb;
  wf_bsize : 0 < m_bsize mb;
  wf_pool : 0 < m_bpool mb ∧ m_bpool mb + m_bnum mb * m_bsize mb < 2 ^ 32;
  wf_bidx : 0 ≤ m_bidx mb;
  wf_bidx_lt : m_bidx mb < m_bnum mb ∨ (m_bnum mb = 1 ∧ m_bidx mb = 1);
  wf_bidx_0 : m_bidx mb = 0 → m_breftype mb !! 0%nat = Some MEMB_REF_AVAILABLE;
  wf_size : m_size mb = reserved (m_breftype mb);
}.

Definition block_addr (mb : memb_t) (i : Z) : Z := m_bpool mb + i * m_bsize mb.

Definition ref_at (mb : memb_t) (i : Z) : option memb_ref_type_t :=
  m_breftype mb !! Z.to_nat i.

(** ** Counting reserved blocks *)

Lemma reserved_nonneg l : 0 ≤ reserved l ≤ Z.of_nat (length l).
Proof. induction l as [|[] l IH]; simpl; lia. Qed.

Lemma reserved_reserve l i :
  l !! i = Some MEMB_REF_AVAILABLE →
  reserved (<[i := MEMB_REF_RESERVED]> l) = reserved l + 1.
Proof.
  revert i. induction l as [|r l IH]; intros [|i] H; simplify_eq/=; [lia|].
  destruct r; rewrite IH by done; lia.
Qed.

Lemma reserved_release l i :
  l !! i = Some MEMB_REF_RESERVED →
  reserved (<[i := MEMB_REF_AVAILABLE]> l) = reserved l - 1.
Proof.
  revert i. induction l as [|r l IH]; intros [|i] H; simplify_eq/=; [lia|].
  destruct r; rewrite IH by done; lia.
Qed.

Lemma reserved_0 l i r : reserved l = 0 → l !! i = Some r → r = MEMB_REF_AVAILABLE.
Proof.
  revert i. induction l as [|x l IH]; intros [|i] H Hi; simplify_eq/=.
  - destruct r; [done|]. pose proof (reserved_nonneg l). lia.
  - eapply IH; [|done]. destruct x; [done|]. pose proof (reserved_nonneg l). lia.
Qed.

Lemma reserved_replicate n : reserved (replicate n MEMB_REF_AVAILABLE) = 0.
Proof. by induction n. Qed.

(** ** The search loop *)

Section FirstFit.
Context (mb : memb_t) (Hwf : memb_wf mb).

Lemma memb_bnum_range : 0 < m_bnum mb < 2 ^ 32.
Proof. destruct Hwf. nia. Qed.

Lemma ref_at_in_range i :
  0 ≤ i < m_bnum mb → ∃ r, arr_get (m_breftype mb) i = Ok r ∧ ref_at mb i = Some r.
Proof. intros. apply arr_get_in_range. destruct Hwf. lia. Qed.

Lemma incr_block_index_spec b :
  0 ≤ b ≤ m_bnum mb →
  _incr_block_index (set_m_bidx mb b) =
    set_m_bidx mb (if b <? m_bnum mb - 1 then b + 1 else 1).
Proof.
  intros. pose proof memb_bnum_range. unfold _incr_block_index. simpl.
  rewrite (wrapu_small 32 (m_bnum mb - 1)) by lia.
  repeat case_cmp; try lia; unfold set_m_bidx; simpl; f_equal; rewrite wrapu_small; lia.
Qed.

(** Steps of [_incr_block_index] from [b] until the index is [cur] again. *)
Definition memb_dist (cur b : Z) : Z :=
  if b <? cur then cur - b else m_bnum mb - 1 - b + cur.

Lemma memb_first_fit_spec fuel cur b :
  1 ≤ cur < m_bnum mb → 1 ≤ b < m_bnum mb →
  memb_dist cur b ≤ Z.of_nat fuel →
  (∃ i, memb_first_fit fuel cur (set_m_bidx mb b) = Ok (Some i, set_m_bidx mb i) ∧
        1 ≤ i < m_bnum mb ∧ ref_at mb i = Some MEMB_REF_AVAILABLE) ∨
  (memb_first_fit fuel cur (set_m_bidx mb b) = Ok (None, set_m_bidx mb cur) ∧
   ∀ i, 1 ≤ i < m_bnum mb → i = cur ∨ memb_dist cur i < memb_dist cur b →
        ref_at mb i = Some MEMB_REF_RESERVED).
Proof.
  revert b. induction fuel as [|fuel IH]; intros b Hcur Hb Hfuel.
  - unfold memb_dist in Hfuel. case_cmp; lia.
  - cbn [memb_first_fit]. rewrite incr_block_index_spec by lia.
    set (b' := if b <? m_bnum mb - 1 then b + 1 else 1).
    assert (Hb' : 1 ≤ b' < m_bnum mb) by (unfold b'; case_cmp; lia).
    assert (Hd : b' = cur ∨ memb_dist cur b' = memb_dist cur b - 1)
      by (unfold b', memb_dist in *; repeat case_cmp; lia).
    cbv zeta. change (m_bidx (set_m_bidx mb b')) with b'.
    change (m_breftype (set_m_bidx mb b')) with (m_breftype mb).
    destruct (ref_at_in_range b') as (r & -> & Hr); [lia|]. cbn [mbind outcome_bind].
    case_decide as Hav; [left; exists b'; by subst|].
    destruct r; [done|]. destruct (Z.eqb_spec cur b') as [Hcb|Hcb].
    + right. subst. split; [done|]. intros i Hi Hpath.
      destruct (decide (i = b')) as [->|Hne]; [done|].
      exfalso. unfold memb_dist, b' in *. repeat case_cmp; lia.
    + destruct Hd as [|Hd]; [congruence|].
      destruct (IH b') as [?|[Hrun Hall]]; [done..|lia|by left|right].
      split; [done|]. intros i Hi Hpath.
      destruct (decide (i = b')) as [->|Hne]; [done|].
      apply Hall; [done|]. destruct Hpath as [?|Hpath]; [by left|right].
      unfold memb_dist, b' in *. repeat case_cmp; lia.
Qed.

Lemma memb_allocate_spec i b :
  0 ≤ i < m_bnum mb → ref_at mb i = Some MEMB_REF_AVAILABLE → b = i →
  ∃ mb', memb_allocate (set_m_bidx mb b) i = Ok (block_addr mb i, mb') ∧ memb_wf mb' ∧
    m_breftype mb' = <[Z.to_nat i := MEMB_REF_RESERVED]> (m_breftype mb) ∧
    m_size mb' = m_size mb + 1.
Proof.
  intros Hi Hav ->. pose proof memb_bnum_range as Hn. destruct Hwf.
  unfold memb_allocate. cbn -[_incr_block_index].
  rewrite arr_set_in_range by lia. cbn -[_incr_block_index].
  set (l := <[_ := _]> _).
  assert (Hl : reserved l = reserved (m_breftype mb) + 1) by (by apply reserved_reserve).
  assert (Hlen : length l = length (m_breftype mb)) by apply length_insert.
  pose proof (reserved_nonneg (m_breftype mb)).
  pose proof (reserved_nonneg l).
  eexists. split; [done|]. unfold _incr_block_index. simpl.
  rewrite (wrapu_small 32 (m_bnum mb - 1)) by lia.
  case_cmp; simpl; (split; [|split; [done|]]).
  all: try (rewrite wrapu_small; lia).
  all: rewrite (wrapu_small 32 (m_size mb + 1)) by lia.
  all: split; simpl; try rewrite wrapu_small by lia; try lia; try done.
Qed.

End FirstFit.

Lemma set_m_bidx_id mb : set_m_bidx mb (m_bidx mb) = mb.
Proof. by destruct mb. Qed.

Lemma memb_wf_set_bidx mb i :
  memb_wf mb → 1 ≤ i < m_bnum mb → memb_wf (set_m_bidx mb i).
Proof. intros []. split; simpl; try done; lia. Qed.

(** ** Operations *)

(** What a call of [memb_alloc] that returned [p] did. *)
Definition memb_alloc_post (mb : memb_t) (p : Z) (mb' : memb_t) : Prop :=
  (∃ i, 0 ≤ i < m_bnum mb ∧ ref_at mb i = Some MEMB_REF_AVAILABLE ∧
        p = block_addr mb i ∧ 0 < p ∧
        m_breftype mb' = <[Z.to_nat i := MEMB_REF_RESERVED]> (m_breftype mb) ∧
        m_size mb' = m_size mb + 1) ∨
  (p = 0 ∧ m_breftype mb' = m_breftype mb ∧ m_size mb' = m_size mb ∧
   ∀ i, 1 ≤ i < m_bnum mb → ref_at mb i = Some MEMB_REF_RESERVED).

(** What a call of [memb_free] that returned [ret] did. *)
Definition memb_free_post (mb : memb_t) (addr ret : Z) (mb' : memb_t) : Prop :=
  (ret = 0 ∧ ∃ i, 0 ≤ i < m_bnum mb ∧ addr = block_addr mb i ∧
     ref_at mb i = Some MEMB_REF_RESERVED ∧
     m_breftype mb' = <[Z.to_nat i := MEMB_REF_AVAILABLE]> (m_breftype mb) ∧
     m_size mb' = m_size mb - 1) ∨
  (ret = -1 ∧ mb' = mb ∧
   ∀ i, 0 ≤ i < m_bnum mb → addr = block_addr mb i → ref_at mb i = Some MEMB_REF_AVAILABLE).

Lemma memb_alloc_spec mb :
  memb_wf mb →
  ∃ p mb', memb_alloc (Some mb) = Ok (p, Some mb') ∧ memb_wf mb' ∧ memb_alloc_post mb p mb'.
Proof.
  unfold memb_alloc_post. intros Hwf. pose proof (memb_bnum_range mb Hwf) as Hn. pose proof Hwf as [].
  assert (Hpos : ∀ i, 0 ≤ i < m_bnum mb → 0 < block_addr mb i) by (unfold block_addr; nia).
  unfold memb_alloc. case_cmp.
  { exists 0, mb. split; [done|]. split; [done|]. right. repeat split; try done. lia. }
  destruct (ref_at_in_range mb Hwf (m_bidx mb)) as (r & -> & Hr); [lia|]. cbn [mbind outcome_bind].
  case_decide as Hav.
  - destruct (memb_allocate_spec mb Hwf (m_bidx mb) (m_bidx mb)) as (mb' & Hrun & ? & ? & ?);
      [lia|by subst|done|].
    rewrite set_m_bidx_id in Hrun. rewrite Hrun. cbn.
    exists (block_addr mb (m_bidx mb)), mb'. repeat (split; [done|]).
    left. exists (m_bidx mb). subst r. repeat split; auto with lia.
  - destruct r; [done|].
    assert (Hb0 : m_bidx mb ≠ 0) by (intros Hb; unfold ref_at in Hr; rewrite Hb in Hr; change (Z.to_nat 0) with 0%nat in Hr;
        rewrite (wf_bidx_0 mb Hwf Hb) in Hr; done).
    destruct (memb_first_fit_spec mb Hwf (S (Z.to_nat (m_bnum mb))) (m_bidx mb) (m_bidx mb))
      as [(i & Hrun & Hi & Hav')|(Hrun & Hall)]; [lia|lia|unfold memb_dist; case_cmp; lia|..].
    all: rewrite set_m_bidx_id in Hrun; rewrite Hrun; cbn.
    + destruct (memb_allocate_spec mb Hwf i i) as (mb' & -> & ? & ? & ?); [lia|done|done|]. cbn.
      exists (block_addr mb i), mb'. repeat (split; [done|]).
      left. exists i. repeat split; auto with lia.
    + exists 0, mb. repeat (split; [done|]). right. repeat (split; [done|]).
      intros i Hi. apply Hall; [done|]. unfold memb_dist. repeat case_cmp; lia.
Qed.

Lemma memb_free_loop_spec mb addr n bidx :
  memb_wf mb → 0 ≤ bidx → bidx + Z.of_nat n = m_bnum mb →
  (∃ i, bidx ≤ i < m_bnum mb ∧ addr = block_addr mb i ∧ ref_at mb i = Some MEMB_REF_RESERVED ∧
        memb_free_loop n bidx (block_addr mb bidx) addr mb =
        Ok (0, set_m_bidx (set_m_size (set_m_breftype mb
                 (<[Z.to_nat i := MEMB_REF_AVAILABLE]> (m_breftype mb))) (m_size mb - 1))
                 (if m_size mb - 1 =? 0 then 0 else i))) ∨
  (memb_free_loop n bidx (block_addr mb bidx) addr mb = Ok (-1, mb) ∧
   ∀ i, bidx ≤ i < m_bnum mb → addr = block_addr mb i → ref_at mb i = Some MEMB_REF_AVAILABLE).
Proof.
  intros Hwf. pose proof Hwf as []. revert bidx.
  induction n as [|n IH]; intros bidx H0 Hn; cbn [memb_free_loop].
  { right. split; [done|]. lia. }
  destruct (Z.eqb_spec (block_addr mb bidx) addr) as [Heq|Hne].
  - destruct (ref_at_in_range mb Hwf bidx) as (r & -> & Hr); [lia|]. cbn [mbind outcome_bind].
    case_decide as Hav.
    + right. split; [done|]. intros i Hi Ha. unfold block_addr in *.
      assert (i = bidx) as -> by nia. by subst.
    + destruct r; [done|]. left. exists bidx. repeat split; try done; [lia|].
      rewrite arr_set_in_range by lia. cbn [mbind outcome_bind].
      assert (Hpos : 0 ≤ m_size mb - 1).
      { pose proof (reserved_nonneg (<[Z.to_nat bidx := MEMB_REF_AVAILABLE]> (m_breftype mb))).
        unfold ref_at in Hr. rewrite reserved_release in * by done. lia. }
      pose proof (reserved_nonneg (m_breftype mb)).
      rewrite (wrapu_small 32 (m_size (set_m_breftype mb _) - 1)); [done|simpl; nia].
  - replace (block_addr mb bidx + m_bsize mb) with (block_addr mb (bidx + 1))
      by (unfold block_addr; lia).
    destruct (IH (bidx + 1)) as [(i & ? & ? & ? & Hrun)|[Hrun Hall]]; [lia|lia|..].
    + left. exists i. repeat split; try done; lia.
    + right. split; [done|]. intros i Hi Ha. apply Hall; [|done].
      assert (i ≠ bidx) by congruence. lia.
Qed.

Lemma memb_ptr_bound_block mb i :
  memb_wf mb → 0 ≤ i < m_bnum mb → MEMB_PTR_BOUND mb (block_addr mb i) = true.
Proof.
  intros [] Hi. unfold MEMB_PTR_BOUND, block_addr.
  rewrite !wrapu_small; [|nia|rewrite wrapu_small; nia]. repeat case_cmp; simpl; nia.
Qed.

Lemma memb_wf_release mb i :
  memb_wf mb → 0 ≤ i < m_bnum mb → ref_at mb i = Some MEMB_REF_RESERVED →
  memb_wf (set_m_bidx (set_m_size (set_m_breftype mb
             (<[Z.to_nat i := MEMB_REF_AVAILABLE]> (m_breftype mb))) (m_size mb - 1))
             (if m_size mb - 1 =? 0 then 0 else i)).
Proof.
  intros [] Hi Hr. unfold ref_at in Hr.
  assert (Hsz := reserved_release _ _ Hr).
  split; simpl; try done; rewrite ?length_insert; try done; try (case_cmp; lia); [|lia].
  case_cmp; intros Hz.
  - destruct (lookup_lt_is_Some_2 (<[Z.to_nat i:=MEMB_REF_AVAILABLE]> (m_breftype mb)) 0)
      as [r Hr0]; [rewrite length_insert; lia|].
    rewrite Hr0. f_equal. eapply reserved_0; [|done]. lia.
  - rewrite Hz. apply list_lookup_insert_eq. lia.
Qed.

Lemma memb_free_spec mb addr :
  memb_wf mb →
  ∃ ret mb', memb_free (Some mb) addr = Ok (ret, Some mb') ∧ memb_wf mb' ∧
    memb_free_post mb addr ret mb'.
Proof.
  unfold memb_free_post. intros Hwf. pose proof Hwf as []. unfold memb_free.
  destruct (MEMB_PTR_BOUND mb addr) eqn:Hb; simpl.
  - destruct (memb_free_loop_spec mb addr (Z.to_nat (m_bnum mb)) 0 Hwf)
      as [(i & Hi & Ha & Hr & Hrun)|[Hrun Hall]]; [lia|lia|..].
    all: unfold block_addr in Hrun at 1; rewrite Z.add_0_r in Hrun; rewrite Hrun; cbn.
    + eexists _, _. split; [done|]. split; [by apply memb_wf_release|].
      left. split; [done|]. exists i. done.
    + exists (-1), mb. repeat (split; [done|]). by right.
  - exists (-1), mb. repeat (split; [done|]). right. repeat (split; [done|]).
    intros i Hi ->. rewrite memb_ptr_bound_block in Hb by done. done.
Qed.

Lemma memb_init_loop_spec n bidx (l : list memb_ref_type_t) :
  0 ≤ bidx → bidx + Z.of_nat n = Z.of_nat (length l) →
  (∀ j, (j < Z.to_nat bidx)%nat → l !! j = Some MEMB_REF_AVAILABLE) →
  memb_init_loop n bidx l = Ok (replicate (length l) MEMB_REF_AVAILABLE).
Proof.
  revert bidx l. induction n as [|n IH]; intros bidx l H0 Hn Hl; cbn [memb_init_loop].
  - f_equal. apply list_eq. intros j. destruct (decide (j < length l)%nat).
    + rewrite Hl by lia. by rewrite lookup_replicate_2.
    + rewrite !lookup_ge_None_2; [done|rewrite length_replicate; lia|lia].
  - rewrite arr_set_in_range by lia. cbn [mbind outcome_bind].
    rewrite IH; rewrite ?length_insert; try lia; [done|].
    intros j Hj. destruct (decide (j = Z.to_nat bidx)) as [->|].
    + apply list_lookup_insert_eq. lia.
    + rewrite list_lookup_insert_ne by done. apply Hl. lia.
Qed.

Lemma memb_init_spec mb m :
  memb_wf mb →
  ∃ mb' m', memb_init mb m = Ok (mb', m') ∧ memb_wf mb' ∧
    m_breftype mb' = replicate (Z.to_nat (m_bnum mb)) MEMB_REF_AVAILABLE ∧ m_size mb' = 0 ∧
    ∀ a, load8 m' a =
      if (m_bpool mb <=? a) && (a <? m_bpool mb + m_bnum mb * m_bsize mb) then 0 else load8 m a.
Proof.
  intros Hwf. pose proof Hwf as []. unfold memb_init.
  rewrite memb_init_loop_spec; [|lia|lia|lia]. cbn.
  eexists _, _. split; [done|]. cbn.
  replace (length (m_breftype mb)) with (Z.to_nat (m_bnum mb)) by lia.
  split; [|split; [done|split; [done|]]].
  - split; simpl; try done.
    + rewrite length_replicate. lia.
    + intros _. apply lookup_replicate_2. lia.
    + by rewrite reserved_replicate.
  - intros a. rewrite load8_mem_fill, (wrapu_small 32 (m_bsize mb * m_bnum mb)) by nia.
    rewrite Z2Nat.id by nia. by rewrite (Z.mul_comm (m_bsize mb)).
Qed.

(** The states a pool declared with [MEMB] goes through. *)
Inductive memb_reachable (sz num pool : Z) : memb_t → Prop :=
| memb_declared : memb_reachable sz num pool (MEMB sz num pool)
| memb_after_init mb m mb' m' :
    memb_reachable sz num pool mb → memb_init mb m = Ok (mb', m') →
    memb_reachable sz num pool mb'
| memb_after_alloc mb p mb' :
    memb_reachable sz num pool mb → memb_alloc (Some mb) = Ok (p, Some mb') →
    memb_reachable sz num pool mb'
| memb_after_free mb addr ret mb' :
    memb_reachable sz num pool mb → memb_free (Some mb) addr = Ok (ret, Some mb') →
    memb_reachable sz num pool mb'.

Definition memb_params (sz num pool : Z) : Prop :=
  0 < sz ∧ 0 < num ∧ 0 < pool ∧ pool + num * sz < 2 ^ 32.

Lemma memb_reachable_wf sz num pool mb :
  memb_params sz num pool → memb_reachable sz num pool mb → memb_wf mb.
Proof.
  intros (? & ? & ? & ?) Hr.
  induction Hr as [|? m ? ? ? IH Hrun|? ? ? ? IH Hrun|? addr ? ? ? IH Hrun].
  - split; simpl; rewrite ?length_replicate, ?reserved_replicate; try lia.
    intros _. apply lookup_replicate_2. lia.
  - destruct (memb_init_spec _ m IH) as (? & ? & Hrun' & ? & _).
    rewrite Hrun in Hrun'. by simplify_eq.
  - destruct (memb_alloc_spec _ IH) as (? & ? & Hrun' & ? & _).
    rewrite Hrun in Hrun'. by simplify_eq.
  - destruct (memb_free_spec _ addr IH) as (? & ? & Hrun' & ? & _).
    rewrite Hrun in Hrun'. by simplify_eq.
Qed.

(** C38: on any pool that was declared with [MEMB] and then used through
    [memb_init], [memb_alloc] and [memb_free] in any order, [memb_alloc]
    returns without a fault (its search terminates inside the array), and
    either hands out the non-null address of one block that was available,
    marking exactly that block, or returns null, in which case the pool is
    untouched and every block but block 0 is reserved. *)
Theorem memb_alloc_correct sz num pool mb :
  memb_params sz num pool → memb_reachable sz num pool mb →
  ∃ p mb', memb_alloc (Some mb) = Ok (p, Some mb') ∧ memb_alloc_post mb p mb'.
Proof.
  intros Hp Hr. destruct (memb_alloc_spec mb) as (p & mb' & ? & _ & ?).
  - by eapply memb_reachable_wf.
  - eauto.
Qed.

(** C39: on any pool in use, [memb_free] returns 0 exactly when the address is
    the start of a reserved block, which alone becomes available; in every
    other case (out of bounds, inside a block, already free) it returns -1 and
    leaves the pool as it was. *)
Theorem memb_free_correct sz num pool mb addr :
  memb_params sz num pool → memb_reachable sz num pool mb →
  ∃ ret mb', memb_free (Some mb) addr = Ok (ret, Some mb') ∧ memb_free_post mb addr ret mb'.
Proof.
  intros Hp Hr. destruct (memb_free_spec mb addr) as (ret & mb' & ? & _ & ?).
  - by eapply memb_reachable_wf.
  - eauto.
Qed.

(** Although the comment of [memb_alloc] says null means that no block is
    free, a pool can reach a state in which block 0 is available and
    [memb_alloc] returns null: [_incr_block_index] never yields 0. *)
Theorem memb_alloc_misses_block_0 :
  ∃ mb, memb_reachable 16 3 4096 mb ∧ ref_at mb 0 = Some MEMB_REF_AVAILABLE ∧
    ∃ mb', memb_alloc (Some mb) = Ok (0, Some mb').
Proof.
  set (A := MEMB_REF_AVAILABLE). set (R := MEMB_REF_RESERVED).
  exists (MkMemb 16 3 [A; R; R] 2 2 4096). split; [|split; [done|by eexists]].
  apply (memb_after_alloc _ _ _ (MkMemb 16 3 [A; A; R] 1 1 4096) 4112); [|done].
  apply (memb_after_free _ _ _ (MkMemb 16 3 [A; R; R] 0 2 4096) 4112 0); [|done].
  apply (memb_after_free _ _ _ (MkMemb 16 3 [R; R; R] 1 3 4096) 4096 0); [|done].
  apply (memb_after_alloc _ _ _ (MkMemb 16 3 [R; R; A] 2 2 4096) 4128); [|done].
  apply (memb_after_alloc _ _ _ (MkMemb 16 3 [R; A; A] 1 1 4096) 4112); [|done].
  apply (memb_after_alloc _ _ _ (MEMB 16 3 4096) 4096); [|done].
  apply memb_declared.
Qed.

(** ** Witnesses *)

Lemma memb_alloc_correct_witness :
  ∃ p mb', memb_alloc (Some (MEMB 16 3 4096)) = Ok (p, Some mb') ∧
    memb_alloc_post (MEMB 16 3 4096) p mb'.
Proof.
  apply (memb_alloc_correct 16 3 4096).
  - unfold memb_params. lia.
  - apply memb_declared.
Defined.

Lemma memb_free_correct_witness :
  ∃ ret mb', memb_free (Some (MEMB 16 3 4096)) 4112 = Ok (ret, Some mb') ∧
    memb_free_post (MEMB 16 3 4096) 4112 ret mb'.
Proof.
  apply (memb_free_correct 16 3 4096).
  - unfold memb_params. lia.
  - apply memb_declared.
Defined.
