(* ===== verification/MembSet.v ===== *)
(** A pool of memb.c as the set of blocks it has handed out: what clients of the
    pool rely on. *)

From S2P Require Import Prelude Memory Memb.

(** ** The shape of a pool never changes *)

Definition shape (mb : memb_t) : Z * Z * Z := (m_bsize mb, m_bnum mb, m_bpool mb).

Lemma incr_block_index_shape mb : shape (_incr_block_index mb) = shape mb.
Proof. unfold _incr_block_index. by destruct (_ <=? _). Qed.

Lemma memb_first_fit_shape fuel cur mb r mb' : memb_first_fit fuel cur mb = Ok (r, mb') → shape mb' = shape mb.
Proof.
  revert mb. induction fuel as [|fuel IH]; intros mb; cbn [memb_first_fit]; [done|].
  destruct (arr_get _ _); cbn [mbind outcome_bind]; [|done]. case_decide.
  - intros [= <- <-]. apply incr_block_index_shape.
  - destruct (_ =? _).
    + intros [= <- <-]. apply incr_block_index_shape.
    + intros E%IH. by rewrite E, incr_block_index_shape.
Qed.

Lemma memb_allocate_shape mb i p mb' : memb_allocate mb i = Ok (p, mb') → shape mb' = shape mb.
Proof.
  unfold memb_allocate. destruct (arr_set _ _ _); cbn [mbind outcome_bind]; [|done]. intros [= <- <-].
  exact (incr_block_index_shape (set_m_breftype mb a)).
Qed.

Lemma memb_alloc_shape mb p mb' : memb_alloc (Some mb) = Ok (p, Some mb') → shape mb' = shape mb.
Proof.
  unfold memb_alloc. destruct (_ <=? _); [by intros [= _ <-]|]. destruct (arr_get _ _); cbn [mbind outcome_bind]; [|done]. case_decide.
  - destruct (memb_allocate _ _) as [[b m1]|] eqn:E; cbn; [|done]. intros [= _ <-]. by apply memb_allocate_shape in E.
  - destruct (memb_first_fit _ _ _) as [[[i|] m1]|] eqn:E; cbn [mbind outcome_bind]; [| |done].
    + apply memb_first_fit_shape in E. destruct (memb_allocate _ _) as [[b m2]|] eqn:E2; cbn; [|done]. intros [= _ <-].
      apply memb_allocate_shape in E2. congruence.
    + intros [= _ <-]. by apply memb_first_fit_shape in E.
Qed.

Lemma memb_free_loop_shape n bidx block addr mb r mb' : memb_free_loop n bidx block addr mb = Ok (r, mb') → shape mb' = shape mb.
Proof.
  revert bidx block. induction n as [|n IH]; intros bidx block; cbn [memb_free_loop]; [by intros [= _ <-]|].
  destruct (_ =? _); [|apply IH]. destruct (arr_get _ _); cbn [mbind outcome_bind]; [|done]. case_decide; [by intros [= _ <-]|].
  destruct (arr_set _ _ _); cbn [mbind outcome_bind]; [|done]. by intros [= _ <-].
Qed.

Lemma memb_free_shape mb addr r mb' : memb_free (Some mb) addr = Ok (r, Some mb') → shape mb' = shape mb.
Proof.
  unfold memb_free. destruct (negb _); [by intros [= _ <-]|].
  destruct (memb_free_loop _ _ _ _ _) as [[r1 m1]|] eqn:E; cbn; [|done]. intros [= _ <-]. by apply memb_free_loop_shape in E.
Qed.

(** ** The set of reserved blocks *)

(** [R] is the set of indices of the blocks handed out. *)
Record pool_rep (sz num pool : Z) (mb : memb_t) (R : gset Z) : Prop := {
  rep_wf : memb_wf mb;
  rep_shape : shape mb = (sz, num, pool);
  rep_range i : i ∈ R → 0 ≤ i < num;
  rep_set i : 0 ≤ i < num → ref_at mb i = Some (if decide (i ∈ R) then MEMB_REF_RESERVED else MEMB_REF_AVAILABLE);
}.

Definition pool_block (sz pool i : Z) : Z := pool + i * sz.

Lemma pool_block_addr sz num pool mb R i : pool_rep sz num pool mb R → block_addr mb i = pool_block sz pool i.
Proof. intros H. pose proof (rep_shape _ _ _ _ _ H) as E. unfold shape in E. injection E as <- <- <-. done. Qed.

Lemma ref_at_insert mb mb' i j r : m_breftype mb' = <[Z.to_nat i := r]> (m_breftype mb) → memb_wf mb → 0 ≤ i < m_bnum mb → 0 ≤ j →
  ref_at mb' j = if decide (j = i) then Some r else ref_at mb j.
Proof.
  intros E [] Hi Hj. unfold ref_at. rewrite E. case_decide.
  - subst. apply list_lookup_insert_eq. lia.
  - apply list_lookup_insert_ne. lia.
Qed.

Lemma pool_rep_alloc sz num pool mb R : pool_rep sz num pool mb R → (∃ i, 1 ≤ i < num ∧ i ∉ R) →
  ∃ i mb', memb_alloc (Some mb) = Ok (pool_block sz pool i, Some mb') ∧ 0 < pool_block sz pool i ∧ i ∉ R ∧
    pool_rep sz num pool mb' ({[i]} ∪ R).
Proof.
  intros Hrep (i0 & Hi0 & Hfree). pose proof Hrep as [Hwf Hsh Hrg Hset].
  assert (m_bnum mb = num) as Hnum by (unfold shape in Hsh; congruence).
  destruct (memb_alloc_spec mb Hwf) as (p & mb' & Hrun & Hwf' & [(i & Hi & Hav & -> & Hp & Hl & _)|(_ & _ & _ & Hall)]).
  - exists i, mb'. rewrite <- (pool_block_addr sz num pool mb R i Hrep). rewrite Hset in Hav by lia. case_decide as Hin; [done|].
    split_and!; try done. split; [done | by rewrite (memb_alloc_shape _ _ _ Hrun) | |].
    + intros j Hj. apply elem_of_union in Hj as [->%elem_of_singleton|Hj]; [lia | by apply Hrg].
    + intros j Hj. rewrite (ref_at_insert mb mb' i j _ Hl Hwf) by lia. rewrite Hset by done.
      rewrite (decide_ext (j ∈ {[i]} ∪ R) (j = i ∨ j ∈ R)) by (rewrite elem_of_union, elem_of_singleton; done).
      destruct (decide (j = i)), (decide (j ∈ R)), (decide (j = i ∨ j ∈ R)); tauto.
  - specialize (Hall i0 ltac:(lia)). rewrite Hset in Hall by lia. case_decide; [done | congruence].
Qed.

Lemma pool_rep_free sz num pool mb R i : pool_rep sz num pool mb R → i ∈ R →
  ∃ mb', memb_free (Some mb) (pool_block sz pool i) = Ok (0, Some mb') ∧ pool_rep sz num pool mb' (R ∖ {[i]}).
Proof.
  intros Hrep Hin. pose proof Hrep as [Hwf Hsh Hrg Hset]. specialize (Hrg i Hin) as Hi.
  assert (m_bnum mb = num) as Hnum by (unfold shape in Hsh; congruence).
  rewrite <- (pool_block_addr sz num pool mb R i Hrep).
  destruct (memb_free_spec mb (block_addr mb i) Hwf) as (r & mb' & Hrun & Hwf' & [(-> & j & Hj & Ea & _ & Hl & _)|(_ & _ & Hall)]).
  - assert (j = i) as -> by (pose proof (wf_bsize _ Hwf); unfold block_addr in Ea; nia). exists mb'. split; [done|].
    split; [done | by rewrite (memb_free_shape _ _ _ _ Hrun) | intros j' Hj'; apply Hrg; set_solver|].
    intros j' Hj'. rewrite (ref_at_insert mb mb' i j' _ Hl Hwf) by lia. rewrite Hset by done.
    rewrite (decide_ext (j' ∈ R ∖ {[i]}) (j' ∈ R ∧ j' ≠ i)) by (rewrite elem_of_difference, elem_of_singleton; done).
    destruct (decide (j' = i)), (decide (j' ∈ R)), (decide (j' ∈ R ∧ j' ≠ i)); tauto.
  - specialize (Hall i ltac:(lia) eq_refl). rewrite Hset in Hall by done. case_decide; [congruence | done].
Qed.

Lemma pool_rep_init sz num pool mb R m : pool_rep sz num pool mb R → ∃ mb' m', memb_init mb m = Ok (mb', m') ∧ pool_rep sz num pool mb' ∅.
Proof.
  intros [Hwf Hsh _ _]. assert (m_bnum mb = num) as Hnum by (unfold shape in Hsh; congruence).
  destruct (memb_init_spec mb m Hwf) as (mb' & m' & Hrun & Hwf' & Hl & _). exists mb', m'. split; [done|].
  split; [done | | set_solver|].
  - rewrite <- Hsh. unfold memb_init in Hrun. destruct (memb_init_loop _ _ _); cbn in Hrun; [|done]. by injection Hrun as <- _.
  - intros i Hi. unfold ref_at. rewrite Hl. case_decide; [set_solver|]. apply lookup_replicate_2. lia.
Qed.

Lemma pool_rep_declared sz num pool : memb_params sz num pool → pool_rep sz num pool (MEMB sz num pool) ∅.
Proof.
  intros Hp. split; [apply (memb_reachable_wf sz num pool); [done | constructor] | done | set_solver|].
  intros i Hi. case_decide; [set_solver|]. apply lookup_replicate_2. lia.
Qed.
