(* ===== verification/Tlsf.v ===== *)
(** * The TLSF allocator: [libyaul/kernel/mm/tlsf.c]

    The model of the allocator the kernel's pools are made of.  A
    [block_header_t *] is the address of the header in the byte memory, whose
    fields are at offsets 0 ([prev_phys_block]), 4 ([size]), 8 ([next_free])
    and 12 ([prev_free]).  The control structure is a record, except for
    [block_null], which other blocks point to and which is kept in memory at
    the address of the control structure, of which it is the first field.
    Sizes and pointers are 32-bit, as on the SH-2 (TLSF_64BIT undefined). *)

From S2P Require Import Prelude Memory.

(** ** Bit operations *)

(** The gcc builtins, as gcc documents them. *)
Definition builtin_clz (x : Z) : Z := 31 - Z.log2 x.

Fixpoint pos_ctz (p : positive) : Z :=
  match p with
  | xO p => 1 + pos_ctz p
  | _ => 0
  end.

Definition builtin_ffs (x : Z) : Z :=
  match x with
  | Zpos p => 1 + pos_ctz p
  | _ => 0
  end.

Definition tlsf_ffs (word : Z) : Z := builtin_ffs word - 1.

Definition tlsf_fls (word : Z) : Z :=
  let bit := if testz word then 32 - builtin_clz word else 0 in
  bit - 1.

(** The fallback for compilers without the builtins. *)
Definition fls_step (mask n : Z) (st : Z * Z) : Z * Z :=
  let '(word, bit) := st in
  if Z.land word mask =? 0 then (u32 (Z.shiftl word n), bit - n) else (word, bit).

Definition tlsf_fls_generic (word : Z) : Z :=
  let bit := 32 in
  let bit := if word =? 0 then bit - 1 else bit in
  let st := fls_step 0xffff0000 16 (word, bit) in
  let st := fls_step 0xff000000 8 st in
  let st := fls_step 0xf0000000 4 st in
  let st := fls_step 0xc0000000 2 st in
  let st := fls_step 0x80000000 1 st in
  st.2.

Definition tlsf_ffs_generic (word : Z) : Z :=
  tlsf_fls_generic (Z.land word (u32 (u32 (Z.lnot word) + 1))) - 1.

(** ** Constants *)

Definition SL_INDEX_COUNT_LOG2 : Z := 5.
Definition ALIGN_SIZE_LOG2 : Z := 2.
Definition ALIGN_SIZE : Z := Z.shiftl 1 ALIGN_SIZE_LOG2.
Definition FL_INDEX_MAX : Z := 30.
Definition SL_INDEX_COUNT : Z := Z.shiftl 1 SL_INDEX_COUNT_LOG2.
Definition FL_INDEX_SHIFT : Z := SL_INDEX_COUNT_LOG2 + ALIGN_SIZE_LOG2.
Definition FL_INDEX_COUNT : Z := FL_INDEX_MAX - FL_INDEX_SHIFT + 1.
Definition SMALL_BLOCK_SIZE : Z := Z.shiftl 1 FL_INDEX_SHIFT.

Definition block_header_free_bit : Z := Z.shiftl 1 0.
Definition block_header_prev_free_bit : Z := Z.shiftl 1 1.
Definition block_header_overhead : Z := 4.
Definition block_start_offset : Z := 4 + 4.
Definition sizeof_block_header_t : Z := 16.
Definition block_size_min : Z := sizeof_block_header_t - 4.
Definition block_size_max : Z := Z.shiftl 1 FL_INDEX_MAX.

(** ** State *)

Record control_t := MkControl {
  control_addr : Z;          (** also the address of [block_null] *)
  fl_bitmap : Z;
  sl_bitmap : list Z;
  blocks : list (list Z);
}.

Record tlsf_state := MkTlsf {
  tmem : mem;
  ctl : control_t;
}.

Abbreviation TM := (M tlsf_state).

Definition set_tmem (f : mem → mem) (s : tlsf_state) : tlsf_state :=
  MkTlsf (f (tmem s)) (ctl s).
Definition set_fl_bitmap (v : Z) (s : tlsf_state) : tlsf_state :=
  MkTlsf (tmem s) (MkControl (control_addr (ctl s)) v (sl_bitmap (ctl s)) (blocks (ctl s))).
Definition set_sl_bitmap (l : list Z) (s : tlsf_state) : tlsf_state :=
  MkTlsf (tmem s) (MkControl (control_addr (ctl s)) (fl_bitmap (ctl s)) l (blocks (ctl s))).
Definition set_blocks (l : list (list Z)) (s : tlsf_state) : tlsf_state :=
  MkTlsf (tmem s) (MkControl (control_addr (ctl s)) (fl_bitmap (ctl s)) (sl_bitmap (ctl s)) l).

Definition rd (a : Z) : TM Z := gets (λ s, load32 (tmem s) a).
Definition wr (a v : Z) : TM unit := modify (set_tmem (λ m, store32 m a v)).

(** Field offsets of [block_header_t]. *)
Definition prev_phys_block (b : Z) : Z := b.
Definition size_field (b : Z) : Z := b + 4.
Definition next_free (b : Z) : Z := b + 8.
Definition prev_free (b : Z) : Z := b + 12.

Definition block_null : TM Z := gets (λ s, control_addr (ctl s)).

Definition sl_get (fl : Z) : TM Z :=
  l ← gets (λ s, sl_bitmap (ctl s)); lift (arr_get l fl).
Definition sl_set (fl v : Z) : TM unit :=
  l ← gets (λ s, sl_bitmap (ctl s));
  l ← lift (arr_set l fl v);
  modify (set_sl_bitmap l).
Definition blocks_get (fl sl : Z) : TM Z :=
  bs ← gets (λ s, blocks (ctl s));
  row ← lift (arr_get bs fl);
  lift (arr_get row sl).
Definition blocks_set (fl sl b : Z) : TM unit :=
  bs ← gets (λ s, blocks (ctl s));
  row ← lift (arr_get bs fl);
  row ← lift (arr_set row sl b);
  bs ← lift (arr_set bs fl row);
  modify (set_blocks bs).

(** ** Block header operations *)

Definition flag_bits : Z := Z.lor block_header_free_bit block_header_prev_free_bit.

Definition block_size (block : Z) : TM Z :=
  size ← rd (size_field block);
  mret (Z.land size (u32 (Z.lnot flag_bits))).

Definition block_set_size (block size : Z) : TM unit :=
  oldsize ← rd (size_field block);
  wr (size_field block) (Z.lor size (Z.land oldsize flag_bits)).

Definition block_is_last (block : Z) : TM bool :=
  size ← block_size block; mret (size =? 0).

Definition block_is_free (block : Z) : TM bool :=
  size ← rd (size_field block); mret (testz (Z.land size block_header_free_bit)).

Definition block_set_free (block : Z) : TM unit :=
  size ← rd (size_field block);
  wr (size_field block) (Z.lor size block_header_free_bit).

Definition block_set_used (block : Z) : TM unit :=
  size ← rd (size_field block);
  wr (size_field block) (Z.land size (u32 (Z.lnot block_header_free_bit))).

Definition block_is_prev_free (block : Z) : TM bool :=
  size ← rd (size_field block); mret (testz (Z.land size block_header_prev_free_bit)).

Definition block_set_prev_free (block : Z) : TM unit :=
  size ← rd (size_field block);
  wr (size_field block) (Z.lor size block_header_prev_free_bit).

Definition block_set_prev_used (block : Z) : TM unit :=
  size ← rd (size_field block);
  wr (size_field block) (Z.land size (u32 (Z.lnot block_header_prev_free_bit))).

Definition block_from_ptr (ptr : Z) : Z := u32 (ptr - block_start_offset).
Definition block_to_ptr (block : Z) : Z := u32 (block + block_start_offset).
Definition offset_to_block (ptr size : Z) : Z := u32 (ptr + size).

Definition block_prev (block : Z) : TM Z :=
  pf ← block_is_prev_free block;
  assert_ pf;;
  rd (prev_phys_block block).

Definition block_next (block : Z) : TM Z :=
  size ← block_size block;
  let next := offset_to_block (block_to_ptr block) (u32 (size - block_header_overhead)) in
  last ← block_is_last block;
  assert_ (negb last);;
  mret next.

Definition block_link_next (block : Z) : TM Z :=
  next ← block_next block;
  wr (prev_phys_block next) block;;
  mret next.

Definition block_mark_as_free (block : Z) : TM unit :=
  next ← block_link_next block;
  block_set_prev_free next;;
  block_set_free block.

Definition block_mark_as_used (block : Z) : TM unit :=
  next ← block_next block;
  block_set_prev_used next;;
  block_set_used block.

(** ** Alignment *)

Definition is_pow2 (align : Z) : bool := Z.land align (u32 (align - 1)) =? 0.

Definition align_up (x align : Z) : TM Z :=
  assert_ (is_pow2 align);;
  mret (Z.land (u32 (x + u32 (align - 1))) (u32 (Z.lnot (u32 (align - 1))))).

Definition align_down (x align : Z) : TM Z :=
  assert_ (is_pow2 align);;
  mret (u32 (x - Z.land x (u32 (align - 1)))).

Definition align_ptr (ptr align : Z) : TM Z :=
  let aligned := Z.land (u32 (ptr + u32 (align - 1))) (u32 (Z.lnot (u32 (align - 1)))) in
  assert_ (is_pow2 align);;
  mret aligned.

Definition adjust_request_size (size align : Z) : TM Z :=
  if testz size then
    aligned ← align_up size align;
    mret (if aligned <? block_size_max then Z.max aligned block_size_min else 0)
  else mret 0.

(** ** Size classes *)

Definition mapping_insert (size : Z) : Z * Z :=
  if size <? SMALL_BLOCK_SIZE then
    (0, Z.quot (i32 size) (SMALL_BLOCK_SIZE / SL_INDEX_COUNT))
  else
    let fl := tlsf_fls size in
    let sl := Z.lxor (i32 (Z.shiftr size (fl - SL_INDEX_COUNT_LOG2)))
                     (Z.shiftl 1 SL_INDEX_COUNT_LOG2) in
    (fl - (FL_INDEX_SHIFT - 1), sl).

Definition mapping_search (size : Z) : Z * Z :=
  let size :=
    if SMALL_BLOCK_SIZE <=? size then
      let round := u32 (Z.shiftl 1 (tlsf_fls size - SL_INDEX_COUNT_LOG2) - 1) in
      u32 (size + round)
    else size in
  mapping_insert size.

(** ** Free lists *)

(** The block found and its class; block 0 when there is none. *)
Definition search_suitable_block (fl sl : Z) : TM (Z * Z * Z) :=
  sl_word ← sl_get fl;
  let sl_map := Z.land sl_word (u32 (Z.shiftl 0xffffffff sl)) in
  if sl_map =? 0 then
    fl_word ← gets (λ s, fl_bitmap (ctl s));
    let fl_map := Z.land fl_word (u32 (Z.shiftl 0xffffffff (fl + 1))) in
    if fl_map =? 0 then mret (0, fl, sl)
    else
      let fl := tlsf_ffs fl_map in
      sl_map ← sl_get fl;
      assert_ (testz sl_map);;
      let sl := tlsf_ffs sl_map in
      block ← blocks_get fl sl;
      mret (block, fl, sl)
  else
    assert_ (testz sl_map);;
    let sl := tlsf_ffs sl_map in
    block ← blocks_get fl sl;
    mret (block, fl, sl).

Definition remove_free_block (block fl sl : Z) : TM unit :=
  prev ← rd (prev_free block);
  next ← rd (next_free block);
  assert_ (testz prev);;
  assert_ (testz next);;
  wr (prev_free next) prev;;
  wr (next_free prev) next;;
  head ← blocks_get fl sl;
  when (head =? block) (
    blocks_set fl sl next;;
    null ← block_null;
    when (next =? null) (
      sl_word ← sl_get fl;
      sl_set fl (Z.land sl_word (u32 (Z.lnot (Z.shiftl 1 sl))));;
      sl_word ← sl_get fl;
      when (sl_word =? 0) (
        fl_word ← gets (λ s, fl_bitmap (ctl s));
        modify (set_fl_bitmap (Z.land fl_word (u32 (Z.lnot (Z.shiftl 1 fl)))))))).

Definition insert_free_block (block fl sl : Z) : TM unit :=
  current ← blocks_get fl sl;
  assert_ (testz current);;
  assert_ (testz block);;
  null ← block_null;
  wr (next_free block) current;;
  wr (prev_free block) null;;
  wr (prev_free current) block;;
  aligned ← align_ptr (block_to_ptr block) ALIGN_SIZE;
  assert_ (block_to_ptr block =? aligned);;
  blocks_set fl sl block;;
  fl_word ← gets (λ s, fl_bitmap (ctl s));
  modify (set_fl_bitmap (Z.lor fl_word (u32 (Z.shiftl 1 fl))));;
  sl_word ← sl_get fl;
  sl_set fl (Z.lor sl_word (u32 (Z.shiftl 1 sl))).

Definition block_remove (block : Z) : TM unit :=
  size ← block_size block;
  let '(fl, sl) := mapping_insert size in
  remove_free_block block fl sl.

Definition block_insert (block : Z) : TM unit :=
  size ← block_size block;
  let '(fl, sl) := mapping_insert size in
  insert_free_block block fl sl.

(** ** Splitting and merging *)

Definition block_can_split (block size : Z) : TM bool :=
  bsize ← block_size block;
  mret (u32 (sizeof_block_header_t + size) <=? bsize).

Definition block_split (block size : Z) : TM Z :=
  let remaining := offset_to_block (block_to_ptr block) (u32 (size - block_header_overhead)) in
  bsize ← block_size block;
  let remain_size := u32 (bsize - u32 (size + block_header_overhead)) in
  aligned ← align_ptr (block_to_ptr remaining) ALIGN_SIZE;
  assert_ (block_to_ptr remaining =? aligned);;
  bsize ← block_size block;
  assert_ (bsize =? u32 (remain_size + size + block_header_overhead));;
  block_set_size remaining remain_size;;
  rsize ← block_size remaining;
  assert_ (block_size_min <=? rsize);;
  block_set_size block size;;
  block_mark_as_free remaining;;
  mret remaining.

Definition block_absorb (prev block : Z) : TM Z :=
  last ← block_is_last prev;
  assert_ (negb last);;
  psize ← rd (size_field prev);
  bsize ← block_size block;
  wr (size_field prev) (u32 (psize + bsize + block_header_overhead));;
  _ ← block_link_next prev;
  mret prev.

Definition block_merge_prev (block : Z) : TM Z :=
  pf ← block_is_prev_free block;
  if pf : bool then
    prev ← block_prev block;
    assert_ (testz prev);;
    free ← block_is_free prev;
    assert_ free;;
    block_remove prev;;
    block_absorb prev block
  else mret block.

Definition block_merge_next (block : Z) : TM Z :=
  next ← block_next block;
  assert_ (testz next);;
  free ← block_is_free next;
  if free : bool then
    last ← block_is_last block;
    assert_ (negb last);;
    block_remove next;;
    block_absorb block next
  else mret block.

Definition block_trim_free (block size : Z) : TM unit :=
  free ← block_is_free block;
  assert_ free;;
  can ← block_can_split block size;
  when can (
    remaining_block ← block_split block size;
    _ ← block_link_next block;
    block_set_prev_free remaining_block;;
    block_insert remaining_block).

Definition block_trim_used (block size : Z) : TM unit :=
  free ← block_is_free block;
  assert_ (negb free);;
  can ← block_can_split block size;
  when can (
    remaining_block ← block_split block size;
    block_set_prev_used remaining_block;;
    remaining_block ← block_merge_next remaining_block;
    block_insert remaining_block).

Definition block_trim_free_leading (block size : Z) : TM Z :=
  can ← block_can_split block size;
  if can : bool then
    remaining_block ← block_split block (u32 (size - block_header_overhead));
    block_set_prev_free remaining_block;;
    _ ← block_link_next block;
    block_insert block;;
    mret remaining_block
  else mret block.

Definition block_locate_free (size : Z) : TM Z :=
  '(block, fl, sl) ←
    (if testz size then
       let '(fl, sl) := mapping_search size in
       if fl <? FL_INDEX_COUNT then search_suitable_block fl sl
       else mret (0, fl, sl)
     else mret (0, 0, 0));
  when (testz block) (
    bsize ← block_size block;
    assert_ (size <=? bsize);;
    remove_free_block block fl sl);;
  mret block.

Definition block_prepare_used (block size : Z) : TM Z :=
  if testz block then
    assert_ (testz size);;
    block_trim_free block size;;
    block_mark_as_used block;;
    mret (block_to_ptr block)
  else mret 0.

(** ** Control structure and pools *)

Definition control_construct : TM unit :=
  null ← block_null;
  wr (next_free null) null;;
  wr (prev_free null) null;;
  modify (set_fl_bitmap 0);;
  modify (set_sl_bitmap (replicate (Z.to_nat FL_INDEX_COUNT) 0));;
  modify (set_blocks (replicate (Z.to_nat FL_INDEX_COUNT)
                        (replicate (Z.to_nat SL_INDEX_COUNT) null))).

(** [sizeof(control_t)]. *)
Definition tlsf_size : Z :=
  sizeof_block_header_t + 4 + 4 * FL_INDEX_COUNT + 4 * FL_INDEX_COUNT * SL_INDEX_COUNT.
Definition tlsf_align_size : Z := ALIGN_SIZE.
Definition tlsf_block_size_min : Z := block_size_min.
Definition tlsf_block_size_max : Z := block_size_max.
Definition tlsf_pool_overhead : Z := 2 * block_header_overhead.
Definition tlsf_alloc_overhead : Z := block_header_overhead.

Definition tlsf_block_size (ptr : Z) : TM Z :=
  if testz ptr then block_size (block_from_ptr ptr) else mret 0.

Definition tlsf_add_pool (pmem bytes : Z) : TM Z :=
  pool_bytes ← align_down (u32 (bytes - tlsf_pool_overhead)) ALIGN_SIZE;
  if negb (Z.rem (i32 pmem) ALIGN_SIZE =? 0) then mret 0
  else if (pool_bytes <? block_size_min) || (block_size_max <? pool_bytes) then mret 0
  else
    let block := offset_to_block pmem (- block_header_overhead) in
    block_set_size block pool_bytes;;
    block_set_free block;;
    block_set_prev_used block;;
    block_insert block;;
    next ← block_link_next block;
    block_set_size next 0;;
    block_set_used next;;
    block_set_prev_free next;;
    mret pmem.

Definition tlsf_remove_pool (pool : Z) : TM unit :=
  let block := offset_to_block pool (- block_header_overhead) in
  free ← block_is_free block;
  assert_ free;;
  next ← block_next block;
  nfree ← block_is_free next;
  assert_ (negb nfree);;
  next ← block_next block;
  nsize ← block_size next;
  assert_ (nsize =? 0);;
  size ← block_size block;
  let '(fl, sl) := mapping_insert size in
  remove_free_block block fl sl.

(** [tlsf_create(mem)]; the control structure the state holds is the one at
    [mem]. *)
Definition tlsf_create (pmem : Z) : TM Z :=
  if negb (Z.rem (i32 pmem) ALIGN_SIZE =? 0) then mret 0
  else control_construct;; mret pmem.

Definition tlsf_create_with_pool (pmem bytes : Z) : TM Z :=
  tlsf ← tlsf_create pmem;
  _ ← tlsf_add_pool (u32 (pmem + tlsf_size)) (u32 (bytes - tlsf_size));
  mret tlsf.

Definition tlsf_get_pool (tlsf : Z) : Z := u32 (tlsf + tlsf_size).

(** ** Main interface *)

Definition tlsf_malloc (size : Z) : TM Z :=
  adjust ← adjust_request_size size ALIGN_SIZE;
  block ← block_locate_free adjust;
  block_prepare_used block adjust.

Definition tlsf_memalign (align size : Z) : TM Z :=
  adjust ← adjust_request_size size ALIGN_SIZE;
  let gap_minimum := sizeof_block_header_t in
  size_with_gap ← adjust_request_size (u32 (adjust + align + gap_minimum)) align;
  let aligned_size :=
    if testz adjust && (ALIGN_SIZE <? align) then size_with_gap else adjust in
  block ← block_locate_free aligned_size;
  assert_ (sizeof_block_header_t =? block_size_min + block_header_overhead);;
  block ←
    (if testz block then
       let ptr := block_to_ptr block in
       aligned ← align_ptr ptr align;
       let gap := u32 (aligned - ptr) in
       gap ←
         (if testz gap && (gap <? gap_minimum) then
            let gap_remain := u32 (gap_minimum - gap) in
            let offset := Z.max gap_remain align in
            let next_aligned := u32 (aligned + offset) in
            aligned ← align_ptr next_aligned align;
            mret (u32 (aligned - ptr))
          else mret gap);
       if testz gap then
         assert_ (gap_minimum <=? gap);;
         block_trim_free_leading block gap
       else mret block
     else mret block);
  block_prepare_used block adjust.

Definition tlsf_free (ptr : Z) : TM unit :=
  when (testz ptr) (
    let block := block_from_ptr ptr in
    free ← block_is_free block;
    assert_ (negb free);;
    block_mark_as_free block;;
    block ← block_merge_prev block;
    block ← block_merge_next block;
    block_insert block).

Definition tlsf_realloc (ptr size : Z) : TM Z :=
  if testz ptr && (size =? 0) then tlsf_free ptr;; mret 0
  else if negb (testz ptr) then tlsf_malloc size
  else
    let block := block_from_ptr ptr in
    next ← block_next block;
    cursize ← block_size block;
    nsize ← block_size next;
    let combined := u32 (cursize + nsize + block_header_overhead) in
    adjust ← adjust_request_size size ALIGN_SIZE;
    free ← block_is_free block;
    assert_ (negb free);;
    nfree ← block_is_free next;
    if (cursize <? adjust) && (negb nfree || (combined <? adjust)) then
      p ← tlsf_malloc size;
      when (testz p) (
        let minsize := Z.min cursize size in
        modify (set_tmem (λ m, mem_copy m p ptr (Z.to_nat minsize)));;
        tlsf_free ptr);;
      mret p
    else
      when (cursize <? adjust) (
        _ ← block_merge_next block;
        block_mark_as_used block);;
      block_trim_used block adjust;;
      mret ptr.
