(* ===== verification/TlsfMap.v ===== *)
(** * TLSF: bit searches and size classes

    What the pure part of [tlsf.c] computes: [tlsf_ffs] and [tlsf_fls] find
    the lowest and highest set bit, the portable fallbacks agree with the
    builtins, [mapping_insert] is monotone and lands inside the control
    structure's arrays, and a block taken from any class at or above the one
    [mapping_search] names is large enough for the request. *)

From S2P Require Import Prelude Bits Memory Tlsf.

(** ** Bits *)

Lemma pos_ctz_nonneg p : 0 ≤ pos_ctz p.
Proof. induction p; simpl; lia. Qed.

Lemma testbit_pos_ctz p : Z.testbit (Zpos p) (pos_ctz p) = true.
Proof.
  induction p as [p IH|p IH|]; simpl pos_ctz; [done| |done].
  replace (1 + pos_ctz p) with (Z.succ (pos_ctz p)) by lia.
  pose proof (pos_ctz_nonneg p).
  rewrite (Pos2Z.inj_xO p), Z.testbit_even_succ; [done|lia].
Qed.

Lemma testbit_below_pos_ctz p i : 0 ≤ i < pos_ctz p → Z.testbit (Zpos p) i = false.
Proof.
  revert i. induction p as [p IH|p IH|]; simpl pos_ctz; intros i Hi; [lia| |lia].
  rewrite (Pos2Z.inj_xO p). destruct (decide (i = 0)) as [->|].
  - apply Z.testbit_even_0.
  - replace i with (Z.succ (i - 1)) by lia.
    rewrite Z.testbit_even_succ by lia. apply IH. lia.
Qed.

Lemma tlsf_ffs_testbit w : 0 < w → 0 ≤ tlsf_ffs w ∧ Z.testbit w (tlsf_ffs w) = true.
Proof.
  intros Hw. destruct w as [|p|p]; try lia. unfold tlsf_ffs, builtin_ffs.
  replace (1 + pos_ctz p - 1) with (pos_ctz p) by lia.
  split; [apply pos_ctz_nonneg | apply testbit_pos_ctz].
Qed.

Lemma tlsf_ffs_least w i : 0 < w → 0 ≤ i → Z.testbit w i = true → tlsf_ffs w ≤ i.
Proof.
  intros Hw Hi Ht. destruct w as [|p|p]; try lia. unfold tlsf_ffs, builtin_ffs.
  destruct (Z.le_gt_cases (pos_ctz p) i); [lia|].
  by rewrite testbit_below_pos_ctz in Ht by lia.
Qed.

Lemma tlsf_fls_log2 w : 0 < w → tlsf_fls w = Z.log2 w.
Proof.
  intros. unfold tlsf_fls, builtin_clz.
  replace (testz w) with true by (symmetry; apply testz_true; lia). lia.
Qed.

Lemma testbit_lt_pow2 w i n : 0 ≤ w < 2 ^ n → 0 ≤ i → Z.testbit w i = true → i < n.
Proof.
  intros Hw Hi Ht. destruct (Z.lt_ge_cases i n); [done|].
  destruct (decide (w = 0)) as [->|]; [by rewrite Z.testbit_0_l in Ht|].
  rewrite Z.bits_above_log2 in Ht; [done|lia|].
  apply Z.log2_lt_pow2; [lia|]. eapply Z.lt_le_trans; [apply Hw|].
  apply Z.pow_le_mono_r; lia.
Qed.

Lemma testbit_set w i j : 0 ≤ i → 0 ≤ j →
  Z.testbit (Z.lor w (Z.shiftl 1 i)) j = Z.testbit w j || (i =? j).
Proof.
  intros. rewrite Z.lor_spec, Z.shiftl_1_l, Z.pow2_bits_eqb by lia. done.
Qed.

Lemma u32_testbit x i : 0 ≤ i < 32 → Z.testbit (u32 x) i = Z.testbit x i.
Proof. intros. unfold wrapu. apply Z.mod_pow2_bits_low. lia. Qed.

Lemma u32_testbit_high x i : 32 ≤ i → Z.testbit (u32 x) i = false.
Proof. intros. unfold wrapu. apply Z.mod_pow2_bits_high. lia. Qed.

(** Clearing bit [i] of a 32-bit word. *)
Lemma testbit_clear w i j : in_u32 w → 0 ≤ i → 0 ≤ j →
  Z.testbit (Z.land w (u32 (Z.lnot (Z.shiftl 1 i)))) j = Z.testbit w j && negb (i =? j).
Proof.
  intros Hw Hi Hj. rewrite Z.land_spec.
  destruct (Z.lt_ge_cases j 32).
  - by rewrite u32_testbit, Z.lnot_spec, Z.shiftl_1_l, Z.pow2_bits_eqb by lia.
  - destruct (Z.testbit w j) eqn:E; [|done].
    apply (testbit_lt_pow2 w j 32) in E; lia.
Qed.

(** [~0U << n] keeps the bits from [n] on. *)
Lemma testbit_mask_from w n j : in_u32 w → 0 ≤ n → 0 ≤ j →
  Z.testbit (Z.land w (u32 (Z.shiftl 0xffffffff n))) j = Z.testbit w j && (n <=? j).
Proof.
  intros Hw Hn Hj. rewrite Z.land_spec.
  destruct (Z.testbit w j) eqn:E; [|done]. simpl.
  apply (testbit_lt_pow2 w j 32) in E; [|lia..].
  rewrite u32_testbit, Z.shiftl_spec by lia. change 0xffffffff with (Z.ones 32).
  case_cmp; [apply Z.ones_spec_low; lia | apply Z.testbit_neg_r; lia].
Qed.

Lemma land_u32 x y : in_u32 x → in_u32 (Z.land x y).
Proof.
  intros Hx. assert (0 ≤ Z.land x y) by (apply Z.land_nonneg; lia). split; [lia|].
  replace (Z.land x y) with (u32 (Z.land x y)); [apply (wrapu_range 32); lia|].
  unfold wrapu. rewrite <- Z.land_ones by lia. rewrite <- Z.land_assoc, (Z.land_comm y), Z.land_assoc.
  rewrite Z.land_ones by lia. rewrite Z.mod_small by lia. done.
Qed.

Lemma lor_u32 x y : in_u32 x → in_u32 y → in_u32 (Z.lor x y).
Proof.
  intros Hx Hy. assert (0 ≤ Z.lor x y) by (apply Z.lor_nonneg; lia). split; [lia|].
  destruct (decide (Z.lor x y = 0)) as [->|]; [lia|].
  apply (Z.log2_lt_pow2 _ 32); [lia|]. rewrite Z.log2_lor by lia.
  assert (∀ z, in_u32 z → Z.log2 z < 32) as Hlog; [|apply Z.max_lub_lt; by apply Hlog].
  intros z Hz. destruct (decide (z = 0)) as [->|]; [done|]. apply Z.log2_lt_pow2; lia.
Qed.

Lemma shiftl_1_u32 i : 0 ≤ i < 32 → u32 (Z.shiftl 1 i) = Z.shiftl 1 i.
Proof.
  intros. apply wrapu_small. rewrite Z.shiftl_1_l. split; [lia|].
  apply Z.pow_lt_mono_r; lia.
Qed.

(** ** The portable fallbacks *)

(** A step of the binary search doubles the known width of the word and keeps
    the sum of its logarithm and the bit count. *)
Lemma fls_step_spec mask n w bit :
  mask = Z.shiftl (Z.ones n) (32 - n) → 0 < n ≤ 16 → 2 ^ (32 - 2 * n) ≤ w < 2 ^ 32 →
  let '(w', bit') := fls_step mask n (w, bit) in
  2 ^ (32 - n) ≤ w' < 2 ^ 32 ∧ Z.log2 w' + bit' = Z.log2 w + bit.
Proof.
  intros -> Hn Hw. unfold fls_step. assert (0 < 2 ^ (32 - 2 * n)) by lia.
  destruct (Z.eqb_spec (Z.land w (Z.shiftl (Z.ones n) (32 - n))) 0) as [H0|H0].
  - apply land_high_mask in H0; [|lia..].
    assert (2 ^ (32 - n) * 2 ^ n = 2 ^ 32) as E1.
    { rewrite <- Z.pow_add_r by lia. by replace (32 - n + n) with 32 by lia. }
    assert (2 ^ (32 - 2 * n) * 2 ^ n = 2 ^ (32 - n)) as E2.
    { rewrite <- Z.pow_add_r by lia. f_equal. lia. }
    rewrite Z.shiftl_mul_pow2 by lia. rewrite wrapu_small by nia.
    rewrite Z.log2_mul_pow2 by lia. split; [nia|lia].
  - rewrite land_high_mask in H0 by lia. split; [lia|done].
Qed.

Lemma tlsf_fls_generic_log2 w : 0 < w < 2 ^ 32 → tlsf_fls_generic w = Z.log2 w + 1.
Proof.
  intros Hw. unfold tlsf_fls_generic. destruct (Z.eqb_spec w 0); [lia|].
  repeat match goal with
  | |- context [fls_step ?m ?n (?w, ?b)] =>
      pose proof (fls_step_spec m n w b eq_refl ltac:(lia) ltac:(lia));
      destruct (fls_step m n (w, b)) as [??]
  end.
  simpl. repeat match goal with H : _ ∧ _ |- _ => destruct H end.
  match goal with H : 2 ^ (32 - 1) ≤ ?z |- _ => assert (Z.log2 z = 31) end.
  { apply Z.log2_unique; lia. }
  lia.
Qed.

(** [x & -x] isolates the lowest set bit. *)
Lemma land_opp_pos p : Z.land (Zpos p) (- Zpos p) = 2 ^ pos_ctz p.
Proof.
  induction p as [p IH|p IH|]; [|simpl pos_ctz|done].
  - apply Z.bits_inj'. intros i Hi. rewrite Z.land_spec, Z.pow2_bits_eqb by (simpl; lia).
    replace (- Zpos (xI p)) with (Z.succ (Z.lnot (Zpos (xI p)))) by (unfold Z.lnot; lia).
    replace (Z.succ (Z.lnot (Zpos (xI p)))) with (2 * Z.lnot (Zpos p) + 1) by (unfold Z.lnot; lia).
    rewrite (Pos2Z.inj_xI p). simpl pos_ctz. destruct (decide (i = 0)) as [->|].
    + by rewrite !Z.testbit_odd_0.
    + replace i with (Z.succ (i - 1)) by lia. rewrite !Z.testbit_odd_succ, Z.lnot_spec by lia.
      rewrite andb_negb_r. symmetry. apply Z.eqb_neq. lia.
  - rewrite (Pos2Z.inj_xO p). replace (- (2 * Zpos p)) with (2 * - Zpos p) by lia.
    replace (1 + pos_ctz p) with (Z.succ (pos_ctz p)) by lia.
    pose proof (pos_ctz_nonneg p). rewrite Z.pow_succ_r, <- IH by lia.
    pose proof (Z.shiftl_land (Zpos p) (- Zpos p) 1) as E.
    rewrite !Z.shiftl_mul_pow2 in E by lia. rewrite !(Z.mul_comm 2). by symmetry.
Qed.

Lemma tlsf_ffs_generic_eq w : 0 < w < 2 ^ 32 → tlsf_ffs_generic w = tlsf_ffs w.
Proof.
  intros Hw. unfold tlsf_ffs_generic.
  assert (Z.land w (u32 (u32 (Z.lnot w) + 1)) = Z.land w (- w)) as ->.
  { apply Z.bits_inj'. intros i Hi. rewrite !Z.land_spec.
    destruct (Z.testbit w i) eqn:E; [|done]. simpl.
    apply (testbit_lt_pow2 w i 32) in E; [|lia..].
    rewrite u32_testbit by lia. replace (- w) with (Z.lnot w + 1) by (unfold Z.lnot; lia).
    rewrite <- (u32_testbit (Z.lnot w + 1)), <- u32_testbit by lia.
    unfold wrapu. by rewrite Zplus_mod_idemp_l. }
  destruct w as [|p|p]; try lia. rewrite land_opp_pos.
  destruct (tlsf_ffs_testbit (Zpos p)) as [Hn Ht]; [lia|].
  apply (testbit_lt_pow2 _ _ 32) in Ht; [|lia..].
  unfold tlsf_ffs, builtin_ffs in *. replace (1 + pos_ctz p - 1) with (pos_ctz p) in * by lia.
  assert (2 ^ pos_ctz p < 2 ^ 32) by (apply Z.pow_lt_mono_r; lia).
  rewrite tlsf_fls_generic_log2 by lia. rewrite Z.log2_pow2 by lia. lia.
Qed.

(** ** Size classes

    The rank of a class numbers the classes in the order [search_suitable_block]
    scans them. *)
Definition rank (c : Z * Z) : Z := SL_INDEX_COUNT * c.1 + c.2.

Lemma log2_bounds x : 0 < x →
  2 ^ Z.log2 x ≤ x < 2 * 2 ^ Z.log2 x.
Proof. intros. rewrite <- Z.pow_succ_r by apply Z.log2_nonneg. by apply Z.log2_spec. Qed.

Lemma log2_large x : 128 ≤ x < 2 ^ 31 → 7 ≤ Z.log2 x < 31.
Proof.
  intros. split; [|apply Z.log2_lt_pow2; lia].
  change 7 with (Z.log2 128). apply Z.log2_le_mono. lia.
Qed.

Lemma pow2_split f : 5 ≤ f → 2 ^ f = 32 * 2 ^ (f - 5).
Proof. intros. change 32 with (2 ^ 5). rewrite <- Z.pow_add_r by lia. f_equal. lia. Qed.

Lemma mapping_insert_small size : 0 ≤ size < 128 → mapping_insert size = (0, size / 4).
Proof.
  intros. unfold mapping_insert. change SMALL_BLOCK_SIZE with 128. case_cmp; [|lia].
  change (128 / SL_INDEX_COUNT) with 4. rewrite wraps_small by lia.
  by rewrite Z.quot_div_nonneg by lia.
Qed.

Lemma lxor_32 v : 32 ≤ v < 64 → Z.lxor v 32 = v - 32.
Proof.
  intros Hv. assert (Forall (λ v, Z.lxor v 32 = v - 32) (seqZ 32 32)) as H.
  { vm_compute. repeat constructor. }
  rewrite Forall_forall in H. apply H, elem_of_seqZ. lia.
Qed.

Lemma mapping_insert_large size : 128 ≤ size < 2 ^ 31 →
  let f := Z.log2 size in
  mapping_insert size = (f - 6, size / 2 ^ (f - 5) - 32) ∧ 32 ≤ size / 2 ^ (f - 5) < 64.
Proof.
  intros Hs f. pose proof (log2_large size Hs) as Hf. fold f in Hf.
  pose proof (log2_bounds size ltac:(lia)) as Hb. fold f in Hb.
  rewrite (pow2_split f) in Hb by lia. set (q := 2 ^ (f - 5)) in *.
  assert (0 < q) by lia.
  assert (32 ≤ size / q < 64) as Hq.
  { split; [apply Z.div_le_lower_bound; lia | apply Z.div_lt_upper_bound; lia]. }
  split; [|done]. unfold mapping_insert. change SMALL_BLOCK_SIZE with 128.
  case_cmp; [lia|]. rewrite tlsf_fls_log2 by lia. fold f.
  change SL_INDEX_COUNT_LOG2 with 5. change (FL_INDEX_SHIFT - 1) with 6.
  rewrite Z.shiftr_div_pow2 by lia. fold q. rewrite wraps_small by lia. f_equal.
  by apply lxor_32.
Qed.

(** The class of a legal block size is an index of the control structure. *)
Lemma mapping_insert_range size : 0 ≤ size < 2 ^ 30 →
  let '(fl, sl) := mapping_insert size in 0 ≤ fl < FL_INDEX_COUNT ∧ 0 ≤ sl < SL_INDEX_COUNT.
Proof.
  intros Hs. change FL_INDEX_COUNT with 24. change SL_INDEX_COUNT with 32.
  destruct (Z.lt_ge_cases size 128).
  - rewrite mapping_insert_small by lia. split; [lia|].
    split; [apply Z.div_pos; lia | apply Z.div_lt_upper_bound; lia].
  - destruct (mapping_insert_large size) as [-> ?]; [lia|].
    pose proof (log2_large size). assert (Z.log2 size < 30) by (apply Z.log2_lt_pow2; lia). lia.
Qed.

Lemma rank_small size : 0 ≤ size < 128 → rank (mapping_insert size) = size / 4.
Proof. intros. rewrite mapping_insert_small by lia. unfold rank. simpl. lia. Qed.

Lemma rank_large size : 128 ≤ size < 2 ^ 31 →
  rank (mapping_insert size) = 32 * (Z.log2 size - 7) + size / 2 ^ (Z.log2 size - 5)
  ∧ 32 * (Z.log2 size - 6) ≤ rank (mapping_insert size) < 32 * (Z.log2 size - 5).
Proof.
  intros. destruct (mapping_insert_large size) as [-> ?]; [lia|].
  unfold rank. change SL_INDEX_COUNT with 32. simpl. lia.
Qed.

(** Two sizes a class width apart are in different classes, in order. *)
Lemma rank_gap b size : 0 ≤ b → 128 ≤ size < 2 ^ 31 →
  b + 2 ^ (Z.log2 size - 5) ≤ size ∨ Z.log2 b < Z.log2 size →
  rank (mapping_insert b) < rank (mapping_insert size).
Proof.
  intros Hb Hs Hgap. pose proof (log2_large size Hs).
  assert (b < size) as Hlt.
  { destruct Hgap; [pose proof (Z.pow_pos_nonneg 2 (Z.log2 size - 5)); lia|].
    destruct (Z.lt_ge_cases b size); [done|].
    pose proof (Z.log2_le_mono size b). lia. }
  destruct (rank_large size) as [E Hr]; [lia|].
  destruct (Z.lt_ge_cases b 128).
  { rewrite (rank_small b) by lia. assert (b / 4 < 32) by (apply Z.div_lt_upper_bound; lia). lia. }
  destruct (rank_large b) as [Eb Hrb]; [lia|].
  pose proof (Z.log2_le_mono b size ltac:(lia)).
  destruct (decide (Z.log2 b = Z.log2 size)) as [Ef|]; [|lia].
  destruct Hgap as [Hgap|]; [|lia]. rewrite Eb, E, Ef.
  pose proof (Z.pow_pos_nonneg 2 (Z.log2 size - 5) ltac:(lia) ltac:(lia)).
  pose proof (Z.div_le_mono _ _ (2 ^ (Z.log2 size - 5)) ltac:(lia) Hgap) as Hd.
  replace (b + 2 ^ (Z.log2 size - 5)) with (b + 1 * 2 ^ (Z.log2 size - 5)) in Hd by lia.
  rewrite Z.div_add in Hd by lia. lia.
Qed.

Lemma rank_mono a b : 0 ≤ a ≤ b → b < 2 ^ 31 →
  rank (mapping_insert a) ≤ rank (mapping_insert b).
Proof.
  intros Ha Hb. destruct (Z.lt_ge_cases b 128).
  { rewrite !rank_small by lia. apply Z.div_le_mono; lia. }
  destruct (decide (Z.log2 a < Z.log2 b)).
  { apply Z.lt_le_incl, rank_gap; lia. }
  pose proof (Z.log2_le_mono a b ltac:(lia)). assert (Z.log2 a = Z.log2 b) as E by lia.
  destruct (Z.lt_ge_cases a 128).
  { pose proof (log2_large b). assert (Z.log2 a < 7); [|lia].
    destruct (decide (a = 0)) as [->|]; [done|]. apply Z.log2_lt_pow2; lia. }
  destruct (rank_large a) as [-> _]; [lia|]. destruct (rank_large b) as [-> _]; [lia|].
  rewrite E. pose proof (log2_large b ltac:(lia)).
  assert (a / 2 ^ (Z.log2 b - 5) ≤ b / 2 ^ (Z.log2 b - 5)); [|lia].
  apply Z.div_le_mono; lia.
Qed.

Lemma mapping_search_large size : 128 ≤ size < 2 ^ 30 →
  mapping_search size = mapping_insert (size + 2 ^ (Z.log2 size - 5) - 1)
  ∧ size ≤ size + 2 ^ (Z.log2 size - 5) - 1 < 2 ^ 31.
Proof.
  intros Hs. pose proof (log2_large size ltac:(lia)).
  pose proof (log2_bounds size ltac:(lia)) as Hb. rewrite (pow2_split (Z.log2 size)) in Hb by lia.
  pose proof (Z.pow_pos_nonneg 2 (Z.log2 size - 5) ltac:(lia) ltac:(lia)).
  split; [|lia]. unfold mapping_search. change SMALL_BLOCK_SIZE with 128.
  change SL_INDEX_COUNT_LOG2 with 5. case_cmp; [|lia].
  rewrite tlsf_fls_log2, Z.shiftl_1_l by lia. rewrite (wrapu_small 32 (2 ^ (Z.log2 size - 5) - 1)) by lia.
  rewrite wrapu_small by lia. f_equal. lia.
Qed.

Lemma mapping_search_small size : size < 128 → mapping_search size = mapping_insert size.
Proof. intros. unfold mapping_search. change SMALL_BLOCK_SIZE with 128. case_cmp; [lia|done]. Qed.

(** Good fit: a block in a class at or above the one searched for is at least
    as large as the request. *)
Lemma mapping_search_fits size b :
  0 ≤ size < 2 ^ 30 → size mod 4 = 0 → 0 ≤ b →
  rank (mapping_search size) ≤ rank (mapping_insert b) → size ≤ b.
Proof.
  intros Hs Hal Hb Hr. destruct (Z.le_gt_cases size b) as [|Hlt]; [done|exfalso].
  destruct (Z.lt_ge_cases size 128).
  - rewrite mapping_search_small, !rank_small in Hr by lia. Z.div_mod_to_equations. lia.
  - destruct (mapping_search_large size) as [E ?]; [lia|]. rewrite E in Hr. clear E.
    set (size' := size + 2 ^ (Z.log2 size - 5) - 1) in *.
    assert (rank (mapping_insert b) < rank (mapping_insert size')); [|lia].
    apply rank_gap; [lia|lia|].
    pose proof (Z.log2_le_mono size size' ltac:(lia)).
    pose proof (Z.log2_le_mono b size ltac:(lia)).
    destruct (decide (Z.log2 size' = Z.log2 size)) as [->|]; [left; unfold size'|right]; lia.
Qed.

Lemma mapping_search_range size : 0 ≤ size < 2 ^ 30 →
  let '(fl, sl) := mapping_search size in 0 ≤ fl ≤ FL_INDEX_COUNT ∧ 0 ≤ sl < SL_INDEX_COUNT.
Proof.
  intros Hs. change FL_INDEX_COUNT with 24. change SL_INDEX_COUNT with 32.
  destruct (Z.lt_ge_cases size 128).
  - rewrite mapping_search_small by lia.
    pose proof (mapping_insert_range size ltac:(lia)) as Hr.
    destruct (mapping_insert size) as [fl sl].
    change FL_INDEX_COUNT with 24 in Hr. change SL_INDEX_COUNT with 32 in Hr. lia.
  - destruct (mapping_search_large size) as [-> ?]; [lia|].
    set (size' := size + 2 ^ (Z.log2 size - 5) - 1) in *.
    destruct (mapping_insert_large size') as [-> ?]; [lia|].
    pose proof (log2_large size' ltac:(lia)). lia.
Qed.

(** ** Alignment *)

Lemma land_u32_mask w m : in_u32 w → Z.land w (u32 m) = Z.land w m.
Proof.
  intros Hw. apply Z.bits_inj'. intros i Hi. rewrite !Z.land_spec.
  destruct (Z.testbit w i) eqn:E; [|done]. apply (testbit_lt_pow2 w i 32) in E; [|lia..].
  by rewrite u32_testbit by lia.
Qed.

(** [& ~(align - 1)] rounds down to a multiple of a power of two. *)
Lemma align_mask w k : in_u32 w → 0 ≤ k < 32 →
  Z.land w (u32 (Z.lnot (u32 (2 ^ k - 1)))) = 2 ^ k * (w / 2 ^ k).
Proof.
  intros Hw Hk. assert (2 ^ k < 2 ^ 32) by (apply Z.pow_lt_mono_r; lia).
  rewrite (wrapu_small 32 (2 ^ k - 1)) by lia. rewrite land_u32_mask by done.
  replace (2 ^ k - 1) with (Z.ones k) by (rewrite Z.ones_equiv; lia).
  rewrite <- Z.ldiff_land, Z.ldiff_ones_r, Z.shiftr_div_pow2, Z.shiftl_mul_pow2 by lia. lia.
Qed.

Lemma is_pow2_pow2 k : 0 ≤ k < 32 → is_pow2 (2 ^ k) = true.
Proof.
  intros Hk. assert (2 ^ k < 2 ^ 32) by (apply Z.pow_lt_mono_r; lia).
  unfold is_pow2. rewrite wrapu_small by lia.
  replace (2 ^ k - 1) with (Z.ones k) by (rewrite Z.ones_equiv; lia).
  rewrite Z.land_ones by lia. by rewrite Z_mod_same_full.
Qed.

(** The least multiple of [2^k] not below [x]. *)
Definition round_up (x k : Z) : Z := 2 ^ k * ((x + 2 ^ k - 1) / 2 ^ k).

Lemma round_up_spec x k : 0 ≤ k → x ≤ round_up x k < x + 2 ^ k ∧ round_up x k mod 2 ^ k = 0.
Proof.
  intros Hk. unfold round_up. assert (0 < 2 ^ k) by lia. split.
  - pose proof (Z.div_mod (x + 2 ^ k - 1) (2 ^ k)).
    pose proof (Z.mod_pos_bound (x + 2 ^ k - 1) (2 ^ k)). lia.
  - rewrite Z.mul_comm. apply Z_mod_mult.
Qed.

Lemma align_mask_round x k : 0 ≤ k < 32 → 0 ≤ x → x + 2 ^ k ≤ 2 ^ 32 →
  Z.land (u32 (x + u32 (2 ^ k - 1))) (u32 (Z.lnot (u32 (2 ^ k - 1)))) = round_up x k.
Proof.
  intros Hk Hx Hb. assert (0 < 2 ^ k) by lia.
  rewrite align_mask; [|apply (wrapu_range 32); lia|done].
  rewrite (wrapu_small 32 (2 ^ k - 1)), wrapu_small by lia. unfold round_up. do 2 f_equal. lia.
Qed.

(** ** Claims *)

(** The portable bit searches of [tlsf.c], used where the compiler has no
    builtins, find the same bits as the builtins, for every 32-bit word. *)
Theorem portable_bit_search_correct w :
  in_u32 w → tlsf_fls_generic w - 1 = tlsf_fls w ∧ (0 < w → tlsf_ffs_generic w = tlsf_ffs w).
Proof.
  intros Hw. split; [|intros; apply tlsf_ffs_generic_eq; lia].
  destruct (decide (w = 0)) as [->|]; [done|].
  rewrite tlsf_fls_generic_log2, tlsf_fls_log2 by lia. lia.
Qed.

Lemma portable_bit_search_correct_witness :
  tlsf_fls_generic 0x12345 - 1 = tlsf_fls 0x12345
  ∧ (0 < 0x12345 → tlsf_ffs_generic 0x12345 = tlsf_ffs 0x12345).
Proof. apply (portable_bit_search_correct 0x12345). lia. Defined.

(** C10: The size classes are indices of the control structure and grow with
    the size, and a block taken from any class at or above the one
    [mapping_search] names for an aligned request is at least as large as the
    request. *)
Theorem size_classes_good_fit a b size :
  0 ≤ a ≤ b → b < 2 ^ 30 → 0 ≤ size < 2 ^ 30 → size mod 4 = 0 →
  (let '(fl, sl) := mapping_insert b in 0 ≤ fl < FL_INDEX_COUNT ∧ 0 ≤ sl < SL_INDEX_COUNT)
  ∧ rank (mapping_insert a) ≤ rank (mapping_insert b)
  ∧ (rank (mapping_search size) ≤ rank (mapping_insert b) → size ≤ b).
Proof.
  intros Ha Hb Hs Hal. split_and!.
  - apply mapping_insert_range. lia.
  - apply rank_mono; lia.
  - apply mapping_search_fits; [done..|lia].
Qed.

Lemma size_classes_good_fit_witness :
  (let '(fl, sl) := mapping_insert 5000 in 0 ≤ fl < FL_INDEX_COUNT ∧ 0 ≤ sl < SL_INDEX_COUNT)
  ∧ rank (mapping_insert 300) ≤ rank (mapping_insert 5000)
  ∧ (rank (mapping_search 4800) ≤ rank (mapping_insert 5000) → 4800 ≤ 5000).
Proof. apply (size_classes_good_fit 300 5000 4800); [lia|lia|lia|reflexivity]. Defined.
