(* ===== verification/TlsfHeap.v ===== *)
(** * TLSF: the shape of the heap

    The logical view of the pools: a map from the address of every block (the
    sentinels included) to its size and flags.  [tile] says that the map is a
    legal physical layout, [hdr] and [link] that memory stores it, [lists] that
    the free lists and the bitmaps of the control structure index exactly the
    free blocks.  A set [P] of pending blocks names the free blocks that an
    operation has taken off the lists and not yet dealt with. *)

From S2P Require Import Prelude Memory Tlsf TlsfMap.

(** [lim] is the end of the pool the block lies in. *)
Record blk := Blk { sz : Z; fr : bool; pf : bool; lim : Z }.

Definition hword (x : blk) : Z := sz x + b2z (fr x) + 2 * b2z (pf x).
Definition nxt (b : Z) (x : blk) : Z := b + 4 + sz x.

Definition with_fr (v : bool) (x : blk) : blk := Blk (sz x) v (pf x) (lim x).
Definition with_pf (v : bool) (x : blk) : blk := Blk (sz x) (fr x) v (lim x).
Definition with_sz (v : Z) (x : blk) : blk := Blk v (fr x) (pf x) (lim x).

Abbreviation blkmap := (gmap Z blk).

(** A block at [b]: aligned, inside its pool, clear of the control structure;
    a sentinel has size 0 and is never free. *)
Definition block_ok (N b : Z) (x : blk) : Prop :=
  b mod 4 = 0 ∧ sz x mod 4 = 0 ∧ 0 < b ∧ lim x ≤ 2 ^ 32 ∧
  ((sz x = 0 ∧ fr x = false ∧ b + 8 ≤ lim x)
   ∨ (12 ≤ sz x ∧ b + 12 + sz x ≤ lim x < b + 2 ^ 30 + 12)) ∧
  (b + 8 + sz x ≤ N ∨ N + tlsf_size ≤ b + 4).

Record tile (N : Z) (P : gset Z) (H : blkmap) : Prop := MkTile {
  t_ok b x : H !! b = Some x → block_ok N b x;
  t_sep b c x y : H !! b = Some x → H !! c = Some y → b < c → nxt b x ≤ c;
  t_next b x : H !! b = Some x → sz x ≠ 0 →
    ∃ y, H !! nxt b x = Some y ∧ pf y = fr x ∧ lim y = lim x
      ∧ (fr x = true → fr y = true → b ∈ P ∨ nxt b x ∈ P);
  t_prev c y : H !! c = Some y → pf y = true →
    ∃ b x, H !! b = Some x ∧ fr x = true ∧ nxt b x = c;
  t_pend b : b ∈ P → ∃ x, H !! b = Some x ∧ fr x = true;
}.

(** The header word of every block, and the back link of the block after a
    free one. *)
Definition hdr (m : mem) (H : blkmap) : Prop :=
  ∀ b x, H !! b = Some x → load32 m (b + 4) = hword x.
Definition link (m : mem) (H : blkmap) : Prop :=
  ∀ b x, H !! b = Some x → fr x = true → load32 m (nxt b x) = b.

(** ** Header words *)

Section Words.
Variables (k : Z) (f p : bool).
Hypothesis Hk : 0 ≤ k < 2 ^ 30.

Lemma hword_bits i : 0 ≤ i →
  Z.testbit (4 * k + b2z f + 2 * b2z p) i =
    if i =? 0 then f else if i =? 1 then p else Z.testbit k (i - 2).
Proof.
  intros Hi.
  replace (4 * k + b2z f + 2 * b2z p) with (2 * (2 * k + Z.b2z p) + Z.b2z f)
    by (destruct f, p; simpl; lia).
  case_cmp; [subst; apply Z.testbit_0_r|].
  replace i with (Z.succ (i - 1)) by lia. rewrite Z.testbit_succ_r by lia.
  case_cmp; [replace (i - 1) with 0 by lia; apply Z.testbit_0_r|].
  replace (i - 1) with (Z.succ (i - 2)) by lia. rewrite Z.testbit_succ_r by lia.
  f_equal. lia.
Qed.

Lemma small_bits c i : 0 ≤ c < 4 → 2 ≤ i → Z.testbit c i = false.
Proof.
  intros Hc Hi. destruct (Z.testbit c i) eqn:E; [|done].
  apply (testbit_lt_pow2 c i 2) in E; lia.
Qed.

Lemma high_mask_bits c i : 0 ≤ c < 4 → 2 ≤ i →
  Z.testbit k (i - 2) && Z.testbit (u32 (Z.lnot c)) i = Z.testbit k (i - 2).
Proof.
  intros Hc Hi. destruct (Z.testbit k (i - 2)) eqn:E; [|done].
  apply (testbit_lt_pow2 k (i - 2) 30) in E; [|lia..].
  rewrite u32_testbit, Z.lnot_spec, small_bits by lia. done.
Qed.

End Words.

(** Both sides of an equation between header words, bit by bit. *)
Ltac word_bits :=
  change flag_bits with 3; change block_header_free_bit with 1;
  change block_header_prev_free_bit with 2;
  apply Z.bits_inj'; intros i Hi;
  rewrite ?Z.lor_spec, ?Z.land_spec, ?hword_bits by lia;
  destruct (Z.eqb_spec i 0) as [->|];
    [|destruct (Z.eqb_spec i 1) as [->|];
      [|rewrite ?high_mask_bits, ?(small_bits 1), ?(small_bits 2), ?(small_bits 3) by lia]].

Section WordOps.
Variables (z : Z) (f p : bool).
Hypothesis Hal : z mod 4 = 0.
Hypothesis Hz : 0 ≤ z < 2 ^ 32.
Let w := z + b2z f + 2 * b2z p.

Lemma word_quarter : ∃ k, z = 4 * k ∧ 0 ≤ k < 2 ^ 30.
Proof. exists (z / 4). Z.div_mod_to_equations. lia. Qed.

Lemma word_range : in_u32 w.
Proof. unfold w. destruct word_quarter as (k & -> & ?). destruct f, p; simpl; lia. Qed.

Lemma word_size : Z.land w (u32 (Z.lnot flag_bits)) = z.
Proof.
  unfold w. destruct word_quarter as (k & -> & Hk).
  rewrite <- (Z.add_0_r (4 * k)) at 2. rewrite <- (Z.add_0_r (4 * k + 0)).
  change (4 * k + 0 + 0) with (4 * k + b2z false + 2 * b2z false).
  word_bits; [by rewrite andb_false_r..|done].
Qed.

Lemma word_is_free : testz (Z.land w block_header_free_bit) = f.
Proof.
  unfold w. destruct word_quarter as (k & -> & Hk).
  assert (Z.land (4 * k + b2z f + 2 * b2z p) block_header_free_bit = 4 * 0 + b2z f + 2 * b2z false) as ->.
  { word_bits; [by rewrite andb_true_r|by rewrite andb_false_r|].
    by rewrite andb_false_r, Z.testbit_0_l. }
  by destruct f.
Qed.

Lemma word_is_prev_free : testz (Z.land w block_header_prev_free_bit) = p.
Proof.
  unfold w. destruct word_quarter as (k & -> & Hk).
  assert (Z.land (4 * k + b2z f + 2 * b2z p) block_header_prev_free_bit = 4 * 0 + b2z false + 2 * b2z p) as ->.
  { word_bits; [by rewrite andb_false_r|by rewrite andb_true_r|].
    by rewrite andb_false_r, Z.testbit_0_l. }
  by destruct p.
Qed.

Lemma word_set_size v : v mod 4 = 0 → 0 ≤ v < 2 ^ 32 →
  Z.lor v (Z.land w flag_bits) = v + b2z f + 2 * b2z p.
Proof.
  intros Hv Hv'. unfold w. destruct word_quarter as (k & -> & Hk).
  assert (∃ l, v = 4 * l ∧ 0 ≤ l < 2 ^ 30) as (l & -> & Hl).
  { exists (v / 4). clear Hz Hal. Z.div_mod_to_equations. lia. }
  rewrite <- (Z.add_0_r (4 * l)) at 1. rewrite <- (Z.add_0_r (4 * l + 0)).
  change (4 * l + 0 + 0) with (4 * l + b2z false + 2 * b2z false).
  word_bits; [by rewrite andb_true_r..|]. by rewrite andb_false_r, orb_false_r.
Qed.

Lemma word_set_free : Z.lor w block_header_free_bit = z + b2z true + 2 * b2z p.
Proof.
  unfold w. destruct word_quarter as (k & -> & Hk).
  word_bits; [apply orb_true_r|apply orb_false_r|]. apply orb_false_r.
Qed.

Lemma word_set_prev_free : Z.lor w block_header_prev_free_bit = z + b2z f + 2 * b2z true.
Proof.
  unfold w. destruct word_quarter as (k & -> & Hk).
  word_bits; [apply orb_false_r|apply orb_true_r|]. apply orb_false_r.
Qed.

Lemma word_set_used :
  Z.land w (u32 (Z.lnot block_header_free_bit)) = z + b2z false + 2 * b2z p.
Proof.
  unfold w. destruct word_quarter as (k & -> & Hk).
  word_bits; [apply andb_false_r|apply andb_true_r|done].
Qed.

Lemma word_set_prev_used :
  Z.land w (u32 (Z.lnot block_header_prev_free_bit)) = z + b2z f + 2 * b2z false.
Proof.
  unfold w. destruct word_quarter as (k & -> & Hk).
  word_bits; [apply andb_true_r|apply andb_false_r|done].
Qed.

End WordOps.

(** ** Physical layout *)

(** Case analysis on lookups in an updated map. *)
Ltac map_cases :=
  repeat match goal with
  | H : <[_ := _]> _ !! _ = Some _ |- _ =>
      apply lookup_insert_Some in H as [[? ?]|[? H]]; [subst|]
  | H : delete _ _ !! _ = Some _ |- _ =>
      apply lookup_delete_Some in H as [? H]
  end.

Section Tile.
Context {N : Z} {P : gset Z} {H : blkmap} (T : tile N P H).

Lemma tile_sep2 b c x y : H !! b = Some x → H !! c = Some y → b ≠ c →
  nxt b x ≤ c ∨ nxt c y ≤ b.
Proof.
  intros Hb Hc Hne. destruct (Z.lt_total b c) as [|[|]]; [left|done|right];
    by eapply t_sep.
Qed.

Lemma tile_sz b x : H !! b = Some x → 0 ≤ sz x < 2 ^ 30.
Proof. intros Hb. apply (t_ok _ _ _ T) in Hb. unfold block_ok in Hb. lia. Qed.

Lemma tile_free_sz b x : H !! b = Some x → fr x = true → 12 ≤ sz x.
Proof. intros Hb Hf. apply (t_ok _ _ _ T) in Hb. unfold block_ok in Hb. intuition congruence. Qed.

(** A block determines the block before it. *)
Lemma tile_nxt_inj b c x y : H !! b = Some x → H !! c = Some y →
  sz x ≠ 0 → sz y ≠ 0 → nxt b x = nxt c y → b = c.
Proof.
  intros Hb Hc Hx Hy E. destruct (decide (b = c)) as [|Hne]; [done|exfalso].
  pose proof (tile_sz _ _ Hb). pose proof (tile_sz _ _ Hc).
  destruct (tile_sep2 _ _ _ _ Hb Hc Hne); unfold nxt in *; lia.
Qed.

Lemma tile_pend_add b x : H !! b = Some x → fr x = true → tile N ({[b]} ∪ P) H.
Proof.
  intros Hb Hf. destruct T as [? ? Hnx ? ?]. split; [done..| |done|].
  - intros c y Hc Hy. destruct (Hnx _ _ Hc Hy) as (z & ? & ? & ? & Hadj).
    exists z. set_solver.
  - set_solver.
Qed.

Lemma tile_unpend b x : H !! b = Some x →
  (∀ y, H !! nxt b x = Some y → fr y = true → nxt b x ∈ P) →
  (∀ p z, H !! p = Some z → fr z = true → nxt p z = b → p ∈ P ∧ p ≠ b) →
  tile N (P ∖ {[b]}) H.
Proof.
  intros Hb Hn Hp. pose proof T as [Hok ? Hnx ? ?]. split; [done..| |done|set_solver].
  intros c y Hc Hy. destruct (Hnx _ _ Hc Hy) as (z & Hz & ? & ? & Hadj).
  exists z. split_and!; [done..|]. intros Hfy Hfz.
  destruct (decide (c = b)) as [->|].
  - simplify_eq. right. apply elem_of_difference. split; [by eapply Hn|].
    apply tile_sz in Hb. unfold nxt. set_unfold. lia.
  - destruct (decide (nxt c y = b)) as [E|]; [|set_solver].
    left. destruct (Hp c y); set_solver.
Qed.

End Tile.

(** Adds the ranges of the sizes of the known blocks, for [lia]. *)
Ltac size_sat T :=
  repeat match goal with
  | H1 : ?H !! ?b = Some ?x |- _ =>
      lazymatch goal with
      | _ : 0 ≤ sz x < 2 ^ 30 |- _ => fail
      | _ => assert (0 ≤ sz x < 2 ^ 30) by exact (tile_sz T b x H1)
      end
  end.

Ltac sep_lia T :=
  unfold nxt in *; cbn [sz with_pf with_fr with_sz] in *; size_sat T; lia.

(** Marking block [b] free or used, together with the flag its successor
    keeps about it. *)
Definition set_fr (v : bool) (b n : Z) (x y : blk) (H : blkmap) : blkmap :=
  <[b := with_fr v x]> (<[n := with_pf v y]> H).

Section SetFr.
Context (v : bool) (b n : Z) (x y : blk) (H : blkmap).
Context (Hb : H !! b = Some x) (Hn : H !! n = Some y) (Hne : n ≠ b).

(** What [z] and [z0], the blocks at [c] after and before, have in common. *)
Definition set_fr_rel (c : Z) (z z0 : blk) : Prop :=
  sz z = sz z0 ∧ lim z = lim z0
  ∧ fr z = (if decide (c = b) then v else fr z0)
  ∧ pf z = (if decide (c = n) then v else pf z0).

Lemma set_fr_old c z : set_fr v b n x y H !! c = Some z →
  ∃ z0, H !! c = Some z0 ∧ set_fr_rel c z z0.
Proof.
  unfold set_fr, set_fr_rel. intros Hc.
  map_cases; eexists; split_and!; try done; repeat case_decide; congruence || done.
Qed.

Lemma set_fr_new c z0 : H !! c = Some z0 →
  ∃ z, set_fr v b n x y H !! c = Some z ∧ set_fr_rel c z z0.
Proof.
  unfold set_fr, set_fr_rel. intros Hc. destruct (decide (c = b)) as [->|].
  { simplify_eq. rewrite lookup_insert_eq. eexists. split_and!; try done. by case_decide. }
  rewrite lookup_insert_ne by done. destruct (decide (c = n)) as [->|].
  - simplify_eq. rewrite lookup_insert_eq. eexists. by split_and!.
  - rewrite lookup_insert_ne by done. by exists z0.
Qed.

End SetFr.

Lemma tile_set_fr N P P' H v b x y :
  tile N P H → H !! b = Some x → sz x ≠ 0 → H !! nxt b x = Some y →
  (∀ c, c ∈ P' → c = b ∧ v = true ∨ c ∈ P ∧ c ≠ b) →
  (∀ c, c ∈ P → c = b ∨ c ∈ P') →
  (v = true → b ∈ P') →
  tile N P' (set_fr v b (nxt b x) x y H).
Proof.
  intros T Hb Hx Hy HP1 HP2 HP3. pose proof (tile_sz T _ _ Hb).
  assert (nxt b x ≠ b) as Hnb by (unfold nxt; lia).
  pose proof (set_fr_old v b (nxt b x) x y H Hb Hy Hnb) as Hold.
  pose proof (set_fr_new v b (nxt b x) x y H Hb Hy Hnb) as Hnew.
  split.
  - intros c z Hc. apply Hold in Hc as (z0 & Hc & Esz & Elim & Efr & _).
    apply (t_ok _ _ _ T) in Hc as Hok. unfold block_ok in *. rewrite Esz, Elim, Efr.
    case_decide; [|done]. simplify_eq. intuition lia.
  - intros c d z w Hc Hd. apply Hold in Hc as (z0 & Hc & Esz & _). apply Hold in Hd as (w0 & Hd & _).
    unfold nxt. rewrite Esz. by eapply t_sep.
  - intros c z Hc Hz. apply Hold in Hc as (z0 & Hc & Esz & Elim & Efr & _).
    destruct (t_next _ _ _ T c z0) as (w0 & Hw & Epf & Elw & Hadj); [done|congruence|].
    apply Hnew in Hw as (w & Hw & ? & Elw' & Efw & Epw).
    unfold nxt in *. rewrite Esz in *. exists w. split_and!; [done| |congruence|].
    + rewrite Epw, Efr. repeat case_decide; try congruence; exfalso.
      assert (c = b); [|done]. by eapply (tile_nxt_inj T).
    + rewrite Efr, Efw. destruct (decide (c = b)) as [->|]; [auto|].
      destruct (decide (c + 4 + sz z0 = b)) as [->|]; [auto|].
      intros Hf1 Hf2. destruct (Hadj Hf1 Hf2) as [Hp|Hp]; apply HP2 in Hp as [?|?]; auto; done.
  - intros c z Hc Hz. apply Hold in Hc as (z0 & Hc & _ & _ & _ & Epf). rewrite Epf in Hz.
    case_decide as Hcn.
    + exists b, (with_fr v x). unfold set_fr. rewrite lookup_insert_eq. by split_and!.
    + destruct (t_prev _ _ _ T c z0) as (d & w0 & Hd & Hfd & Hnd); [done..|].
      pose proof Hd as Hd'. apply Hnew in Hd' as (w & Hw & Esz & _ & Efr & _).
      exists d, w. split; [done|]. unfold nxt in *. rewrite Esz, Efr. split; [|done].
      case_decide; [|done]. simplify_eq.
  - intros c Hc. apply HP1 in Hc as [[-> ->]|[Hc Hcb]].
    + exists (with_fr true x). unfold set_fr. by rewrite lookup_insert_eq.
    + apply (t_pend _ _ _ T) in Hc as (z0 & Hc & Hf).
      apply Hnew in Hc as (z & Hz & _ & _ & Efr & _). exists z. rewrite Efr. by case_decide.
Qed.

(** Absorbing block [b] into its predecessor [p], which ends up free or used
    as [v] says; [n] follows [b]. *)
Definition absorb (v : bool) (p b n : Z) (x y z : blk) (H : blkmap) : blkmap :=
  <[p := Blk (sz x + 4 + sz y) v (pf x) (lim x)]> (<[n := with_pf v z]> (delete b H)).

Lemma tile_absorb N P P' H v p b x y z :
  tile N P H → H !! p = Some x → sz x ≠ 0 → b = nxt p x → H !! b = Some y →
  sz y ≠ 0 → H !! nxt b y = Some z →
  (∀ c, c ∈ P' → c = p ∧ v = true ∨ c ∈ P ∧ c ≠ p ∧ c ≠ b) →
  (∀ c, c ∈ P → c = p ∨ c = b ∨ c ∈ P') →
  (v = true → p ∈ P') →
  tile N P' (absorb v p b (nxt b y) x y z H).
Proof.
  intros T Hp Hx Hpb Hb Hy Hz HP1 HP2 HP3.
  pose proof (tile_sz T _ _ Hp). pose proof (tile_sz T _ _ Hb).
  pose proof (t_ok _ _ _ T _ _ Hp) as Okp. pose proof (t_ok _ _ _ T _ _ Hb) as Okb.
  destruct (t_next _ _ _ T _ _ Hp Hx) as (y' & Hy' & _ & Elim & _).
  rewrite <- Hpb in Hy'. assert (y' = y) as -> by congruence.
  destruct (t_next _ _ _ T _ _ Hb Hy) as (z' & Hz' & _ & Elimz & _).
  assert (z' = z) as -> by congruence. remember (nxt b y) as n eqn:Hn.
  unfold nxt in Hpb, Hn.
  assert (∀ c w, absorb v p b n x y z H !! c = Some w → c ≠ b ∧
    (c = p ∧ w = Blk (sz x + 4 + sz y) v (pf x) (lim x)
     ∨ c = n ∧ w = with_pf v z ∨ c ≠ p ∧ c ≠ n ∧ H !! c = Some w)) as Hold.
  { unfold absorb. intros c w Hc. map_cases; split; try lia; auto. }
  assert (∀ c w, H !! c = Some w → c ≠ p → c ≠ b → c ≠ n → absorb v p b n x y z H !! c = Some w) as Hnew.
  { intros c w Hc ???. unfold absorb. by rewrite !lookup_insert_ne, lookup_delete_ne by congruence. }
  assert (absorb v p b n x y z H !! p = Some (Blk (sz x + 4 + sz y) v (pf x) (lim x))) as Hp'
    by (unfold absorb; by rewrite lookup_insert_eq).
  assert (absorb v p b n x y z H !! n = Some (with_pf v z)) as Hn'.
  { unfold absorb. rewrite lookup_insert_ne, lookup_insert_eq by lia. done. }
  split.
  - intros c w Hc. apply Hold in Hc as [_ [[-> ->]|[[-> ->]|(? & ? & Hc)]]].
    + unfold block_ok in *. change tlsf_size with 3188 in *. simpl. split_and!; [lia| |lia..].
      destruct Okp as (_ & E1 & _), Okb as (_ & E2 & _). Z.div_mod_to_equations. lia.
    + by apply (t_ok _ _ _ T) in Hz.
    + by apply (t_ok _ _ _ T).
  - intros c d w u Hc Hd Hcd.
    apply Hold in Hc as [? [[-> ->]|[[-> ->]|(? & ? & Hc)]]];
    apply Hold in Hd as [? [[-> ->]|[[-> ->]|(? & ? & Hd)]]]; unfold nxt; simpl; try lia.
    + pose proof (t_sep _ _ _ T _ _ _ _ Hp Hd). pose proof (t_sep _ _ _ T _ _ _ _ Hb Hd).
      sep_lia T.
    + by apply (t_sep _ _ _ T n d z u).
    + by apply (t_sep _ _ _ T c p w x).
    + by apply (t_sep _ _ _ T c n w z).
    + by apply (t_sep _ _ _ T c d w u).
  - intros c w Hc Hw. apply Hold in Hc as [Hcb [[-> ->]|[[-> ->]|(Hcp & Hcn & Hc)]]]; simpl in *.
    + exists (with_pf v z). unfold nxt; simpl. replace (p + 4 + _) with n by lia.
      split_and!; [done..|congruence|auto].
    + destruct (t_next _ _ _ T _ _ Hz Hw) as (u & Hu & ? & ? & Hadj). exists u.
      split_and!; [apply Hnew; [done|simpl; sep_lia T..]|done..|].
      unfold nxt in *; simpl. intros Hf1 Hf2. destruct (Hadj Hf1 Hf2) as [Hi|Hi];
        apply HP2 in Hi as [|[|]]; auto; sep_lia T.
    + destruct (t_next _ _ _ T _ _ Hc Hw) as (u & Hu & ? & ? & Hadj).
      destruct (decide (nxt c w = p)) as [E|].
      { rewrite E in *. assert (u = x) as -> by congruence. eexists. split; [done|]. simpl.
        split_and!; [done..|]. auto. }
      assert (nxt c w ≠ b).
      { intros E. apply Hcp. eapply (tile_nxt_inj T); try done. unfold nxt in *. lia. }
      assert (nxt c w ≠ n).
      { intros E. apply Hcb. eapply (tile_nxt_inj T); try done. unfold nxt in *. lia. }
      exists u. split_and!; [by apply Hnew|done..|].
      intros Hf1 Hf2. destruct (Hadj Hf1 Hf2) as [Hi|Hi]; apply HP2 in Hi as [|[|]]; auto; done.
  - intros c w Hc Hw. apply Hold in Hc as [Hcb [[-> ->]|[[-> ->]|(Hcp & Hcn & Hc)]]]; simpl in *.
    + destruct (t_prev _ _ _ T _ _ Hp Hw) as (q & u & Hq & ? & ?).
      exists q, u. split_and!; [apply Hnew; [done|sep_lia T..]|done..].
    + eexists p, _. split; [done|]. simpl. split; [done|]. unfold nxt; simpl. lia.
    + destruct (t_prev _ _ _ T _ _ Hc Hw) as (q & u & Hq & Hu & Hqc).
      destruct (decide (q = n)) as [->|].
      { assert (u = z) as -> by congruence. eexists n, _. by split_and!. }
      assert (q ≠ p) by (intros ->; assert (u = x) by congruence; subst; done).
      assert (q ≠ b) by (intros ->; assert (u = y) by congruence; subst; done).
      exists q, u. split_and!; [by apply Hnew|done..].
  - intros c Hc. apply HP1 in Hc as [[-> ->]|(Hc & ? & ?)]; [by eexists|].
    apply (t_pend _ _ _ T) in Hc as (w & Hw & Hf).
    destruct (decide (c = n)) as [->|]; [|exists w; split; [by apply Hnew|done]].
    assert (w = z) as -> by congruence. by eexists.
Qed.

(** Splitting [b] at [size]: the remainder [r] is free, [n] followed [b]. *)
Definition remainder (size : Z) (x : blk) : blk := Blk (sz x - size - 4) true (fr x) (lim x).
Definition split_at (size b r n : Z) (x y : blk) (H : blkmap) : blkmap :=
  <[b := with_sz size x]> (<[r := remainder size x]> (<[n := with_pf true y]> H)).

Lemma tile_split N P P' H size b x y :
  tile N P H → H !! b = Some x → H !! nxt b x = Some y →
  12 ≤ size → size mod 4 = 0 → size + 16 ≤ sz x →
  (∀ c, c ∈ P' ↔ c = b + 4 + size ∨ c ∈ P) →
  tile N P' (split_at size b (b + 4 + size) (nxt b x) x y H).
Proof.
  intros T Hb Hy Hs Hal Hsz HP.
  pose proof (tile_sz T _ _ Hb). pose proof (t_ok _ _ _ T _ _ Hb) as Okb.
  destruct (t_next _ _ _ T _ _ Hb ltac:(lia)) as (y' & Hy' & Epf & Elim & _).
  assert (y' = y) as -> by congruence. clear Hy'.
  remember (b + 4 + size) as r eqn:Hr. remember (nxt b x) as n eqn:Hn. unfold nxt in Hn.
  assert (H !! r = None) as Hr'.
  { destruct (H !! r) as [w|] eqn:E; [exfalso|done].
    pose proof (t_sep _ _ _ T _ _ _ _ Hb E). unfold nxt in *. lia. }
  assert (∀ c w, split_at size b r n x y H !! c = Some w →
    c = b ∧ w = with_sz size x ∨ c = r ∧ w = remainder size x
    ∨ c = n ∧ w = with_pf true y ∨ c ≠ b ∧ c ≠ r ∧ c ≠ n ∧ H !! c = Some w) as Hold.
  { unfold split_at. intros c w Hc. map_cases; auto 10. }
  assert (∀ c w, H !! c = Some w → c ≠ b → c ≠ n → split_at size b r n x y H !! c = Some w) as Hnew.
  { intros c w Hc ??. unfold split_at. by rewrite !lookup_insert_ne by congruence. }
  assert (split_at size b r n x y H !! b = Some (with_sz size x)) as Hb'
    by (unfold split_at; by rewrite lookup_insert_eq).
  assert (split_at size b r n x y H !! r = Some (remainder size x)) as Hr''.
  { unfold split_at. by rewrite lookup_insert_ne, lookup_insert_eq by lia. }
  assert (split_at size b r n x y H !! n = Some (with_pf true y)) as Hn'.
  { unfold split_at. by rewrite !lookup_insert_ne, lookup_insert_eq by lia. }
  split.
  - intros c w Hc. apply Hold in Hc as [[-> ->]|[[-> ->]|[[-> ->]|(_ & _ & _ & Hc)]]].
    + unfold block_ok in *. simpl. split_and!; lia.
    + unfold block_ok in *. simpl. destruct Okb as (E1 & E2 & Okb).
      split_and!; [Z.div_mod_to_equations; lia..|lia|lia|lia|lia].
    + by apply (t_ok _ _ _ T) in Hy.
    + by apply (t_ok _ _ _ T).
  - intros c d w u Hc Hd Hcd.
    apply Hold in Hc as [[-> ->]|[[-> ->]|[[-> ->]|(Hcb & Hcr & Hcn & Hc)]]];
    apply Hold in Hd as [[-> ->]|[[-> ->]|[[-> ->]|(Hdb & Hdr & Hdn & Hd)]]];
      unfold nxt; simpl; try lia.
    + pose proof (t_sep _ _ _ T _ _ _ _ Hb Hd). sep_lia T.
    + pose proof (t_sep _ _ _ T _ _ _ _ Hb Hd). sep_lia T.
    + by apply (t_sep _ _ _ T n d y u).
    + by apply (t_sep _ _ _ T c b w x).
    + pose proof (tile_sep2 T _ _ _ _ Hc Hb Hcb). sep_lia T.
    + by apply (t_sep _ _ _ T c n w y).
    + by apply (t_sep _ _ _ T c d w u).
  - intros c w Hc Hw.
    apply Hold in Hc as [[-> ->]|[[-> ->]|[[-> ->]|(Hcb & Hcr & Hcn & Hc)]]]; simpl in *.
    + exists (remainder size x). unfold nxt; simpl. rewrite <- Hr. split_and!; [done..|].
      intros _ _. right. apply HP. auto.
    + exists (with_pf true y). unfold nxt; simpl. replace (r + 4 + _) with n by lia.
      split_and!; [done..|]. intros _ _. left. apply HP. auto.
    + destruct (t_next _ _ _ T _ _ Hy Hw) as (u & Hu & ? & ? & Hadj). exists u.
      split_and!; [apply Hnew; [done|sep_lia T..]|done..|].
      unfold nxt in *; simpl. intros Hf1 Hf2. destruct (Hadj Hf1 Hf2); [left|right]; apply HP; auto.
    + destruct (t_next _ _ _ T _ _ Hc Hw) as (u & Hu & Epu & Elu & Hadj).
      assert (nxt c w ≠ n).
      { intros E. apply Hcb. eapply (tile_nxt_inj T); try done; [lia|]. unfold nxt in *. lia. }
      assert (fr w = true → fr u = true → c ∈ P' ∨ nxt c w ∈ P').
      { intros Hf1 Hf2. destruct (Hadj Hf1 Hf2); [left|right]; apply HP; auto. }
      destruct (decide (nxt c w = b)) as [E|]; [|exists u; by auto].
      rewrite E in *. assert (u = x) as -> by congruence. exists (with_sz size x). by auto.
  - intros c w Hc Hw.
    apply Hold in Hc as [[-> ->]|[[-> ->]|[[-> ->]|(Hcb & Hcr & Hcn & Hc)]]]; simpl in *.
    + destruct (t_prev _ _ _ T _ _ Hb Hw) as (q & u & Hq & ? & ?).
      exists q, u. split_and!; [apply Hnew; [done|sep_lia T..]|done..].
    + exists b, (with_sz size x). split_and!; [done..|]. unfold nxt; simpl. lia.
    + exists r, (remainder size x). split_and!; [done..|]. unfold nxt; simpl. lia.
    + destruct (t_prev _ _ _ T _ _ Hc Hw) as (q & u & Hq & Hu & Hqc).
      assert (q ≠ b) by (intros ->; assert (u = x) by congruence; subst; done).
      destruct (decide (q = n)) as [->|]; [|exists q, u; by auto].
      assert (u = y) as -> by congruence. eexists n, _. by split_and!.
  - intros c Hc. apply HP in Hc as [->|Hc]; [by eexists|].
    apply (t_pend _ _ _ T) in Hc as (w & Hw & Hf).
    destruct (decide (c = b)) as [->|]; [assert (w = x) as -> by congruence; by eexists|].
    destruct (decide (c = n)) as [->|]; [assert (w = y) as -> by congruence; by eexists|].
    exists w. auto.
Qed.
