(* ===== verification/TlsfWp.v ===== *)
(** * TLSF: the block operations over the heap map

    Each operation of [tlsf.c] on block headers, run on a memory that stores
    a heap map, stores the map updated the obvious way and changes only the
    words it should. *)

From S2P Require Import Prelude Memory Tlsf TlsfMap TlsfHeap.

(** Memories that agree outside a set of addresses. *)
Definition eq_off (D : Z → Prop) (m m' : mem) : Prop :=
  ∀ a, ¬ D a → load8 m' a = load8 m a.

Lemma eq_off_refl D m : eq_off D m m.
Proof. done. Qed.

Lemma eq_off_trans D1 D2 D m1 m2 m3 :
  eq_off D1 m1 m2 → eq_off D2 m2 m3 → (∀ a, D1 a ∨ D2 a → D a) → eq_off D m1 m3.
Proof. intros H1 H2 HD a Ha. rewrite H2, H1; auto. Qed.

Lemma eq_off_mono (D1 D2 : Z → Prop) m m' :
  eq_off D1 m m' → (∀ a, D1 a → D2 a) → eq_off D2 m m'.
Proof. intros H HD a Ha. apply H. auto. Qed.

Lemma eq_off_load32 D m m' a :
  eq_off D m m' → (∀ b, a ≤ b < a + 4 → ¬ D b) → load32 m' a = load32 m a.
Proof. intros HD Ha. apply load32_ext. intros. apply HD, Ha. lia. Qed.

Lemma eq_off_store32 m a v : eq_off (λ b, a ≤ b < a + 4) m (store32 m a v).
Proof. intros b Hb. apply load8_store32_ne. lia. Qed.

(** Headers that can be read and written without touching one another. *)
Definition geo (H : blkmap) : Prop :=
  ∀ b x, H !! b = Some x → b mod 4 = 0 ∧ sz x mod 4 = 0 ∧ 0 ≤ sz x < 2 ^ 32.

Lemma tile_geo N P H : tile N P H → geo H.
Proof.
  intros T b x Hb. pose proof (tile_sz T _ _ Hb). apply (t_ok _ _ _ T) in Hb.
  unfold block_ok in Hb. lia.
Qed.

Lemma geo_insert H b x : geo H → b mod 4 = 0 → sz x mod 4 = 0 → 0 ≤ sz x < 2 ^ 32 →
  geo (<[b := x]> H).
Proof. intros Hg ??? c y Hc. map_cases; [done|by apply Hg]. Qed.

Lemma geo_update H b x x' : geo H → H !! b = Some x → sz x' = sz x → geo (<[b := x']> H).
Proof. intros Hg Hb E. apply Hg in Hb as (?&?&?). apply geo_insert; [done|done|by rewrite E..]. Qed.

Lemma hdr_insert m H b x :
  hdr m H → geo H → b mod 4 = 0 → sz x mod 4 = 0 → 0 ≤ sz x < 2 ^ 32 →
  hdr (store32 m (b + 4) (hword x)) (<[b := x]> H).
Proof.
  intros Hh Hg Hb Hx Hx' c y Hc. map_cases.
  - rewrite load32_store32_eq. apply wrapu_small. by apply word_range.
  - rewrite load32_store32_ne; [by apply Hh|].
    apply Hg in Hc as (? & _). Z.div_mod_to_equations. lia.
Qed.

Lemma hdr_eq_off D m m' H :
  hdr m H → eq_off D m m' → (∀ b x a, H !! b = Some x → b + 4 ≤ a < b + 8 → ¬ D a) → hdr m' H.
Proof.
  intros Hh HD Hd b x Hb. rewrite (eq_off_load32 D m m'); [by apply Hh|done|].
  intros a Ha. eapply Hd; [done|lia].
Qed.

(** ** Reading headers *)

Section Read.
Context (s : tlsf_state) (H : blkmap) (Hh : hdr (tmem s) H) (Hg : geo H).
Context (b : Z) (x : blk) (Hb : H !! b = Some x).

Lemma wp_block_size Q : Q (sz x) s → wp (block_size b) s Q.
Proof.
  intros HQ. unfold block_size, rd. wp_steps. unfold size_field. rewrite (Hh _ _ Hb).
  unfold hword. rewrite word_size; [done|apply (Hg _ _ Hb)..].
Qed.

Lemma wp_block_is_last Q : Q (sz x =? 0) s → wp (block_is_last b) s Q.
Proof. intros HQ. unfold block_is_last. wp_step. apply wp_block_size. by wp_step. Qed.

Lemma wp_block_is_free Q : Q (fr x) s → wp (block_is_free b) s Q.
Proof.
  intros HQ. unfold block_is_free, rd. wp_steps. unfold size_field. rewrite (Hh _ _ Hb).
  unfold hword. rewrite word_is_free; [done|apply (Hg _ _ Hb)..].
Qed.

Lemma wp_block_is_prev_free Q : Q (pf x) s → wp (block_is_prev_free b) s Q.
Proof.
  intros HQ. unfold block_is_prev_free, rd. wp_steps. unfold size_field. rewrite (Hh _ _ Hb).
  unfold hword. rewrite word_is_prev_free; [done|apply (Hg _ _ Hb)..].
Qed.

Lemma wp_block_next Q :
  sz x ≠ 0 → 0 ≤ b → b + 8 + sz x ≤ 2 ^ 32 → Q (nxt b x) s → wp (block_next b) s Q.
Proof.
  intros Hx Hb0 Hlim HQ. unfold block_next. wp_step. apply wp_block_size. wp_step.
  apply wp_block_is_last. wp_steps.
  - by destruct (Z.eqb_spec (sz x) 0).
  - destruct (Hg _ _ Hb) as (? & ? & ?).
    assert (offset_to_block (block_to_ptr b) (u32 (sz x - block_header_overhead)) = nxt b x) as ->; [|done].
    unfold offset_to_block, block_to_ptr, nxt.
    change block_header_overhead with 4. change block_start_offset with 8.
    rewrite (wrapu_small 32 (b + 8)) by lia.
    assert (4 ≤ sz x) by (Z.div_mod_to_equations; lia).
    rewrite (wrapu_small 32 (sz x - 4)), wrapu_small by lia. lia.
Qed.

Lemma wp_block_prev p Q : pf x = true → load32 (tmem s) b = p → Q p s → wp (block_prev b) s Q.
Proof.
  intros Hp <- HQ. unfold block_prev, rd. wp_step. apply wp_block_is_prev_free.
  by wp_steps.
Qed.

(** ** Writing headers *)

Definition set_hdr (b : Z) (x : blk) (s : tlsf_state) : tlsf_state :=
  set_tmem (λ m, store32 m (b + 4) (hword x)) s.

Ltac header_write word_lemma :=
  unfold block_set_free, block_set_used, block_set_prev_free, block_set_prev_used, block_set_size, rd, wr;
  wp_steps; unfold size_field; rewrite (Hh _ _ Hb); unfold hword at 1;
  rewrite word_lemma; [done|try done; try apply (Hg _ _ Hb)..].

Lemma wp_block_set_free Q : Q tt (set_hdr b (with_fr true x) s) → wp (block_set_free b) s Q.
Proof. intros HQ. header_write word_set_free. Qed.

Lemma wp_block_set_used Q : Q tt (set_hdr b (with_fr false x) s) → wp (block_set_used b) s Q.
Proof. intros HQ. header_write word_set_used. Qed.

Lemma wp_block_set_prev_free Q :
  Q tt (set_hdr b (with_pf true x) s) → wp (block_set_prev_free b) s Q.
Proof. intros HQ. header_write word_set_prev_free. Qed.

Lemma wp_block_set_prev_used Q :
  Q tt (set_hdr b (with_pf false x) s) → wp (block_set_prev_used b) s Q.
Proof. intros HQ. header_write word_set_prev_used. Qed.

Lemma wp_block_set_size v Q : v mod 4 = 0 → 0 ≤ v < 2 ^ 32 →
  Q tt (set_hdr b (with_sz v x) s) → wp (block_set_size b v) s Q.
Proof. intros Hv Hv' HQ. header_write word_set_size. Qed.

End Read.

(** ** Composite header operations *)

(** No header lies at [n], so that the back link can be stored there. *)
Definition clean (H : blkmap) (n : Z) : Prop := ∀ c z, H !! c = Some z → c + 4 ≠ n.

Lemma clean_insert H n b x : clean H n → b + 4 ≠ n → clean (<[b := x]> H) n.
Proof. intros Hc Hn c z Hz. map_cases; [done|by eapply Hc]. Qed.

Lemma clean_delete H n b : clean H n → clean (delete b H) n.
Proof. intros Hc c z Hz. map_cases. by eapply Hc. Qed.

Lemma tile_clean N P H b x : tile N P H → H !! b = Some x → sz x ≠ 0 → clean H (nxt b x).
Proof.
  intros T Hb Hx c z Hc E. destruct (decide (c = b)) as [->|Hne]; [unfold nxt in E; lia|].
  pose proof (tile_sep2 T _ _ _ _ Hc Hb Hne). sep_lia T.
Qed.

Lemma hdr_store_clean m H n v : hdr m H → geo H → n mod 4 = 0 → clean H n → hdr (store32 m n v) H.
Proof.
  intros Hh Hg Hn Hc. eapply hdr_eq_off; [done|apply eq_off_store32|].
  intros b x a Hb Ha. specialize (Hc _ _ Hb). apply Hg in Hb as (? & _).
  Z.div_mod_to_equations. lia.
Qed.

Lemma nxt_aligned H b x : geo H → H !! b = Some x → nxt b x mod 4 = 0.
Proof. intros Hg Hb. apply Hg in Hb as (? & ? & _). unfold nxt. Z.div_mod_to_equations. lia. Qed.

(** What a block operation may assume of the block it works on. *)
Definition next_ok (H : blkmap) (b : Z) (x : blk) : Prop :=
  H !! b = Some x ∧ sz x ≠ 0 ∧ 0 < b ∧ b + 8 + sz x ≤ 2 ^ 32 ∧ clean H (nxt b x).

Lemma tile_next_ok N P H b x : tile N P H → H !! b = Some x → sz x ≠ 0 → next_ok H b x.
Proof.
  intros T Hb Hx. pose proof (tile_clean _ _ _ _ _ T Hb Hx).
  pose proof (t_ok _ _ _ T _ _ Hb) as Ok. unfold block_ok in Ok. split_and!; try done; lia.
Qed.

Lemma wp_block_link_next s H b x :
  hdr (tmem s) H → geo H → next_ok H b x →
  wp (block_link_next b) s (λ n s', n = nxt b x ∧ s' = set_tmem (λ m, store32 m (nxt b x) b) s
    ∧ hdr (tmem s') H ∧ load32 (tmem s') (nxt b x) = b).
Proof.
  intros Hh Hg (Hb & Hx & Hb0 & Hlim & Hc). unfold block_link_next, wr. wp_step.
  eapply wp_block_next; [done..|lia|lia|]. wp_steps. split_and!; [done..| |].
  - eapply hdr_store_clean; try done. by eapply nxt_aligned.
  - simpl. unfold prev_phys_block. rewrite load32_store32_eq. apply wrapu_small.
    destruct (Hg _ _ Hb) as (_ & _ & ?). lia.
Qed.

Section SetFr.
Context (s : tlsf_state) (H : blkmap) (Hh : hdr (tmem s) H) (Hg : geo H).
Context (b : Z) (x y : blk) (Hok : next_ok H b x) (Hn : H !! nxt b x = Some y).

Lemma nxt_gt : b + 8 ≤ nxt b x.
Proof.
  destruct Hok as (Hb & ? & _). apply Hg in Hb as (_ & ? & ?). unfold nxt.
  Z.div_mod_to_equations. lia.
Qed.

Lemma hdr_set_fr v : hdr (tmem (set_hdr b (with_fr v x) (set_hdr (nxt b x) (with_pf v y) s)))
  (set_fr v b (nxt b x) x y H).
Proof.
  destruct Hok as (Hb & _). destruct (Hg _ _ Hb) as (? & ? & ?). destruct (Hg _ _ Hn) as (? & ? & ?).
  unfold set_fr. simpl. apply hdr_insert; try done.
  - by apply hdr_insert.
  - by eapply geo_update.
Qed.

Lemma hdr_set_n v : hdr (tmem (set_hdr (nxt b x) (with_pf v y) s)) (<[nxt b x := with_pf v y]> H).
Proof. destruct (Hg _ _ Hn) as (? & ? & ?). simpl. by apply hdr_insert. Qed.

Lemma geo_set_n v : geo (<[nxt b x := with_pf v y]> H).
Proof. by eapply geo_update. Qed.

Lemma eq_off_set_fr v :
  eq_off (λ a, nxt b x + 4 ≤ a < nxt b x + 8 ∨ b + 4 ≤ a < b + 8) (tmem s)
    (tmem (set_hdr b (with_fr v x) (set_hdr (nxt b x) (with_pf v y) s))).
Proof. simpl. eapply eq_off_trans; [apply eq_off_store32..|]. simpl. lia. Qed.

Lemma lookup_b_set_n v : <[nxt b x := with_pf v y]> H !! b = Some x.
Proof. destruct Hok as (Hb & _). pose proof nxt_gt. rewrite lookup_insert_ne; [done|lia]. Qed.

End SetFr.

Lemma wp_block_mark_as_free s H b x y :
  hdr (tmem s) H → geo H → next_ok H b x → H !! nxt b x = Some y →
  wp (block_mark_as_free b) s (λ _ s', ctl s' = ctl s
    ∧ hdr (tmem s') (set_fr true b (nxt b x) x y H) ∧ load32 (tmem s') (nxt b x) = b
    ∧ eq_off (λ a, nxt b x ≤ a < nxt b x + 8 ∨ b + 4 ≤ a < b + 8) (tmem s) (tmem s')).
Proof.
  intros Hh Hg Hok Hn. unfold block_mark_as_free. wp_step.
  eapply wp_mono; [by eapply wp_block_link_next|]. intros ? s1 (-> & -> & Hh1 & Hl).
  set (s1 := set_tmem _ s) in *. pose proof (nxt_gt H Hg b x Hok).
  wp_step. eapply wp_block_set_prev_free; [done..|].
  eapply wp_block_set_free; [by apply (hdr_set_n s1 H)|by eapply geo_set_n|by apply lookup_b_set_n|].
  split_and!; [done|by apply hdr_set_fr| |].
  - simpl. by rewrite !load32_store32_ne by lia.
  - eapply eq_off_trans; [apply (eq_off_store32 _ (nxt b x) b)|apply (eq_off_set_fr s1)|]. simpl. lia.
Qed.

Lemma wp_block_mark_as_used s H b x y :
  hdr (tmem s) H → geo H → next_ok H b x → H !! nxt b x = Some y →
  wp (block_mark_as_used b) s (λ _ s', ctl s' = ctl s
    ∧ hdr (tmem s') (set_fr false b (nxt b x) x y H)
    ∧ eq_off (λ a, nxt b x + 4 ≤ a < nxt b x + 8 ∨ b + 4 ≤ a < b + 8) (tmem s) (tmem s')).
Proof.
  intros Hh Hg Hok Hn. unfold block_mark_as_used. wp_step.
  destruct Hok as (Hb & ? & ? & ? & ?) eqn:E. eapply wp_block_next; [done..|lia|lia|].
  wp_step. eapply wp_block_set_prev_used; [done..|].
  eapply wp_block_set_used; [by apply (hdr_set_n s H)|by eapply geo_set_n|by apply lookup_b_set_n|].
  split_and!; [done|by apply hdr_set_fr|]. apply eq_off_set_fr.
Qed.

Lemma wp_block_absorb s H p b x y :
  hdr (tmem s) H → geo H → H !! p = Some x → sz x ≠ 0 → 0 < p → b = nxt p x →
  next_ok H b y →
  wp (block_absorb p b) s (λ r s', r = p ∧ ctl s' = ctl s
    ∧ hdr (tmem s') (<[p := with_sz (sz x + 4 + sz y) x]> H)
    ∧ load32 (tmem s') (nxt b y) = p
    ∧ eq_off (λ a, nxt b y ≤ a < nxt b y + 4 ∨ p + 4 ≤ a < p + 8) (tmem s) (tmem s')).
Proof.
  intros Hh Hg Hp Hx Hp0 -> Hok. pose proof (nxt_gt _ Hg _ _ Hok) as Hn.
  destruct Hok as (Hb & Hy & ? & Hlim & Hc).
  destruct (Hg _ _ Hp) as (Hpa & Hxa & ?). destruct (Hg _ _ Hb) as (_ & Hya & ?).
  set (x' := with_sz (sz x + 4 + sz y) x).
  assert (nxt p x' = nxt (nxt p x) y) as En by (unfold nxt; simpl; lia).
  assert (sz x' mod 4 = 0) by (simpl; Z.div_mod_to_equations; lia).
  assert (0 ≤ sz x' < 2 ^ 32) by (unfold nxt in *; simpl; lia).
  unfold block_absorb, rd, wr. wp_step. eapply wp_block_is_last; [done..|]. wp_steps.
  { by destruct (Z.eqb_spec (sz x) 0). }
  eapply wp_block_size; [done..|]. wp_steps.
  unfold size_field. rewrite (Hh _ _ Hp). change block_header_overhead with 4.
  assert (u32 (hword x + sz y + 4) = hword x') as ->.
  { replace (hword x + sz y + 4) with (hword x') by (unfold hword; simpl; lia).
    apply wrapu_small. by apply word_range. }
  eapply wp_mono; [eapply (wp_block_link_next _ (<[p := x']> H) p x')|].
  - by apply hdr_insert.
  - by apply geo_insert.
  - split_and!; [apply lookup_insert_eq|simpl; lia|done|unfold nxt in *; simpl; lia|].
    rewrite En. apply clean_insert; [done|]. unfold nxt in *. lia.
  - intros ? s' (-> & -> & Hh' & Hl). rewrite En in *. wp_step. split_and!; [done..|].
    simpl. eapply eq_off_trans; [apply eq_off_store32..|]. simpl. lia.
Qed.

Lemma align_ptr_aligned s x Q : x mod 4 = 0 → in_u32 x → Q x s → wp (align_ptr x ALIGN_SIZE) s Q.
Proof.
  intros Hx Hr HQ. unfold align_ptr. wp_steps; [done|].
  assert (Z.land (u32 (x + u32 (ALIGN_SIZE - 1))) (u32 (Z.lnot (u32 (ALIGN_SIZE - 1)))) = x) as ->; [|done].
  change (u32 (ALIGN_SIZE - 1)) with 3. rewrite wrapu_small by (Z.div_mod_to_equations; lia).
  replace (x + 3) with (x + b2z true + 2 * b2z true) by (simpl; lia). by apply word_size.
Qed.

(** Whatever a word holds, it can be read as a header. *)
Lemma any_header m a l : ∃ x, load32 m a = hword x ∧ sz x mod 4 = 0 ∧ 0 ≤ sz x < 2 ^ 32 ∧ lim x = l.
Proof.
  pose proof (load32_range m a) as Hr. set (w := load32 m a) in *.
  exists (Blk (4 * (w / 4)) (w mod 2 =? 1) (w / 2 mod 2 =? 1) l). unfold hword. simpl.
  assert (b2z (w mod 2 =? 1) = w mod 2) as ->.
  { unfold b2z. case_cmp; Z.div_mod_to_equations; lia. }
  assert (b2z (w / 2 mod 2 =? 1) = w / 2 mod 2) as ->.
  { unfold b2z. case_cmp; Z.div_mod_to_equations; lia. }
  split_and!; try done; try (Z.div_mod_to_equations; lia).
Qed.

Lemma hdr_add m H r x : hdr m H → load32 m (r + 4) = hword x → hdr m (<[r := x]> H).
Proof. intros Hh Hx b y Hb. map_cases; [done|by apply Hh]. Qed.

Lemma hdr_mono m (H H' : blkmap) : hdr m H → H' ⊆ H → hdr m H'.
Proof. intros Hh Hs b x Hb. apply Hh. by eapply lookup_weaken. Qed.

Lemma split_remaining b size : 0 < b → 12 ≤ size → b + 12 + size ≤ 2 ^ 32 →
  offset_to_block (block_to_ptr b) (u32 (size - block_header_overhead)) = b + 4 + size.
Proof.
  intros. unfold offset_to_block, block_to_ptr. change block_header_overhead with 4.
  change block_start_offset with 8. rewrite (wrapu_small 32 (b + 8)) by lia.
  rewrite (wrapu_small 32 (size - 4)) by lia. rewrite wrapu_small by lia. lia.
Qed.

Lemma wp_block_split s H b x y size :
  hdr (tmem s) H → geo H → next_ok H b x → H !! nxt b x = Some y →
  12 ≤ size → size mod 4 = 0 → size + 16 ≤ sz x → H !! (b + 4 + size) = None →
  wp (block_split b size) s (λ r s', r = b + 4 + size ∧ ctl s' = ctl s
    ∧ (∃ g, hdr (tmem s') (<[b := with_sz size x]>
        (<[b + 4 + size := Blk (sz x - size - 4) true g (lim x)]> (<[nxt b x := with_pf true y]> H))))
    ∧ load32 (tmem s') (nxt b x) = b + 4 + size
    ∧ eq_off (λ a, nxt b x ≤ a < nxt b x + 8 ∨ b + 4 ≤ a < b + 8 ∨ b + 8 + size ≤ a < b + 12 + size)
        (tmem s) (tmem s')).
Proof.
  intros Hh Hg Hok Hn Hs Hal Hsz Hr. pose proof (nxt_gt _ Hg _ _ Hok) as Hbn.
  destruct Hok as (Hb & Hx & Hb0 & Hlim & Hc). destruct (Hg _ _ Hb) as (Hba & Hxa & Hxr).
  unfold block_split. rewrite split_remaining by lia. set (r := b + 4 + size) in *.
  assert (r mod 4 = 0) as Hra by (unfold r; Z.div_mod_to_equations; lia).
  destruct (any_header (tmem s) (r + 4) (lim x)) as (x0 & Hx0 & Hx0a & Hx0r & Hx0l).
  set (x1 := with_sz (sz x - size - 4) x0).
  set (H1 := <[r := x0]> H). set (H2 := <[r := x1]> H1). set (H3 := <[b := with_sz size x]> H2).
  assert (b < r) by (unfold r; lia). assert (nxt r x1 = nxt b x) as En by (unfold nxt, r; simpl; lia).
  assert (r < nxt b x) by (unfold nxt, r in *; lia).
  assert (sz x1 mod 4 = 0) by (simpl; clear - Hxa Hal; Z.div_mod_to_equations; lia).
  assert (geo H1) by (apply geo_insert; try done; lia).
  assert (geo H2) by (apply geo_insert; try done; simpl; lia).
  assert (geo H3) by (apply geo_insert; try done; simpl; lia).
  assert (H2 !! b = Some x) as H2b by (unfold H2, H1; by rewrite !lookup_insert_ne by lia).
  assert (H3 !! r = Some x1) as H3r by (unfold H3, H2; by rewrite lookup_insert_ne, lookup_insert_eq by lia).
  assert (H3 !! nxt b x = Some y) as H3n by (unfold H3, H2, H1; by rewrite !lookup_insert_ne by lia).
  assert (clean H3 (nxt b x)) as H3c.
  { unfold H3, H2, H1. repeat apply clean_insert; [done|unfold nxt, r; lia..]. }
  assert (hdr (tmem s) H1) as Hh1 by (by apply hdr_add).
  assert (hdr (tmem (set_hdr r x1 s)) H2) as Hh2 by (apply hdr_insert; try done; simpl; lia).
  assert (hdr (tmem (set_hdr b (with_sz size x) (set_hdr r x1 s))) H3) as Hh3
    by (apply hdr_insert; try done; simpl; lia).
  wp_step. eapply (wp_block_size _ H); [done..|]. change block_header_overhead with 4. cbv zeta.
  rewrite (wrapu_small 32 (size + 4)) by lia. rewrite (wrapu_small 32 (sz x - (size + 4))) by lia.
  replace (sz x - (size + 4)) with (sz x - size - 4) by lia.
  assert (block_to_ptr r = r + 8) as Hrp by (apply wrapu_small; unfold nxt, r in *; lia).
  rewrite !Hrp. wp_step. apply align_ptr_aligned; [Z.div_mod_to_equations; lia|unfold nxt, r in *; lia|].
  wp_steps; [apply Z.eqb_refl|]. eapply (wp_block_size _ H); [done..|]. wp_steps.
  { rewrite wrapu_small by lia. apply Z.eqb_eq. lia. }
  eapply (wp_block_set_size _ H1); [done|done|apply lookup_insert_eq|done|lia|].
  wp_step. eapply (wp_block_size _ H2); [done|done|apply lookup_insert_eq|]. simpl. wp_steps.
  { apply Z.leb_le. change block_size_min with 12. lia. }
  eapply (wp_block_set_size _ H2); [done..|lia|]. wp_step.
  eapply wp_mono; [eapply (wp_block_mark_as_free _ H3 r x1 y); try done; [|by rewrite En]|].
  { split_and!; try done; [simpl; lia|lia|unfold nxt, r in *; simpl; lia|by rewrite En]. }
  intros _ s' (Ec & Hh' & Hl & Ho). rewrite En in *. wp_step. split_and!; [done..| |done|].
  - exists (pf x1). eapply hdr_mono; [done|]. apply map_subseteq_spec. intros c z Hz.
    unfold set_fr, H3, H2, H1. map_cases.
    + by rewrite !lookup_insert_ne, lookup_insert_eq by lia.
    + rewrite lookup_insert_eq. unfold with_fr. simpl. by rewrite Hx0l.
    + by rewrite lookup_insert_ne, lookup_insert_eq by lia.
    + by rewrite !lookup_insert_ne by done.
  - eapply eq_off_trans; [|exact Ho|].
    + simpl. eapply eq_off_trans; [apply eq_off_store32..|]. intros a Ha. exact Ha.
    + simpl. unfold r. lia.
Qed.
