(* ===== verification/TlsfLists.v ===== *)
(** * TLSF: the segregated free lists

    The free lists are doubly linked through the blocks themselves and end in
    the null block of the control structure; the two bitmap levels record
    which lists are inhabited.  [remove_free_block], [insert_free_block] and
    [search_suitable_block] are shown to keep this index exact. *)

From S2P Require Import Prelude Memory Tlsf TlsfMap TlsfHeap TlsfWp.

(** ** The control structure's arrays *)

Definition in_cls (fl sl : Z) : Prop := 0 ≤ fl < FL_INDEX_COUNT ∧ 0 ≤ sl < SL_INDEX_COUNT.

Definition sl_at (c : control_t) (fl : Z) : Z := sl_bitmap c !!! Z.to_nat fl.
Definition head_at (c : control_t) (fl sl : Z) : Z :=
  (blocks c !!! Z.to_nat fl) !!! Z.to_nat sl.

Definition shape (c : control_t) : Prop :=
  length (sl_bitmap c) = Z.to_nat FL_INDEX_COUNT ∧
  length (blocks c) = Z.to_nat FL_INDEX_COUNT ∧
  Forall (λ row, length row = Z.to_nat SL_INDEX_COUNT) (blocks c).

Lemma arr_get_total {A} `{!Inhabited A} (l : list A) i :
  0 ≤ i < Z.of_nat (length l) → arr_get l i = Ok (l !!! Z.to_nat i).
Proof.
  intros Hi. destruct (arr_get_in_range l i Hi) as (a & -> & Ha).
  by rewrite (list_lookup_total_correct _ _ _ Ha).
Qed.

Section Arrays.
Context (s : tlsf_state) (Hs : shape (ctl s)).

Lemma shape_row fl : 0 ≤ fl < FL_INDEX_COUNT →
  Z.of_nat (length (blocks (ctl s) !!! Z.to_nat fl)) = SL_INDEX_COUNT.
Proof.
  intros Hfl. destruct Hs as (_ & Hl & Hr). rewrite Forall_lookup in Hr.
  erewrite (Hr (Z.to_nat fl)); [done|]. apply list_lookup_lookup_total_lt. rewrite Hl. lia.
Qed.

Lemma wp_sl_get fl Q : 0 ≤ fl < FL_INDEX_COUNT → Q (sl_at (ctl s) fl) s → wp (sl_get fl) s Q.
Proof.
  intros Hfl HQ. unfold sl_get. wp_steps. eapply wp_lift; [|done].
  apply arr_get_total. destruct Hs as (-> & _). lia.
Qed.

Lemma wp_sl_set fl v Q : 0 ≤ fl < FL_INDEX_COUNT →
  Q tt (set_sl_bitmap (<[Z.to_nat fl := v]> (sl_bitmap (ctl s))) s) → wp (sl_set fl v) s Q.
Proof.
  intros Hfl HQ. unfold sl_set. wp_steps. eapply wp_lift; [|by wp_step].
  apply arr_set_in_range. destruct Hs as (-> & _). lia.
Qed.

Lemma wp_blocks_get fl sl Q : in_cls fl sl → Q (head_at (ctl s) fl sl) s → wp (blocks_get fl sl) s Q.
Proof.
  intros [Hfl Hsl] HQ. unfold blocks_get. wp_steps. eapply wp_lift.
  - apply arr_get_total. destruct Hs as (_ & -> & _). lia.
  - eapply wp_lift; [|done]. apply arr_get_total. by rewrite shape_row.
Qed.

Definition put_head (fl sl b : Z) : tlsf_state :=
  set_blocks (<[Z.to_nat fl := <[Z.to_nat sl := b]> (blocks (ctl s) !!! Z.to_nat fl)]> (blocks (ctl s))) s.

Lemma wp_blocks_set fl sl b Q : in_cls fl sl → Q tt (put_head fl sl b) → wp (blocks_set fl sl b) s Q.
Proof.
  intros [Hfl Hsl] HQ. unfold blocks_set. wp_steps. eapply wp_lift.
  { apply arr_get_total. destruct Hs as (_ & -> & _). lia. }
  wp_step. eapply wp_lift; [apply arr_set_in_range; by rewrite shape_row|]. wp_step.
  eapply wp_lift; [apply arr_set_in_range; destruct Hs as (_ & -> & _); lia|]. by wp_step.
Qed.

Lemma sl_at_set fl v f : 0 ≤ fl < FL_INDEX_COUNT → 0 ≤ f →
  sl_at (ctl (set_sl_bitmap (<[Z.to_nat fl := v]> (sl_bitmap (ctl s))) s)) f
    = if decide (f = fl) then v else sl_at (ctl s) f.
Proof.
  intros Hfl Hf. unfold sl_at. simpl. case_decide as E.
  - subst. apply list_lookup_total_insert_eq. destruct Hs as (-> & _). lia.
  - apply list_lookup_total_insert_ne. lia.
Qed.

Lemma shape_set_sl fl v : shape (ctl (set_sl_bitmap (<[Z.to_nat fl := v]> (sl_bitmap (ctl s))) s)).
Proof. destruct Hs as (? & ? & ?). unfold shape. simpl. by rewrite length_insert. Qed.

Lemma head_at_set fl sl b f g : in_cls fl sl → 0 ≤ f → 0 ≤ g →
  head_at (ctl (put_head fl sl b)) f g
    = if decide (f = fl ∧ g = sl) then b else head_at (ctl s) f g.
Proof.
  intros [Hfl Hsl] Hf Hg. unfold head_at, put_head. simpl.
  destruct Hs as (_ & Hl & _). pose proof (shape_row fl Hfl) as Hr.
  destruct (decide (f = fl)) as [->|].
  - rewrite list_lookup_total_insert_eq by lia. case_decide as E.
    + destruct E as [_ ->]. apply list_lookup_total_insert_eq. lia.
    + apply list_lookup_total_insert_ne. lia.
  - rewrite list_lookup_total_insert_ne by lia. by case_decide as E; [destruct E|].
Qed.

Lemma shape_put_head fl sl b : 0 ≤ fl < FL_INDEX_COUNT → shape (ctl (put_head fl sl b)).
Proof.
  intros Hfl. pose proof (shape_row fl Hfl) as Hr. destruct Hs as (? & ? & ?).
  unfold shape. simpl. rewrite length_insert. split_and!; [done..|].
  apply Forall_insert; [done|]. rewrite length_insert. lia.
Qed.

End Arrays.

(** ** Doubly linked lists *)

Definition first (N : Z) (l : list Z) : Z := match l with [] => N | b :: _ => b end.
Fixpoint last_or (p : Z) (l : list Z) : Z := match l with [] => p | b :: l => last_or b l end.
Definition inhabited_list (l : list Z) : bool := match l with [] => false | _ => true end.

Fixpoint dl (m : mem) (N prev : Z) (l : list Z) : Prop :=
  match l with
  | [] => True
  | b :: l => load32 m (b + 12) = prev ∧ load32 m (b + 8) = first N l ∧ dl m N b l
  end.

Lemma last_or_elem p l : last_or p l ∈ p :: l.
Proof.
  revert p. induction l as [|b l IH]; intros p; simpl; [apply list_elem_of_here|].
  apply list_elem_of_further, IH.
Qed.

Lemma first_elem N l : first N l ∈ N :: l.
Proof. destruct l; simpl; [apply list_elem_of_here|apply list_elem_of_further, list_elem_of_here]. Qed.

Lemma dl_frame m m' N prev l :
  (∀ b, b ∈ l → load32 m' (b + 8) = load32 m (b + 8) ∧ load32 m' (b + 12) = load32 m (b + 12)) →
  dl m N prev l → dl m' N prev l.
Proof.
  revert prev. induction l as [|b l IH]; intros prev Hf; simpl; [done|].
  intros (? & ? & ?). destruct (Hf b) as [-> ->]; [apply list_elem_of_here|].
  split_and!; try done. apply IH; [|done]. intros. apply Hf. by apply list_elem_of_further.
Qed.

(** Unlinking [b], by the two stores of [remove_free_block]. *)
Definition unlink (m : mem) (p n : Z) : mem := store32 (store32 m (n + 12) p) (p + 8) n.

Lemma load32_unlink_ne m p n a :
  (a + 4 ≤ n + 12 ∨ n + 16 ≤ a) → (a + 4 ≤ p + 8 ∨ p + 12 ≤ a) →
  load32 (unlink m p n) a = load32 m a.
Proof. intros. unfold unlink. by rewrite !load32_store32_ne by lia. Qed.

Lemma load32_unlink_next m p n : in_u32 n → load32 (unlink m p n) (p + 8) = n.
Proof. intros. unfold unlink. by rewrite load32_store32_eq, wrapu_small. Qed.

Lemma load32_unlink_prev m p n :
  in_u32 p → p = n ∨ p + 16 ≤ n ∨ n + 16 ≤ p → load32 (unlink m p n) (n + 12) = p.
Proof. intros. unfold unlink. by rewrite load32_store32_ne, load32_store32_eq, wrapu_small by lia. Qed.

(** Pushing [b], by the three stores of [insert_free_block]. *)
Definition push_front (m : mem) (N b c : Z) : mem :=
  store32 (store32 (store32 m (b + 8) c) (b + 12) N) (c + 12) b.

(** The nodes: addresses that are the same or too far apart to share a word. *)
Section Nodes.
Context (N : Z) (node : Z → Prop) (Hnode : node N).
Context (Hap : ∀ x y, node x → node y → x ≠ y → x + 16 ≤ y ∨ y + 16 ≤ x).
Context (Hu : ∀ x, node x → in_u32 x).

Lemma unlink_other m p n d : node p → node n → node d → d ≠ p → d ≠ n →
  load32 (unlink m p n) (d + 8) = load32 m (d + 8)
  ∧ load32 (unlink m p n) (d + 12) = load32 m (d + 12).
Proof.
  intros Hp Hn Hd Hdp Hdn. pose proof (Hap d p Hd Hp Hdp). pose proof (Hap d n Hd Hn Hdn).
  by rewrite !load32_unlink_ne by lia.
Qed.

Lemma unlink_prev m p n : node p → node n → load32 (unlink m p n) (n + 12) = p.
Proof.
  intros Hp Hn. apply load32_unlink_prev; [auto|].
  destruct (decide (p = n)); [auto|]. right. auto.
Qed.

Lemma node_first l : Forall node l → node (first N l).
Proof. destruct l; [done|]. intros Hl. by apply Forall_cons in Hl as []. Qed.

Lemma node_last_or p l : node p → Forall node l → node (last_or p l).
Proof.
  intros Hp Hl. rewrite Forall_forall in Hl.
  destruct (proj1 (elem_of_cons _ _ _) (last_or_elem p l)) as [->|]; auto.
Qed.

Lemma dl_unlink m prev l1 b l2 :
  dl m N prev (l1 ++ b :: l2) → node prev → Forall node (l1 ++ b :: l2) →
  NoDup (prev :: l1 ++ b :: l2) → N ∉ l1 ++ b :: l2 →
  load32 m (b + 12) = last_or prev l1 ∧ load32 m (b + 8) = first N l2 ∧
  dl (unlink m (last_or prev l1) (first N l2)) N prev (l1 ++ l2).
Proof.
  revert prev. induction l1 as [|a l1 IH]; intros prev Hdl Hprev Hl Hnd HN; simpl in Hdl |- *.
  - destruct Hdl as (E1 & E2 & Hdl). split_and!; [done..|].
    destruct l2 as [|c l2]; [done|]. destruct Hdl as (E3 & E4 & Hdl). simpl in *.
    apply Forall_cons in Hl as [_ [Hc Hl]%Forall_cons]. rewrite !NoDup_cons in Hnd.
    assert (prev ≠ c) by (destruct Hnd as [Hnd _]; set_solver). split_and!.
    + by apply unlink_prev.
    + pose proof (Hap prev c Hprev Hc ltac:(done)). by rewrite load32_unlink_ne by lia.
    + eapply dl_frame; [|done]. intros d Hd. rewrite Forall_forall in Hl.
      apply unlink_other; auto; destruct Hnd as (Hn1 & Hn2 & Hn3 & _); clear -Hd Hn1 Hn2 Hn3; set_solver.
  - destruct Hdl as (E1 & E2 & Hdl). apply NoDup_cons in Hnd as [Hpr Hnd].
    apply Forall_cons in Hl as [Ha Hl]. apply not_elem_of_cons in HN as [HaN HN].
    destruct (IH a Hdl) as (E3 & E4 & Hdl'); [done..|]. split_and!; [done..| | |done].
    + assert (first N l2 ≠ a) as Hf.
      { pose proof (first_elem N l2) as He. apply NoDup_cons in Hnd as [Hnd _].
        clear -He Hnd HaN. set_solver. }
      apply Forall_app in Hl as [Hl1 [_ Hl2]%Forall_cons].
      pose proof (Hap a _ Ha (node_first _ Hl2) ltac:(done)).
      destruct (decide (last_or a l1 = a)) as [->|Hne].
      * by rewrite load32_unlink_ne by lia.
      * pose proof (Hap a _ Ha (node_last_or _ _ Ha Hl1) ltac:(done)).
        by rewrite load32_unlink_ne by lia.
    + apply Forall_app in Hl as [Hl1 [_ Hl2]%Forall_cons].
      destruct l1 as [|a' l1]; simpl; [by apply load32_unlink_next, Hu, node_first|].
      apply Forall_cons in Hl1 as [Ha' Hl1]. apply NoDup_cons in Hnd as [Hnd _].
      pose proof (first_elem N l2) as He1. pose proof (last_or_elem a' l1) as He2.
      destruct (unlink_other m (last_or a' l1) (first N l2) a) as [-> _]; [..|done].
      * by apply node_last_or.
      * by apply node_first.
      * done.
      * intros E. rewrite <- E in He2. apply Hnd. apply (elem_of_app (a' :: l1)). auto.
      * intros E. rewrite <- E in He1. apply elem_of_cons in He1 as [?|He1]; [done|].
        apply Hnd. apply (elem_of_app (a' :: l1)). right. by apply list_elem_of_further.
Qed.

Lemma dl_push m b l :
  dl m N N l → node b → Forall node l → NoDup (b :: l) → N ∉ b :: l →
  dl (push_front m N b (first N l)) N N (b :: l).
Proof.
  intros Hdl Hb Hl [Hbl Hnd]%NoDup_cons [HbN HN]%not_elem_of_cons. set (c := first N l).
  assert (c ≠ b) as Hcb.
  { pose proof (first_elem N l) as He. fold c in He. clear -He Hbl HbN. set_solver. }
  pose proof (node_first l Hl) as Hc. fold c in Hc.
  pose proof (Hap c b Hc Hb Hcb). pose proof (Hu b Hb). pose proof (Hu c Hc). pose proof (Hu N Hnode).
  assert (∀ d, d ∈ l → load32 (push_front m N b c) (d + 8) = load32 m (d + 8)
    ∧ (d ≠ c → load32 (push_front m N b c) (d + 12) = load32 m (d + 12))) as Hf.
  { intros d Hd. rewrite Forall_forall in Hl. assert (d ≠ b) as Hdb by (by intros ->).
    pose proof (Hap d b (Hl d Hd) Hb Hdb). unfold push_front. split.
    - destruct (decide (d = c)) as [->|Hdc]; [by rewrite !load32_store32_ne by lia|].
      pose proof (Hap d c (Hl d Hd) Hc Hdc). by rewrite !load32_store32_ne by lia.
    - intros Hdc. pose proof (Hap d c (Hl d Hd) Hc Hdc). by rewrite !load32_store32_ne by lia. }
  simpl. split_and!.
  - unfold push_front. rewrite load32_store32_ne, load32_store32_eq by lia. by apply wrapu_small.
  - unfold push_front. rewrite !load32_store32_ne, load32_store32_eq by lia. by apply wrapu_small.
  - destruct l as [|c' l]; [done|]. destruct Hdl as (_ & E & Hdl). simpl in c. subst c.
    simpl. apply NoDup_cons in Hnd as [Hc' _]. split_and!.
    + unfold push_front. rewrite load32_store32_eq. by apply wrapu_small.
    + destruct (Hf c') as [-> _]; [apply list_elem_of_here|done].
    + eapply dl_frame; [|done]. intros d Hd. destruct (Hf d) as [? Hf2]; [by apply list_elem_of_further|].
      split; [done|]. apply Hf2. by intros ->.
Qed.

End Nodes.

(** ** The index of free blocks *)

Abbreviation null s := (control_addr (ctl s)).

Definition free_in (P : gset Z) (H : blkmap) (fl sl b : Z) : Prop :=
  b ∉ P ∧ ∃ x, H !! b = Some x ∧ fr x = true ∧ mapping_insert (sz x) = (fl, sl).

Record free_index (F : Z → Z → list Z) (c : control_t) : Prop := MkIndex {
  i_shape : shape c;
  i_head fl sl : in_cls fl sl → head_at c fl sl = first (control_addr c) (F fl sl);
  i_sl fl sl : in_cls fl sl → Z.testbit (sl_at c fl) sl = inhabited_list (F fl sl);
  i_sl_word fl : 0 ≤ fl < FL_INDEX_COUNT → in_u32 (sl_at c fl);
  i_fl fl : 0 ≤ fl < FL_INDEX_COUNT → Z.testbit (fl_bitmap c) fl = testz (sl_at c fl);
  i_fl_word : 0 ≤ fl_bitmap c < 2 ^ FL_INDEX_COUNT;
}.

Record lists (P : gset Z) (H : blkmap) (F : Z → Z → list Z) (s : tlsf_state) : Prop := MkLists {
  l_index : free_index F (ctl s);
  l_dl fl sl : in_cls fl sl → dl (tmem s) (null s) (null s) (F fl sl);
  l_nodup fl sl : in_cls fl sl → NoDup (F fl sl);
  l_mem fl sl b : in_cls fl sl → b ∈ F fl sl ↔ free_in P H fl sl b;
}.

Definition node (N : Z) (H : blkmap) (a : Z) : Prop :=
  a = N ∨ ∃ x, H !! a = Some x ∧ fr x = true.

(** The bytes that hold the links of the free lists. *)
Definition link_bytes (N : Z) (H : blkmap) (a : Z) : Prop :=
  ∃ c, node N H c ∧ c + 8 ≤ a < c + 16.

Definition upd_cls (F : Z → Z → list Z) (fl sl : Z) (l : list Z) (f g : Z) : list Z :=
  if decide (f = fl ∧ g = sl) then l else F f g.

Lemma upd_cls_eq F fl sl l : upd_cls F fl sl l fl sl = l.
Proof. unfold upd_cls. case_decide; [done|tauto]. Qed.

Lemma upd_cls_ne F fl sl l f g : ¬ (f = fl ∧ g = sl) → upd_cls F fl sl l f g = F f g.
Proof. intros. unfold upd_cls. by case_decide. Qed.

Section Nodes.
Context {N : Z} {P : gset Z} {H : blkmap} (T : tile N P H) (HN : 0 < N ∧ N + tlsf_size ≤ 2 ^ 32).

Lemma node_apart x y : node N H x → node N H y → x ≠ y → x + 16 ≤ y ∨ y + 16 ≤ x.
Proof.
  change tlsf_size with 3188 in HN.
  assert (∀ b z, H !! b = Some z → fr z = true → b ≠ N ∧ (N + 16 ≤ b ∨ b + 16 ≤ N)) as Hclear.
  { intros b z Hb Hf. pose proof (tile_free_sz T _ _ Hb Hf). apply (t_ok _ _ _ T) in Hb.
    unfold block_ok in Hb. change tlsf_size with 3188 in Hb. lia. }
  intros [->|(u & Hx & Hu)] [->|(v & Hy & Hv)] Hne; [done|..].
  - apply Hclear in Hy; [lia|done].
  - apply Hclear in Hx; [lia|done].
  - pose proof (tile_free_sz T _ _ Hx Hu). pose proof (tile_free_sz T _ _ Hy Hv).
    destruct (tile_sep2 T _ _ _ _ Hx Hy Hne); unfold nxt in *; lia.
Qed.

Lemma node_u32 x : node N H x → 0 < x < 2 ^ 32.
Proof.
  change tlsf_size with 3188 in HN. intros [->|(u & Hx & Hu)]; [lia|].
  apply (t_ok _ _ _ T) in Hx. unfold block_ok in Hx. lia.
Qed.

Lemma null_not_free x : H !! N = Some x → fr x = false.
Proof.
  intros Hx. destruct (fr x) eqn:Hf; [|done]. pose proof (tile_free_sz T _ _ Hx Hf).
  apply (t_ok _ _ _ T) in Hx. unfold block_ok in Hx. change tlsf_size with 3188 in *. lia.
Qed.

Lemma free_in_node fl sl b : free_in P H fl sl b → node N H b.
Proof. intros (_ & x & ? & ? & _). right. eauto. Qed.

Lemma free_in_not_null fl sl : ¬ free_in P H fl sl N.
Proof. intros (_ & x & Hx & Hf & _). apply null_not_free in Hx. congruence. Qed.

Lemma eq_off_unlink m p n : node N H p → node N H n →
  eq_off (link_bytes N H) m (unlink m p n).
Proof.
  intros Hp Hn. unfold unlink. eapply eq_off_trans; [apply eq_off_store32..|].
  intros a [Ha|Ha]; [exists n|exists p]; split; try done; lia.
Qed.

Lemma eq_off_push m b c : node N H b → node N H c →
  eq_off (link_bytes N H) m (push_front m N b c).
Proof.
  intros Hb Hc. unfold push_front. eapply eq_off_trans; [|apply eq_off_store32|].
  { eapply eq_off_trans; [apply eq_off_store32..|]. intros a Ha; exact Ha. }
  intros a [[Ha|Ha]|Ha]; [exists b|exists b|exists c]; split; try done; lia.
Qed.

(** The links share no byte with headers, back links or used payloads. *)
Lemma link_bytes_hdr b x a : H !! b = Some x → b + 4 ≤ a < b + 8 → ¬ link_bytes N H a.
Proof.
  intros Hb Ha (c & Hc & Hca). change tlsf_size with 3188 in HN.
  pose proof (t_ok _ _ _ T _ _ Hb) as Ok. unfold block_ok in Ok. change tlsf_size with 3188 in Ok.
  destruct Hc as [->|(y & Hc & Hf)]; [lia|].
  destruct (decide (b = c)) as [->|Hne]; [lia|].
  pose proof (tile_free_sz T _ _ Hc Hf). destruct (tile_sep2 T _ _ _ _ Hb Hc Hne); sep_lia T.
Qed.

Lemma link_bytes_link b x a : H !! b = Some x → fr x = true → nxt b x ≤ a < nxt b x + 4 →
  ¬ link_bytes N H a.
Proof.
  intros Hb Hfb Ha (c & Hc & Hca). change tlsf_size with 3188 in HN.
  pose proof (tile_free_sz T _ _ Hb Hfb).
  pose proof (t_ok _ _ _ T _ _ Hb) as Ok. unfold block_ok in Ok. change tlsf_size with 3188 in Ok.
  destruct Hc as [->|(y & Hc & Hf)]; [unfold nxt in *; lia|].
  pose proof (tile_free_sz T _ _ Hc Hf).
  destruct (decide (b = c)) as [->|Hne]; [simplify_eq; unfold nxt in *; lia|].
  destruct (tile_sep2 T _ _ _ _ Hb Hc Hne); sep_lia T.
Qed.

Lemma link_bytes_used b x a : H !! b = Some x → fr x = false → b + 8 ≤ a < b + 8 + sz x →
  ¬ link_bytes N H a.
Proof.
  intros Hb Hfb Ha (c & Hc & Hca). change tlsf_size with 3188 in HN.
  pose proof (t_ok _ _ _ T _ _ Hb) as Ok. unfold block_ok in Ok. change tlsf_size with 3188 in Ok.
  destruct Hc as [->|(y & Hc & Hf)]; [lia|].
  pose proof (tile_free_sz T _ _ Hc Hf).
  destruct (decide (b = c)) as [->|Hne]; [congruence|].
  destruct (tile_sep2 T _ _ _ _ Hb Hc Hne); sep_lia T.
Qed.

End Nodes.

(** ** Updating the index *)

Lemma lt_pow2_bits x n : 0 ≤ n → 0 ≤ x → (∀ i, n ≤ i → Z.testbit x i = false) → x < 2 ^ n.
Proof.
  intros Hn Hx Hb. destruct (Z.lt_ge_cases x (2 ^ n)); [done|].
  assert (0 < x) by (pose proof (Z.pow_pos_nonneg 2 n); lia).
  assert (n ≤ Z.log2 x) by (by apply Z.log2_le_pow2).
  specialize (Hb (Z.log2 x) ltac:(done)). rewrite Z.bit_log2 in Hb by lia. done.
Qed.

Lemma testz_bit w i : Z.testbit w i = true → testz w = true.
Proof. intros Hb. apply testz_true. intros ->. by rewrite Z.testbit_0_l in Hb. Qed.

Lemma index_upd F c c' fl sl l w :
  free_index F c → in_cls fl sl → shape c' → control_addr c' = control_addr c →
  (∀ f g, 0 ≤ f → 0 ≤ g → head_at c' f g =
     if decide (f = fl ∧ g = sl) then first (control_addr c) l else head_at c f g) →
  (∀ f, 0 ≤ f → sl_at c' f = if decide (f = fl) then w else sl_at c f) →
  in_u32 w →
  (∀ g, 0 ≤ g < SL_INDEX_COUNT →
     Z.testbit w g = if decide (g = sl) then inhabited_list l else Z.testbit (sl_at c fl) g) →
  0 ≤ fl_bitmap c' →
  (∀ f, 0 ≤ f → Z.testbit (fl_bitmap c') f = if decide (f = fl) then testz w else Z.testbit (fl_bitmap c) f) →
  free_index (upd_cls F fl sl l) c'.
Proof.
  intros I Hc Hs Ea Eh Es Hw Hwb Hf Hfb. split; [done|..].
  - intros f g [Hf' Hg']. rewrite Eh, Ea by lia. unfold upd_cls.
    case_decide; [done|]. apply I. done.
  - intros f g Hfg. pose proof Hfg as [Hf' Hg']. rewrite Es by lia. unfold upd_cls. case_decide.
    + subst. rewrite Hwb by done. repeat case_decide; try tauto. by apply I.
    + case_decide; [tauto|]. by apply I.
  - intros f Hf'. rewrite Es by lia. case_decide; [done|]. by apply I.
  - intros f Hf'. rewrite Hfb, Es by lia. case_decide; [done|]. by apply I.
  - split; [done|]. apply lt_pow2_bits; [done..|]. intros i Hi.
    assert (0 ≤ i) by (change FL_INDEX_COUNT with 24 in Hi; lia).
    rewrite Hfb by done. case_decide; [destruct Hc; lia|].
    destruct (Z.testbit (fl_bitmap c) i) eqn:E; [|done].
    apply (testbit_lt_pow2 _ _ FL_INDEX_COUNT) in E; [lia|apply I|done].
Qed.

(** Replacing a list by one that starts at the same block. *)
Lemma index_same_head F c fl sl l :
  free_index F c → in_cls fl sl → inhabited_list l = inhabited_list (F fl sl) →
  first (control_addr c) l = first (control_addr c) (F fl sl) → free_index (upd_cls F fl sl l) c.
Proof.
  intros I Hc Hi Hf. eapply (index_upd _ c c fl sl l (sl_at c fl)); try done; try apply I; try apply Hc.
  - intros f g ? ?. case_decide as E; [|done]. destruct E as [-> ->]. rewrite (i_head _ _ I) by done. done.
  - intros f ?. by case_decide as E; [subst|].
  - intros g Hg. case_decide as E; [subst|done]. rewrite (i_sl _ _ I) by done. done.
  - intros f ?. case_decide as E; [subst|done]. apply I. apply Hc.
Qed.

(** The second half of [remove_free_block], which mends the index. *)
Definition unindex (block next fl sl : Z) : TM unit :=
  head ← blocks_get fl sl;
  when (head =? block) (
    blocks_set fl sl next;;
    null ← block_null;
    when (next =? null) (
      sl_word ← sl_get fl;
      sl_set fl (Z.land sl_word (u32 (Z.lnot (Z.shiftl 1 sl))));;
      sl_word ← sl_get fl;
      when (sl_word =? 0) (
        fl_word ← gets (λ s, fl_bitmap (ctl s));
        modify (set_fl_bitmap (Z.land fl_word (u32 (Z.lnot (Z.shiftl 1 fl)))))))).

Lemma clear_bit_word F c fl sl : free_index F c → in_cls fl sl →
  let w := Z.land (sl_at c fl) (u32 (Z.lnot (Z.shiftl 1 sl))) in
  in_u32 w ∧ ∀ g, 0 ≤ g < SL_INDEX_COUNT →
    Z.testbit w g = if decide (g = sl) then false else Z.testbit (sl_at c fl) g.
Proof.
  intros I [Hf Hg] w. pose proof (i_sl_word _ _ I fl Hf). split; [by apply land_u32|].
  intros g Hg'. unfold w. rewrite testbit_clear by (done || lia).
  case_decide as E; case_cmp; try lia; by rewrite ?andb_false_r, ?andb_true_r.
Qed.

Lemma wp_unindex s F b fl sl l1 l2 :
  free_index F (ctl s) → in_cls fl sl → F fl sl = l1 ++ b :: l2 → b ∉ l1 → null s ∉ l2 →
  wp (unindex b (first (null s) l2) fl sl) s (λ _ s', tmem s' = tmem s ∧ null s' = null s
    ∧ free_index (upd_cls F fl sl (l1 ++ l2)) (ctl s')).
Proof.
  intros I Hc El Hb HN. pose proof (i_shape _ _ I) as Hs. pose proof Hc as [Hf Hg].
  unfold unindex. wp_step. apply wp_blocks_get; [done..|]. rewrite (i_head _ _ I) by done.
  destruct l1 as [|a l1].
  2: { rewrite El. simpl. apply wp_when; [|intros _].
    - intros ->%Z.eqb_eq. by destruct Hb; apply list_elem_of_here.
    - split_and!; [done..|]. apply index_same_head; [done..| |]; by rewrite El. }
  rewrite El. simpl. rewrite Z.eqb_refl. unfold when at 1. wp_step. apply wp_blocks_set; [done..|].
  wp_step. unfold block_null. wp_step. simpl.
  apply wp_when; intros En.
  - destruct l2 as [|c l2]; [clear En|simpl in En; apply Z.eqb_eq in En; subst c; by destruct HN; apply list_elem_of_here].
    pose proof (shape_put_head _ Hs fl sl (first (null s) []) Hf) as Hs1.
    wp_step. apply wp_sl_get; [done..|]. wp_step. apply wp_sl_set; [done..|]. wp_step.
    change (sl_at (ctl (put_head s fl sl _)) fl) with (sl_at (ctl s) fl).
    destruct (clear_bit_word _ _ _ _ I Hc) as [Hw Hwb].
    set (w := Z.land (sl_at (ctl s) fl) _) in *.
    apply wp_sl_get; [by apply shape_set_sl|done|]. rewrite sl_at_set, decide_True by (done || lia).
    assert (∀ s', (∃ v, s' = set_fl_bitmap v (set_sl_bitmap (<[Z.to_nat fl:=w]> (sl_bitmap (ctl s)))
        (put_head s fl sl (first (null s) []))) ∧ 0 ≤ v ∧ ∀ f, 0 ≤ f →
        Z.testbit v f = if decide (f = fl) then testz w else Z.testbit (fl_bitmap (ctl s)) f) →
      tmem s' = tmem s ∧ null s' = null s ∧ free_index (upd_cls F fl sl []) (ctl s')) as Hfin.
    { intros s' (v & -> & Hv & Hvb). split_and!; [done..|].
      apply (index_upd F (ctl s) _ fl sl [] w); simpl; try done.
      - by apply (shape_set_sl (put_head s fl sl (first (null s) []))).
      - intros f g ??. apply (head_at_set s Hs fl sl _ f g Hc); done.
      - intros f ?. apply (sl_at_set s Hs fl w f Hf); done. }
    apply wp_when; intros Ew.
    + wp_steps. apply Hfin. simpl. eexists. split; [done|].
      pose proof (i_fl_word _ _ I) as Hfw. change FL_INDEX_COUNT with 24 in *.
      split; [apply Z.land_nonneg; lia|]. intros f ?. rewrite testbit_clear by lia.
      apply Z.eqb_eq in Ew. rewrite Ew. case_decide; case_cmp; try lia;
        by rewrite ?andb_false_r, ?andb_true_r.
    + apply Hfin. exists (fl_bitmap (ctl s)). split; [done|].
      pose proof (i_fl_word _ _ I) as Hfw. split; [lia|]. intros f ?. case_decide; [|done]. subst.
      rewrite (i_fl _ _ I) by done. apply Z.eqb_neq in Ew.
      assert (testz w = true) as -> by (by apply testz_true). apply testz_true. intros E. apply Ew.
      unfold w. by rewrite E.
  - split_and!; [done..|]. apply (index_upd F (ctl s) _ fl sl l2 (sl_at (ctl s) fl)); simpl; try done.
    + by apply shape_put_head.
    + intros f g ??. apply (head_at_set s Hs fl sl _ f g Hc); done.
    + intros f ?. unfold sl_at. simpl. by case_decide as E; [subst|].
    + by apply I.
    + intros g Hg'. case_decide; [subst|done]. rewrite (i_sl _ _ I), El by done.
      destruct l2; [by rewrite Z.eqb_refl in En|done].
    + apply I.
    + intros f ?. case_decide; [subst|done]. by apply I.
Qed.

(** ** Removal and insertion *)

Definition addr_ok (s : tlsf_state) : Prop := 0 < null s ∧ null s + tlsf_size ≤ 2 ^ 32.

Section Lists.
Context {P : gset Z} {H : blkmap} {F : Z → Z → list Z} {s : tlsf_state}.
Context (T : tile (null s) P H) (HN : addr_ok s) (L : lists P H F s).

Lemma mapping_in_cls b x fl sl : H !! b = Some x → mapping_insert (sz x) = (fl, sl) → in_cls fl sl.
Proof.
  intros Hb E. pose proof (mapping_insert_range (sz x)) as Hr. rewrite E in Hr.
  apply Hr. by eapply tile_sz.
Qed.

Lemma lists_nodes fl sl : in_cls fl sl → Forall (node (null s) H) (F fl sl).
Proof. intros Hc. apply Forall_forall. intros b Hb. eapply free_in_node. by apply L. Qed.

Lemma lists_no_null fl sl : in_cls fl sl → null s ∉ F fl sl.
Proof. intros Hc Hb. eapply (free_in_not_null T). by apply L. Qed.

(** The blocks of another list keep their links when a node of this one is
    written. *)
Lemma other_list_ne fl sl f g b c : in_cls fl sl → in_cls f g → ¬ (f = fl ∧ g = sl) →
  b ∈ F fl sl → c ∈ F f g → c ≠ b.
Proof.
  intros Hc Hc' Hne Hb Hcc ->. apply (l_mem _ _ _ _ L) in Hb as (_ & x & Hx & _ & E); [|done].
  apply (l_mem _ _ _ _ L) in Hcc as (_ & y & Hy & _ & E'); [|done]. simplify_eq. rewrite E in E'.
  apply Hne. by simplify_eq.
Qed.

Lemma dl_other m fl sl f g p n : in_cls fl sl → in_cls f g → ¬ (f = fl ∧ g = sl) →
  (p = null s ∨ p ∈ F fl sl) → (n = null s ∨ n ∈ F fl sl) →
  dl m (null s) (null s) (F f g) → dl (unlink m p n) (null s) (null s) (F f g).
Proof.
  intros Hc Hc' Hne Hp Hn. apply dl_frame. intros d Hd.
  pose proof (proj1 (Forall_forall _ _) (lists_nodes f g Hc') d Hd) as Hnd.
  assert (∀ q, q = null s ∨ q ∈ F fl sl → node (null s) H q ∧ d ≠ q) as Hq.
  { intros q [->|Hq]; split.
    - by left.
    - intros ->. by eapply lists_no_null.
    - by apply (proj1 (Forall_forall _ _) (lists_nodes fl sl Hc)).
    - by eapply (other_list_ne fl sl f g). }
  destruct (Hq p Hp), (Hq n Hn).
  apply (unlink_other _ (node_apart T)); done.
Qed.

Lemma wp_remove_free_block b x fl sl :
  H !! b = Some x → fr x = true → b ∉ P → mapping_insert (sz x) = (fl, sl) →
  wp (remove_free_block b fl sl) s (λ _ s', null s' = null s
    ∧ (∃ F', lists ({[b]} ∪ P) H F' s')
    ∧ eq_off (link_bytes (null s) H) (tmem s) (tmem s')).
Proof.
  intros Hb Hf HP E. pose proof (mapping_in_cls _ _ _ _ Hb E) as Hc.
  assert (b ∈ F fl sl) as Hin by (apply L; [done|]; split; [done|by eauto]).
  apply list_elem_of_split in Hin as (l1 & l2 & El).
  pose proof (lists_nodes _ _ Hc) as Hn. pose proof (l_nodup _ _ _ _ L _ _ Hc) as Hnd.
  pose proof (lists_no_null _ _ Hc) as HNl. pose proof (l_dl _ _ _ _ L _ _ Hc) as Hdl.
  assert (∀ y, node (null s) H y → in_u32 y) as Hu by (intros y Hy; apply (node_u32 T HN) in Hy; lia).
  rewrite El in Hn, Hnd, HNl, Hdl.
  destruct (dl_unlink _ _ (or_introl eq_refl) (node_apart T) Hu _ _ _ _ _ Hdl) as (E1 & E2 & Hdl');
    [by left|done|by apply NoDup_cons|done|].
  set (p := last_or (null s) l1) in *. set (n := first (null s) l2) in *.
  assert (node (null s) H p ∧ node (null s) H n) as [Hp Hn'].
  { apply Forall_app in Hn as [Hn1 [_ Hn2]%Forall_cons].
    split; [apply node_last_or; [by left|done]|apply node_first; [by left|done]]. }
  unfold remove_free_block, rd, wr. wp_steps; unfold prev_free, next_free; rewrite ?E1, ?E2.
  { apply testz_true. apply (node_u32 T HN) in Hp. lia. }
  { apply testz_true. apply (node_u32 T HN) in Hn'. lia. }
  set (s1 := set_tmem _ (set_tmem _ s)).
  assert (tmem s1 = unlink (tmem s) p n) as Em by done.
  apply (wp_bind_inv (blocks_get fl sl)). change (mbind _ _) with (unindex b n fl sl).
  apply NoDup_app in Hnd as (Hnd1 & Hnd12 & [Hb2 Hnd2]%NoDup_cons).
  eapply wp_mono; [apply (wp_unindex s1 F b fl sl l1 l2)|].
  - apply L.
  - done.
  - done.
  - intros Hb1. by eapply Hnd12, list_elem_of_here.
  - intros Hx. apply HNl, elem_of_app. right. by apply list_elem_of_further.
  - intros _ s' (Em' & En & I'). split_and!; [done| |rewrite Em', Em; by apply eq_off_unlink].
    exists (upd_cls F fl sl (l1 ++ l2)). split; [done|..]; rewrite ?Em', ?Em.
    + intros f g Hfg. change (null s1) with (null s) in En. rewrite En. unfold upd_cls.
      case_decide as Ec; [done|]. apply (dl_other _ fl sl); try done; [..|by apply L]; rewrite El.
      * pose proof (last_or_elem (null s) l1) as Hl. fold p in Hl. clear -Hl. set_solver.
      * pose proof (first_elem (null s) l2) as Hl. fold n in Hl. clear -Hl. set_solver.
    + intros f g Hfg. unfold upd_cls. case_decide; [|by apply L]. apply NoDup_app. split_and!; try done.
      intros y Hy1 Hy2. eapply Hnd12; [done|]. by apply list_elem_of_further.
    + intros f g y Hfg. unfold upd_cls. unfold free_in. rewrite not_elem_of_union, elem_of_singleton.
      pose proof (l_mem _ _ _ _ L f g y Hfg) as Hm. unfold free_in in Hm. case_decide as Ec.
      * destruct Ec as [-> ->]. rewrite El in Hm.
        assert (y ∈ l1 ++ l2 ↔ y ≠ b ∧ y ∈ l1 ++ b :: l2) as ->; [|rewrite Hm; tauto].
        rewrite !elem_of_app, elem_of_cons. split; [|tauto].
        intros [Hy|Hy]; (split; [|tauto]); intros ->; [|done]. by eapply Hnd12, list_elem_of_here.
      * rewrite Hm. split; [|tauto]. intros (? & z & Hz & ? & Ez). split; [|by eauto].
        split; [|done]. intros ->. apply Ec. simplify_eq. rewrite E in Ez. by simplify_eq.
Qed.

Lemma index_push b l fl sl : in_cls fl sl →
  free_index (upd_cls F fl sl (b :: l)) (ctl (set_sl_bitmap (<[Z.to_nat fl :=
      Z.lor (sl_at (ctl s) fl) (u32 (Z.shiftl 1 sl))]> (sl_bitmap (ctl s)))
    (set_fl_bitmap (Z.lor (fl_bitmap (ctl s)) (u32 (Z.shiftl 1 fl))) (put_head s fl sl b)))).
Proof.
  intros Hc. pose proof Hc as [Hf Hg]. pose proof (l_index _ _ _ _ L) as I.
  pose proof (i_shape _ _ I) as Hs. pose proof (i_sl_word _ _ I fl Hf). pose proof (i_fl_word _ _ I).
  change FL_INDEX_COUNT with 24 in *. change SL_INDEX_COUNT with 32 in *.
  rewrite !shiftl_1_u32 by lia.
  set (w := Z.lor (sl_at (ctl s) fl) (Z.shiftl 1 sl)).
  assert (testz w = true) as Hw.
  { apply (testz_bit _ sl). unfold w. rewrite testbit_set, Z.eqb_refl by lia. apply orb_true_r. }
  eapply (index_upd F (ctl s) _ fl sl (b :: l) w); simpl; try done.
  - apply (shape_set_sl (put_head s fl sl b)). by apply shape_put_head.
  - intros f g ??. apply (head_at_set s Hs fl sl b f g Hc); done.
  - intros f ?. apply (sl_at_set s Hs fl w f Hf); done.
  - apply lor_u32; [done|]. rewrite <- shiftl_1_u32 by lia. apply (wrapu_range 32). lia.
  - intros g Hg'. unfold w. rewrite testbit_set by lia.
    case_decide; case_cmp; try lia; by rewrite ?orb_true_r, ?orb_false_r.
  - apply Z.lor_nonneg. split; [lia|]. apply Z.shiftl_nonneg. lia.
  - intros f ?. rewrite Hw, testbit_set by lia.
    case_decide; case_cmp; try lia; by rewrite ?orb_true_r, ?orb_false_r.
Qed.

Lemma wp_insert_free_block b x fl sl :
  H !! b = Some x → fr x = true → b ∈ P → mapping_insert (sz x) = (fl, sl) →
  wp (insert_free_block b fl sl) s (λ _ s', null s' = null s
    ∧ (∃ F', lists (P ∖ {[b]}) H F' s' ∧ F' fl sl = b :: F fl sl)
    ∧ eq_off (link_bytes (null s) H) (tmem s) (tmem s')).
Proof.
  intros Hb Hf HP E. pose proof (mapping_in_cls _ _ _ _ Hb E) as Hc.
  pose proof (l_index _ _ _ _ L) as I. pose proof (i_shape _ _ I) as Hs.
  pose proof (lists_nodes _ _ Hc) as Hn. pose proof (l_nodup _ _ _ _ L _ _ Hc) as Hnd.
  pose proof (lists_no_null _ _ Hc) as HNl. pose proof (l_dl _ _ _ _ L _ _ Hc) as Hdl.
  assert (∀ y, node (null s) H y → in_u32 y) as Hu by (intros y Hy; apply (node_u32 T HN) in Hy; lia).
  assert (node (null s) H b) as Hbn by (right; eauto).
  assert (b ∉ F fl sl) as Hbl by (intros [? _]%(l_mem _ _ _ _ L); done).
  assert (b ≠ null s) as HbN by (intros ->; apply (null_not_free T) in Hb; congruence).
  pose proof (node_first _ _ (or_introl eq_refl) _ Hn) as Hfn.
  set (c := first (null s) (F fl sl)) in *.
  unfold insert_free_block. wp_step. apply wp_blocks_get; [done..|].
  rewrite (i_head _ _ I) by done. fold c. unfold block_null, wr. wp_steps.
  { apply testz_true. apply (node_u32 T HN) in Hfn. lia. }
  { apply testz_true. apply (node_u32 T HN) in Hbn. lia. }
  set (s1 := set_tmem _ (set_tmem _ (set_tmem _ s))).
  assert (tmem s1 = push_front (tmem s) (null s) b c) as Em by done.
  pose proof (tile_free_sz T _ _ Hb Hf).
  assert (block_to_ptr b = b + 8) as Ep.
  { apply (t_ok _ _ _ T) in Hb. unfold block_ok in Hb. apply wrapu_small.
    change block_start_offset with 8. lia. }
  rewrite Ep. apply align_ptr_aligned.
  { apply (t_ok _ _ _ T) in Hb as [Hal _]. clear -Hal. Z.div_mod_to_equations. lia. }
  { apply (t_ok _ _ _ T) in Hb. unfold block_ok in Hb. lia. }
  wp_steps; [apply Z.eqb_refl|]. apply wp_blocks_set; [done..|]. wp_steps.
  apply wp_sl_get; [by apply shape_put_head; [|apply Hc]|apply Hc|].
  apply wp_sl_set; [by apply shape_put_head; [|apply Hc]|apply Hc|].
  simpl. split_and!; [done| |by apply eq_off_push].
  exists (upd_cls F fl sl (b :: F fl sl)). split; [|apply upd_cls_eq]. split; simpl.
  - by apply (index_push b (F fl sl) fl sl).
  - intros f g Hfg. unfold upd_cls. case_decide as Ec.
    + apply dl_push with (node := node (null s) H); try done.
      * by left.
      * apply (node_apart T).
      * by apply NoDup_cons.
      * by apply not_elem_of_cons.
    + apply (l_dl _ _ _ _ L) in Hfg as Hdl'. eapply dl_frame; [|done]. intros d Hd.
      assert (d ≠ b) as Hdb by (intros ->; by apply (l_mem _ _ _ _ L) in Hd as [? _]).
      assert (d ≠ c) as Hdc.
      { intros ->. pose proof (first_elem (null s) (F fl sl)) as Hl. fold c in Hl.
        apply elem_of_cons in Hl as [->|Hl]; [by eapply lists_no_null|].
        by eapply (other_list_ne fl sl f g). }
      pose proof (proj1 (Forall_forall _ _) (lists_nodes f g Hfg) d Hd) as Hdn.
      pose proof (node_apart T _ _ Hdn Hbn Hdb). pose proof (node_apart T _ _ Hdn Hfn Hdc).
      unfold prev_free, next_free. by rewrite !load32_store32_ne by lia.
  - intros f g Hfg. unfold upd_cls. case_decide; [by apply NoDup_cons|by apply L].
  - intros f g y Hfg. pose proof (l_mem _ _ _ _ L f g y Hfg) as Hm. unfold free_in in *.
    rewrite not_elem_of_difference, elem_of_singleton. unfold upd_cls. case_decide as Ec.
    + destruct Ec as [-> ->]. rewrite elem_of_cons, Hm. split.
      * intros [->|[? ?]]; [by eauto 10|by eauto].
      * intros [[?| ->] ?]; [by right|by left].
    + rewrite Hm. split; [tauto|]. intros [[?| ->] (z & Hz & ? & Ez)]; [by eauto|].
      exfalso. apply Ec. simplify_eq. rewrite E in Ez. by simplify_eq.
Qed.

End Lists.

(** ** The search *)

(** The lists strictly between two ranks are all empty. *)
Definition none_between (F : Z → Z → list Z) (lo hi : Z) : Prop :=
  ∀ f g, in_cls f g → lo ≤ rank (f, g) < hi → F f g = [].

Lemma inhabited_false l : inhabited_list l = false → l = [].
Proof. by destruct l. Qed.

Lemma masked_word w n : in_u32 w → 0 ≤ n →
  let v := Z.land w (u32 (Z.shiftl 0xffffffff n)) in
  (v = 0 → ∀ j, n ≤ j → Z.testbit w j = false) ∧
  (v ≠ 0 → n ≤ tlsf_ffs v ∧ Z.testbit w (tlsf_ffs v) = true
    ∧ ∀ j, n ≤ j < tlsf_ffs v → Z.testbit w j = false).
Proof.
  intros Hw Hn v. pose proof (land_u32 w (u32 (Z.shiftl 0xffffffff n)) Hw) as Hv. fold v in Hv.
  assert (∀ j, 0 ≤ j → Z.testbit v j = Z.testbit w j && (n <=? j)) as Hb
    by (intros; by apply testbit_mask_from).
  split.
  - intros E j Hj. specialize (Hb j ltac:(lia)). rewrite E, Z.testbit_0_l in Hb.
    destruct (Z.leb_spec n j); [|lia]. by rewrite andb_true_r in Hb.
  - intros Hnz. destruct (tlsf_ffs_testbit v) as [H0 Ht]; [lia|].
    pose proof Ht as Ht'. rewrite Hb in Ht' by done. apply andb_true_iff in Ht' as [Htw Hle].
    apply Z.leb_le in Hle. split_and!; [done..|]. intros j Hj.
    destruct (Z.testbit w j) eqn:E; [|done].
    pose proof (tlsf_ffs_least v j ltac:(lia) ltac:(lia)) as Hl. rewrite Hb, E in Hl by lia.
    destruct (Z.leb_spec n j); [|lia]. specialize (Hl eq_refl). lia.
Qed.

Lemma wp_search_suitable_block s F fl sl :
  free_index F (ctl s) → in_cls fl sl →
  wp (search_suitable_block fl sl) s (λ '(b, f, g) s', s' = s ∧
    (b = 0 ∧ none_between F (rank (fl, sl)) (rank (FL_INDEX_COUNT, 0))
     ∨ in_cls f g ∧ rank (fl, sl) ≤ rank (f, g)
       ∧ none_between F (rank (fl, sl)) (rank (f, g)) ∧ inhabited_list (F f g) = true
       ∧ b = first (null s) (F f g))).
Proof.
  intros I Hc. pose proof Hc as [Hf Hg]. pose proof (i_shape _ _ I) as Hs.
  pose proof (i_sl_word _ _ I fl Hf) as Hw. pose proof (i_fl_word _ _ I) as Hfw.
  destruct (masked_word (sl_at (ctl s) fl) sl Hw ltac:(lia)) as [Hz Hnz].
  unfold search_suitable_block. wp_step. apply wp_sl_get; [done..|]. cbv zeta.
  set (v := Z.land (sl_at (ctl s) fl) _) in *.
  assert (∀ f g, in_cls f g → f = fl → (∀ j, sl ≤ j → j ≤ g → Z.testbit (sl_at (ctl s) fl) j = false) →
    sl ≤ g → F f g = []) as Hrow.
  { intros f g Hfg -> Hj Hsg. apply inhabited_false. rewrite <- (i_sl _ _ I) by done. apply Hj; lia. }
  unfold none_between, rank. change SL_INDEX_COUNT with 32. change FL_INDEX_COUNT with 24. simpl fst. simpl snd.
  destruct (Z.eqb_spec v 0) as [E|E].
  - specialize (Hz E). wp_steps.
    destruct (masked_word (fl_bitmap (ctl s)) (fl + 1)) as [Hfz Hfnz].
    { change FL_INDEX_COUNT with 24 in Hfw. lia. }
    { lia. }
    set (u := Z.land (fl_bitmap (ctl s)) _) in *.
    assert (∀ f g, in_cls f g → fl < f → Z.testbit (fl_bitmap (ctl s)) f = false → F f g = []) as Hrows.
    { intros f g [Hf' Hg'] Hlt Hb. apply inhabited_false. rewrite <- (i_sl _ _ I) by done.
      rewrite (i_fl _ _ I) in Hb by done. apply testz_false in Hb. rewrite Hb. apply Z.testbit_0_l. }
    destruct (Z.eqb_spec u 0) as [Eu|Eu].
    + specialize (Hfz Eu). wp_steps. split; [done|]. left. split; [done|].
      intros f g Hfg Hr. pose proof Hfg as [Hf' Hg']. change SL_INDEX_COUNT with 32 in *.
      destruct (decide (f = fl)) as [->|].
      * apply Hrow; [done..| |lia]. intros; apply Hz; lia.
      * apply Hrows; [done|lia|]. apply Hfz. lia.
    + destruct (Hfnz Eu) as (Hge & Ht & Hlow). set (f' := tlsf_ffs u) in *.
      assert (0 ≤ f' < FL_INDEX_COUNT) as Hf'.
      { split; [lia|]. by apply (testbit_lt_pow2 (fl_bitmap (ctl s))); [..|lia|]. }
      wp_step. apply wp_sl_get; [done..|]. pose proof (i_sl_word _ _ I f' Hf') as Hw'.
      rewrite (i_fl _ _ I) in Ht by done. wp_steps; [done|]. apply testz_true in Ht.
      destruct (tlsf_ffs_testbit (sl_at (ctl s) f')) as [Hg0 Htg]; [lia|].
      set (g' := tlsf_ffs (sl_at (ctl s) f')) in *.
      assert (in_cls f' g') as Hc'.
      { split; [done|]. split; [done|]. by apply (testbit_lt_pow2 (sl_at (ctl s) f') g' 32). }
      apply wp_blocks_get; [done..|]. wp_step. split; [done|]. right.
      split_and!; [done| | | |].
      * destruct Hc' as [_ Hg']. change SL_INDEX_COUNT with 32 in *. lia.
      * intros f g Hfg Hr. pose proof Hfg as [Hf'' Hg'']. change SL_INDEX_COUNT with 32 in *.
        destruct Hc' as [_ Hg']. change SL_INDEX_COUNT with 32 in *.
        destruct (decide (f = fl)) as [->|]; [apply Hrow; [done..| |lia]; intros; apply Hz; lia|].
        destruct (decide (f = f')) as [->|].
        -- apply inhabited_false. rewrite <- (i_sl _ _ I) by done.
           destruct (Z.testbit (sl_at (ctl s) f') g) eqn:Eg; [|done].
           apply tlsf_ffs_least in Eg; [|lia..]. fold g' in Eg. lia.
        -- apply Hrows; [done|lia|]. apply Hlow. lia.
      * by rewrite <- (i_sl _ _ I).
      * by apply (i_head _ _ I).
  - destruct (Hnz E) as (Hge & Ht & Hlow). set (g' := tlsf_ffs v) in *.
    assert (in_cls fl g') as Hc'.
    { split; [done|]. split; [lia|]. by apply (testbit_lt_pow2 (sl_at (ctl s) fl) g' 32); [|lia|]. }
    wp_steps; [by apply testz_true|]. apply wp_blocks_get; [done..|]. wp_step. split; [done|]. right.
    split_and!; [done| | | |].
    + lia.
    + intros f g Hfg Hr. pose proof Hfg as [Hf'' Hg'']. destruct Hc' as [_ Hg'].
      change SL_INDEX_COUNT with 32 in *. assert (f = fl) as -> by lia.
      apply Hrow; [done..| |lia]. intros; apply Hlow; lia.
    + by rewrite <- (i_sl _ _ I).
    + by apply (i_head _ _ I).
Qed.

(** Lists survive any change that keeps the links of the listed blocks. *)
Lemma lists_frame P P' H H' F s s' :
  lists P H F s → ctl s' = ctl s →
  (∀ b fl sl, free_in P H fl sl b →
     load32 (tmem s') (b + 8) = load32 (tmem s) (b + 8)
     ∧ load32 (tmem s') (b + 12) = load32 (tmem s) (b + 12)) →
  (∀ b fl sl, free_in P' H' fl sl b ↔ free_in P H fl sl b) →
  lists P' H' F s'.
Proof.
  intros L Ec Hm Hf. split; rewrite ?Ec.
  - apply L.
  - intros fl sl Hc. eapply dl_frame; [|by apply L]. intros b Hb. eapply Hm. by apply L.
  - apply L.
  - intros fl sl b Hc. rewrite Hf. by apply L.
Qed.
