(* ===== verification/TlsfAlloc.v ===== *)
(** * TLSF: the allocator

    The heap invariant, its preservation by the block operations and by
    [tlsf_malloc], [tlsf_memalign] and [tlsf_free], and what these functions
    promise their callers. *)

From S2P Require Import Prelude Memory Tlsf TlsfMap TlsfHeap TlsfWp TlsfLists.

Record heap (P : gset Z) (H : blkmap) (s : tlsf_state) : Prop := MkHeap {
  h_addr : addr_ok s;
  h_tile : tile (null s) P H;
  h_hdr : hdr (tmem s) H;
  h_link : link (tmem s) H;
  h_lists : ∃ F, lists P H F s;
}.

(** The index leads a search for the class of [n] to [b]: the head of its list
    is [b], and the bits of both bitmaps are set. *)
Definition indexed (c : control_t) (n b : Z) : Prop :=
  let '(fl, sl) := mapping_insert n in
  in_cls fl sl ∧ head_at c fl sl = b ∧ Z.testbit (fl_bitmap c) fl = true ∧ Z.testbit (sl_at c fl) sl = true.

Lemma index_first F c n b l fl sl :
  free_index F c → in_cls fl sl → mapping_insert n = (fl, sl) → F fl sl = b :: l → indexed c n b.
Proof.
  intros I Hc E EF. unfold indexed. rewrite E.
  assert (Z.testbit (sl_at c fl) sl = true) as Hsl by (rewrite (i_sl _ _ I), EF; done).
  split_and!; [apply Hc..|by rewrite (i_head _ _ I), EF| |done].
  rewrite (i_fl _ _ I) by apply Hc. by eapply testz_bit.
Qed.

(** The used blocks of [H] keep their contents. *)
Definition keeps (H : blkmap) (s s' : tlsf_state) : Prop :=
  ∀ b x a, H !! b = Some x → fr x = false → b + 8 ≤ a < b + 8 + sz x →
    load8 (tmem s') a = load8 (tmem s) a.

(** The allocated blocks: those in use that are not sentinels. *)
Definition alloc (H : blkmap) (b n : Z) : Prop :=
  ∃ x, H !! b = Some x ∧ fr x = false ∧ sz x = n ∧ n ≠ 0.

Definition same_alloc (H H' : blkmap) : Prop := ∀ b n, alloc H' b n ↔ alloc H b n.

#[export] Instance same_alloc_equivalence : Equivalence same_alloc.
Proof.
  split.
  - intros H b n. done.
  - intros H H' E b n. by rewrite (E b n).
  - intros H1 H2 H3 E1 E2 b n. by rewrite (E2 b n), (E1 b n).
Qed.

Lemma keeps_trans H H' s1 s2 s3 :
  keeps H s1 s2 → keeps H' s2 s3 → (∀ b n, alloc H' b n → alloc H b n) → keeps H' s1 s3.
Proof.
  intros K1 K2 Hsub b x a Hb Hf Ha. rewrite (K2 _ _ _ Hb Hf Ha).
  destruct (Hsub b (sz x)) as (y & Hy & Hfy & E & _); [exists x; split_and!; try done; lia|].
  eapply K1; [done..|lia].
Qed.

Lemma keeps_same H H' s1 s2 : keeps H' s1 s2 → same_alloc H H' → keeps H s1 s2.
Proof.
  intros K E. eapply keeps_trans; [exact K|by intros b x a|]. intros b n Hb. by apply E.
Qed.

(** The invariant after a change of the bytes in [D]. *)
Lemma heap_step D P P' H H' s s' :
  heap P H s → ctl s' = ctl s → tile (null s) P' H' → hdr (tmem s') H' →
  eq_off D (tmem s) (tmem s') →
  (∀ c z, H' !! c = Some z → fr z = true → load32 (tmem s') (nxt c z) = c ∨
     ∃ z0, H !! c = Some z0 ∧ fr z0 = true ∧ nxt c z0 = nxt c z
       ∧ ∀ a, nxt c z ≤ a < nxt c z + 4 → ¬ D a) →
  (∀ c fl sl, free_in P' H' fl sl c ↔ free_in P H fl sl c) →
  (∀ c z a, H !! c = Some z → fr z = true → c ∉ P → c + 8 ≤ a < c + 16 → ¬ D a) →
  heap P' H' s'.
Proof.
  intros [Ha Ht Hh Hl [F HF]] Ec Ht' Hh' Ho Hlink Hfree HD.
  split; rewrite ?Ec; try done.
  - unfold addr_ok. by rewrite Ec.
  - intros c z Hc Hf. destruct (Hlink c z Hc Hf) as [|(z0 & Hz0 & Hf0 & En & Hd)]; [done|].
    rewrite (eq_off_load32 D (tmem s)) by done. rewrite <- En. by apply Hl.
  - exists F. eapply lists_frame; [done..| |done]. intros b fl sl (HP & x & Hx & Hf & _).
    split; apply (eq_off_load32 D); try done; intros a Ha'; eapply HD; try done; lia.
Qed.

(** ** Taking blocks off the lists and putting them back *)

Section Ops.
Context {P : gset Z} {H : blkmap} {s : tlsf_state} (Hp : heap P H s).

Lemma heap_free_list P' F' s' :
  tile (null s) P' H → null s' = null s → lists P' H F' s' →
  eq_off (link_bytes (null s) H) (tmem s) (tmem s') → heap P' H s' ∧ keeps H s s'.
Proof.
  intros Ht' En HF' Ho. destruct Hp as [Ha Ht Hh Hl [F HF]]. split.
  - split; rewrite ?En; try done.
    + unfold addr_ok. by rewrite En.
    + eapply hdr_eq_off; [done..|]. intros b x a Hb Hab. by eapply (link_bytes_hdr Ht).
    + intros b x Hb Hf. rewrite (eq_off_load32 _ _ _ _ Ho); [by apply Hl|].
      intros a Hab. by eapply (link_bytes_link Ht).
    + by exists F'.
  - intros b x a Hb Hf Hab. apply Ho. by eapply (link_bytes_used Ht).
Qed.

Lemma heap_remove_free_block b x fl sl :
  H !! b = Some x → fr x = true → b ∉ P → mapping_insert (sz x) = (fl, sl) →
  wp (remove_free_block b fl sl) s (λ _ s', null s' = null s ∧ heap ({[b]} ∪ P) H s' ∧ keeps H s s').
Proof.
  intros Hb Hf HP E. destruct (h_lists _ _ _ Hp) as [F HF].
  eapply wp_mono; [by apply (wp_remove_free_block (h_tile _ _ _ Hp) (h_addr _ _ _ Hp) HF b x)|].
  intros _ s' (En & (F' & HF') & Ho). split; [done|]. eapply heap_free_list; try done.
  by apply (tile_pend_add (h_tile _ _ _ Hp) b x).
Qed.

Lemma heap_block_remove b x :
  H !! b = Some x → fr x = true → b ∉ P →
  wp (block_remove b) s (λ _ s', null s' = null s ∧ heap ({[b]} ∪ P) H s' ∧ keeps H s s').
Proof.
  intros Hb Hf HP. unfold block_remove. wp_step.
  eapply wp_block_size; [apply Hp|eapply tile_geo, Hp|done|].
  destruct (mapping_insert (sz x)) as [fl sl] eqn:E. by eapply heap_remove_free_block.
Qed.

Lemma heap_block_insert b x :
  H !! b = Some x → fr x = true → b ∈ P →
  (∀ y, H !! nxt b x = Some y → fr y = true → nxt b x ∈ P) →
  (∀ p z, H !! p = Some z → fr z = true → nxt p z = b → p ∈ P ∧ p ≠ b) →
  wp (block_insert b) s (λ _ s', null s' = null s ∧ heap (P ∖ {[b]}) H s' ∧ keeps H s s'
    ∧ indexed (ctl s') (sz x) b).
Proof.
  intros Hb Hf HP Hn1 Hn2. unfold block_insert. wp_step.
  eapply wp_block_size; [apply Hp|eapply tile_geo, Hp|done|].
  destruct (mapping_insert (sz x)) as [fl sl] eqn:E. destruct (h_lists _ _ _ Hp) as [F HF].
  eapply wp_mono; [by apply (wp_insert_free_block (h_tile _ _ _ Hp) (h_addr _ _ _ Hp) HF b x)|].
  intros _ s' (En & (F' & HF' & EF) & Ho). split; [done|].
  assert (heap (P ∖ {[b]}) H s' ∧ keeps H s s') as [? ?].
  { eapply heap_free_list; try done. by eapply (tile_unpend (h_tile _ _ _ Hp) b x). }
  split_and!; [done..|]. eapply index_first; [apply HF'| |exact E|exact EF].
  by eapply (mapping_in_cls (h_tile _ _ _ Hp)).
Qed.

End Ops.

(** ** Marking blocks *)

(** The bytes that marking [b] writes: its header, and the back link and
    header of its successor. *)
Definition mark_area (b n a : Z) : Prop := n ≤ a < n + 8 ∨ b + 4 ≤ a < b + 8.

Section Mark.
Context {P : gset Z} {H : blkmap} {s : tlsf_state} (Hp : heap P H s).
Context {b : Z} {x y : blk} (Hb : H !! b = Some x) (Hx : sz x ≠ 0) (Hy : H !! nxt b x = Some y).

Let T := h_tile _ _ _ Hp.

Lemma mark_sz : 12 ≤ sz x.
Proof. pose proof (t_ok _ _ _ T _ _ Hb) as Ok. unfold block_ok in Ok. lia. Qed.

Lemma mark_area_link c z a : H !! c = Some z → fr z = true → c ≠ b →
  nxt c z ≤ a < nxt c z + 4 → ¬ mark_area b (nxt b x) a.
Proof.
  intros Hc Hf Hne Ha. unfold mark_area. pose proof (tile_free_sz T _ _ Hc Hf). pose proof mark_sz.
  destruct (decide (c = nxt b x)) as [->|Hne']; [sep_lia T|].
  pose proof (t_ok _ _ _ T _ _ Hc) as (Hac & Hzc & _). pose proof (t_ok _ _ _ T _ _ Hb) as (Hab & Hxb & _).
  pose proof (tile_sep2 T _ _ _ _ Hc Hb Hne). pose proof (tile_sep2 T _ _ _ _ Hc Hy Hne').
  sep_lia T.
Qed.

Lemma mark_area_fields c z a : H !! c = Some z → fr z = true →
  c + 8 ≤ a < c + 16 → ¬ mark_area b (nxt b x) a.
Proof.
  intros Hc Hf Ha. unfold mark_area. pose proof (tile_free_sz T _ _ Hc Hf). pose proof mark_sz.
  destruct (decide (c = b)) as [->|Hne]; [sep_lia T|].
  destruct (decide (c = nxt b x)) as [->|Hne']; [sep_lia T|].
  pose proof (tile_sep2 T _ _ _ _ Hc Hb Hne). pose proof (tile_sep2 T _ _ _ _ Hc Hy Hne').
  sep_lia T.
Qed.

Lemma mark_area_payload c z a : H !! c = Some z → c ≠ b →
  c + 8 ≤ a < c + 8 + sz z → ¬ mark_area b (nxt b x) a.
Proof.
  intros Hc Hne Ha. unfold mark_area. pose proof mark_sz.
  destruct (decide (c = nxt b x)) as [->|Hne']; [sep_lia T|].
  pose proof (tile_sep2 T _ _ _ _ Hc Hb Hne). pose proof (tile_sep2 T _ _ _ _ Hc Hy Hne').
  sep_lia T.
Qed.

Lemma nxt_ne : nxt b x ≠ b.
Proof. pose proof mark_sz. unfold nxt. lia. Qed.

Lemma alloc_set_fr_true c m :
  alloc (set_fr true b (nxt b x) x y H) c m ↔ alloc H c m ∧ c ≠ b.
Proof.
  pose proof nxt_ne. unfold alloc. split.
  - intros (z & Hz & Hf & Es & Hm). apply set_fr_old in Hz as (z0 & Hz0 & Es' & _ & Ef & _); [|done..].
    rewrite Ef in Hf. case_decide; [done|]. split; [|done]. exists z0. by rewrite <- Es'.
  - intros ((z0 & Hz0 & Hf & Es & Hm) & Hne).
    destruct (set_fr_new true _ _ _ _ _ Hb Hy ltac:(done) c z0 Hz0) as (z & Hz & Es' & _ & Ef & _).
    exists z. rewrite Ef, Es'. by case_decide.
Qed.

Lemma alloc_set_fr_false c m :
  alloc (set_fr false b (nxt b x) x y H) c m ↔ alloc H c m ∧ c ≠ b ∨ c = b ∧ m = sz x.
Proof.
  pose proof nxt_ne. unfold alloc. split.
  - intros (z & Hz & Hf & Es & Hm). apply set_fr_old in Hz as (z0 & Hz0 & Es' & _ & Ef & _); [|done..].
    rewrite Ef in Hf. case_decide; [right; simplify_eq; split; [done|congruence]|].
    left. split; [|done]. exists z0. by rewrite <- Es'.
  - intros [((z0 & Hz0 & Hf & Es & Hm) & Hne)|[-> ->]].
    + destruct (set_fr_new false _ _ _ _ _ Hb Hy ltac:(done) c z0 Hz0) as (z & Hz & Es' & _ & Ef & _).
      exists z. rewrite Ef, Es'. by case_decide.
    + exists (with_fr false x). unfold set_fr. by rewrite lookup_insert_eq.
Qed.

Lemma free_in_set_fr v P' fl sl c :
  (∀ d, d ≠ b → d ∈ P' ↔ d ∈ P) → (v = true → b ∈ P') → (fr x = true → b ∈ P) →
  free_in P' (set_fr v b (nxt b x) x y H) fl sl c ↔ free_in P H fl sl c.
Proof.
  intros HP Hv Hf. pose proof nxt_ne. unfold free_in. split.
  - intros (HPc & z & Hz & Hfz & E). apply set_fr_old in Hz as (z0 & Hz0 & Es & _ & Ef & _); [|done..].
    rewrite Ef in Hfz. case_decide; [subst; tauto|]. rewrite HP in HPc by done.
    split; [done|]. exists z0. by rewrite <- Es.
  - intros (HPc & z0 & Hz0 & Hfz & E).
    destruct (set_fr_new v _ _ _ _ _ Hb Hy ltac:(done) c z0 Hz0) as (z & Hz & Es & _ & Ef & _).
    destruct (decide (c = b)) as [->|]; [simplify_eq; tauto|]. rewrite HP by done.
    split; [done|]. exists z. split_and!; [done|congruence|by rewrite Es].
Qed.

Lemma heap_mark_as_free : fr x = false →
  wp (block_mark_as_free b) s (λ _ s', null s' = null s
    ∧ heap ({[b]} ∪ P) (set_fr true b (nxt b x) x y H) s'
    ∧ keeps (set_fr true b (nxt b x) x y H) s s').
Proof.
  intros Hf. pose proof nxt_ne.
  assert (b ∉ P) as HbP.
  { intros Hi. apply (t_pend _ _ _ T) in Hi as (z & Hz & Hfz). congruence. }
  eapply wp_mono; [eapply (wp_block_mark_as_free s H b x y);
    [apply Hp|apply (tile_geo _ _ _ T)|by apply (tile_next_ok _ _ _ _ _ T)|done]|].
  intros _ s' (Ec & Hh' & Hl & Ho). split; [by rewrite Ec|]. split.
  - eapply (heap_step (mark_area b (nxt b x))); [exact Hp|done| |done|done|..].
    + apply (tile_set_fr _ P); try done; [set_solver..].
    + intros c z Hc Hfz. apply set_fr_old in Hc as (z0 & Hz0 & Es & _ & Ef & _); [|done..].
      rewrite Ef in Hfz. assert (nxt c z = nxt c z0) as -> by (unfold nxt; by rewrite Es). case_decide as Ecb.
      * subst. simplify_eq. by left.
      * right. exists z0. split_and!; try done. intros a Ha. by eapply mark_area_link.
    + intros c fl sl. apply free_in_set_fr; [set_solver..|]. congruence.
    + intros c z a Hc Hfz _ Ha. by eapply mark_area_fields.
  - intros c z a Hc Hfz Ha. apply set_fr_old in Hc as (z0 & Hz0 & Es & _ & Ef & _); [|done..].
    rewrite Ef in Hfz. case_decide; [done|]. apply Ho. eapply mark_area_payload; try done. lia.
Qed.

Lemma heap_mark_as_used : fr x = true → b ∈ P →
  wp (block_mark_as_used b) s (λ _ s', null s' = null s
    ∧ heap (P ∖ {[b]}) (set_fr false b (nxt b x) x y H) s'
    ∧ eq_off (mark_area b (nxt b x)) (tmem s) (tmem s')).
Proof.
  intros Hf HbP. pose proof nxt_ne.
  eapply wp_mono; [eapply (wp_block_mark_as_used s H b x y);
    [apply Hp|apply (tile_geo _ _ _ T)|by apply (tile_next_ok _ _ _ _ _ T)|done]|].
  intros _ s' (Ec & Hh' & Ho). apply (eq_off_mono _ (mark_area b (nxt b x))) in Ho;
    [|unfold mark_area; lia]. split; [by rewrite Ec|]. split; [|done].
  eapply (heap_step (mark_area b (nxt b x))); [exact Hp|done| |done|done|..].
  - apply (tile_set_fr _ P); try done; [set_solver|].
    intros c Hc. destruct (decide (c = b)); [by left|right; set_solver].
  - intros c z Hc Hfz. apply set_fr_old in Hc as (z0 & Hz0 & Es & _ & Ef & _); [|done..].
    rewrite Ef in Hfz. assert (nxt c z = nxt c z0) as -> by (unfold nxt; by rewrite Es). case_decide as Ecb; [done|].
    right. exists z0. split_and!; try done. intros a Ha. by eapply mark_area_link.
  - intros c fl sl. apply free_in_set_fr; [set_solver|done|done].
  - intros c z a Hc Hfz _ Ha. by eapply mark_area_fields.
Qed.

End Mark.

(** ** Absorbing a block *)

Lemma lookup_absorb v p b n x y z H c w :
  p ≠ n → b ≠ n → p ≠ b →
  absorb v p b n x y z H !! c = Some w ↔
  c = p ∧ w = Blk (sz x + 4 + sz y) v (pf x) (lim x)
  ∨ c = n ∧ w = with_pf v z
  ∨ c ≠ p ∧ c ≠ n ∧ c ≠ b ∧ H !! c = Some w.
Proof.
  intros Hpn Hbn Hpb. unfold absorb. rewrite !lookup_insert_Some, lookup_delete_Some.
  split; intros; destruct_and?; naive_solver.
Qed.

Section Absorb.
Context {P : gset Z} {H : blkmap} {s : tlsf_state} (Hp : heap P H s).
Context {p b : Z} {x y z : blk} (Hx : H !! p = Some x) (Hpb : b = nxt p x) (Hy : H !! b = Some y).
Context (Hz : H !! nxt b y = Some z) (Fx : fr x = true) (Fy : fr y = true) (Pp : p ∈ P) (Pb : b ∈ P).

Let T := h_tile _ _ _ Hp.
Let n := nxt b y.

Lemma absorb_order : 12 ≤ sz x ∧ 12 ≤ sz y ∧ p + 16 ≤ b ∧ b + 16 ≤ n.
Proof.
  pose proof (tile_free_sz T _ _ Hx Fx). pose proof (tile_free_sz T _ _ Hy Fy).
  unfold n. unfold nxt in *. lia.
Qed.

Lemma hdr_absorb m : hdr m (<[p := with_sz (sz x + 4 + sz y) x]> H) → hdr m (absorb true p b n x y z H).
Proof.
  intros Hh. pose proof absorb_order. eapply hdr_mono; [done|]. apply map_subseteq_spec. intros c w Hc.
  destruct (t_next _ _ _ T _ _ Hy) as (z' & Hz' & Epf & _); [lia|]. simplify_eq.
  apply lookup_absorb in Hc as [[-> ->]|[[-> ->]|(? & ? & ? & Hc)]]; [| | |lia..].
  - rewrite lookup_insert_eq. unfold with_sz. by rewrite Fx.
  - rewrite lookup_insert_ne by lia. unfold with_pf. rewrite <- Fy, <- Epf. by destruct z.
  - by rewrite lookup_insert_ne by done.
Qed.

Lemma heap_absorb :
  wp (block_absorb p b) s (λ r s', r = p ∧ null s' = null s
    ∧ heap (P ∖ {[b]}) (absorb true p b n x y z H) s'
    ∧ keeps (absorb true p b n x y z H) s s').
Proof.
  pose proof absorb_order as Ho. pose proof (tile_next_ok _ _ _ _ _ T Hy ltac:(lia)) as Hok.
  pose proof (t_ok _ _ _ T _ _ Hx) as Okx. unfold block_ok in Okx.
  eapply wp_mono; [apply (wp_block_absorb s H p b x y (h_hdr _ _ _ Hp) (tile_geo _ _ _ T)); try done; lia|].
  intros ? s' (-> & Ec & Hh & Hl & Hd). fold n in Hl, Hd. set (D := λ a, n ≤ a < n + 4 ∨ p + 4 ≤ a < p + 8) in *.
  assert (∀ c w, H !! c = Some w → c ≠ p → c ≠ b →
    (nxt c w ≤ p ∨ b ≤ c) ∧ (nxt c w ≤ b ∨ n ≤ c)) as Hsep.
  { intros c w Hc Hcp Hcb. pose proof (tile_sep2 T _ _ _ _ Hc Hx Hcp) as Hs1.
    pose proof (tile_sep2 T _ _ _ _ Hc Hy Hcb) as Hs2. rewrite <- Hpb in Hs1. unfold n. lia. }
  assert (p ∈ P ∖ {[b]}).
  { apply elem_of_difference. rewrite elem_of_singleton. split; [done|lia]. }
  assert (∀ c, c ≠ b → c ∉ P ∖ {[b]} ↔ c ∉ P) as HPb by set_solver.
  split; [done|]. split; [by rewrite Ec|]. split.
  - eapply (heap_step D); [exact Hp|done| |by apply hdr_absorb|done|..].
    + apply (tile_absorb _ P); try done; try lia.
      * intros c Hc. destruct (decide (c = p)); [by left|right; set_solver].
      * intros c Hc. destruct (decide (c = b)); [by right; left|]. right; right. set_solver.
    + intros c w Hc Hf. apply lookup_absorb in Hc as [[-> ->]|[[-> ->]|(? & ? & ? & Hc)]]; [| | |lia..].
      * left. unfold nxt. simpl. replace (p + 4 + _) with n; [done|unfold n, nxt in *; lia].
      * right. exists z. simpl in Hf. split_and!; try done. unfold D. simpl.
        pose proof (tile_free_sz T _ _ Hz Hf). unfold n, nxt in *. simpl. lia.
      * right. exists w. split_and!; try done. pose proof (tile_free_sz T _ _ Hc Hf).
        destruct (Hsep _ _ Hc) as [[?|?] [?|?]]; try done; unfold D, nxt in *; lia.
    + intros c fl sl. unfold free_in. split.
      * intros (HPc & w & Hc & Hf & E). apply lookup_absorb in Hc as [[-> ->]|[[-> ->]|(? & ? & ? & Hc)]]; [| | |lia..].
        -- done.
        -- split; [by apply HPb in HPc; [|lia]|]. by exists z.
        -- split; [by apply HPb in HPc|]. by exists w.
      * intros (HPc & w & Hc & Hf & E). assert (c ≠ p ∧ c ≠ b) as [? ?] by (split; intros ->; done).
        split; [by apply HPb|]. destruct (decide (c = n)) as [->|].
        -- assert (w = z) as -> by (unfold n in Hc; congruence).
           exists (with_pf true z). split_and!; try done. rewrite lookup_absorb by lia; auto 10.
        -- exists w. split_and!; try done. rewrite lookup_absorb by lia; auto 10.
    + intros c w a Hc Hf HPc Ha. assert (c ≠ p ∧ c ≠ b) as [? ?] by (split; intros ->; done).
      pose proof (tile_free_sz T _ _ Hc Hf).
      destruct (Hsep _ _ Hc) as [[?|?] [?|?]]; try done; unfold D, nxt in *; lia.
  - intros c w a Hc Hf Ha. apply Hd. intros Hda.
    apply lookup_absorb in Hc as [[-> ->]|[[-> ->]|(? & ? & ? & Hc)]]; [| | |lia..].
    + done.
    + unfold D in Hda. simpl in *. lia.
    + destruct (Hsep _ _ Hc) as [[?|?] [?|?]]; try done; unfold D, nxt in *; lia.
Qed.

Lemma alloc_absorb : same_alloc H (absorb true p b n x y z H).
Proof.
  pose proof absorb_order. intros c m. unfold alloc. split.
  - intros (w & Hc & Hf & Es & Hm).
    apply lookup_absorb in Hc as [[-> ->]|[[-> ->]|(? & ? & ? & Hc)]]; [done| | |lia..]; by eauto.
  - intros (w & Hc & Hf & Es & Hm). assert (c ≠ p ∧ c ≠ b) as [? ?] by (split; intros ->; congruence).
    destruct (decide (c = n)) as [->|].
    + assert (w = z) as -> by (unfold n in Hc; congruence). exists (with_pf true z).
      rewrite lookup_absorb by lia. auto 10.
    + exists w. rewrite lookup_absorb by lia. auto 10.
Qed.

End Absorb.

(** ** Splitting a block *)

Lemma lookup_split_at size b r n x y H c w :
  b ≠ r → b ≠ n → r ≠ n →
  split_at size b r n x y H !! c = Some w ↔
  c = b ∧ w = with_sz size x ∨ c = r ∧ w = remainder size x ∨ c = n ∧ w = with_pf true y
  ∨ c ≠ b ∧ c ≠ r ∧ c ≠ n ∧ H !! c = Some w.
Proof.
  intros Hbr Hbn Hrn. unfold split_at. rewrite !lookup_insert_Some.
  split; intros; destruct_and?; naive_solver.
Qed.

Section Split.
Context {P : gset Z} {H : blkmap} {s : tlsf_state} (Hp : heap P H s).
Context {b size : Z} {x y : blk} (Hb : H !! b = Some x) (Hy : H !! nxt b x = Some y).
Context (Hs : 12 ≤ size) (Hal : size mod 4 = 0) (Hsz : size + 16 ≤ sz x).

Let T := h_tile _ _ _ Hp.
Let n := nxt b x.
Let r := b + 4 + size.

Definition split_area (a : Z) : Prop :=
  n ≤ a < n + 8 ∨ b + 4 ≤ a < b + 8 ∨ r + 4 ≤ a < r + 8 ∨ fr x = true ∧ r ≤ a < r + 4.

Lemma split_order : b + 16 ≤ r ∧ r + 16 ≤ n.
Proof. unfold r, n, nxt. lia. Qed.

Lemma split_fresh : H !! r = None.
Proof.
  destruct (H !! r) as [w|] eqn:E; [exfalso|done]. pose proof split_order.
  pose proof (t_sep _ _ _ T _ _ _ _ Hb E). unfold n in *. lia.
Qed.

Lemma split_sep c w : H !! c = Some w → c ≠ b → nxt c w ≤ b ∨ n ≤ c.
Proof. intros Hc Hne. pose proof (tile_sep2 T _ _ _ _ Hc Hb Hne). unfold n. lia. Qed.

Lemma heap_split_step s' :
  ctl s' = ctl s → hdr (tmem s') (split_at size b r n x y H) →
  load32 (tmem s') n = r → (fr x = true → b ∈ P ∧ load32 (tmem s') r = b) →
  eq_off split_area (tmem s) (tmem s') →
  heap ({[r]} ∪ P) (split_at size b r n x y H) s' ∧ keeps (split_at size b r n x y H) s s'.
Proof.
  intros Ec Hh Hl Hlb Hd. pose proof split_order. pose proof split_fresh as Hr. split.
  - eapply (heap_step split_area); [exact Hp|done| |done|done|..].
    + apply (tile_split _ P); try done. set_solver.
    + intros c w Hc Hf. apply lookup_split_at in Hc as [[-> ->]|[[-> ->]|[[-> ->]|(? & ? & ? & Hc)]]]; [| | | |lia..].
      * left. apply Hlb. done.
      * left. unfold nxt. simpl. replace (r + 4 + _) with n; [done|unfold n, r, nxt; lia].
      * right. exists y. simpl in Hf. split_and!; try done. pose proof (tile_free_sz T _ _ Hy Hf).
        unfold split_area, nxt. simpl. lia.
      * right. exists w. split_and!; try done. pose proof (tile_free_sz T _ _ Hc Hf).
        destruct (split_sep _ _ Hc); [done|..]; unfold split_area, nxt in *; lia.
    + intros c fl sl. unfold free_in. split.
      * intros (HPc & w & Hc & Hf & E).
        apply lookup_split_at in Hc as [[-> ->]|[[-> ->]|[[-> ->]|(? & ? & ? & Hc)]]]; [| | | |lia..].
        -- apply Hlb in Hf as [? _]. set_solver.
        -- set_solver.
        -- split; [set_solver|]. by exists y.
        -- split; [set_solver|]. by exists w.
      * intros (HPc & w & Hc & Hf & E). assert (c ≠ b) by (intros ->; simplify_eq; by apply Hlb in Hf as [? _]).
        assert (c ≠ r) by (intros ->; by rewrite Hr in Hc).
        split; [set_solver|]. destruct (decide (c = n)) as [->|].
        -- assert (w = y) as -> by (unfold n in Hc; congruence).
           exists (with_pf true y). split_and!; try done. rewrite lookup_split_at by lia; auto 10.
        -- exists w. split_and!; try done. rewrite lookup_split_at by lia; auto 10.
    + intros c w a Hc Hf HPc Ha. assert (c ≠ b) by (intros ->; simplify_eq; by apply Hlb in Hf as [? _]).
      pose proof (tile_free_sz T _ _ Hc Hf).
      destruct (split_sep _ _ Hc); [done|..]; unfold split_area, nxt in *; lia.
  - intros c w a Hc Hf Ha. apply Hd. unfold split_area. intros Hda.
    apply lookup_split_at in Hc as [[-> ->]|[[-> ->]|[[-> ->]|(? & ? & ? & Hc)]]]; [| | | |lia..].
    + simpl in *. rewrite Hf in Hda. unfold r in *. intuition lia.
    + done.
    + simpl in *. intuition lia.
    + destruct (split_sep _ _ Hc); [done|..]; unfold nxt in *; intuition lia.
Qed.

Lemma alloc_split : fr x = true → same_alloc H (split_at size b r n x y H).
Proof.
  pose proof split_order. pose proof split_fresh as Hr. intros Hfx c m. unfold alloc. split.
  - intros (w & Hc & Hf & Es & Hm).
    apply lookup_split_at in Hc as [[-> ->]|[[-> ->]|[[-> ->]|(? & ? & ? & Hc)]]]; [| | | |lia..].
    + simpl in Hf. congruence.
    + done.
    + by exists y.
    + by exists w.
  - intros (w & Hc & Hf & Es & Hm). assert (c ≠ b) by (intros ->; congruence).
    assert (c ≠ r) by (intros ->; congruence). destruct (decide (c = n)) as [->|].
    + assert (w = y) as -> by (unfold n in Hc; congruence). exists (with_pf true y).
      rewrite lookup_split_at by lia. auto 10.
    + exists w. rewrite lookup_split_at by lia. auto 10.
Qed.

(** The header map [block_split] leaves: the flag of the remainder about [b]
    is whatever the memory held. *)
Let raw (g : bool) : blkmap :=
  <[b := with_sz size x]> (<[r := Blk (sz x - size - 4) true g (lim x)]> (<[n := with_pf true y]> H)).

Lemma split_block_ok : b mod 4 = 0 ∧ sz x mod 4 = 0 ∧ 0 < b ∧ n + 8 ≤ 2 ^ 32 ∧ sz x < 2 ^ 30.
Proof.
  pose proof (tile_sz T _ _ Hb). pose proof (t_ok _ _ _ T _ _ Hb) as Ok. unfold block_ok in Ok.
  unfold n, nxt. lia.
Qed.

Lemma remainder_aligned : sz (remainder size x) mod 4 = 0 ∧ r mod 4 = 0.
Proof.
  destruct split_block_ok as (? & Hxa & _). simpl. unfold r.
  split; [clear - Hxa Hal|]; Z.div_mod_to_equations; lia.
Qed.

Lemma geo_raw g : geo (raw g).
Proof.
  destruct split_block_ok as (? & ? & ? & ?). destruct remainder_aligned as [? ?].
  unfold raw. apply geo_insert; [|done|done|simpl; lia].
  apply geo_insert; [|done|done|simpl; lia].
  eapply geo_update; [apply (tile_geo _ _ _ T)|done|done].
Qed.

Lemma raw_r g : raw g !! r = Some (Blk (sz x - size - 4) true g (lim x)).
Proof. pose proof split_order. unfold raw. by rewrite lookup_insert_ne, lookup_insert_eq by lia. Qed.

Lemma raw_next_ok g : next_ok (raw g) b (with_sz size x) ∧ nxt b (with_sz size x) = r.
Proof.
  split; [|done]. pose proof split_order. destruct split_block_ok as (? & ? & ? & ? & _).
  split_and!; [apply lookup_insert_eq|simpl; lia|done|unfold n, nxt in *; simpl; lia|].
  change (nxt b (with_sz size x)) with r. intros c w Hc. unfold raw in Hc. map_cases; [lia..|].
  destruct (decide (c = n)); [lia|]. destruct (split_sep c w); [done..|unfold nxt in *|lia].
  pose proof (tile_sz T c w ltac:(done)). lia.
Qed.

Lemma hdr_raw_split m g : hdr m (raw g) →
  hdr (store32 m (r + 4) (hword (remainder size x))) (split_at size b r n x y H).
Proof.
  intros Hh. pose proof split_order. destruct remainder_aligned. destruct split_block_ok as (? & ? & ? & ?).
  eapply hdr_mono; [apply (hdr_insert _ _ r (remainder size x) Hh (geo_raw g)); try done; simpl; lia|].
  apply map_subseteq_spec. intros c w Hc.
  apply lookup_split_at in Hc as [[-> ->]|[[-> ->]|[[-> ->]|(? & ? & ? & Hc)]]]; [| | | |lia..]; unfold raw.
  - by rewrite lookup_insert_ne, lookup_insert_eq by lia.
  - by rewrite lookup_insert_eq.
  - by rewrite !lookup_insert_ne, lookup_insert_eq by lia.
  - by rewrite !lookup_insert_ne by done.
Qed.

Lemma wp_split_raw :
  wp (block_split b size) s (λ r' s', r' = r ∧ ctl s' = ctl s ∧ (∃ g, hdr (tmem s') (raw g))
    ∧ load32 (tmem s') n = r
    ∧ eq_off (λ a, n ≤ a < n + 8 ∨ b + 4 ≤ a < b + 8 ∨ r + 4 ≤ a < r + 8) (tmem s) (tmem s')).
Proof.
  pose proof split_fresh. eapply wp_mono; [apply (wp_block_split s H b x y size (h_hdr _ _ _ Hp)); try done|].
  - apply (tile_geo _ _ _ T).
  - apply (tile_next_ok _ _ _ _ _ T Hb). lia.
  - intros r' s' (-> & Ec & Hg & Hl & Hd). split_and!; try done.
    eapply eq_off_mono; [done|]. simpl. unfold r, n. lia.
Qed.

(** [block_split] of a free block, then the links both ways across the cut,
    in the order of [block_trim_free]. *)
Lemma heap_split_free : fr x = true → b ∈ P →
  wp (block_split b size) s (λ r' s1, wp (block_link_next b) s1 (λ _ s2,
    wp (block_set_prev_free r') s2 (λ _ s', r' = r ∧ null s' = null s
      ∧ heap ({[r]} ∪ P) (split_at size b r n x y H) s'
      ∧ keeps (split_at size b r n x y H) s s'))).
Proof.
  intros Hfx HbP. pose proof split_order. eapply wp_mono; [apply wp_split_raw|].
  intros r' s1 (-> & Ec & (g & Hh) & Hl & Hd). destruct (raw_next_ok g) as [Hok En].
  eapply wp_mono; [apply (wp_block_link_next s1 (raw g) b _ Hh (geo_raw g) Hok)|].
  intros ? s2 (-> & -> & Hh2 & Hl2). rewrite En in *.
  eapply wp_block_set_prev_free; [exact Hh2|apply geo_raw|apply raw_r|].
  set (s' := set_hdr r _ _).
  assert (tmem s' = store32 (store32 (tmem s1) r b) (r + 4) (hword (remainder size x))) as Em.
  { unfold s', remainder. by rewrite Hfx. }
  split; [done|]. split; [simpl; by rewrite Ec|]. apply heap_split_step; rewrite ?Em.
  - done.
  - by eapply hdr_raw_split.
  - by rewrite !load32_store32_ne by lia.
  - intros _. split; [done|]. rewrite load32_store32_ne by lia. done.
  - eapply eq_off_trans; [exact Hd| |].
    + eapply eq_off_trans; [apply eq_off_store32..|]. intros a Ha; exact Ha.
    + simpl. unfold split_area. intuition lia.
Qed.

(** The same in the order of [block_trim_free_leading]. *)
Lemma heap_split_leading : fr x = true → b ∈ P →
  wp (block_split b size) s (λ r' s1, wp (block_set_prev_free r') s1 (λ _ s2,
    wp (block_link_next b) s2 (λ _ s', r' = r ∧ null s' = null s
      ∧ heap ({[r]} ∪ P) (split_at size b r n x y H) s'
      ∧ keeps (split_at size b r n x y H) s s'))).
Proof.
  intros Hfx HbP. pose proof split_order. destruct split_block_ok as (? & ? & ? & ?).
  destruct remainder_aligned. eapply wp_mono; [apply wp_split_raw|].
  intros r' s1 (-> & Ec & (g & Hh) & Hl & Hd).
  eapply wp_block_set_prev_free; [exact Hh|apply geo_raw|apply raw_r|].
  set (s2 := set_hdr r _ _).
  assert (tmem s2 = store32 (tmem s1) (r + 4) (hword (remainder size x))) as Em.
  { unfold s2, remainder. by rewrite Hfx. }
  assert (hdr (tmem s2) (raw true)) as Hh2.
  { rewrite Em. eapply hdr_mono; [apply (hdr_insert _ _ r (remainder size x) Hh (geo_raw g)); try done; simpl; lia|].
    apply map_subseteq_spec. intros c w Hc. unfold raw in *. map_cases.
    - by rewrite lookup_insert_ne, lookup_insert_eq by lia.
    - rewrite lookup_insert_eq. unfold remainder. by rewrite Hfx.
    - by rewrite !lookup_insert_ne, lookup_insert_eq by lia.
    - by rewrite !lookup_insert_ne by done. }
  destruct (raw_next_ok true) as [Hok En].
  eapply wp_mono; [apply (wp_block_link_next s2 (raw true) b _ Hh2 (geo_raw true) Hok)|].
  intros ? s3 (-> & -> & Hh3 & Hl3). rewrite En in *. split; [done|]. split; [simpl; by rewrite Ec|].
  apply heap_split_step; cbn [tmem set_tmem ctl].
  - done.
  - eapply hdr_mono; [exact Hh3|]. apply map_subseteq_spec. intros c w Hc.
    apply lookup_split_at in Hc as [[-> ->]|[[-> ->]|[[-> ->]|(? & ? & ? & Hc)]]]; [| | | |lia..]; unfold raw.
    + by rewrite lookup_insert_eq.
    + rewrite lookup_insert_ne, lookup_insert_eq by lia. unfold remainder. by rewrite Hfx.
    + by rewrite !lookup_insert_ne, lookup_insert_eq by lia.
    + by rewrite !lookup_insert_ne by done.
  - rewrite Em. by rewrite !load32_store32_ne by lia.
  - intros _. done.
  - eapply eq_off_trans; [exact Hd| |].
    + rewrite Em. eapply eq_off_trans; [apply eq_off_store32..|]. intros a Ha; exact Ha.
    + simpl. unfold split_area. intuition lia.
Qed.

End Split.
