(* ===== verification/TlsfApi.v ===== *)
(** * TLSF: [tlsf_malloc], [tlsf_memalign] and [tlsf_free]

    The interface functions, shown total on every heap that satisfies the
    invariant: no assertion fails, the invariant is kept, and the allocated
    blocks change as the caller expects. *)

From S2P Require Import Prelude Memory Tlsf TlsfMap TlsfHeap TlsfWp TlsfLists TlsfAlloc.

(** ** Finding a block *)

(** No free block is in a class the search for [size] would look at. *)
Definition exhausted (H : blkmap) (size : Z) : Prop :=
  ∀ b x, H !! b = Some x → fr x = true →
    rank (mapping_insert (sz x)) < rank (mapping_search size).

Lemma rank_in_cls fl sl : in_cls fl sl → 0 ≤ rank (fl, sl) < rank (FL_INDEX_COUNT, 0).
Proof.
  intros [Hf Hg]. unfold rank. change FL_INDEX_COUNT with 24 in *. change SL_INDEX_COUNT with 32 in *.
  simpl. lia.
Qed.

Lemma none_between_exhausted F H s size :
  heap ∅ H s → lists ∅ H F s →
  none_between F (rank (mapping_search size)) (rank (FL_INDEX_COUNT, 0)) → exhausted H size.
Proof.
  intros Hp L Hn b x Hb Hf. destruct (mapping_insert (sz x)) as [fl sl] eqn:E.
  pose proof (mapping_in_cls (h_tile _ _ _ Hp) _ _ _ _ Hb E) as Hc.
  destruct (Z.lt_ge_cases (rank (fl, sl)) (rank (mapping_search size))); [done|].
  assert (b ∈ F fl sl) as Hin by (apply L; [done|]; split; [set_solver|by eauto]).
  rewrite (Hn fl sl Hc) in Hin; [by apply elem_of_nil in Hin|]. pose proof (rank_in_cls _ _ Hc). lia.
Qed.

Lemma heap_locate_free H s size :
  heap ∅ H s → 12 ≤ size < 2 ^ 30 → size mod 4 = 0 →
  wp (block_locate_free size) s (λ b s',
    b = 0 ∧ s' = s ∧ exhausted H size
    ∨ ∃ x, H !! b = Some x ∧ fr x = true ∧ size ≤ sz x
        ∧ null s' = null s ∧ heap {[b]} H s' ∧ keeps H s s').
Proof.
  intros Hp Hs Hal. pose proof (h_tile _ _ _ Hp) as T. destruct (h_lists _ _ _ Hp) as [F L].
  unfold block_locate_free. assert (testz size = true) as -> by (apply testz_true; lia).
  pose proof (mapping_search_range size ltac:(lia)) as Hr.
  destruct (mapping_search size) as [fl sl] eqn:Es. destruct Hr as [Hrf Hrs].
  destruct (Z.ltb_spec fl FL_INDEX_COUNT) as [Hlt|Hge].
  - wp_step. eapply wp_mono; [apply (wp_search_suitable_block s F fl sl (l_index _ _ _ _ L))|].
    { split; [lia|done]. }
    intros [[b f] g] s' [-> [[-> Hn]|(Hc & Hrk & _ & Hin & ->)]].
    { wp_step. unfold when. simpl. wp_steps. left. split_and!; try done.
      eapply none_between_exhausted; try done. by rewrite Es. }
    destruct (F f g) as [|b l] eqn:EF; [done|]. simpl first.
    assert (b ∈ F f g) as Hb by (rewrite EF; apply list_elem_of_here).
    apply (l_mem _ _ _ _ L) in Hb as (_ & x & Hb & Hf & E); [|done].
    assert (size ≤ sz x).
    { apply mapping_search_fits; [lia|done|pose proof (tile_sz T _ _ Hb); lia|]. by rewrite E, Es. }
    assert (testz b = true) as Hbz.
    { apply testz_true. apply (t_ok _ _ _ T) in Hb. unfold block_ok in Hb. lia. }
    wp_step. rewrite Hbz. unfold when. wp_step.
    eapply wp_block_size; [apply Hp|apply (tile_geo _ _ _ T)|done|]. wp_steps; [by apply Z.leb_le|].
    eapply wp_mono; [eapply (heap_remove_free_block Hp b x f g); try done|].
    intros _ s' (En & Hp' & K). wp_step. right. exists x. rewrite (right_id_L ∅ (∪)) in Hp'. done.
  - wp_steps. unfold when. simpl. wp_steps. left. split_and!; try done.
    eapply none_between_exhausted; try done. rewrite Es. intros f g Hc Hrk.
    pose proof (rank_in_cls _ _ Hc). assert (fl = FL_INDEX_COUNT) as -> by lia.
    unfold rank in Hrk. simpl in Hrk. lia.
Qed.

Lemma block_locate_free_0 s : block_locate_free 0 s = Ok (0, s).
Proof. done. Qed.

(** ** Preparing a block for use *)

Lemma heap_block_can_split P H s b x size :
  heap P H s → H !! b = Some x → 0 ≤ size < 2 ^ 30 →
  wp (block_can_split b size) s (λ c s', s' = s ∧ c = (size + 16 <=? sz x)).
Proof.
  intros Hp Hb Hs. unfold block_can_split. wp_step.
  eapply wp_block_size; [apply Hp|apply (tile_geo _ _ _ (h_tile _ _ _ Hp))|done|]. wp_steps.
  split; [done|]. change sizeof_block_header_t with 16. rewrite wrapu_small by lia. by rewrite Z.add_comm.
Qed.

Lemma heap_trim_free H s b x size :
  heap {[b]} H s → H !! b = Some x → fr x = true →
  (∀ y, H !! nxt b x = Some y → fr y = false) →
  12 ≤ size < 2 ^ 30 → size mod 4 = 0 → size ≤ sz x →
  wp (block_trim_free b size) s (λ _ s', null s' = null s ∧ ∃ H' x',
    heap {[b]} H' s' ∧ keeps H s s' ∧ same_alloc H H'
    ∧ H' !! b = Some x' ∧ fr x' = true ∧ size ≤ sz x' < size + 16).
Proof.
  intros Hp Hb Hf Hny Hs Hal Hsx. pose proof (h_tile _ _ _ Hp) as T.
  unfold block_trim_free. wp_step.
  eapply wp_block_is_free; [apply Hp|apply (tile_geo _ _ _ T)|done|]. wp_steps; [done|].
  eapply wp_mono; [eapply (heap_block_can_split _ _ _ _ _ _ Hp Hb); lia|]. intros ? ? [-> ->].
  apply wp_when; [intros Hcan%Z.leb_le|intros Hcan%Z.leb_gt].
  2: { split; [done|]. exists H, x. split_and!; try done; lia. }
  destruct (t_next _ _ _ T _ _ Hb ltac:(lia)) as (y & Hy & _).
  wp_step. eapply wp_mono; [apply (heap_split_free Hp Hb Hy (proj1 Hs) Hal Hcan Hf); set_solver|].
  intros r s1 Hw. wp_step. eapply wp_mono; [exact Hw|]. intros ? s2 Hw2.
  wp_step. eapply wp_mono; [exact Hw2|]. intros _ s3 (-> & En & Hp' & K).
  pose proof (alloc_split Hp Hb Hy (proj1 Hs) Hcan Hf) as Ha.
  pose proof (split_order (b := b) (size := size) (x := x) ltac:(lia) ltac:(lia)) as Ho.
  set (r := b + 4 + size) in *. set (n := nxt b x) in *. set (H' := split_at size b r n x y H) in *.
  assert (H' !! r = Some (remainder size x)) as Hr' by (apply lookup_split_at; [lia..|auto]).
  eapply wp_mono; [eapply (heap_block_insert Hp' r _ Hr'); [done|set_solver|..]|].
  - intros z Hz Hfz. exfalso. replace (nxt r (remainder size x)) with n in Hz
      by (unfold n, r, nxt; simpl; lia).
    unfold H' in Hz. apply lookup_split_at in Hz as [[? _]|[[? _]|[[_ ->]|(_ & _ & ? & _)]]]; try lia.
    simpl in Hfz. rewrite (Hny y Hy) in Hfz. done.
  - intros p z Hz Hfz Hpn. unfold H' in Hz.
    apply lookup_split_at in Hz as [[-> ->]|[[-> ->]|[[-> ->]|(? & ? & ? & Hz)]]]; [| | | |lia..].
    + set_solver by lia.
    + unfold nxt in Hpn. simpl in Hpn. unfold r in Hpn. lia.
    + change (n + 4 + sz y = r) in Hpn. pose proof (tile_sz T _ _ Hy). lia.
    + destruct (tile_sep2 T _ _ _ _ Hz Hb ltac:(done)) as [|Hnp]; [lia|]. change (n ≤ p) in Hnp.
      pose proof (tile_sz T _ _ Hz). unfold nxt in Hpn. lia.
  - intros _ s4 (En4 & Hp4 & K4 & _). split; [congruence|]. exists H', (with_sz size x).
    assert (({[r]} ∪ {[b]}) ∖ {[r]} = {[b]} :> gset Z) as EP.
    { apply set_eq. intros c. rewrite elem_of_difference, elem_of_union, !elem_of_singleton. lia. }
    rewrite EP in Hp4. split_and!; try done.
    + eapply keeps_same; [|done]. eapply keeps_trans; [exact K|exact K4|done].
    + apply lookup_split_at; [lia..|auto].
    + simpl. lia.
Qed.

Lemma heap_prepare_used H s b x size :
  heap {[b]} H s → H !! b = Some x → fr x = true →
  (∀ y, H !! nxt b x = Some y → fr y = false) →
  12 ≤ size < 2 ^ 30 → size mod 4 = 0 → size ≤ sz x →
  wp (block_prepare_used b size) s (λ p s', p = b + 8 ∧ null s' = null s ∧ ∃ H' n,
    heap ∅ H' s' ∧ keeps H s s' ∧ size ≤ n < size + 16
    ∧ ∀ c m, alloc H' c m ↔ alloc H c m ∨ c = b ∧ m = n).
Proof.
  intros Hp Hb Hf Hny Hs Hal Hsx. pose proof (h_tile _ _ _ Hp) as T.
  pose proof (t_ok _ _ _ T _ _ Hb) as Ok. unfold block_ok in Ok.
  unfold block_prepare_used.
  assert (testz b = true) as -> by (apply testz_true; lia).
  wp_steps; [apply testz_true; lia|].
  eapply wp_mono; [by eapply (heap_trim_free _ _ _ _ _ Hp Hb)|].
  intros _ s1 (En1 & H1 & x1 & Hp1 & K1 & Ha1 & Hb1 & Hf1 & Hs1). wp_step.
  pose proof (h_tile _ _ _ Hp1) as T1.
  destruct (t_next _ _ _ T1 _ _ Hb1 ltac:(lia)) as (y1 & Hy1 & _).
  eapply wp_mono; [eapply (heap_mark_as_used Hp1 Hb1); [lia|done|done|set_solver]|].
  intros _ s2 (En2 & Hp2 & Ho). wp_step. split.
  { unfold block_to_ptr. apply wrapu_small. change block_start_offset with 8. lia. }
  split; [congruence|]. exists (set_fr false b (nxt b x1) x1 y1 H1), (sz x1).
  rewrite difference_diag_L in Hp2. split_and!; try done; try lia.
  - eapply keeps_trans; [exact K1| |done]. eapply keeps_same; [|exact Ha1].
    intros c z a Hc Hfz Ha. apply Ho. eapply (mark_area_payload Hp1 Hb1); try done; [lia|]. congruence.
  - intros c m. rewrite (alloc_set_fr_false Hp1 Hb1 ltac:(lia) Hy1 c m), (Ha1 c m). split; [tauto|].
    intros [Hc|]; [|tauto]. left. split; [done|]. intros ->.
    destruct Hc as (z & Hz & ? & _). congruence.
Qed.

(** ** Requests *)

Lemma adjust_request_spec s size k :
  0 ≤ k < 32 → 0 ≤ size → size + 2 ^ k ≤ 2 ^ 32 →
  adjust_request_size size (2 ^ k) s =
    Ok (if (size =? 0) || (2 ^ 30 <=? round_up size k) then 0 else Z.max (round_up size k) 12, s).
Proof.
  intros Hk Hs Hb. unfold adjust_request_size, testz. destruct (Z.eqb_spec size 0) as [->|E]; [done|].
  unfold align_up, mbind, M_bind, assert_. simpl negb. cbv iota.
  rewrite is_pow2_pow2 by lia. unfold mret, M_ret. rewrite align_mask_round by lia.
  change block_size_max with (2 ^ 30). change block_size_min with 12.
  simpl orb. by destruct (Z.ltb_spec (round_up size k) (2 ^ 30)), (Z.leb_spec (2 ^ 30) (round_up size k)); try lia.
Qed.

(** The size a request is rounded to; 0 for a request that is refused. *)
Definition request (size : Z) : Z :=
  if (size =? 0) || (2 ^ 30 <=? round_up size 2) then 0 else Z.max (round_up size 2) 12.

Lemma request_spec size : 0 ≤ size → request size ≠ 0 →
  0 < size ∧ size ≤ request size ∧ 12 ≤ request size < 2 ^ 30 ∧ request size mod 4 = 0
  ∧ request size < size + 12.
Proof.
  intros Hs. unfold request. pose proof (round_up_spec size 2 ltac:(lia)) as [Hr Hm].
  change (2 ^ 2) with 4 in *. destruct (Z.eqb_spec size 0), (Z.leb_spec (2 ^ 30) (round_up size 2)); simpl; try lia.
  intros _. destruct (Z.max_spec (round_up size 2) 12) as [[? ->]|[? ->]]; split_and!; lia || done.
Qed.

(** A refused request is empty or larger than any block. *)
Lemma request_zero size : 0 ≤ size → request size = 0 → size = 0 ∨ 2 ^ 30 - 4 < size.
Proof.
  intros Hs. unfold request. pose proof (round_up_spec size 2 ltac:(lia)) as [Hr Hm].
  change (2 ^ 2) with 4 in *. destruct (Z.eqb_spec size 0), (Z.leb_spec (2 ^ 30) (round_up size 2)); simpl; lia.
Qed.

(** ** Allocation *)

Lemma next_not_free H s b x : heap ∅ H s → H !! b = Some x → fr x = true →
  ∀ y, H !! nxt b x = Some y → fr y = false.
Proof.
  intros Hp Hb Hf y Hy. pose proof (h_tile _ _ _ Hp) as T. pose proof (tile_free_sz T _ _ Hb Hf).
  destruct (t_next _ _ _ T _ _ Hb ltac:(lia)) as (z & Hz & _ & _ & Hadj). simplify_eq.
  destruct (fr y); [|done]. destruct Hadj; [done..|set_solver|set_solver].
Qed.

Lemma heap_malloc H s size :
  heap ∅ H s → 0 ≤ size ≤ 2 ^ 32 - 4 →
  wp (tlsf_malloc size) s (λ p s',
    p = 0 ∧ s' = s ∧ (request size = 0 ∨ exhausted H (request size))
    ∨ ∃ b H' n, p = b + 8 ∧ null s' = null s ∧ heap ∅ H' s' ∧ keeps H s s'
        ∧ request size ≠ 0 ∧ request size ≤ n < request size + 16
        ∧ (∀ m, ¬ alloc H b m) ∧ ∀ c m, alloc H' c m ↔ alloc H c m ∨ c = b ∧ m = n).
Proof.
  intros Hp Hs. unfold tlsf_malloc. wp_step. unfold wp at 1. change ALIGN_SIZE with (2 ^ 2).
  rewrite adjust_request_spec by lia. fold (request size). wp_step.
  destruct (decide (request size = 0)) as [E|E].
  { rewrite E. unfold wp at 1. rewrite block_locate_free_0. left. auto. }
  destruct (request_spec size ltac:(lia) E) as (? & ? & ? & ? & ?).
  eapply wp_mono; [by eapply (heap_locate_free H s (request size) Hp)|].
  intros b s1 [(-> & -> & Hex)|(x & Hb & Hf & Hsx & En & Hp1 & K)]; [left; auto|].
  eapply wp_mono; [by eapply (heap_prepare_used _ _ _ _ _ Hp1 Hb Hf); [by eapply next_not_free|..]|].
  intros p s2 (-> & En2 & H' & n & Hp2 & K2 & Hn & Ha). right. exists b, H', n.
  split_and!; try done; try congruence; try lia.
  - by eapply keeps_trans.
  - intros m (z & Hz & Hfz & _). congruence.
Qed.

(** ** Release *)

(** Neither neighbour of [b] is free. *)
Definition prev_clear (H : blkmap) (b : Z) : Prop :=
  ∀ d z, H !! d = Some z → fr z = true → nxt d z ≠ b.
Definition next_clear (H : blkmap) (b : Z) (x : blk) : Prop :=
  ∀ y, H !! nxt b x = Some y → fr y = false.

Lemma prev_clear_absorb N P p b x y z H :
  tile N P H → H !! p = Some x → b = nxt p x → H !! b = Some y → H !! nxt b y = Some z →
  fr x = true → fr y = true → prev_clear H p → prev_clear (absorb true p b (nxt b y) x y z H) p.
Proof.
  intros T Hp Hpb Hb Hz Fx Fy Hc d w Hd Hf E.
  pose proof (tile_free_sz T _ _ Hp Fx). pose proof (tile_free_sz T _ _ Hb Fy).
  pose proof (tile_sz T _ _ Hz).
  assert (p < b < nxt b y) by (unfold nxt in *; lia).
  apply lookup_absorb in Hd as [[-> ->]|[[-> ->]|(_ & _ & _ & Hd)]]; [| | |lia..].
  - unfold nxt in E. simpl in E. lia.
  - unfold nxt at 1 in E. simpl in E. lia.
  - by eapply Hc.
Qed.

Lemma next_clear_absorb N P p b x y z H :
  tile N P H → H !! p = Some x → b = nxt p x → H !! b = Some y → H !! nxt b y = Some z →
  fr x = true → fr y = true → fr z = false →
  next_clear (absorb true p b (nxt b y) x y z H) p (Blk (sz x + 4 + sz y) true (pf x) (lim x)).
Proof.
  intros T Hp Hpb Hb Hz Fx Fy Fz w Hw.
  pose proof (tile_free_sz T _ _ Hp Fx). pose proof (tile_free_sz T _ _ Hb Fy).
  replace (nxt p _) with (nxt b y) in Hw by (unfold nxt in *; simpl; lia).
  assert (p < b < nxt b y) by (unfold nxt in *; lia).
  apply lookup_absorb in Hw as [[? _]|[[_ ->]|(_ & ? & _)]]; [lia|done|done|lia..].
Qed.

(** Taking the free block [b] off its list and absorbing it into its pending
    predecessor [p]. *)
Lemma heap_remove_absorb H s p b x y q r :
  heap {[q]} H s → H !! p = Some x → b = nxt p x → H !! b = Some y → fr x = true → fr y = true →
  (q = p ∧ r = b ∨ q = b ∧ r = p) →
  wp (block_remove r) s (λ _ s1, wp (block_absorb p b) s1 (λ p' s', p' = p ∧ null s' = null s ∧ ∃ z,
    H !! nxt b y = Some z ∧
    let H' := absorb true p b (nxt b y) x y z H in
    heap {[p]} H' s' ∧ same_alloc H H' ∧ keeps H s s')).
Proof.
  intros Hp Hx Hpb Hy Fx Fy Hqr. pose proof (h_tile _ _ _ Hp) as T.
  pose proof (tile_free_sz T _ _ Hx Fx). pose proof (tile_free_sz T _ _ Hy Fy).
  assert (p ≠ b) by (unfold nxt in Hpb; lia).
  destruct (t_next _ _ _ T _ _ Hy ltac:(lia)) as (z & Hz & _).
  assert (∃ w, H !! r = Some w ∧ fr w = true ∧ r ∉ ({[q]} : gset Z) ∧ {[r]} ∪ {[q]} = ({[p; b]} : gset Z))
    as (w & Hw & Fw & Hr & EP).
  { destruct Hqr as [[-> ->]|[-> ->]]; [exists y|exists x]; (split_and!; [done..|set_solver|set_solver]). }
  eapply wp_mono; [by eapply (heap_block_remove Hp r w)|]. intros _ s1 (En & Hp1 & K1). rewrite EP in Hp1.
  eapply wp_mono; [by apply (heap_absorb Hp1 Hx Hpb Hy Hz Fx Fy); set_solver|].
  intros ? s2 (-> & En2 & Hp2 & K2). split; [done|]. split; [congruence|]. exists z. split; [done|].
  assert ({[p; b]} ∖ {[b]} = ({[p]} : gset Z)) as EP2.
  { apply set_eq. intros c. rewrite elem_of_difference, elem_of_union, !elem_of_singleton. lia. }
  rewrite EP2 in Hp2. pose proof (alloc_absorb Hp1 Hx Hpb Hy Hz Fx Fy) as Ha.
  split_and!; try done. eapply keeps_trans; [exact K1| |done]. by eapply keeps_same.
Qed.

(** How merging the free block [b] with its predecessor changes its extent:
    the block [q] that results starts at the predecessor if that one is free, and
    ends where [b] did; the block after it keeps its size and its mark. *)
Definition merged_prev (H H' : blkmap) (b : Z) (x : blk) (q : Z) (x' : blk) : Prop :=
  nxt q x' = nxt b x ∧
  (if pf x then ∃ z, H !! q = Some z ∧ fr z = true ∧ nxt q z = b else q = b) ∧
  ∀ y, H !! nxt b x = Some y → ∃ y', H' !! nxt b x = Some y' ∧ fr y' = fr y ∧ sz y' = sz y.

Lemma merged_prev_absorb N P p b x y z H :
  tile N P H → H !! p = Some x → b = nxt p x → H !! b = Some y → H !! nxt b y = Some z →
  fr x = true → fr y = true → pf y = true →
  merged_prev H (absorb true p b (nxt b y) x y z H) b y p (Blk (sz x + 4 + sz y) true (pf x) (lim x)).
Proof.
  intros T Hp Hpb Hb Hz Fx Fy Py. unfold merged_prev. rewrite Py.
  pose proof (tile_free_sz T _ _ Hp Fx). pose proof (tile_free_sz T _ _ Hb Fy).
  split_and!; [unfold nxt in *; simpl; lia|by eauto|].
  intros w Hw. rewrite Hz in Hw. simplify_eq. exists (with_pf true w). split; [|done].
  unfold absorb. rewrite lookup_insert_ne by (unfold nxt in *; lia). by rewrite lookup_insert_eq.
Qed.

Lemma heap_merge_prev H s b x :
  heap {[b]} H s → H !! b = Some x → fr x = true →
  wp (block_merge_prev b) s (λ q s', null s' = null s ∧ ∃ H' x',
    heap {[q]} H' s' ∧ H' !! q = Some x' ∧ fr x' = true ∧ prev_clear H' q
    ∧ same_alloc H H' ∧ keeps H s s' ∧ merged_prev H H' b x q x').
Proof.
  intros Hp Hb Fx. pose proof (h_tile _ _ _ Hp) as T. pose proof (tile_geo _ _ _ T) as Hg.
  unfold block_merge_prev. wp_step. eapply (wp_block_is_prev_free _ H); [apply Hp|done..|].
  destruct (pf x) eqn:Hpf.
  2: { wp_step. split; [done|]. exists H, x. split_and!; [done..| |done|done|].
    2: { unfold merged_prev. rewrite Hpf. split_and!; [done..|by eauto]. }
    intros d z Hd Hfd E. pose proof (tile_free_sz T _ _ Hd Hfd).
    destruct (t_next _ _ _ T _ _ Hd ltac:(lia)) as (y & Hy & Epf & _). rewrite E in Hy. simplify_eq. congruence. }
  destruct (t_prev _ _ _ T _ _ Hb Hpf) as (p & z & Hpz & Fz & E).
  pose proof (tile_free_sz T _ _ Hpz Fz).
  wp_step. eapply (wp_block_prev _ H); [apply Hp|done|done|done| |].
  { rewrite <- E. by apply (h_link _ _ _ Hp). }
  wp_steps. { apply testz_true. apply (t_ok _ _ _ T) in Hpz. unfold block_ok in Hpz. lia. }
  eapply (wp_block_is_free _ H); [apply Hp|done..|]. wp_steps; [done|].
  eapply wp_mono; [eapply (heap_remove_absorb H s p b z x b p Hp); try done; auto|].
  intros ? s1 Hw. eapply wp_mono; [exact Hw|]. intros ? s2 (-> & En & y & Hy & Hp2 & Ha & K).
  split; [done|]. eexists _, (Blk (sz z + 4 + sz x) true (pf z) (lim z)). split_and!; try done.
  3: { by eapply merged_prev_absorb. }
  - unfold absorb. by rewrite lookup_insert_eq.
  - eapply prev_clear_absorb; try done. intros d w Hd Hfd E'.
    pose proof (tile_free_sz T _ _ Hd Hfd).
    destruct (t_next _ _ _ T _ _ Hd ltac:(lia)) as (y' & Hy' & _ & _ & Hadj). rewrite E' in *. simplify_eq.
    unfold nxt in *. destruct Hadj; [done..|set_unfold; lia|set_unfold; lia].
Qed.

Lemma heap_merge_next H s b x :
  heap {[b]} H s → H !! b = Some x → fr x = true → prev_clear H b →
  wp (block_merge_next b) s (λ q s', q = b ∧ null s' = null s ∧ ∃ H' x',
    heap {[b]} H' s' ∧ H' !! b = Some x' ∧ fr x' = true ∧ prev_clear H' b ∧ next_clear H' b x'
    ∧ same_alloc H H' ∧ keeps H s s'
    ∧ ∀ y, H !! nxt b x = Some y → nxt b x' = if fr y then nxt (nxt b x) y else nxt b x).
Proof.
  intros Hp Hb Fx Hpc. pose proof (h_tile _ _ _ Hp) as T. pose proof (tile_geo _ _ _ T) as Hg.
  pose proof (tile_free_sz T _ _ Hb Fx). pose proof (t_ok _ _ _ T _ _ Hb) as Ok. unfold block_ok in Ok.
  destruct (t_next _ _ _ T _ _ Hb ltac:(lia)) as (y & Hy & _).
  unfold block_merge_next. wp_step. eapply (wp_block_next _ H); [apply Hp|done..|lia|lia|lia|].
  wp_steps. { apply testz_true. unfold nxt. lia. }
  eapply (wp_block_is_free _ H); [apply Hp|done..|]. destruct (fr y) eqn:Fy.
  2: { wp_step. split_and!; [done..|]. exists H, x. split_and!; try done; intros w Hw; [congruence|].
    rewrite Hy in Hw. simplify_eq. by rewrite Fy. }
  wp_step. eapply (wp_block_is_last _ H); [apply Hp|done..|]. wp_steps.
  { destruct (Z.eqb_spec (sz x) 0); [lia|done]. }
  eapply wp_mono; [eapply (heap_remove_absorb H s b (nxt b x) x y b (nxt b x) Hp); try done; auto|].
  intros ? s1 Hw. eapply wp_mono; [exact Hw|]. intros ? s2 (-> & En & z & Hz & Hp2 & Ha & K).
  split_and!; [done..|]. eexists _, (Blk (sz x + 4 + sz y) true (pf x) (lim x)). split_and!; try done.
  - unfold absorb. by rewrite lookup_insert_eq.
  - by eapply prev_clear_absorb.
  - eapply next_clear_absorb; try done. pose proof (tile_free_sz T _ _ Hy Fy).
    destruct (t_next _ _ _ T _ _ Hy ltac:(lia)) as (z' & Hz' & _ & _ & Hadj). simplify_eq.
    destruct (fr z); [|done]. unfold nxt in *. destruct Hadj; [done..|set_unfold; lia|set_unfold; lia].
  - intros w Hyw. rewrite Hy in Hyw. simplify_eq. rewrite Fy. unfold nxt. simpl. lia.
Qed.

Lemma heap_insert_last H s b x :
  heap {[b]} H s → H !! b = Some x → fr x = true → prev_clear H b → next_clear H b x →
  wp (block_insert b) s (λ _ s', null s' = null s ∧ heap ∅ H s' ∧ keeps H s s' ∧ indexed (ctl s') (sz x) b).
Proof.
  intros Hp Hb Fx Hpc Hnc.
  eapply wp_mono; [eapply (heap_block_insert Hp b x); [done|done|set_solver| |]|].
  - intros y Hy Fy. rewrite (Hnc y Hy) in Fy. done.
  - intros p z Hz Fz E. by destruct (Hpc p z).
  - intros _ s' (? & ? & ? & ?). by rewrite difference_diag_L in *.
Qed.

(** What [tlsf_free] of the block [b] leaves, if [x] is its header and [y] the
    one of the next block: a free block [q] that starts at [b], or at its
    predecessor if that one is free, ends after the next block if that one is
    free, has no free neighbour, and is the first of its list. *)
Record released (H : blkmap) (b : Z) (x y : blk) (H' : blkmap) (c : control_t) (q : Z) (x' : blk) : Prop := MkReleased {
  re_block : H' !! q = Some x';
  re_free : fr x' = true;
  re_prev : pf x' = false;
  re_next : next_clear H' q x';
  re_start : if pf x then ∃ z, H !! q = Some z ∧ fr z = true ∧ nxt q z = b else q = b;
  re_end : nxt q x' = if fr y then nxt (nxt b x) y else nxt b x;
  re_index : indexed c (sz x') q;
}.

Lemma prev_clear_pf N P H b x : tile N P H → H !! b = Some x → prev_clear H b → pf x = false.
Proof.
  intros T Hb Hpc. destruct (pf x) eqn:E; [|done].
  destruct (t_prev _ _ _ T _ _ Hb E) as (p & z & Hz & Fz & En). by destruct (Hpc p z).
Qed.

Lemma heap_release H s b x y :
  heap ∅ H s → H !! b = Some x → fr x = false → sz x ≠ 0 → H !! nxt b x = Some y →
  wp (tlsf_free (b + 8)) s (λ _ s', null s' = null s ∧ ∃ H' q x', heap ∅ H' s'
    ∧ (∀ c m, alloc H' c m ↔ alloc H c m ∧ c ≠ b) ∧ keeps H' s s' ∧ released H b x y H' (ctl s') q x').
Proof.
  intros Hp Hb Fx Hx Hy. pose proof (h_tile _ _ _ Hp) as T.
  pose proof (t_ok _ _ _ T _ _ Hb) as Ok. unfold block_ok in Ok.
  unfold tlsf_free. assert (testz (b + 8) = true) as -> by (apply testz_true; lia). unfold when.
  assert (block_from_ptr (b + 8) = b) as ->.
  { unfold block_from_ptr. change block_start_offset with 8. rewrite wrapu_small; lia. }
  wp_step. eapply wp_block_is_free; [apply Hp|apply (tile_geo _ _ _ T)|done|]. wp_steps; [by rewrite Fx|].
  eapply wp_mono; [by eapply (heap_mark_as_free Hp Hb Hx Hy)|]. intros _ s1 (En1 & Hp1 & K1).
  rewrite (right_id_L ∅ (∪)) in Hp1. assert (nxt b x ≠ b) as Hne by (unfold nxt; lia).
  pose proof (alloc_set_fr_true Hp Hb Hx Hy) as Ha1. set (H1 := set_fr true b (nxt b x) x y H) in *.
  wp_step. eapply wp_mono; [eapply (heap_merge_prev H1 s1 b (with_fr true x) Hp1); [|done]|].
  { unfold H1, set_fr. by rewrite lookup_insert_eq. }
  intros q s2 (En2 & H2 & x2 & Hp2 & Hb2 & F2 & Hpc2 & Ha2 & K2 & Enx & Hst & Hnx).
  change (nxt b (with_fr true x)) with (nxt b x) in *. change (pf (with_fr true x)) with (pf x) in *.
  wp_step. eapply wp_mono; [by eapply (heap_merge_next H2 s2 q x2)|].
  intros ? s3 (-> & En3 & H3 & x3 & Hp3 & Hb3 & F3 & Hpc3 & Hnc3 & Ha3 & K3 & Hend).
  eapply wp_mono; [by eapply (heap_insert_last H3 s3 q x3)|]. intros _ s4 (En4 & Hp4 & K4 & Hix).
  split; [congruence|]. exists H3, q, x3. split; [done|].
  assert (∀ c m, alloc H3 c m ↔ alloc H1 c m) as Ha13 by (intros c m; by rewrite (Ha3 c m), (Ha2 c m)).
  split_and!; [intros c m; by rewrite Ha13, Ha1| |].
  - eapply keeps_trans; [exact K1| |intros c m Hc; by apply Ha13].
    eapply keeps_trans; [exact K2| |intros c m Hc; by apply Ha13].
    eapply keeps_trans; [exact K3|exact K4|intros c m Hc; by apply Ha3].
  - destruct (Hnx (with_pf true y)) as (y' & Hy' & Fy & Sy).
    { unfold H1, set_fr. rewrite lookup_insert_ne by done. by rewrite lookup_insert_eq. }
    split; try done; [by eapply prev_clear_pf; [apply Hp3|..]| |].
    + destruct (pf x); [|done]. destruct Hst as (z & Hz & Fz & Ez).
      apply set_fr_old in Hz as (z0 & Hz & Es & _ & Ef & _); [|done..].
      rewrite decide_False in Ef by (intros ->; pose proof (tile_sz T _ _ Hz); unfold nxt in Ez; lia).
      exists z0. split_and!; [done|congruence|]. unfold nxt in *. by rewrite <- Es.
    + rewrite Enx in Hend. rewrite (Hend _ Hy'), Fy. unfold nxt. simpl in *. by rewrite Sy.
Qed.

Lemma heap_free H s b n :
  heap ∅ H s → alloc H b n →
  wp (tlsf_free (b + 8)) s (λ _ s', null s' = null s ∧ ∃ H', heap ∅ H' s'
    ∧ (∀ c m, alloc H' c m ↔ alloc H c m ∧ c ≠ b) ∧ keeps H' s s').
Proof.
  intros Hp (x & Hb & Fx & <- & Hx). destruct (t_next _ _ _ (h_tile _ _ _ Hp) _ _ Hb Hx) as (y & Hy & _).
  eapply wp_mono; [by eapply (heap_release H s b x y)|]. intros _ s' (? & H' & _ & _ & ? & ? & ? & _). eauto 10.
Qed.
