(* ===== verification/TlsfPool.v ===== *)
(** * TLSF: creation and pools

    [tlsf_create] establishes the heap invariant on an empty heap and
    [tlsf_add_pool] extends any heap by a region of memory the heap does not
    use yet. *)

From S2P Require Import Prelude Memory Tlsf TlsfMap TlsfHeap TlsfWp TlsfLists TlsfAlloc TlsfApi.

(** ** Creation *)

Lemma shape_construct N : shape (MkControl N 0 (replicate (Z.to_nat FL_INDEX_COUNT) 0)
  (replicate (Z.to_nat FL_INDEX_COUNT) (replicate (Z.to_nat SL_INDEX_COUNT) N))).
Proof. split_and!; simpl; [done|done|]. by repeat constructor. Qed.

Lemma heap_construct s : addr_ok s →
  wp control_construct s (λ _ s', null s' = null s ∧ heap ∅ ∅ s'
    ∧ eq_off (λ a, null s + 8 ≤ a < null s + 16) (tmem s) (tmem s')).
Proof.
  intros Ha. unfold control_construct, block_null, wr. wp_steps. split; [done|]. split.
  - split; [done|..].
    + split; try done; set_solver.
    + done.
    + done.
    + exists (λ _ _, []). split; [|done|constructor|].
      * split; [apply shape_construct|..]; try done.
        -- intros fl sl [Hf Hg]. unfold head_at. cbn [blocks ctl set_blocks].
           rewrite lookup_total_replicate_2 by lia. rewrite lookup_total_replicate_2 by lia. done.
        -- intros fl sl [Hf Hg]. unfold sl_at. cbn [sl_bitmap ctl set_blocks set_sl_bitmap]. rewrite lookup_total_replicate_2 by lia.
           apply Z.testbit_0_l.
        -- intros fl Hf. unfold sl_at. cbn [sl_bitmap ctl set_blocks set_sl_bitmap]. by rewrite lookup_total_replicate_2 by lia.
        -- intros fl Hf. unfold sl_at. cbn [sl_bitmap ctl set_blocks set_sl_bitmap]. by rewrite lookup_total_replicate_2, Z.testbit_0_l by lia.
      * intros fl sl b _. split; [by intros ?%elem_of_nil|]. intros (_ & x & Hx & _). done.
  - simpl. eapply eq_off_trans; [apply eq_off_store32..|]. unfold next_free, prev_free. simpl. lia.
Qed.

(** ** Adding a pool *)

Lemma aligned_rem p : 0 ≤ p < 2 ^ 32 → (Z.rem (i32 p) ALIGN_SIZE =? 0) = (p mod 4 =? 0).
Proof.
  intros Hp. change ALIGN_SIZE with 4. unfold wraps.
  assert (∀ z, (Z.rem z 4 =? 0) = (z mod 4 =? 0)) as Hrem.
  { intros z. apply eq_bool_prop_intro. rewrite !Is_true_true, !Z.eqb_eq.
    rewrite Z.rem_divide, Z.mod_divide by lia. done. }
  rewrite Hrem. f_equal. Z.div_mod_to_equations. lia.
Qed.

Lemma align_down_4 s x : 0 ≤ x < 2 ^ 32 → align_down x ALIGN_SIZE s = Ok (4 * (x / 4), s).
Proof.
  intros Hx. unfold align_down, mbind, M_bind, assert_. change (is_pow2 ALIGN_SIZE) with true.
  unfold mret, M_ret. change (u32 (ALIGN_SIZE - 1)) with (Z.ones 2). rewrite Z.land_ones by lia.
  do 2 f_equal. rewrite wrapu_small; change (2 ^ 2) with 4; Z.div_mod_to_equations; lia.
Qed.

(** The blocks of a fresh pool at [pmem]: one free block and the sentinel. *)
Definition pool_block (pb lim : Z) : blk := Blk pb true false lim.
Definition pool_sentinel (lim : Z) : blk := Blk 0 false true lim.
Definition with_pool (pmem pb : Z) (H : blkmap) : blkmap :=
  <[pmem - 4 := pool_block pb (pmem + 8 + pb)]>
    (<[pmem + pb := pool_sentinel (pmem + 8 + pb)]> H).

(** The region is aligned, clear of the heap and of the control structure. *)
Record pool_ok (N : Z) (H : blkmap) (pmem pb : Z) : Prop := MkPoolOk {
  po_al : pmem mod 4 = 0;
  po_al' : pb mod 4 = 0;
  po_lo : 4 < pmem;
  po_hi : pmem + 8 + pb ≤ 2 ^ 32;
  po_size : 12 ≤ pb < 2 ^ 30;
  po_ctl : pmem + 8 + pb ≤ N ∨ N + tlsf_size ≤ pmem;
  po_clear b x : H !! b = Some x → b + 8 + sz x ≤ pmem ∨ pmem + 8 + pb ≤ b + 4;
}.

Section Pool.
Context {H : blkmap} {s : tlsf_state} (Hp : heap ∅ H s) {pmem pb : Z} (Ho : pool_ok (null s) H pmem pb).

Let T := h_tile _ _ _ Hp.
Let b := pmem - 4.
Let n := pmem + pb.
Let H' := with_pool pmem pb H.
Let xb := pool_block pb (pmem + 8 + pb).
Let xn := pool_sentinel (pmem + 8 + pb).

Lemma pool_order : 0 < b ∧ b + 16 ≤ n ∧ n + 8 ≤ 2 ^ 32.
Proof. destruct Ho. unfold b, n. lia. Qed.

Lemma pool_old c z : H !! c = Some z → nxt c z ≤ b ∨ n + 4 ≤ c.
Proof. intros Hc. pose proof (po_clear _ _ _ _ Ho _ _ Hc). unfold nxt, b, n. lia. Qed.

Lemma pool_lookup c z : H' !! c = Some z ↔ c = b ∧ z = xb ∨ c = n ∧ z = xn ∨ c ≠ b ∧ c ≠ n ∧ H !! c = Some z.
Proof.
  pose proof pool_order. unfold H', with_pool. rewrite !lookup_insert_Some. fold b n xb xn.
  split; intros; destruct_and?; naive_solver lia.
Qed.

Lemma pool_fresh : H !! b = None ∧ H !! n = None.
Proof.
  pose proof pool_order.
  split; (destruct (H !! _) as [z|] eqn:E; [exfalso|done]);
    pose proof (tile_sz T _ _ E); destruct (pool_old _ _ E); unfold nxt in *; lia.
Qed.

Lemma pool_tile P : (∀ c, c ∈ P → c = b) → tile (null s) P H'.
Proof.
  intros HP. pose proof pool_order as Hord. destruct Ho. split.
  - intros c z Hc. apply pool_lookup in Hc as [[-> ->]|[[-> ->]|(_ & _ & Hc)]].
    + unfold block_ok, b. simpl. split_and!; try (Z.div_mod_to_equations; lia); lia.
    + unfold block_ok, n. simpl. split_and!; try (Z.div_mod_to_equations; lia); lia.
    + by apply (t_ok _ _ _ T).
  - intros c d z w Hc Hd Hlt.
    apply pool_lookup in Hc as [[-> ->]|[[-> ->]|(? & ? & Hc)]];
    apply pool_lookup in Hd as [[-> ->]|[[-> ->]|(? & ? & Hd)]]; unfold nxt, xb, xn; simpl; try lia.
    + destruct (pool_old _ _ Hd); pose proof (tile_sz T _ _ Hd); unfold nxt, b, n in *; lia.
    + destruct (pool_old _ _ Hd); pose proof (tile_sz T _ _ Hd); unfold nxt, b, n in *; lia.
    + destruct (pool_old _ _ Hc); pose proof (tile_sz T _ _ Hc); unfold nxt, b, n in *; lia.
    + destruct (pool_old _ _ Hc); pose proof (tile_sz T _ _ Hc); unfold nxt, b, n in *; lia.
    + by eapply t_sep.
  - intros c z Hc Hz. apply pool_lookup in Hc as [[-> ->]|[[-> ->]|(? & ? & Hc)]]; [|done|].
    + exists xn. split_and!; try done. apply pool_lookup. right; left. split; [|done].
      unfold nxt, xb, b, n. simpl. lia.
    + destruct (t_next _ _ _ T _ _ Hc Hz) as (y & Hy & ? & ? & Hadj). exists y. split_and!; try done.
      * apply pool_lookup. destruct pool_fresh. right; right. split_and!; congruence.
      * intros Hf1 Hf2. destruct (Hadj Hf1 Hf2); set_solver.
  - intros c z Hc Hz. apply pool_lookup in Hc as [[-> ->]|[[-> ->]|(? & ? & Hc)]]; [done| |].
    + exists b, xb. split_and!; try done; [apply pool_lookup; auto|]. unfold nxt, xb, b, n. simpl. lia.
    + destruct (t_prev _ _ _ T _ _ Hc Hz) as (d & w & Hd & ? & ?). exists d, w. split_and!; try done.
      apply pool_lookup. destruct pool_fresh. right; right. split_and!; congruence.
  - intros c Hc. apply HP in Hc as ->. exists xb. split; [apply pool_lookup; auto|done].
Qed.

Lemma pool_free_in P c fl sl : (∀ d, d ∈ P ↔ d = b) →
  free_in P H' fl sl c ↔ free_in ∅ H fl sl c.
Proof.
  intros HP. destruct pool_fresh as [Hfb Hfn]. unfold free_in. split.
  - intros (HPc & z & Hc & Hf & E). apply pool_lookup in Hc as [[-> ->]|[[-> ->]|(? & ? & Hc)]].
    + by rewrite HP in HPc.
    + done.
    + split; [set_solver|by eauto].
  - intros (_ & z & Hc & Hf & E). rewrite HP. split; [congruence|]. exists z. split_and!; try done.
    apply pool_lookup. right; right. split_and!; congruence.
Qed.

(** The bytes [tlsf_add_pool] writes outside the links of the free lists. *)
Definition pool_area (a : Z) : Prop := b + 4 ≤ a < b + 8 ∨ n ≤ a < n + 8.

Lemma pool_area_clear c z a : H !! c = Some z → c + 4 ≤ a < c + 8 + sz z → ¬ pool_area a.
Proof.
  intros Hc Ha. pose proof pool_order. pose proof (po_clear _ _ _ _ Ho _ _ Hc). unfold pool_area, b, n in *. lia.
Qed.

(** Writing the header of the pool's block. *)
Lemma wp_pool_block Q :
  (∀ s1, ctl s1 = ctl s → hdr (tmem s1) (<[b := xb]> H) →
     eq_off (λ a, b + 4 ≤ a < b + 8) (tmem s) (tmem s1) → Q tt s1) →
  wp (block_set_size b pb) s (λ _ s1, wp (block_set_free b) s1 (λ _ s2,
    wp (block_set_prev_used b) s2 Q)).
Proof.
  intros HQ. destruct Ho as [Hal Hal' _ _ Hsz _ _].
  destruct (any_header (tmem s) (b + 4) (pmem + 8 + pb)) as (x0 & Hx0 & Ha0 & Hr0 & Hl0).
  assert (b mod 4 = 0) by (unfold b; Z.div_mod_to_equations; lia).
  pose proof (tile_geo _ _ _ T) as Hg. pose proof (h_hdr _ _ _ Hp) as Hh.
  assert (∀ x m, sz x mod 4 = 0 → 0 ≤ sz x < 2 ^ 32 → hdr m H →
    geo (<[b := x]> H) ∧ hdr (store32 m (b + 4) (hword x)) (<[b := x]> H)) as Hput.
  { intros x m Hx Hx' Hm. split; [by apply geo_insert|by apply hdr_insert]. }
  assert (∀ v m, hdr m H → hdr (store32 m (b + 4) v) H) as Hold.
  { intros v m Hm. eapply hdr_eq_off; [done|apply eq_off_store32|]. intros c z a Hc Ha.
    pose proof (pool_area_clear c z a Hc). pose proof (tile_sz T _ _ Hc). unfold pool_area in *. lia. }
  eapply (wp_block_set_size _ (<[b := x0]> H)); [by apply hdr_add|by apply geo_insert|apply lookup_insert_eq|done|lia|].
  eapply (wp_block_set_free _ (<[b := with_sz pb x0]> H)); [by apply Hput; simpl; auto with lia
    |by apply geo_insert; simpl; auto with lia|apply lookup_insert_eq|].
  eapply (wp_block_set_prev_used _ (<[b := with_fr true (with_sz pb x0)]> H)); [by apply Hput; simpl; auto with lia
    |by apply geo_insert; simpl; auto with lia|apply lookup_insert_eq|].
  apply HQ; [done| |].
  - assert (xb = with_pf false (with_fr true (with_sz pb x0))) as -> by (unfold xb, pool_block; by rewrite <- Hl0).
    apply Hput; simpl; auto with lia.
  - simpl. eapply eq_off_trans; [|apply eq_off_store32|].
    { eapply eq_off_trans; [apply eq_off_store32..|]. intros a Ha; exact Ha. }
    simpl. lia.
Qed.

(** Writing the header of the sentinel. *)
Lemma wp_pool_sentinel s1 Q :
  hdr (tmem s1) (<[b := xb]> H) →
  (∀ s2, ctl s2 = ctl s1 → hdr (tmem s2) H' →
     eq_off (λ a, n + 4 ≤ a < n + 8) (tmem s1) (tmem s2) → Q tt s2) →
  wp (block_set_size n 0) s1 (λ _ s1, wp (block_set_used n) s1 (λ _ s2,
    wp (block_set_prev_free n) s2 Q)).
Proof.
  intros Hh HQ. pose proof pool_order. destruct Ho as [Hal Hal' _ _ Hsz _ _].
  destruct (any_header (tmem s1) (n + 4) (pmem + 8 + pb)) as (x0 & Hx0 & Ha0 & Hr0 & Hl0).
  assert (b mod 4 = 0 ∧ n mod 4 = 0) as [Hb4 Hn4] by (unfold b, n; Z.div_mod_to_equations; lia).
  set (H1 := <[b := xb]> H) in *.
  assert (geo H1) as Hg by (apply geo_insert; [apply (tile_geo _ _ _ T)|done|done|simpl; lia]).
  assert (∀ x m, sz x = 0 → hdr m H1 →
    geo (<[n := x]> H1) ∧ hdr (store32 m (n + 4) (hword x)) (<[n := x]> H1)) as Hput.
  { intros x m Hx Hm. split; [apply geo_insert|apply hdr_insert]; rewrite ?Hx; done || lia. }
  assert (∀ v m, hdr m H1 → hdr (store32 m (n + 4) v) H1) as Hold.
  { intros v m Hm. eapply hdr_eq_off; [done|apply eq_off_store32|]. intros c z a Hc Ha. simpl.
    unfold H1 in Hc. map_cases; [lia|].
    pose proof (pool_area_clear c z a ltac:(done)). pose proof (tile_sz T c z ltac:(done)).
    unfold pool_area in *. lia. }
  eapply (wp_block_set_size _ (<[n := x0]> H1)); [by apply hdr_add|by apply geo_insert|apply lookup_insert_eq|done|lia|].
  eapply (wp_block_set_used _ (<[n := with_sz 0 x0]> H1)); [by apply Hput|by apply (Hput _ (tmem s1))|apply lookup_insert_eq|].
  eapply (wp_block_set_prev_free _ (<[n := with_fr false (with_sz 0 x0)]> H1));
    [apply Hput; simpl; auto|by apply (Hput _ (tmem s1))|apply lookup_insert_eq|].
  apply HQ; [done| |].
  - assert (H' = <[n := with_pf true (with_fr false (with_sz 0 x0))]> H1) as ->.
    { unfold H', with_pool, H1. fold b n xb. rewrite insert_insert_ne by lia.
      unfold pool_sentinel, with_pf, with_fr, with_sz. simpl. by rewrite Hl0. }
    apply Hput; simpl; auto.
  - simpl. eapply eq_off_trans; [|apply eq_off_store32|].
    { eapply eq_off_trans; [apply eq_off_store32..|]. intros a Ha; exact Ha. }
    simpl. lia.
Qed.

Lemma pool_keeps s' D : eq_off D (tmem s) (tmem s') →
  (∀ a, D a → pool_area a ∨ link_bytes (null s) H' a) → keeps H s s'.
Proof.
  intros Hd HD c z a Hc Hf Ha. apply Hd. intros [Hpa|Hl]%HD.
  - eapply (pool_area_clear c z a); [done|lia|done].
  - destruct pool_fresh. eapply (link_bytes_used (pool_tile ∅ ltac:(set_solver)) c z a); try done.
    apply pool_lookup. right; right. split_and!; congruence.
Qed.

Lemma heap_add_pool bytes : 8 ≤ bytes < 2 ^ 32 → pb = 4 * ((bytes - 8) / 4) →
  wp (tlsf_add_pool pmem bytes) s (λ p s', p = pmem ∧ null s' = null s ∧ heap ∅ H' s' ∧ keeps H s s').
Proof.
  intros Hby Epb. pose proof pool_order as Hord. pose proof Ho as [Hal Hal' Hlo Hhi Hsz Hctl _].
  pose proof (pool_tile ∅ ltac:(set_solver)) as T0.
  pose proof (pool_tile {[b]} ltac:(set_solver)) as T1. destruct (h_lists _ _ _ Hp) as [F L].
  assert (H' !! b = Some xb) as Hb' by (apply pool_lookup; auto).
  assert (∀ c z, H !! c = Some z → H' !! c = Some z) as Hin.
  { intros c z Hc. destruct pool_fresh. apply pool_lookup. right; right. split_and!; congruence. }
  unfold tlsf_add_pool. wp_step. unfold wp at 1. change tlsf_pool_overhead with 8.
  rewrite (wrapu_small 32) by lia. rewrite align_down_4 by lia. rewrite <- Epb.
  rewrite aligned_rem by lia. rewrite (proj2 (Z.eqb_eq _ _) Hal). simpl negb. cbv iota.
  change block_size_min with 12. change block_size_max with (2 ^ 30).
  destruct (Z.ltb_spec pb 12), (Z.ltb_spec (2 ^ 30) pb); try lia. simpl orb. cbv iota.
  assert (offset_to_block pmem (- block_header_overhead) = b) as ->.
  { unfold offset_to_block, b. change block_header_overhead with 4. rewrite wrapu_small; lia. }
  wp_step. eapply wp_mono; [apply (wp_pool_block (λ _ s1, ctl s1 = ctl s ∧
    hdr (tmem s1) (<[b := xb]> H) ∧ eq_off (λ a, b + 4 ≤ a < b + 8) (tmem s) (tmem s1))); by auto|].
  intros [] ? Hw. wp_step. eapply wp_mono; [exact Hw|]. clear Hw.
  intros [] ? Hw. wp_step. eapply wp_mono; [exact Hw|]. clear Hw. intros _ s1 (Ec1 & Hh1 & Ho1).
  assert (geo (<[b := xb]> H)) as Hg1.
  { apply geo_insert; [apply (tile_geo _ _ _ T)|apply (t_ok _ _ _ T0 _ _ Hb')|done|simpl; lia]. }
  assert (lists {[b]} H' F s1) as L1.
  { eapply lists_frame; [done..| |intros; apply pool_free_in; set_solver].
    intros c fl sl (_ & z & Hc & Hf & _). pose proof (tile_free_sz T _ _ Hc Hf).
    split; eapply eq_off_load32; try done; intros a Ha Hba;
      eapply (pool_area_clear c z a); try done; try lia; by left. }
  wp_step. unfold block_insert. wp_step.
  eapply (wp_block_size _ _ Hh1 Hg1); [apply lookup_insert_eq|]. simpl sz.
  destruct (mapping_insert pb) as [fl sl] eqn:E.
  assert (addr_ok s1 ∧ null s1 = null s) as [Ha1 En1] by (unfold addr_ok; rewrite Ec1; split; [apply Hp|done]).
  rewrite <- En1 in T1, T0.
  eapply wp_mono; [eapply (wp_insert_free_block T1 Ha1 L1 b xb fl sl Hb'); [done|set_solver|done]|].
  intros _ s2 (En2 & (F2 & L2 & _) & Ho2). rewrite difference_diag_L in L2.
  assert (hdr (tmem s2) (<[b := xb]> H)) as Hh2.
  { eapply hdr_eq_off; [done..|]. intros c z a Hc Ha. eapply (link_bytes_hdr T0 c z); [|done].
    map_cases; [done|by apply Hin]. }
  wp_step. eapply wp_mono; [apply (wp_block_link_next s2 _ b xb Hh2 Hg1)|].
  { split_and!; [apply lookup_insert_eq|simpl; lia|lia|unfold b; simpl; lia|].
    replace (nxt b xb) with n by (unfold nxt, b, n; simpl; lia). intros c z Hc. map_cases; [lia|].
    pose proof (tile_sz T c z ltac:(done)). destruct (pool_old c z); [done|unfold nxt in *|]; lia. }
  replace (nxt b xb) with n by (unfold nxt, b, n; simpl; lia).
  intros ? s3 (-> & Es3 & Hh3 & Hl3).
  wp_step. eapply wp_mono; [apply (wp_pool_sentinel s3 (λ _ s4, ctl s4 = ctl s3 ∧
    hdr (tmem s4) H' ∧ eq_off (λ a, n + 4 ≤ a < n + 8) (tmem s3) (tmem s4)) Hh3); by auto|].
  intros [] ? Hw. wp_step. eapply wp_mono; [exact Hw|]. clear Hw.
  intros [] ? Hw. wp_step. eapply wp_mono; [exact Hw|]. clear Hw. intros _ s4 (Ec4 & Hh4 & Ho4). wp_step.
  assert (ctl s4 = ctl s2) as Ec42 by (by rewrite Ec4, Es3).
  assert (eq_off (λ a, n ≤ a < n + 8) (tmem s2) (tmem s4)) as Ho24.
  { eapply eq_off_trans; [|exact Ho4|]; [rewrite Es3; apply eq_off_store32|]. simpl. lia. }
  assert (null s4 = null s) as En4 by (rewrite Ec42; congruence).
  rewrite En1 in Ho2, T0.
  assert (eq_off (λ a, pool_area a ∨ link_bytes (null s) H' a) (tmem s) (tmem s4)) as Hall.
  { eapply eq_off_trans; [exact Ho1| |].
    - eapply eq_off_trans; [exact Ho2|exact Ho24|]. intros a Ha; exact Ha.
    - unfold pool_area. tauto. }
  split_and!; [done..| |eapply pool_keeps; [done|auto]].
  split; rewrite ?En4; [|done|done| |].
  - unfold addr_ok. rewrite En4. apply Hp.
  - intros c z Hc Hf. apply pool_lookup in Hc as [[-> ->]|[[-> ->]|(? & ? & Hc)]]; [|done|].
    + replace (nxt b xb) with n by (unfold nxt, b, n; simpl; lia).
      rewrite (eq_off_load32 _ _ _ _ Ho4) by lia. done.
    + rewrite (eq_off_load32 _ _ _ _ Hall); [by apply (h_link _ _ _ Hp)|]. intros a Ha [Hpa|Hla].
      * pose proof (tile_free_sz T _ _ Hc Hf). unfold nxt in Ha.
        eapply (pool_area_clear c z a); try done. lia.
      * by eapply (link_bytes_link T0 c z a); [by apply Hin|..].
  - exists F2. eapply lists_frame; [done|done| |done].
    intros c f g (_ & z & Hc & Hf & _). pose proof (tile_free_sz T0 _ _ Hc Hf).
    apply pool_lookup in Hc as [[-> ->]|[[-> ->]|(? & ? & Hc)]]; [|done|].
    + rewrite !(eq_off_load32 _ _ _ _ Ho24) by lia. done.
    + split; eapply eq_off_load32; try done; intros a Ha Hna;
        eapply (pool_area_clear c z a); try done; try lia; by right.
Qed.

Lemma pool_alloc : same_alloc H H'.
Proof.
  destruct pool_fresh. intros c m. unfold alloc. split.
  - intros (z & Hc & Hf & E & Hm). apply pool_lookup in Hc as [[-> ->]|[[-> ->]|(? & ? & Hc)]]; [done| |by eauto].
    simpl in E. lia.
  - intros (z & Hc & Hf & E & Hm). exists z. split_and!; try done.
    apply pool_lookup. right; right. split_and!; congruence.
Qed.

End Pool.
