(* ===== verification/TlsfMemalign.v ===== *)
(** * TLSF: [tlsf_memalign]

    An aligned allocation trims the gap before the aligned address off the
    block it finds and gives it back to the heap. *)

From S2P Require Import Prelude Memory Tlsf TlsfMap TlsfHeap TlsfWp TlsfLists TlsfAlloc TlsfApi.

(** ** The gap *)

(** The distance from [ptr] to the address [tlsf_memalign] settles on. *)
Definition memalign_gap (ptr k : Z) : Z :=
  let gap := round_up ptr k - ptr in
  if (gap =? 0) || (16 <=? gap) then gap
  else round_up (round_up ptr k + Z.max (16 - gap) (2 ^ k)) k - ptr.

Lemma round_up_id x k : 0 ≤ k → x mod 2 ^ k = 0 → round_up x k = x.
Proof.
  intros Hk Hx. apply Z.mod_divide in Hx as [q ->]; [|lia]. unfold round_up.
  replace (q * 2 ^ k + 2 ^ k - 1) with (2 ^ k - 1 + q * 2 ^ k) by lia.
  rewrite Z.div_add, Z.div_small by lia. lia.
Qed.

Lemma mod_pow2_le x j k : 0 ≤ j ≤ k → x mod 2 ^ k = 0 → x mod 2 ^ j = 0.
Proof.
  intros Hjk Hx. apply Z.mod_divide in Hx as [q ->]; [|lia]. apply Z.mod_divide; [lia|].
  exists (q * 2 ^ (k - j)). rewrite <- Z.mul_assoc, <- Z.pow_add_r by lia. do 2 f_equal. lia.
Qed.

(** There is room for another step after a multiple of [2^k]. *)
Lemma multiple_room x k : 0 ≤ k < 32 → x mod 2 ^ k = 0 → x < 2 ^ 32 → x + 2 ^ k ≤ 2 ^ 32.
Proof.
  intros Hk Hx Hlt. apply Z.mod_divide in Hx as [q ->]; [|lia].
  assert (2 ^ 32 = 2 ^ (32 - k) * 2 ^ k) as E by (rewrite <- Z.pow_add_r by lia; f_equal; lia).
  rewrite E in *. assert (0 < 2 ^ k) by lia. apply Z.mul_lt_mono_pos_r in Hlt; [|done].
  replace (q * 2 ^ k + 2 ^ k) with ((q + 1) * 2 ^ k) by lia. apply Z.mul_le_mono_nonneg_r; lia.
Qed.

Lemma memalign_gap_spec ptr k : 0 ≤ k → ptr mod 4 = 0 →
  let g := memalign_gap ptr k in
  (ptr + g) mod 2 ^ k = 0 ∧ (g = 0 ∨ 3 ≤ k ∧ 16 ≤ g ≤ 2 ^ k + 12) ∧ g mod 4 = 0.
Proof.
  intros Hk Hp g. pose proof (round_up_spec ptr k Hk) as [Hr Hm].
  destruct (Z.le_gt_cases k 2).
  { assert (ptr mod 2 ^ k = 0) as Hpk by (apply (mod_pow2_le _ k 2); [lia|done]).
    unfold g, memalign_gap. rewrite round_up_id by done. replace (ptr - ptr) with 0 by lia. simpl.
    rewrite Z.add_0_r. auto. }
  assert (2 ^ 3 ≤ 2 ^ k) by (apply Z.pow_le_mono_r; lia).
  assert (round_up ptr k mod 4 = 0) as Hm4 by (apply (mod_pow2_le _ 2 k); [lia|done]).
  unfold g, memalign_gap. set (a := round_up ptr k) in *. cbv zeta.
  destruct (Z.eqb_spec (a - ptr) 0) as [E|E].
  { simpl. replace (ptr + (a - ptr)) with a by lia. split_and!; [done|lia|rewrite E; done]. }
  destruct (Z.leb_spec 16 (a - ptr)).
  { simpl. replace (ptr + (a - ptr)) with a by lia. split_and!; [done|lia|].
    rewrite Zminus_mod, Hm4, Hp. done. }
  simpl. assert (a - ptr ≤ 12 ∧ (a - ptr) mod 4 = 0) as [H12 Hd4].
  { split; [|by rewrite Zminus_mod, Hm4, Hp]. Z.div_mod_to_equations. lia. }
  pose proof (round_up_spec (a + Z.max (16 - (a - ptr)) (2 ^ k)) k Hk) as [Hr' Hm'].
  assert (round_up (a + Z.max (16 - (a - ptr)) (2 ^ k)) k ≤ a + 2 ^ k + (if decide (k = 3) then 8 else 0)) as Hup.
  { case_decide as Ek.
    - subst k. change (2 ^ 3) with 8 in *. assert (a - ptr = 4) as E4 by (Z.div_mod_to_equations; lia).
      rewrite E4. change (Z.max (16 - 4) 8) with 12.
      unfold round_up. change (2 ^ 3) with 8. Z.div_mod_to_equations. lia.
    - assert (2 ^ 4 ≤ 2 ^ k) by (apply Z.pow_le_mono_r; lia).
      rewrite Z.max_r by lia. rewrite round_up_id; [lia|lia|].
      rewrite Z.add_mod, Hm, Z_mod_same_full by lia. done. }
  set (a' := round_up (a + _) k) in *. replace (ptr + (a' - ptr)) with a' by lia.
  assert (a' mod 4 = 0) as Hm4' by (apply (mod_pow2_le _ 2 k); [lia|done]).
  split_and!; [done| |by rewrite Zminus_mod, Hm4', Hp].
  right. split; [lia|]. case_decide as Ek; [|lia]. subst k. change (2 ^ 3) with 8 in *.
  assert (a - ptr = 4) by (Z.div_mod_to_equations; lia). lia.
Qed.

Lemma wp_align_ptr s x k Q : 0 ≤ k < 32 → 0 ≤ x → x + 2 ^ k ≤ 2 ^ 32 →
  Q (round_up x k) s → wp (align_ptr x (2 ^ k)) s Q.
Proof.
  intros Hk Hx Hb HQ. unfold align_ptr. wp_steps; [by apply is_pow2_pow2|].
  by rewrite align_mask_round.
Qed.

(** The part of [tlsf_memalign] that finds the aligned address in a block. *)
Lemma wp_memalign_gap s ptr k Q :
  0 ≤ k < 32 → ptr mod 4 = 0 → 0 < ptr → ptr + 2 ^ k ≤ 2 ^ 32 →
  (2 < k → ptr + 2 ^ k + 24 ≤ 2 ^ 32) → Q (memalign_gap ptr k) s →
  wp (align_ptr ptr (2 ^ k)) s (λ aligned s1,
    wp (if testz (u32 (aligned - ptr)) && (u32 (aligned - ptr) <? 16) then
          next ← align_ptr (u32 (aligned + Z.max (u32 (16 - u32 (aligned - ptr))) (2 ^ k))) (2 ^ k);
          mret (u32 (next - ptr))
        else mret (u32 (aligned - ptr))) s1 Q).
Proof.
  intros Hk Hp Hp0 Hb0 Hb HQ. pose proof (round_up_spec ptr k ltac:(lia)) as [Hr Hm].
  apply wp_align_ptr; [done|lia|lia|]. unfold memalign_gap in HQ. cbv zeta in HQ.
  set (a := round_up ptr k) in *. rewrite (wrapu_small 32 (a - ptr)) by lia. unfold testz.
  destruct (Z.eqb_spec (a - ptr) 0) as [E|E]; simpl in HQ |- *; [by wp_step|].
  destruct (Z.ltb_spec (a - ptr) 16), (Z.leb_spec 16 (a - ptr)); try lia; [|by wp_step].
  destruct (Z.le_gt_cases k 2).
  { exfalso. apply E. unfold a. rewrite round_up_id; [lia|lia|]. by apply (mod_pow2_le _ k 2); [lia|]. }
  specialize (Hb ltac:(lia)). rewrite (wrapu_small 32 (16 - (a - ptr))) by lia.
  pose proof (memalign_gap_spec ptr k ltac:(lia) Hp) as (_ & Hg & _).
  unfold memalign_gap in Hg. fold a in Hg. cbv zeta in Hg.
  rewrite (proj2 (Z.eqb_neq _ _) E), (proj2 (Z.leb_gt 16 (a - ptr)) ltac:(lia)) in Hg. simpl in Hg.
  set (y := a + Z.max (16 - (a - ptr)) (2 ^ k)) in *.
  pose proof (round_up_spec y k ltac:(lia)) as [Hr' Hm'].
  assert (a ≤ y) by (unfold y; lia). assert (0 < 2 ^ k) by lia.
  rewrite (wrapu_small 32 y) by lia. wp_step. apply wp_align_ptr; [done|lia| |].
  2: { wp_step. rewrite wrapu_small by lia. done. }
  destruct (decide (k = 3)) as [->|]; [change (2 ^ 3) with 8 in *; unfold y; lia|].
  assert (2 ^ 4 ≤ 2 ^ k) by (apply Z.pow_le_mono_r; lia).
  apply multiple_room; [done| |unfold y; lia]. unfold y. rewrite Z.max_r by lia.
  rewrite Z.add_mod, Hm, Z_mod_same_full by lia. done.
Qed.

(** ** The leading gap *)

Lemma heap_trim_free_leading H s b x gap :
  heap {[b]} H s → H !! b = Some x → fr x = true → prev_clear H b → next_clear H b x →
  16 ≤ gap → gap mod 4 = 0 → gap + 16 ≤ sz x →
  wp (block_trim_free_leading b gap) s (λ r s', r = b + gap ∧ null s' = null s ∧ ∃ H' x',
    heap {[r]} H' s' ∧ H' !! r = Some x' ∧ fr x' = true ∧ next_clear H' r x'
    ∧ sz x' = sz x - gap ∧ same_alloc H H' ∧ keeps H s s').
Proof.
  intros Hp Hb Fx Hpc Hnc Hg Hal Hsx. pose proof (h_tile _ _ _ Hp) as T.
  pose proof (tile_sz T _ _ Hb). destruct (t_next _ _ _ T _ _ Hb ltac:(lia)) as (y & Hy & _).
  unfold block_trim_free_leading. wp_step.
  eapply wp_mono; [eapply (heap_block_can_split _ _ _ _ _ _ Hp Hb); lia|]. intros ? ? [-> ->].
  destruct (Z.leb_spec (gap + 16) (sz x)); [|lia]. change block_header_overhead with 4.
  rewrite wrapu_small by lia. set (size := gap - 4).
  assert (12 ≤ size) as Hs by (unfold size; lia). assert (size + 16 ≤ sz x) as Hsz by (unfold size; lia).
  assert (size mod 4 = 0) as Hal' by (unfold size; Z.div_mod_to_equations; lia).
  wp_step. eapply wp_mono; [apply (heap_split_leading Hp Hb Hy Hs Hal' Hsz Fx); set_solver|].
  intros r s1 Hw. wp_step. eapply wp_mono; [exact Hw|]. intros [] s2 Hw2.
  wp_step. eapply wp_mono; [exact Hw2|]. intros ? s3 (-> & En & Hp' & K).
  pose proof (alloc_split Hp Hb Hy Hs Hsz Fx) as Ha. pose proof (split_order (b := b) Hs Hsz) as Ho.
  set (r := b + 4 + size) in *. set (n := nxt b x) in *. set (H' := split_at size b r n x y H) in *.
  assert (H' !! b = Some (with_sz size x)) as Hb' by (apply lookup_split_at; [lia..|auto]).
  assert (H' !! r = Some (remainder size x)) as Hr' by (apply lookup_split_at; [lia..|auto]).
  wp_step. eapply wp_mono; [eapply (heap_block_insert Hp' b _ Hb'); [done|set_solver| |]|].
  - intros z Hz _. change (nxt b (with_sz size x)) with r. set_solver.
  - intros p z Hz Fz E. exfalso. unfold H' in Hz.
    apply lookup_split_at in Hz as [[-> ->]|[[-> ->]|[[-> ->]|(? & ? & ? & Hz)]]]; [| | | |lia..].
    + unfold nxt in E. simpl in E. lia.
    + unfold nxt in E. simpl in E. lia.
    + change (n + 4 + sz y = b) in E. pose proof (tile_sz T _ _ Hy). lia.
    + by apply (Hpc p z).
  - intros _ s4 (En4 & Hp4 & K4 & _). wp_step.
    assert (({[r]} ∪ {[b]}) ∖ {[b]} = {[r]} :> gset Z) as EP.
    { apply set_eq. intros c. rewrite elem_of_difference, elem_of_union, !elem_of_singleton. lia. }
    rewrite EP in Hp4. split; [unfold r, size; lia|]. split; [congruence|].
    exists H', (remainder size x). split_and!; try done.
    + intros z Hz. replace (nxt r (remainder size x)) with n in Hz by (unfold n, r, nxt; simpl; lia).
      unfold H' in Hz. apply lookup_split_at in Hz as [[? _]|[[? _]|[[_ ->]|(_ & _ & ? & _)]]]; try lia.
      exact (Hnc y Hy).
    + simpl. unfold size. lia.
    + eapply keeps_same; [|exact Ha]. eapply keeps_trans; [exact K|exact K4|done].
Qed.

(** ** The allocation *)

Lemma prev_clear_free H s b x : heap ∅ H s → H !! b = Some x → fr x = true → prev_clear H b.
Proof.
  intros Hp Hb Fx d z Hd Fd E. pose proof (next_not_free _ _ _ _ Hp Hd Fd x) as Hn.
  rewrite E in Hn. rewrite (Hn Hb) in Fx. done.
Qed.

(** The bytes asked of the heap so that an aligned block of [adj] bytes and a
    gap before it fit. *)
Definition gap_request (adj k : Z) : Z :=
  if 2 <? k then
    if 2 ^ 30 <=? round_up (adj + 2 ^ k + 16) k then 0 else round_up (adj + 2 ^ k + 16) k
  else adj.

Lemma gap_request_spec adj k : 12 ≤ adj < 2 ^ 30 → adj mod 4 = 0 → 0 ≤ k ≤ 29 →
  gap_request adj k = 0 ∨
  12 ≤ gap_request adj k < 2 ^ 30 ∧ gap_request adj k mod 4 = 0 ∧ adj ≤ gap_request adj k
  ∧ (2 < k → adj + 2 ^ k + 16 ≤ gap_request adj k).
Proof.
  intros Ha Hal Hk. unfold gap_request. destruct (Z.ltb_spec 2 k); [|right; split_and!; lia || done].
  assert (2 ^ 3 ≤ 2 ^ k) by (apply Z.pow_le_mono_r; lia).
  pose proof (round_up_spec (adj + 2 ^ k + 16) k ltac:(lia)) as [? Hm].
  case_cmp; [by left|right]. split_and!; try lia. by apply (mod_pow2_le _ 2 k); [lia|].
Qed.

Lemma heap_memalign H s size k :
  heap ∅ H s → 0 ≤ size ≤ 2 ^ 32 - 4 → 0 ≤ k ≤ 29 →
  wp (tlsf_memalign (2 ^ k) size) s (λ p s',
    p = 0 ∧ s' = s
    ∨ ∃ b H' n, p = b + 8 ∧ p mod 2 ^ k = 0 ∧ null s' = null s ∧ heap ∅ H' s' ∧ keeps H s s'
        ∧ request size ≠ 0 ∧ request size ≤ n < request size + 16
        ∧ (∀ m, ¬ alloc H b m) ∧ ∀ c m, alloc H' c m ↔ alloc H c m ∨ c = b ∧ m = n).
Proof.
  intros Hp Hs Hk. unfold tlsf_memalign. wp_step. unfold wp at 1. change ALIGN_SIZE with (2 ^ 2).
  rewrite adjust_request_spec by lia. fold (request size). cbv zeta.
  assert (2 ^ k ≤ 2 ^ 29) by (apply Z.pow_le_mono_r; lia). assert (0 < 2 ^ k) by lia.
  assert (request size < 2 ^ 30 ∧ 0 ≤ request size) as [? ?].
  { destruct (decide (request size = 0)) as [->|E]; [lia|]. apply request_spec in E; lia. }
  change sizeof_block_header_t with 16. rewrite (wrapu_small 32 (request size + _ + _)) by lia.
  wp_step. unfold wp at 1. rewrite adjust_request_spec by lia.
  destruct (decide (request size = 0)) as [E|E].
  { rewrite E. simpl. wp_step. unfold wp at 1. rewrite block_locate_free_0. wp_steps; [done|]. simpl.
    wp_steps. left. done. }
  destruct (request_spec size ltac:(lia) E) as (_ & _ & Hr & Hral & _).
  assert ((if testz (request size) && (2 ^ 2 <? 2 ^ k) then
      if (request size + 2 ^ k + 16 =? 0) || (2 ^ 30 <=? round_up (request size + 2 ^ k + 16) k) then 0
      else Z.max (round_up (request size + 2 ^ k + 16) k) 12 else request size)
    = gap_request (request size) k) as ->.
  { rewrite (proj2 (testz_true _) E). simpl andb. unfold gap_request.
    pose proof (round_up_spec (request size + 2 ^ k + 16) k ltac:(lia)) as [? _].
    assert ((2 ^ 2 <? 2 ^ k) = (2 <? k)) as ->.
    { apply eq_bool_prop_intro. rewrite !Is_true_true, !Z.ltb_lt. symmetry. apply Z.pow_lt_mono_r_iff; lia. }
    destruct (2 <? k); [|done]. rewrite (proj2 (Z.eqb_neq (request size + 2 ^ k + 16) 0)) by lia.
    simpl orb. case_cmp; lia. }
  destruct (gap_request_spec (request size) k Hr Hral Hk) as [E0|(Hg1 & Hg2 & Hg3 & Hg4)].
  { rewrite E0. wp_step. unfold wp at 1. rewrite block_locate_free_0. wp_steps; [done|]. simpl.
    wp_steps. left. done. }
  wp_step. eapply wp_mono; [by eapply (heap_locate_free H s _ Hp)|].
  intros b s1 [(-> & -> & _)|(x & Hb & Fx & Hsx & En & Hp1 & K)].
  { wp_steps; [done|]. simpl. wp_steps. by left. }
  pose proof (h_tile _ _ _ Hp) as T. pose proof (t_ok _ _ _ T _ _ Hb) as Ok. unfold block_ok in Ok.
  pose proof (prev_clear_free _ _ _ _ Hp Hb Fx) as Hpc. pose proof (next_not_free _ _ _ _ Hp Hb Fx) as Hnc.
  wp_step. wp_step; [done|]. assert (testz b = true) as -> by (apply testz_true; lia).
  assert (block_to_ptr b = b + 8) as ->.
  { unfold block_to_ptr. change block_start_offset with 8. apply wrapu_small. lia. }
  assert ((b + 8) mod 4 = 0) as Hb4 by (destruct Ok as (Hb4 & _); clear -Hb4; Z.div_mod_to_equations; lia).
  set (g := memalign_gap (b + 8) k).
  destruct (memalign_gap_spec (b + 8) k ltac:(lia) Hb4) as (Hal & Hgap & Hga). fold g in Hal, Hgap, Hga.
  assert (∀ r H1 x1 s2, heap {[r]} H1 s2 → r = b + g → null s2 = null s → H1 !! r = Some x1 → fr x1 = true →
    next_clear H1 r x1 → request size ≤ sz x1 → same_alloc H H1 → keeps H s s2 →
    wp (block_prepare_used r (request size)) s2 (λ p s', p = 0 ∧ s' = s ∨ ∃ b H' n, p = b + 8
      ∧ p mod 2 ^ k = 0 ∧ null s' = null s ∧ heap ∅ H' s' ∧ keeps H s s'
      ∧ request size ≠ 0 ∧ request size ≤ n < request size + 16
      ∧ (∀ m, ¬ alloc H b m) ∧ ∀ c m, alloc H' c m ↔ alloc H c m ∨ c = b ∧ m = n)) as Hfin.
  { intros r Hm1 x1 s2 Hp2 -> En2 Hb1 F1 Hnc1 Hsz1 Ha1 K1.
    eapply wp_mono; [by eapply (heap_prepare_used _ _ _ _ _ Hp2 Hb1)|].
    intros p s3 (-> & En3 & H' & n & Hp3 & K3 & Hn & Ha3). right. exists (b + g), H', n.
    split_and!; try done; try congruence; try lia.
    - replace (b + g + 8) with (b + 8 + g) by lia. done.
    - eapply keeps_trans; [exact K1| |done]. by eapply keeps_same.
    - intros m Hm. apply Ha1 in Hm as (z & Hz & Fz & _). congruence.
    - intros c m. by rewrite Ha3, (Ha1 c m). }
  wp_step. wp_step. eapply wp_mono; [eapply (wp_memalign_gap s1 (b + 8) k (λ g' s2, g' = g ∧ s2 = s1))|].
  { lia. }
  { done. }
  { lia. }
  { destruct (Z.le_gt_cases k 2); [assert (2 ^ k ≤ 2 ^ 2) by (apply Z.pow_le_mono_r; lia)|]; lia. }
  { lia. }
  { done. }
  intros al s2 Hw. wp_step. eapply wp_mono; [exact Hw|]. intros ? ? [-> ->].
  destruct (decide (g = 0)) as [Eg|Eg].
  - rewrite Eg. simpl. wp_step. apply (Hfin b H x s1); try done; try lia.
  - rewrite (proj2 (testz_true g) Eg). destruct Hgap as [?|(Hk3 & Hg)]; [done|].
    wp_steps; [apply Z.leb_le; lia|].
    eapply wp_mono; [eapply (heap_trim_free_leading H s1 b x g); try done; lia|].
    intros r s3 (-> & En3 & Hm1 & x1 & Hp3 & Hb1 & F1 & Hnc1 & Hsz1 & Ha1 & K1).
    eapply (Hfin _ Hm1 x1 s3); try done; try congruence; try lia.
    by eapply keeps_trans.
Qed.
