(* ===== verification/TlsfRealloc.v ===== *)
(** * TLSF: [tlsf_realloc]

    Growing a block in place into a free successor, shrinking it, and moving
    it when neither is possible. *)

From S2P Require Import Prelude Memory Tlsf TlsfMap TlsfHeap TlsfWp TlsfLists TlsfAlloc TlsfApi.

(** ** Growing into the next block *)

Section Grow.
Context {H : blkmap} {b : Z} {x y z : blk}.
Context (Hx : H !! b = Some x) (Fx : fr x = false) (Sx : sz x ≠ 0).
Context (Hy : H !! nxt b x = Some y) (Fy : fr y = true) (Hz : H !! nxt (nxt b x) y = Some z).

Let n := nxt b x.
Let e := nxt n y.
Let x' := with_sz (sz x + 4 + sz y) x.

Section After.
Context {s : tlsf_state} (Hp : heap {[n]} H s).

Let T := h_tile _ _ _ Hp.

Lemma grow_order : 12 ≤ sz x ∧ 12 ≤ sz y ∧ b + 16 ≤ n ∧ n + 16 ≤ e.
Proof.
  pose proof (tile_free_sz T _ _ Hy Fy). pose proof (t_ok _ _ _ T _ _ Hx) as Ok. unfold block_ok in Ok.
  unfold e, n, nxt in *. lia.
Qed.

Lemma grow_sep c w : H !! c = Some w → c ≠ b → c ≠ n →
  (nxt c w ≤ b ∨ n ≤ c) ∧ (nxt c w ≤ n ∨ e ≤ c).
Proof.
  intros Hc Hcb Hcn. pose proof (tile_sep2 T _ _ _ _ Hc Hx Hcb). pose proof (tile_sep2 T _ _ _ _ Hc Hy Hcn).
  unfold e, n in *. lia.
Qed.

Lemma grow_next_ok : next_ok (delete n (<[b := x']> H)) b x' ∧ nxt b x' = e
  ∧ delete n (<[b := x']> H) !! e = Some z.
Proof.
  pose proof grow_order. pose proof (t_ok _ _ _ T _ _ Hx) as Okx. pose proof (t_ok _ _ _ T _ _ Hy) as Oky.
  unfold block_ok in *. assert (nxt b x' = e) as Ee by (unfold e, n, x', nxt; simpl; lia).
  rewrite Ee. split_and!; [|done|rewrite lookup_delete_ne, lookup_insert_ne by lia; done].
  split_and!.
  - rewrite lookup_delete_ne, lookup_insert_eq by lia. done.
  - simpl. lia.
  - lia.
  - unfold n, nxt in *. simpl. lia.
  - rewrite Ee. intros c w Hc. map_cases; [lia|]. pose proof (tile_sz T c w ltac:(done)).
    destruct (grow_sep c w) as [_ [?|?]]; [done..|unfold nxt in *|]; lia.
Qed.

Lemma heap_grow_step s' :
  ctl s' = ctl s → hdr (tmem s') (absorb false b n e x y z H) →
  eq_off (mark_area b e) (tmem s) (tmem s') →
  heap ∅ (absorb false b n e x y z H) s' ∧ keeps H s s'.
Proof.
  intros Ec Hh Hd. pose proof grow_order. split.
  - eapply (heap_step (mark_area b e)); [exact Hp|done| |done|done|..].
    + apply (tile_absorb _ {[n]}); try done; try lia; set_solver.
    + intros c w Hc Hf. right. apply lookup_absorb in Hc as [[-> ->]|[[-> ->]|(? & ? & ? & Hc)]]; [done| | |lia..].
      * exists z. simpl in Hf. split_and!; try done. pose proof (tile_free_sz T _ _ Hz Hf).
        unfold mark_area, nxt. simpl. lia.
      * exists w. split_and!; try done. pose proof (tile_free_sz T _ _ Hc Hf).
        destruct (grow_sep _ _ Hc) as [[?|?] [?|?]]; try done; unfold mark_area, nxt in *; lia.
    + intros c fl sl. unfold free_in. split.
      * intros (_ & w & Hc & Hf & E). apply lookup_absorb in Hc as [[-> ->]|[[-> ->]|(? & ? & ? & Hc)]]; [done| | |lia..].
        -- split; [set_unfold; lia|]. by exists z.
        -- split; [set_solver|]. by exists w.
      * intros (HPc & w & Hc & Hf & E). assert (c ≠ b ∧ c ≠ n) as [? ?] by (split; [congruence|set_solver]).
        split; [set_solver|]. destruct (decide (c = e)) as [->|].
        -- assert (w = z) as -> by (unfold e, n in Hc; congruence).
           exists (with_pf false z). split_and!; try done. rewrite lookup_absorb by lia; auto 10.
        -- exists w. split_and!; try done. rewrite lookup_absorb by lia; auto 10.
    + intros c w a Hc Hf HPc Ha. assert (c ≠ b ∧ c ≠ n) as [? ?] by (split; [congruence|set_solver]).
      pose proof (tile_free_sz T _ _ Hc Hf).
      destruct (grow_sep _ _ Hc) as [[?|?] [?|?]]; try done; unfold mark_area, nxt in *; lia.
  - intros c w a Hc Hf Ha. apply Hd. unfold mark_area. intros Hda.
    destruct (decide (c = b)) as [->|].
    { assert (w = x) as -> by congruence. unfold n, nxt in *. lia. }
    assert (c ≠ n) by (intros ->; unfold n in Hc; congruence).
    destruct (decide (c = e)) as [->|]; [lia|].
    destruct (grow_sep _ _ Hc) as [[?|?] [?|?]]; try done; unfold nxt in *; lia.
Qed.

End After.

Lemma alloc_grow s : heap ∅ H s → ∀ c m, alloc (absorb false b n e x y z H) c m ↔
  alloc H c m ∧ c ≠ b ∨ c = b ∧ m = sz x + 4 + sz y.
Proof.
  intros Hp c m. pose proof (h_tile _ _ _ Hp) as T. pose proof (tile_free_sz T _ _ Hy Fy).
  pose proof (tile_sz T _ _ Hx). assert (b < n < e) by (unfold e, n, nxt; lia). unfold alloc. split.
  - intros (w & Hc & Hf & Es & Hm).
    apply lookup_absorb in Hc as [[-> ->]|[[-> ->]|(? & ? & ? & Hc)]]; [| | |lia..].
    + right. done.
    + left. split; [|lia]. by exists z.
    + left. split; [|done]. by exists w.
  - intros [((w & Hc & Hf & Es & Hm) & Hne)|[-> ->]].
    + assert (c ≠ n) by (intros ->; unfold n in Hc; congruence). destruct (decide (c = e)) as [->|].
      * assert (w = z) as -> by (unfold e, n in Hc; congruence). exists (with_pf false z).
        rewrite lookup_absorb by lia. auto 10.
      * exists w. rewrite lookup_absorb by lia. auto 10.
    + eexists. rewrite lookup_absorb by lia. split; [by left|]. simpl. split_and!; [done..|lia].
Qed.

Lemma heap_grow s : heap ∅ H s →
  wp (block_merge_next b) s (λ _ s1, wp (block_mark_as_used b) s1 (λ _ s', null s' = null s
    ∧ heap ∅ (absorb false b n e x y z H) s' ∧ keeps H s s')).
Proof.
  intros Hp. pose proof (h_tile _ _ _ Hp) as T. pose proof (tile_geo _ _ _ T) as Hg.
  pose proof (t_ok _ _ _ T _ _ Hx) as Ok. unfold block_ok in Ok.
  unfold block_merge_next. wp_step. eapply (wp_block_next _ H); [apply Hp|done..|lia|lia|]. fold n.
  wp_steps. { apply testz_true. unfold n, nxt. lia. }
  eapply (wp_block_is_free _ H); [apply Hp|done..|]. rewrite Fy.
  wp_step. eapply (wp_block_is_last _ H); [apply Hp|done..|]. wp_steps.
  { destruct (Z.eqb_spec (sz x) 0); [done|done]. }
  eapply wp_mono; [eapply (heap_block_remove Hp n y); try done; set_solver|].
  intros _ s1 (En1 & Hp1 & K1). rewrite (right_id_L ∅ (∪)) in Hp1.
  pose proof (h_tile _ _ _ Hp1) as T1. pose proof (grow_order Hp1) as Hord.
  eapply wp_mono; [apply (wp_block_absorb s1 H b n x y (h_hdr _ _ _ Hp1) (tile_geo _ _ _ T1)); try done; [lia|]|].
  { apply (tile_next_ok _ _ _ _ _ T1 Hy). lia. }
  intros ? s2 (-> & Ec2 & Hh2 & _ & Ho2). fold x' e in Hh2, Ho2.
  destruct (grow_next_ok Hp1) as (Hok & En & He).
  assert (geo (delete n (<[b := x']> H))) as Hg2.
  { intros c w Hc. map_cases; [|by apply (tile_geo _ _ _ T1)].
    destruct (Hg _ _ Hx) as (? & Hxa & ?), (Hg _ _ Hy) as (_ & Hya & ?). simpl.
    pose proof (tile_sz T _ _ Hx). pose proof (tile_sz T _ _ Hy).
    split_and!; [done|clear -Hxa Hya; Z.div_mod_to_equations; lia|lia|lia]. }
  eapply wp_mono; [apply (wp_block_mark_as_used s2 (delete n (<[b := x']> H)) b x' z)|].
  - eapply hdr_mono; [exact Hh2|]. apply delete_subseteq.
  - done.
  - done.
  - by rewrite En.
  - rewrite En. intros _ s3 (Ec3 & Hh3 & Ho3). split; [by rewrite Ec3, Ec2|].
    destruct (heap_grow_step Hp1 s3) as [Hp3 K3].
    + by rewrite Ec3.
    + eapply hdr_mono; [exact Hh3|]. apply map_subseteq_spec. intros c w Hc. unfold set_fr.
      apply lookup_absorb in Hc as [[-> ->]|[[-> ->]|(? & ? & ? & Hc)]]; [| | |lia..].
      * rewrite lookup_insert_eq. done.
      * rewrite lookup_insert_ne, lookup_insert_eq by lia. done.
      * rewrite !lookup_insert_ne, lookup_delete_ne, lookup_insert_ne by done. done.
    + eapply eq_off_trans; [exact Ho2|exact Ho3|]. unfold mark_area. simpl. lia.
    + split; [done|]. eapply keeps_trans; [exact K1|exact K3|done].
Qed.

End Grow.

(** ** Shrinking *)

Lemma heap_trim_used H s b x size :
  heap ∅ H s → H !! b = Some x → fr x = false → 12 ≤ size < 2 ^ 30 → size mod 4 = 0 → size ≤ sz x →
  wp (block_trim_used b size) s (λ _ s', null s' = null s ∧ ∃ H' n, heap ∅ H' s' ∧ keeps H' s s'
    ∧ size ≤ n ≤ sz x ∧ n < size + 16
    ∧ ∀ c m, alloc H' c m ↔ alloc H c m ∧ c ≠ b ∨ c = b ∧ m = n).
Proof.
  intros Hp Hb Fx Hs Hal Hsx. pose proof (h_tile _ _ _ Hp) as T.
  unfold block_trim_used. wp_step.
  eapply wp_block_is_free; [apply Hp|apply (tile_geo _ _ _ T)|done|]. wp_steps; [by rewrite Fx|].
  eapply wp_mono; [eapply (heap_block_can_split _ _ _ _ _ _ Hp Hb); lia|]. intros ? ? [-> ->].
  apply wp_when; [intros Hcan%Z.leb_le|intros Hcan%Z.leb_gt].
  2: { split; [done|]. exists H, (sz x). split_and!; try done; try lia. intros c m. split.
    - intros Hc. destruct (decide (c = b)) as [->|]; [right|by left]. split; [done|].
      destruct Hc as (z & Hz & _ & <- & _). congruence.
    - intros [[? _]|[-> ->]]; [done|]. exists x. split_and!; try done. lia. }
  destruct (t_next _ _ _ T _ _ Hb ltac:(lia)) as (y & Hy & _).
  pose proof (split_order (b := b) (proj1 Hs) Hcan) as Ho.
  wp_step. eapply wp_mono; [apply (wp_split_raw Hp Hb Hy (proj1 Hs) Hal Hcan)|].
  intros ? s1 (-> & Ec1 & (g & Hh1) & Hl1 & Hd1).
  set (r := b + 4 + size) in *. set (n := nxt b x) in *. set (H1 := split_at size b r n x y H) in *.
  wp_step. eapply wp_block_set_prev_used; [exact Hh1|apply (geo_raw Hp Hb Hy (proj1 Hs) Hal Hcan)
    |apply (raw_r (b := b) (proj1 Hs) Hcan)|].
  set (s2 := set_hdr r _ _).
  assert (tmem s2 = store32 (tmem s1) (r + 4) (hword (remainder size x))) as Em.
  { unfold s2, remainder. by rewrite Fx. }
  destruct (heap_split_step Hp Hb Hy (proj1 Hs) Hal Hcan s2) as [Hp2 K2]; rewrite ?Em.
  { done. }
  { by eapply (hdr_raw_split Hp Hb Hy (proj1 Hs) Hal Hcan). }
  { by rewrite load32_store32_ne by lia. }
  { congruence. }
  { eapply eq_off_trans; [exact Hd1|apply eq_off_store32|]. unfold split_area. fold n r. simpl. intuition lia. }
  fold r n H1 in Hp2, K2. rewrite (right_id_L ∅ (∪)) in Hp2.
  assert (H1 !! r = Some (remainder size x)) as Hr by (apply lookup_split_at; [lia..|auto]).
  assert (prev_clear H1 r) as Hpc.
  { intros d z Hd Fd E. unfold H1 in Hd.
    apply lookup_split_at in Hd as [[-> ->]|[[-> ->]|[[-> ->]|(? & ? & ? & Hd)]]]; [| | | |lia..].
    - simpl in Fd. congruence.
    - unfold nxt in E. simpl in E. unfold r in E. lia.
    - change (n + 4 + sz y = r) in E. pose proof (tile_sz T _ _ Hy). lia.
    - destruct (tile_sep2 T _ _ _ _ Hd Hb ltac:(done)) as [|Hnd]; [lia|]. change (n ≤ d) in Hnd.
      pose proof (tile_sz T _ _ Hd). unfold nxt in E. lia. }
  wp_step. eapply wp_mono; [by eapply (heap_merge_next H1 s2 r (remainder size x) Hp2)|].
  intros ? s3 (-> & En3 & H3 & x3 & Hp3 & Hb3 & F3 & Hpc3 & Hnc3 & Ha3 & K3 & _).
  eapply wp_mono; [by eapply (heap_insert_last H3 s3 r x3)|]. intros _ s4 (En4 & Hp4 & K4 & _).
  split; [rewrite En4, En3; simpl; by rewrite Ec1|]. exists H3, size. split_and!; try done; try lia.
  - eapply keeps_trans; [exact K2| |by apply Ha3].
    eapply keeps_trans; [exact K3|exact K4|by apply Ha3].
  - intros c m. rewrite (Ha3 c m). unfold alloc. split.
    + intros (w & Hc & Hf & Es & Hm). unfold H1 in Hc.
      apply lookup_split_at in Hc as [[-> ->]|[[-> ->]|[[-> ->]|(? & ? & ? & Hc)]]]; [| | | |lia..].
      * by right.
      * done.
      * left. split; [|lia]. by exists y.
      * left. split; [|done]. by exists w.
    + intros [((w & Hc & Hf & Es & Hm) & Hne)|[-> ->]].
      * assert (c ≠ r) by (intros ->; pose proof (split_fresh Hp Hb (proj1 Hs) Hcan) as E; fold r in E; congruence).
        destruct (decide (c = n)) as [->|].
        -- assert (w = y) as -> by congruence. exists (with_pf true y).
           unfold H1. rewrite lookup_split_at by lia. auto 10.
        -- exists w. unfold H1. rewrite lookup_split_at by lia. auto 10.
      * exists (with_sz size x). unfold H1. rewrite lookup_split_at by lia. split; [auto|]. simpl. split_and!; [done..|lia].
Qed.

(** ** Reallocation *)

(** What the caller sees of the blocks it holds, when the block at [b] (of
    [n0] bytes) becomes a block at [b'] of [n] bytes. *)
Definition moved (H H' : blkmap) (b b' n : Z) : Prop :=
  ∀ c m, alloc H' c m ↔ alloc H c m ∧ c ≠ b ∨ c = b' ∧ m = n.

(** The other blocks keep their contents, and the first [k] bytes of the block
    at [b] are found at [b']. *)
Definition carries (H : blkmap) (b b' k : Z) (s s' : tlsf_state) : Prop :=
  (∀ c m a, alloc H c m → c ≠ b → c + 8 ≤ a < c + 8 + m → load8 (tmem s') a = load8 (tmem s) a) ∧
  (∀ i, 0 ≤ i < k → load8 (tmem s') (b' + 8 + i) = load8 (tmem s) (b + 8 + i)).

(** Writing only the payload of an allocated block keeps the invariant. *)
Lemma heap_write_payload H s s' b n :
  heap ∅ H s → alloc H b n → ctl s' = ctl s →
  eq_off (λ a, b + 8 ≤ a < b + 8 + n) (tmem s) (tmem s') → heap ∅ H s'.
Proof.
  intros Hp (x & Hb & Fx & <- & Hx) Ec Ho. pose proof (h_tile _ _ _ Hp) as T.
  assert (∀ c z a, H !! c = Some z → c ≠ b → c + 4 ≤ a < c + 8 + sz z → ¬ b + 8 ≤ a < b + 8 + sz x) as Hsep.
  { intros c z a Hc Hne Ha. pose proof (tile_sep2 T _ _ _ _ Hc Hb Hne). unfold nxt in *. lia. }
  eapply (heap_step (λ a, b + 8 ≤ a < b + 8 + sz x)); [exact Hp|done|exact T| |done| |done|].
  - eapply hdr_eq_off; [apply Hp|done|]. intros c z a Hc Ha. pose proof (tile_sz T _ _ Hc).
    destruct (decide (c = b)) as [->|]; [lia|]. eapply Hsep; [done..|lia].
  - intros c z Hc Fz. right. exists z. split_and!; try done. intros a Ha.
    pose proof (tile_free_sz T _ _ Hc Fz). eapply Hsep; [done|congruence|unfold nxt in *; lia].
  - intros c z a Hc Fz _ Ha. pose proof (tile_free_sz T _ _ Hc Fz).
    eapply Hsep; [done|congruence|lia].
Qed.

Section Realloc.
Context {H : blkmap} {s : tlsf_state} (Hp : heap ∅ H s) {b : Z} {x : blk} {size : Z}.
Context (Hb : H !! b = Some x) (Fx : fr x = false) (Sx : sz x ≠ 0).
Context (Hs : 0 ≤ size ≤ 2 ^ 32 - 4) (Hr : request size ≠ 0).

Let T := h_tile _ _ _ Hp.

Definition realloc_post (p : Z) (s' : tlsf_state) : Prop :=
  p = 0 ∧ s' = s
  ∨ ∃ b' H' n, p = b' + 8 ∧ null s' = null s ∧ heap ∅ H' s' ∧ request size ≤ n
      ∧ moved H H' b b' n ∧ (b' = b ∨ ∀ m, ¬ alloc H b' m)
      ∧ carries H b b' (Z.min (sz x) size) s s'.

Lemma realloc_alloc : alloc H b (sz x).
Proof. exists x. done. Qed.

(** The path that moves the block. *)
Lemma heap_realloc_move :
  wp (p ← tlsf_malloc size;
      when (testz p) (
        modify (set_tmem (λ m, mem_copy m p (b + 8) (Z.to_nat (Z.min (sz x) size))));;
        tlsf_free (b + 8));;
      mret p) s realloc_post.
Proof.
  destruct (request_spec size ltac:(lia) Hr) as (Hs0 & Hsr & _).
  wp_step. eapply wp_mono; [by apply (heap_malloc H s size Hp)|].
  intros p s1 [(-> & -> & _)|(b1 & H1 & n & -> & En1 & Hp1 & K1 & _ & Hn & Hfresh & Ha1)].
  { wp_step. simpl. wp_steps. by left. }
  assert (b1 ≠ b) as Hne by (intros ->; by eapply Hfresh, realloc_alloc).
  assert (alloc H1 b (sz x) ∧ alloc H1 b1 n) as [Hab Hab1].
  { split; apply Ha1; [left; apply realloc_alloc|by right]. }
  pose proof (h_tile _ _ _ Hp1) as T1.
  assert (0 < b1) as Hb1.
  { destruct Hab1 as (z & Hz & _). apply (t_ok _ _ _ T1) in Hz. unfold block_ok in Hz. lia. }
  assert (∀ c d m k, alloc H1 c m → alloc H1 d k → c ≠ d → c + 8 + m ≤ d + 4 ∨ d + 8 + k ≤ c + 4) as Hsep.
  { intros c d m k (z & Hz & _ & <- & _) (w & Hw & _ & <- & _) Hcd.
    pose proof (tile_sep2 T1 _ _ _ _ Hz Hw Hcd). unfold nxt in *. lia. }
  pose proof (Hsep _ _ _ _ Hab Hab1 ltac:(done)) as Hdis.
  set (k := Z.to_nat (Z.min (sz x) size)). pose proof (tile_sz T _ _ Hb).
  assert (Z.of_nat k ≤ sz x ∧ Z.of_nat k ≤ n ∧ Z.of_nat k = Z.min (sz x) size) as (Hk1 & Hk2 & Hk3) by lia.
  wp_step. rewrite (proj2 (testz_true (b1 + 8))) by lia. unfold when. wp_steps.
  set (s2 := set_tmem _ s1).
  assert (heap ∅ H1 s2) as Hp2.
  { eapply (heap_write_payload H1 s1 s2 b1 n Hp1 Hab1); [done|]. intros a Ha. simpl.
    apply load8_mem_copy_ne. lia. }
  eapply wp_mono; [by eapply (heap_free H1 s2 b (sz x) Hp2)|]. intros _ s3 (En3 & H3 & Hp3 & Ha3 & K3).
  wp_step. right. exists b1, H3, n. split_and!; try done; [by rewrite En3|lia|..].
  - intros c m. rewrite Ha3, Ha1. split; [tauto|]. intros [?|[-> ->]]; [tauto|]. split; [by right|done].
  - by right.
  - assert (∀ c m a, alloc H3 c m → c + 8 ≤ a < c + 8 + m → load8 (tmem s3) a = load8 (tmem s2) a) as K3'.
    { intros c m a (z & Hz & Fz & <- & _) Ha. by eapply K3. }
    split.
    + intros c m a Hc Hcb Ha. assert (alloc H1 c m) as Hc1 by (apply Ha1; by left).
      rewrite (K3' c m) by (done || by apply Ha3). simpl.
      assert (c ≠ b1) as Hcb1 by (intros ->; by eapply Hfresh).
      pose proof (Hsep _ _ _ _ Hc1 Hab1 Hcb1). rewrite load8_mem_copy_ne by lia.
      destruct Hc as (z & Hz & Fz & <- & _). by eapply K1.
    + intros i Hi. rewrite (K3' b1 n) by (lia || by apply Ha3). simpl.
      rewrite load8_mem_copy_in by lia. eapply K1; [done..|lia].
Qed.

(** The path that resizes the block where it is. *)
Lemma heap_realloc_trim H1 s1 x1 :
  heap ∅ H1 s1 → null s1 = null s → keeps H s s1 → H1 !! b = Some x1 → fr x1 = false →
  request size ≤ sz x1 → (∀ c m, alloc H1 c m ↔ alloc H c m ∧ c ≠ b ∨ c = b ∧ m = sz x1) →
  wp (block_trim_used b (request size);; mret (b + 8)) s1 realloc_post.
Proof.
  intros Hp1 En1 K1 Hb1 F1 Hsz Ha1. destruct (request_spec size ltac:(lia) Hr) as (Hrq1 & Hrq2 & Hrq3 & Hrq4 & _).
  wp_step. eapply wp_mono; [by eapply (heap_trim_used H1 s1 b x1)|].
  intros _ s2 (En2 & H2 & n & Hp2 & K2 & Hn & _ & Ha2). wp_step. right. exists b, H2, n.
  assert (moved H H2 b b n) as Hm.
  { intros c m. rewrite Ha2, Ha1. split; [|tauto]. intros [[[?|[-> _]] ?]|?]; tauto. }
  split_and!; try done; [congruence|lia|by left|]. split.
  - intros c m a Hc Hcb Ha. assert (alloc H2 c m) as (z & Hz & Fz & <- & _) by (apply Hm; by left).
    rewrite (K2 c z a) by (done || lia). destruct Hc as (w & Hw & Fw & Ew & _). eapply K1; [done..|lia].
  - intros i Hi. assert (alloc H2 b n) as (z & Hz & Fz & Ez & _) by (apply Hm; by right).
    rewrite (K2 b z) by (done || lia). eapply K1; [done..|lia].
Qed.

Lemma heap_realloc : wp (tlsf_realloc (b + 8) size) s realloc_post.
Proof.
  destruct (request_spec size ltac:(lia) Hr) as (Hs0 & _ & Hr1 & Hr2 & _).
  pose proof (tile_geo _ _ _ T) as Hg. pose proof (t_ok _ _ _ T _ _ Hb) as Ok. unfold block_ok in Ok.
  destruct (t_next _ _ _ T _ _ Hb Sx) as (y & Hy & _ & _ & _). pose proof (tile_sz T _ _ Hy).
  unfold tlsf_realloc. rewrite (proj2 (testz_true (b + 8))) by lia.
  rewrite (proj2 (Z.eqb_neq size 0)) by lia. simpl andb. simpl negb. cbv iota.
  assert (block_from_ptr (b + 8) = b) as ->.
  { unfold block_from_ptr. change block_start_offset with 8. rewrite wrapu_small; lia. }
  wp_step. eapply (wp_block_next _ H); [apply Hp|done..|lia|lia|].
  wp_step. eapply (wp_block_size _ H); [apply Hp|done..|].
  wp_step. eapply (wp_block_size _ H); [apply Hp|done..|]. change block_header_overhead with 4.
  rewrite wrapu_small by lia. wp_step. unfold wp at 1. change ALIGN_SIZE with (2 ^ 2).
  rewrite adjust_request_spec by lia. fold (request size).
  wp_step. eapply (wp_block_is_free _ H); [apply Hp|done..|]. wp_steps; [by rewrite Fx|].
  eapply (wp_block_is_free _ H); [apply Hp|done..|].
  destruct (Z.ltb_spec (sz x) (request size)) as [Hlt|Hge]; simpl andb; cbv iota.
  2: { wp_step. unfold when. wp_step. eapply (heap_realloc_trim H s x); try done.
    intros c m. split; [|intros [[? _]|[-> ->]]; [done|apply realloc_alloc]].
    intros Hc. destruct (decide (c = b)) as [->|]; [right|by left]. split; [done|].
    destruct Hc as (z & Hz & _ & <- & _). congruence. }
  destruct (negb (fr y) || (sz x + sz y + 4 <? request size)) eqn:E; [apply heap_realloc_move|].
  apply orb_false_iff in E as [Fy Hcomb%Z.ltb_ge]. apply negb_false_iff in Fy.
  pose proof (tile_free_sz T _ _ Hy Fy).
  destruct (t_next _ _ _ T _ _ Hy ltac:(lia)) as (z & Hz & _).
  wp_step. unfold when. wp_step.
  eapply wp_mono; [by apply (heap_grow Hb Fx Sx Hy Fy Hz s Hp)|]. intros ? s1 Hw.
  eapply wp_mono; [exact Hw|]. intros _ s2 (En2 & Hp2 & K2).
  eapply (heap_realloc_trim _ s2 (Blk (sz x + 4 + sz y) false (pf x) (lim x))); try done.
  - unfold absorb. by rewrite lookup_insert_eq.
  - simpl. lia.
  - apply (alloc_grow Hb Fx Sx Hy Fy Hz s Hp).
Qed.

End Realloc.
