(* ===== verification/TlsfClient.v ===== *)
(** * TLSF: the client's view

    The contract of the allocator, stated on the calls alone: a client holds a
    map from the pointers it was given to the sizes it asked for.  [run]
    relates the states a client can reach by any sequence of calls and of
    writes into the blocks it holds to that map; the theorems say what every
    call does from there. *)

From S2P Require Import Prelude Memory Tlsf TlsfMap TlsfHeap TlsfWp TlsfLists TlsfAlloc TlsfApi.
From S2P Require Import TlsfPool TlsfMemalign TlsfRealloc.

Abbreviation holdings := (gmap Z Z).

(** A region fit for [tlsf_create_with_pool]. *)
Definition region_ok (s : tlsf_state) (pmem bytes : Z) : Prop :=
  control_addr (ctl s) = pmem ∧ pmem mod 4 = 0 ∧ 0 < pmem ∧ pmem + bytes ≤ 2 ^ 32 ∧
  tlsf_size + tlsf_pool_overhead + block_size_min ≤ bytes < tlsf_size + tlsf_pool_overhead + block_size_max.

Definition give (p size : Z) (A : holdings) : holdings :=
  if p =? 0 then A else <[p := size]> A.

Inductive run : tlsf_state → holdings → Prop :=
| run_create s0 pmem bytes p s :
    region_ok s0 pmem bytes → tlsf_create_with_pool pmem bytes s0 = Ok (p, s) → run s ∅
| run_malloc s A size p s' :
    run s A → 0 ≤ size ≤ 2 ^ 32 - 4 → tlsf_malloc size s = Ok (p, s') → run s' (give p size A)
| run_memalign s A k size p s' :
    run s A → 0 ≤ size ≤ 2 ^ 32 - 4 → 0 ≤ k ≤ 29 → tlsf_memalign (2 ^ k) size s = Ok (p, s') →
    run s' (give p size A)
| run_realloc s A p n size p' s' :
    run s A → A !! p = Some n → 0 < size ≤ 2 ^ 30 - 4 → tlsf_realloc p size s = Ok (p', s') →
    run s' (if p' =? 0 then A else <[p' := size]> (delete p A))
| run_free s A p n s' :
    run s A → A !! p = Some n → tlsf_free p s = Ok (tt, s') → run s' (delete p A)
| run_write s A p n a v :
    run s A → A !! p = Some n → p ≤ a < p + n → run (set_tmem (λ m, store8 m a v) s) A.

(** ** The invariant behind a client's holdings *)

Record agrees (H : blkmap) (A : holdings) : Prop := MkAgrees {
  ag_block p n : A !! p = Some n → ∃ m, alloc H (p - 8) m ∧ n ≤ m;
  ag_held b m : alloc H b m → is_Some (A !! (b + 8));
}.

Lemma wp_elim {S A} (c : M S A) s Q a s' : wp c s Q → c s = Ok (a, s') → Q a s'.
Proof. unfold wp. intros HQ E. by rewrite E in HQ. Qed.

Lemma heap_create s0 pmem bytes : region_ok s0 pmem bytes →
  wp (tlsf_create_with_pool pmem bytes) s0 (λ p s', p = pmem ∧
    let H := with_pool (pmem + tlsf_size) (4 * ((bytes - tlsf_size - 8) / 4)) ∅ in
    heap ∅ H s' ∧ ∀ b m, ¬ alloc H b m).
Proof.
  intros (Ea & Hal & Hlo & Hhi & Hby). change tlsf_size with 3188 in *. change tlsf_pool_overhead with 8 in *.
  change block_size_min with 12 in *. change block_size_max with (2 ^ 30) in *.
  unfold tlsf_create_with_pool, tlsf_create. rewrite aligned_rem by lia.
  rewrite (proj2 (Z.eqb_eq _ _) Hal). simpl negb. cbv iota. change tlsf_size with 3188 in *.
  rewrite !wrapu_small by lia. wp_step. wp_step.
  eapply wp_mono; [apply heap_construct; unfold addr_ok; rewrite Ea; change tlsf_size with 3188; lia|].
  intros _ s1 (En & Hp & _). wp_steps. set (pb := 4 * ((bytes - 3188 - 8) / 4)).
  assert (pool_ok (null s1) ∅ (pmem + 3188) pb) as Ho.
  { rewrite En, Ea. assert (12 ≤ pb < 2 ^ 30 ∧ pb + 8 + 3188 ≤ bytes) as [? ?]
      by (unfold pb; Z.div_mod_to_equations; lia).
    split; [|unfold pb; rewrite Z.mul_comm; apply Z_mod_mult|lia|lia|lia| |done].
    - Z.div_mod_to_equations. lia.
    - change tlsf_size with 3188. lia. }
  eapply wp_mono; [apply (heap_add_pool Hp Ho (bytes - 3188)); [lia|done]|].
  intros ? s2 (-> & En2 & Hp2 & _). wp_step. split; [done|]. split; [done|].
  intros b m Hm. apply (pool_alloc Hp Ho) in Hm as (x & Hx & _). done.
Qed.

Section Agrees.
Context {H H' : blkmap} {A : holdings} (Hag : agrees H A).

Lemma agrees_give b m size :
  size ≤ m → (∀ c k, alloc H' c k ↔ alloc H c k ∨ c = b ∧ k = m) → agrees H' (<[b + 8 := size]> A).
Proof.
  intros Hs Ha. split.
  - intros p n Hp. map_cases.
    + exists m. rewrite Ha. split; [right; split; lia|done].
    + apply (ag_block _ _ Hag) in Hp as (k & ? & ?). exists k. rewrite Ha. auto.
  - intros c k Hc. apply Ha in Hc as [Hc|[-> ->]].
    + apply lookup_insert_is_Some'. right. by apply (ag_held _ _ Hag _ k).
    + rewrite lookup_insert_eq. done.
Qed.

Lemma agrees_take p n : A !! p = Some n →
  (∀ c k, alloc H' c k ↔ alloc H c k ∧ c ≠ p - 8) → agrees H' (delete p A).
Proof.
  intros Hp Ha. split.
  - intros q k Hq. map_cases. apply (ag_block _ _ Hag) in Hq as (j & ? & ?). exists j. rewrite Ha.
    split; [split; [done|lia]|done].
  - intros c k [Hc Hne]%Ha. rewrite lookup_delete_ne by lia. by apply (ag_held _ _ Hag _ k).
Qed.

End Agrees.

Lemma agrees_move H H' A p n b' m size :
  agrees H A → A !! p = Some n → size ≤ m → moved H H' (p - 8) b' m →
  agrees H' (<[b' + 8 := size]> (delete p A)).
Proof.
  intros Hag Hp Hs Hm. split.
  - intros q k Hq. map_cases.
    + exists m. rewrite (Hm _ _). split; [right; split; lia|done].
    + apply (ag_block _ _ Hag) in Hq as (j & ? & ?). exists j. rewrite (Hm _ _).
      split; [left; split; [done|lia]|done].
  - intros c k [[Hc Hne]|[-> ->]]%Hm.
    + apply lookup_insert_is_Some'. right. rewrite lookup_delete_ne by lia.
      by apply (ag_held _ _ Hag _ k).
    + rewrite lookup_insert_eq. done.
Qed.

Lemma alloc_bounds H s b m : heap ∅ H s → alloc H b m →
  0 < b ∧ b mod 4 = 0 ∧ 12 ≤ m ∧ b + 12 + m ≤ 2 ^ 32.
Proof.
  intros Hp (x & Hb & Fx & <- & Hx). apply (t_ok _ _ _ (h_tile _ _ _ Hp)) in Hb.
  unfold block_ok in Hb. lia.
Qed.

Lemma alloc_disjoint H s b c m k : heap ∅ H s → alloc H b m → alloc H c k → b ≠ c →
  b + 8 + m ≤ c + 4 ∨ c + 8 + k ≤ b + 4.
Proof.
  intros Hp (x & Hb & _ & <- & _) (y & Hc & _ & <- & _) Hne.
  pose proof (tile_sep2 (h_tile _ _ _ Hp) _ _ _ _ Hb Hc Hne). unfold nxt in *. lia.
Qed.

Lemma held_ptr H s A p n : heap ∅ H s → agrees H A → A !! p = Some n →
  ∃ x, H !! (p - 8) = Some x ∧ fr x = false ∧ sz x ≠ 0 ∧ n ≤ sz x ∧ 8 < p.
Proof.
  intros Hp Hag Hpn. apply (ag_block _ _ Hag) in Hpn as (m & Hm & Hnm).
  pose proof (alloc_bounds _ _ _ _ Hp Hm). destruct Hm as (x & Hx & Fx & <- & Hx0).
  exists x. split_and!; try done. lia.
Qed.

Lemma request_small size : 0 < size ≤ 2 ^ 30 - 4 → request size ≠ 0.
Proof. intros Hs E. apply request_zero in E; lia. Qed.

(** Every state a client reaches satisfies the heap invariant. *)
Lemma run_inv s A : run s A → ∃ H, heap ∅ H s ∧ agrees H A.
Proof.
  induction 1 as [s0 pmem bytes p s Hr E|s A size p s' _ (H & Hp & Hag) Hs E|s A k size p s' _ (H & Hp & Hag) Hs Hk E
    |s A p n size p' s' _ (H & Hp & Hag) Hpn Hs E|s A p n s' _ (H & Hp & Hag) Hpn E|s A p n a v _ (H & Hp & Hag) Hpn Ha].
  - apply (wp_elim _ _ _ _ _ (heap_create _ _ _ Hr)) in E as (_ & Hp & Hno).
    eexists. split; [exact Hp|]. split; [done|]. intros b m Hm. by apply Hno in Hm.
  - apply (wp_elim _ _ _ _ _ (heap_malloc _ _ _ Hp Hs)) in E as
      [(-> & -> & _)|(b & H' & n & -> & _ & Hp' & _ & Hr & Hn & _ & Ha)]; [by exists H|].
    exists H'. split; [done|]. unfold give. apply request_spec in Hr; [|lia].
    assert (alloc H' b n) as Hb by (apply Ha; by right). apply (alloc_bounds _ _ _ _ Hp') in Hb.
    case_cmp; [lia|]. apply (agrees_give Hag b n size); [lia|done].
  - apply (wp_elim _ _ _ _ _ (heap_memalign _ _ _ _ Hp Hs Hk)) in E as
      [(-> & ->)|(b & H' & n & -> & _ & _ & Hp' & _ & Hr & Hn & _ & Ha)]; [by exists H|].
    exists H'. split; [done|]. unfold give. apply request_spec in Hr; [|lia].
    assert (alloc H' b n) as Hb by (apply Ha; by right). apply (alloc_bounds _ _ _ _ Hp') in Hb.
    case_cmp; [lia|]. apply (agrees_give Hag b n size); [lia|done].
  - destruct (held_ptr _ _ _ _ _ Hp Hag Hpn) as (x & Hx & Fx & Sx & _ & _).
    pose proof (request_small size Hs) as Hr.
    assert (0 ≤ size ≤ 2 ^ 32 - 4) as Hs' by lia.
    pose proof (heap_realloc Hp Hx Fx Sx Hs' Hr) as Hw. replace (p - 8 + 8) with p in Hw by lia.
    apply (wp_elim _ _ _ _ _ Hw) in E as [(-> & ->)|(b & H' & m & -> & _ & Hp' & Hn & Hm & _ & _)]; [by exists H|].
    exists H'. split; [done|]. apply request_spec in Hr; [|lia].
    assert (alloc H' b m) as Hb by (apply Hm; by right). apply (alloc_bounds _ _ _ _ Hp') in Hb.
    case_cmp; [lia|]. apply (agrees_move H H' A p n b m size); [done|done|lia|done].
  - destruct (held_ptr _ _ _ _ _ Hp Hag Hpn) as (x & Hx & Fx & Sx & _ & _).
    assert (alloc H (p - 8) (sz x)) as Hal by (exists x; done).
    pose proof (heap_free _ _ _ _ Hp Hal) as Hw. replace (p - 8 + 8) with p in Hw by lia.
    apply (wp_elim _ _ _ _ _ Hw) in E as (_ & H' & Hp' & Ha & _).
    exists H'. split; [done|]. by eapply agrees_take.
  - exists H. split; [|done]. destruct (held_ptr _ _ _ _ _ Hp Hag Hpn) as (x & Hx & Fx & Sx & Hn & _).
    assert (alloc H (p - 8) (sz x)) as Hal by (exists x; done).
    eapply heap_write_payload; [done|done|done|]. intros a' Ha'. simpl. apply load8_store8_ne. lia.
Qed.

(** ** The contract *)

(** [p] is a block of [size] bytes that overlaps nothing the client holds. *)
Definition fresh_block (A : holdings) (p size : Z) : Prop :=
  0 < p ∧ p mod 4 = 0 ∧ p + size ≤ 2 ^ 32 ∧ A !! p = None ∧
  ∀ q n, A !! q = Some n → p + size ≤ q ∨ q + n ≤ p.

(** What the client stored in the blocks it holds is still there. *)
Definition contents_kept (A : holdings) (s s' : tlsf_state) : Prop :=
  ∀ q n a, A !! q = Some n → q ≤ a < q + n → load8 (tmem s') a = load8 (tmem s) a.

(** ** What a release leaves *)

(** The block [tlsf_free] has to leave behind: the one of [ptr] together with
    the physical neighbours that are free, read off the headers. *)
Definition coalesced (ptr : Z) : TM (Z * Z) :=
  let block := block_from_ptr ptr in
  pf ← block_is_prev_free block;
  start ← (if pf : bool then block_prev block else mret block);
  next ← block_next block;
  nf ← block_is_free next;
  stop ← (if nf : bool then block_next next else mret next);
  mret (start, stop - start - block_header_overhead).

(** A free block of [size] bytes at [b], as the allocator's own accessors see
    it: marked in its header and, with the back link, in the next one; between
    two blocks that are not free; the first of the list of its size. *)
Record free_block (s : tlsf_state) (b size : Z) : Prop := MkFreeBlock {
  fb_size : block_size b s = Ok (size, s);
  fb_free : block_is_free b s = Ok (true, s);
  fb_prev : block_is_prev_free b s = Ok (false, s);
  fb_next : ∃ next, block_next b s = Ok (next, s) ∧ block_is_free next s = Ok (false, s)
    ∧ block_is_prev_free next s = Ok (true, s) ∧ block_prev next s = Ok (b, s);
  fb_index : let '(fl, sl) := mapping_insert size in
    blocks_get fl sl s = Ok (b, s) ∧ Z.testbit (fl_bitmap (ctl s)) fl = true
    ∧ ∃ word, sl_get fl s = Ok (word, s) ∧ Z.testbit word sl = true;
}.

Lemma wp_pure {A} (c : TM A) s v : wp c s (λ a s', a = v ∧ s' = s) → c s = Ok (v, s).
Proof. by intros (? & ? & ? & -> & ->)%wp_Ok. Qed.

Lemma released_extent H s b x y H' c q x' :
  heap ∅ H s → H !! b = Some x → fr x = false → sz x ≠ 0 → H !! nxt b x = Some y →
  released H b x y H' c q x' →
  coalesced (b + 8) s = Ok ((q, sz x'), s) ∧ q ≤ b ∧ b + sz x ≤ q + sz x'.
Proof.
  intros Hp Hb Fx Sx Hy Hre. pose proof (h_tile _ _ _ Hp) as T. pose proof (tile_geo _ _ _ T) as Hg.
  pose proof (t_ok _ _ _ T _ _ Hb) as Ok. unfold block_ok in Ok.
  pose proof (t_ok _ _ _ T _ _ Hy) as Oky. unfold block_ok in Oky.
  pose proof (re_start _ _ _ _ _ _ _ _ Hre) as Hst. pose proof (re_end _ _ _ _ _ _ _ _ Hre) as Hend.
  assert (q ≤ b) as Hq.
  { destruct (pf x); [|lia]. destruct Hst as (z & Hz & _ & <-). pose proof (tile_sz T _ _ Hz). unfold nxt. lia. }
  assert (block_from_ptr (b + 8) = b) as Eb.
  { unfold block_from_ptr. change block_start_offset with 8. rewrite wrapu_small; lia. }
  split; [|destruct (fr y); unfold nxt in Hend; lia].
  apply wp_pure. unfold coalesced. rewrite Eb. wp_step.
  eapply (wp_block_is_prev_free _ H); [apply Hp|done..|]. wp_step.
  assert (∀ Q, Q q s → wp (if pf x then block_prev b else mret b) s Q) as Hprev.
  { intros Q HQ. destruct (pf x) eqn:E; [|subst; by wp_step]. destruct Hst as (z & Hz & Fz & <-).
    eapply (wp_block_prev _ H); [apply Hp|done..| |done]. by apply (h_link _ _ _ Hp). }
  apply Hprev. wp_step. eapply (wp_block_next _ H); [apply Hp|done..|lia|lia|].
  wp_step. eapply (wp_block_is_free _ H); [apply Hp|done..|]. wp_step.
  assert (∀ Q, Q (nxt q x') s → wp (if fr y then block_next (nxt b x) else mret (nxt b x)) s Q) as Hnext.
  { intros Q HQ. rewrite Hend in HQ. destruct (fr y) eqn:E; [|by wp_step].
    pose proof (tile_free_sz T _ _ Hy E). eapply (wp_block_next _ H); [apply Hp|done..|lia|lia|lia|done]. }
  apply Hnext. wp_step. split; [|done]. f_equal. change block_header_overhead with 4. unfold nxt. lia.
Qed.

Lemma released_free_block H b x y H' q x' s' :
  heap ∅ H' s' → released H b x y H' (ctl s') q x' → free_block s' q (sz x').
Proof.
  intros Hp [Hq Fq Pq Nq _ _ Hix]. pose proof (h_tile _ _ _ Hp) as T. pose proof (tile_geo _ _ _ T) as Hg.
  pose proof (tile_free_sz T _ _ Hq Fq). pose proof (t_ok _ _ _ T _ _ Hq) as Ok. unfold block_ok in Ok.
  destruct (t_next _ _ _ T _ _ Hq ltac:(lia)) as (w & Hw & Pw & _). rewrite Fq in Pw.
  destruct (h_lists _ _ _ Hp) as [F HF]. pose proof (i_shape _ _ (l_index _ _ _ _ HF)) as Hs.
  split.
  - apply wp_pure. by eapply (wp_block_size _ H'); [apply Hp|..].
  - apply wp_pure. rewrite <- Fq. by eapply (wp_block_is_free _ H'); [apply Hp|..].
  - apply wp_pure. rewrite <- Pq. by eapply (wp_block_is_prev_free _ H'); [apply Hp|..].
  - exists (nxt q x'). split_and!; apply wp_pure.
    + eapply (wp_block_next _ H'); [apply Hp|done..|lia|lia|lia|done].
    + rewrite <- (Nq w Hw). by eapply (wp_block_is_free _ H'); [apply Hp|..].
    + rewrite <- Pw. by eapply (wp_block_is_prev_free _ H'); [apply Hp|..].
    + eapply (wp_block_prev _ H'); [apply Hp|done..| |done]. by apply (h_link _ _ _ Hp).
  - unfold indexed in Hix. destruct (mapping_insert (sz x')) as [fl sl]. destruct Hix as (Hc & Eh & Hfl & Hsl).
    split_and!; [|done|exists (sl_at (ctl s') fl); split; [|done]]; apply wp_pure.
    + by apply wp_blocks_get.
    + apply wp_sl_get; [done|apply Hc|done].
Qed.

(** ** The theorems *)

Lemma keeps_contents H s s' A : agrees H A → keeps H s s' → contents_kept A s s'.
Proof.
  intros Hag K q n a Hq Ha. apply (ag_block _ _ Hag) in Hq as (m & (x & Hx & Fx & <- & _) & Hn).
  eapply K; [done..|lia].
Qed.

Lemma agrees_fresh H H' s s' A b n size :
  heap ∅ H s → heap ∅ H' s' → agrees H A → size ≤ n → (∀ m, ¬ alloc H b m) →
  (∀ c m, alloc H' c m ↔ alloc H c m ∨ c = b ∧ m = n) → fresh_block A (b + 8) size.
Proof.
  intros Hp Hp' Hag Hs Hno Ha. assert (alloc H' b n) as Hb by (apply Ha; by right).
  pose proof (alloc_bounds _ _ _ _ Hp' Hb) as (? & Hb4 & ? & ?). split_and!; try lia.
  - Z.div_mod_to_equations. lia.
  - destruct (A !! (b + 8)) as [k|] eqn:E; [|done].
    apply (ag_block _ _ Hag) in E as (m & Hm & _). replace (b + 8 - 8) with b in Hm by lia. by apply Hno in Hm.
  - intros q k Hq. apply (ag_block _ _ Hag) in Hq as (m & Hm & ?).
    assert (b ≠ q - 8) as Hne by (intros ->; by apply Hno in Hm).
    destruct (alloc_disjoint _ _ _ _ _ _ Hp' Hb (proj2 (Ha _ _) (or_introl Hm)) Hne); lia.
Qed.

Lemma malloc_returns s A size :
  run s A → 0 ≤ size ≤ 2 ^ 32 - 4 →
  ∃ p s', tlsf_malloc size s = Ok (p, s') ∧
    (p = 0 ∧ s' = s ∨ 0 < size ∧ fresh_block A p size ∧ contents_kept A s s').
Proof.
  intros (H & Hp & Hag)%run_inv Hs.
  pose proof (heap_malloc H s size Hp Hs) as (p & s' & E & Hpost)%wp_Ok. exists p, s'. split; [done|].
  destruct Hpost as [(-> & -> & _)|(b & H' & n & -> & _ & Hp' & K & Hr & Hn & Hno & Ha)]; [by left|right].
  apply request_spec in Hr; [|lia]. split; [lia|]. split; [|by eapply keeps_contents].
  apply (agrees_fresh H H' s s' A b n size); try done. lia.
Qed.

(** C1: From every state a client can reach, [tlsf_malloc] returns: no
    assertion fails and no array is overrun.  It returns null and changes
    nothing, or a 4-aligned block of the requested size that overlaps no block
    the client holds, leaving the contents of all of those untouched. *)
Theorem tlsf_malloc_correct s A size :
  run s A → 0 ≤ size ≤ 2 ^ 32 - 4 →
  ∃ p s', tlsf_malloc size s = Ok (p, s') ∧
    (p = 0 ∧ s' = s ∨ 0 < size ∧ fresh_block A p size ∧ contents_kept A s s').
Proof. apply malloc_returns. Qed.

(** C4: [tlsf_memalign] with an alignment of [2^k], k at most 29, makes the
    same promise as [tlsf_malloc], for a block aligned to [2^k]. *)
Theorem tlsf_memalign_correct s A k size :
  run s A → 0 ≤ size ≤ 2 ^ 32 - 4 → 0 ≤ k ≤ 29 →
  ∃ p s', tlsf_memalign (2 ^ k) size s = Ok (p, s') ∧
    (p = 0 ∧ s' = s
     ∨ 0 < size ∧ p mod 2 ^ k = 0 ∧ fresh_block A p size ∧ contents_kept A s s').
Proof.
  intros (H & Hp & Hag)%run_inv Hs Hk.
  pose proof (heap_memalign H s size k Hp Hs Hk) as (p & s' & E & Hpost)%wp_Ok. exists p, s'. split; [done|].
  destruct Hpost as [(-> & ->)|(b & H' & n & -> & Hal & _ & Hp' & K & Hr & Hn & Hno & Ha)]; [by left|right].
  apply request_spec in Hr; [|lia]. split; [lia|]. split; [done|]. split; [|by eapply keeps_contents].
  apply (agrees_fresh H H' s s' A b n size); try done. lia.
Qed.

(** C2: [tlsf_free] of a block the client holds returns, and leaves the block
    joined with its free neighbours as one free block: its extent is the one
    [coalesced] computes from the headers before the call, its header and the
    one after it mark it free, neither neighbour is free, and it is the first
    of the free list of its size, with the bits of both bitmaps set.  The
    contents of every other block the client holds are untouched. *)
Theorem tlsf_free_correct s A p n :
  run s A → A !! p = Some n →
  ∃ b size s', coalesced p s = Ok ((b, size), s) ∧ b + 8 ≤ p ∧ p + n ≤ b + 8 + size ∧
    tlsf_free p s = Ok (tt, s') ∧ free_block s' b size ∧ contents_kept (delete p A) s s'.
Proof.
  intros (H & Hp & Hag)%run_inv Hpn. pose proof (h_tile _ _ _ Hp) as T.
  destruct (held_ptr _ _ _ _ _ Hp Hag Hpn) as (x & Hx & Fx & Sx & Hn & _).
  destruct (t_next _ _ _ T _ _ Hx Sx) as (y & Hy & _).
  pose proof (heap_release _ _ _ _ _ Hp Hx Fx Sx Hy) as Hw. replace (p - 8 + 8) with p in Hw by lia.
  apply wp_Ok in Hw as ([] & s' & E & _ & H' & q & x' & Hp' & Ha & K & Hre). exists q, (sz x'), s'.
  pose proof (released_extent _ _ _ _ _ _ _ _ _ Hp Hx Fx Sx Hy Hre) as [Ec Hlo].
  replace (p - 8 + 8) with p in Ec by lia. split_and!; [done|lia|lia|done| |].
  - by eapply released_free_block.
  - eapply keeps_contents; [|exact K]. by eapply agrees_take.
Qed.

(** C3: [tlsf_realloc] of a block the client holds to a size up to 2^30 - 4
    returns.  It returns null and changes nothing, or a block of the new size
    that overlaps no other block the client holds and starts with the bytes of
    the old one, up to the smaller of the two sizes; the other blocks keep
    their contents. *)
Theorem tlsf_realloc_correct s A p n size :
  run s A → A !! p = Some n → 0 < size ≤ 2 ^ 30 - 4 →
  ∃ p' s', tlsf_realloc p size s = Ok (p', s') ∧
    (p' = 0 ∧ s' = s
     ∨ fresh_block (delete p A) p' size ∧ contents_kept (delete p A) s s'
       ∧ ∀ i, 0 ≤ i < Z.min n size → load8 (tmem s') (p' + i) = load8 (tmem s) (p + i)).
Proof.
  intros (H & Hp & Hag)%run_inv Hpn Hs.
  destruct (held_ptr _ _ _ _ _ Hp Hag Hpn) as (x & Hx & Fx & Sx & Hnx & _).
  pose proof (request_small size Hs) as Hr. assert (0 ≤ size ≤ 2 ^ 32 - 4) as Hs' by lia.
  pose proof (heap_realloc Hp Hx Fx Sx Hs' Hr) as Hw. replace (p - 8 + 8) with p in Hw by lia.
  apply wp_Ok in Hw as (p' & s' & E & Hpost). exists p', s'. split; [done|].
  destruct Hpost as [(-> & ->)|(b & H' & m & -> & _ & Hp' & Hn & Hm & Hfr & Hkeep & Hcopy)]; [by left|right].
  apply request_spec in Hr; [|lia].
  assert (alloc H' b m) as Hb by (apply Hm; by right).
  pose proof (alloc_bounds _ _ _ _ Hp' Hb) as (? & Hb4 & ? & ?).
  assert (∀ q k, delete p A !! q = Some k → ∃ j, alloc H (q - 8) j ∧ q - 8 ≠ p - 8 ∧ k ≤ j) as Hothers.
  { intros q k Hq. map_cases. apply (ag_block _ _ Hag) in Hq as (j & ? & ?). exists j. split_and!; try done. lia. }
  assert (∀ q k, delete p A !! q = Some k → b + 8 ≠ q) as Hfresh.
  { intros q k Hq E'. destruct (Hothers q k Hq) as (j & Hj & Hne & _).
    assert (q - 8 = b) as Eq by lia. rewrite Eq in *. destruct Hfr as [|Hfr]; [done|by apply Hfr in Hj]. }
  split_and!.
  - split_and!; try lia; [Z.div_mod_to_equations; lia| |].
    + destruct (delete p A !! (b + 8)) as [k|] eqn:Ek; [|done]. by apply Hfresh in Ek.
    + intros q k Hq. destruct (Hothers q k Hq) as (j & Hj & Hne & ?). apply Hfresh in Hq as Hbq.
      assert (alloc H' (q - 8) j) as Hj' by (apply Hm; by left).
      destruct (alloc_disjoint _ _ _ _ _ _ Hp' Hb Hj'); lia.
  - intros q k a Hq Ha. destruct (Hothers q k Hq) as (j & Hj & Hne & ?). by apply (Hkeep (q - 8) j); [..|lia].
  - intros i Hi. replace (p + i) with (p - 8 + 8 + i) by lia. apply Hcopy. lia.
Qed.

(** ** Witnesses: a pool of 8192 bytes at 4096 *)

Definition state_after {A} (c : TM A) (s : tlsf_state) : tlsf_state :=
  match c s with Ok (_, s') => s' | Fault _ => s end.
Definition value_of {A} (c : TM A) (s : tlsf_state) : option A :=
  match c s with Ok (a, _) => Some a | Fault _ => None end.

Lemma run_value {A} (c : TM A) s a : value_of c s = Some a → c s = Ok (a, state_after c s).
Proof. unfold value_of, state_after. destruct (c s) as [[b s']|]; by intros [= ->]. Qed.

Definition demo_init : tlsf_state := MkTlsf ∅ (MkControl 4096 0 [] []).
Definition demo0 : tlsf_state := state_after (tlsf_create_with_pool 4096 8192) demo_init.
Definition demo1 : tlsf_state := state_after (tlsf_malloc 100) demo0.
Definition demo2 : tlsf_state := state_after (tlsf_malloc 40) demo1.

Lemma demo0_run : run demo0 ∅.
Proof.
  apply (run_create demo_init 4096 8192 4096); [unfold region_ok; split_and!; by vm_compute|].
  unfold demo0. apply (run_value (tlsf_create_with_pool 4096 8192) demo_init 4096). by vm_compute.
Qed.

Lemma demo1_run : run demo1 {[7288 := 100]}.
Proof.
  apply (run_malloc demo0 ∅ 100 7288); [apply demo0_run|lia|].
  unfold demo1. apply (run_value (tlsf_malloc 100) demo0 7288). by vm_compute.
Qed.

Lemma demo2_run : run demo2 {[7392 := 40; 7288 := 100]}.
Proof.
  apply (run_malloc demo1 {[7288 := 100]} 40 7392); [apply demo1_run|lia|].
  unfold demo2. apply (run_value (tlsf_malloc 40) demo1 7392). by vm_compute.
Qed.

Lemma tlsf_malloc_correct_witness :
  ∃ p s', tlsf_malloc 24 demo2 = Ok (p, s') ∧ (p = 0 ∧ s' = demo2 ∨ 0 < 24
    ∧ fresh_block {[7392 := 40; 7288 := 100]} p 24 ∧ contents_kept {[7392 := 40; 7288 := 100]} demo2 s').
Proof. apply (tlsf_malloc_correct demo2 {[7392 := 40; 7288 := 100]} 24); [apply demo2_run|lia]. Defined.

Lemma tlsf_memalign_correct_witness :
  ∃ p s', tlsf_memalign (2 ^ 6) 24 demo2 = Ok (p, s') ∧ (p = 0 ∧ s' = demo2 ∨ 0 < 24 ∧ p mod 2 ^ 6 = 0
    ∧ fresh_block {[7392 := 40; 7288 := 100]} p 24 ∧ contents_kept {[7392 := 40; 7288 := 100]} demo2 s').
Proof. apply (tlsf_memalign_correct demo2 {[7392 := 40; 7288 := 100]} 6 24); [apply demo2_run|lia|lia]. Defined.

(** The block at 7392 is followed by the rest of the pool, which is free. *)
Lemma tlsf_free_correct_witness :
  coalesced 7392 demo2 = Ok ((7384, 4892), demo2) ∧
  ∃ s', tlsf_free 7392 demo2 = Ok (tt, s') ∧ free_block s' 7384 4892
    ∧ contents_kept (delete 7392 {[7392 := 40; 7288 := 100]}) demo2 s'.
Proof.
  destruct (tlsf_free_correct demo2 {[7392 := 40; 7288 := 100]} 7392 40) as (b & size & s' & Ec & _ & _ & Hs');
    [apply demo2_run|reflexivity|].
  assert (value_of (coalesced 7392) demo2 = Some (b, size)) as Ev by (unfold value_of; by rewrite Ec).
  vm_compute in Ev. injection Ev as <- <-. split; [exact Ec|]. exists s'. exact Hs'.
Defined.

Lemma tlsf_realloc_correct_witness :
  ∃ p' s', tlsf_realloc 7392 500 demo2 = Ok (p', s') ∧
    (p' = 0 ∧ s' = demo2
     ∨ fresh_block (delete 7392 {[7392 := 40; 7288 := 100]}) p' 500
       ∧ contents_kept (delete 7392 {[7392 := 40; 7288 := 100]}) demo2 s'
       ∧ ∀ i, 0 ≤ i < Z.min 40 500 → load8 (tmem s') (p' + i) = load8 (tmem demo2) (7392 + i)).
Proof.
  apply (tlsf_realloc_correct demo2 {[7392 := 40; 7288 := 100]} 7392 40 500);
    [apply demo2_run|reflexivity|lia].
Defined.

(** C6: [tlsf_malloc] fails only for lack of memory: it succeeds whenever the
    heap has one free block that exceeds the rounded request by at least a
    thirty-second of it. *)
Theorem tlsf_malloc_succeeds H s b x size :
  heap ∅ H s → H !! b = Some x → fr x = true → 0 < size ≤ 2 ^ 30 - 4 →
  request size + request size / 32 ≤ sz x →
  ∃ p s', tlsf_malloc size s = Ok (p, s') ∧ p ≠ 0.
Proof.
  intros Hp Hb Fx Hs Hfit. assert (0 ≤ size ≤ 2 ^ 32 - 4) as Hs' by lia.
  pose proof (heap_malloc H s size Hp Hs') as (p & s' & E & Hpost)%wp_Ok. exists p, s'. split; [done|].
  pose proof (request_small size Hs) as Hr. destruct (request_spec size ltac:(lia) Hr) as (_ & _ & Hr1 & _).
  destruct Hpost as [(-> & -> & [|Hex])|(c & H' & n & -> & _ & Hp' & _ & _ & _ & _ & Ha)]; [done|exfalso|].
  - specialize (Hex b x Hb Fx). pose proof (tile_sz (h_tile _ _ _ Hp) _ _ Hb).
    destruct (Z.lt_ge_cases (request size) 128).
    + rewrite mapping_search_small in Hex by done.
      pose proof (rank_mono (request size) (sz x)). pose proof (Z.div_pos (request size) 32). lia.
    + destruct (mapping_search_large (request size)) as [Es ?]; [lia|]. rewrite Es in Hex.
      pose proof (log2_bounds (request size) ltac:(lia)) as [Hlo _].
      pose proof (log2_large (request size) ltac:(lia)). rewrite (pow2_split (Z.log2 _)) in Hlo by lia.
      assert (2 ^ (Z.log2 (request size) - 5) ≤ request size / 32) by (apply Z.div_le_lower_bound; lia).
      pose proof (rank_mono (request size + 2 ^ (Z.log2 (request size) - 5) - 1) (sz x)). lia.
  - assert (alloc H' c n) as Hc by (apply Ha; by right). apply (alloc_bounds _ _ _ _ Hp') in Hc. lia.
Qed.

Lemma demo0_heap : heap ∅ (with_pool 7284 4996 ∅) demo0.
Proof.
  assert (region_ok demo_init 4096 8192) as Hr by (unfold region_ok; split_and!; by vm_compute).
  assert (tlsf_create_with_pool 4096 8192 demo_init = Ok (4096, demo0)) as E.
  { unfold demo0. apply (run_value (tlsf_create_with_pool 4096 8192) demo_init 4096). by vm_compute. }
  apply (wp_elim _ _ _ _ _ (heap_create _ _ _ Hr)) in E as (_ & Hp & _). exact Hp.
Qed.

Lemma tlsf_malloc_succeeds_witness : ∃ p s', tlsf_malloc 4000 demo0 = Ok (p, s') ∧ p ≠ 0.
Proof.
  apply (tlsf_malloc_succeeds (with_pool 7284 4996 ∅) demo0 7280 (pool_block 4996 12288) 4000);
    [apply demo0_heap|reflexivity|reflexivity|lia|]. vm_compute. done.
Defined.

(** C8: [tlsf_add_pool] extends any heap: given an aligned region of less than
    2^30 bytes that the heap does not use, it returns the pool, the heap
    invariant holds with the region as one new free block, and the blocks in
    use and their contents are unchanged. *)
Theorem tlsf_add_pool_correct H s pmem bytes :
  heap ∅ H s → 8 ≤ bytes < 2 ^ 32 → pool_ok (null s) H pmem (4 * ((bytes - 8) / 4)) →
  ∃ s', let H' := with_pool pmem (4 * ((bytes - 8) / 4)) H in
    tlsf_add_pool pmem bytes s = Ok (pmem, s') ∧ heap ∅ H' s' ∧ same_alloc H H' ∧ keeps H s s'.
Proof.
  intros Hp Hb Ho. pose proof (heap_add_pool Hp Ho bytes Hb eq_refl) as (p & s' & E & -> & _ & Hp' & K)%wp_Ok.
  exists s'. split_and!; try done. by apply (pool_alloc Hp Ho).
Qed.

Lemma tlsf_add_pool_correct_witness :
  ∃ s', let H' := with_pool 65536 (4 * ((1000 - 8) / 4)) (with_pool 7284 4996 ∅) in
    tlsf_add_pool 65536 1000 demo0 = Ok (65536, s') ∧ heap ∅ H' s'
    ∧ same_alloc (with_pool 7284 4996 ∅) H' ∧ keeps (with_pool 7284 4996 ∅) demo0 s'.
Proof.
  apply (tlsf_add_pool_correct (with_pool 7284 4996 ∅) demo0 65536 1000); [apply demo0_heap|lia|].
  split; try (by vm_compute).
  - right. by vm_compute.
  - intros b x Hb. left. unfold with_pool in Hb. map_cases; [by vm_compute..|done].
Defined.

(** ** Defects of the interface *)

(** A request of the last three sizes of the address space is not refused:
    rounding it up to the alignment wraps to 0, and [tlsf_malloc] then serves
    it as a request for 12 bytes. *)
Theorem tlsf_malloc_wraps s size :
  2 ^ 32 - 4 < size < 2 ^ 32 → tlsf_malloc size s = tlsf_malloc 12 s.
Proof.
  intros Hs. unfold tlsf_malloc, mbind, M_bind.
  assert (adjust_request_size size ALIGN_SIZE s = Ok (12, s)) as ->; [|done].
  assert (size = 2 ^ 32 - 3 ∨ size = 2 ^ 32 - 2 ∨ size = 2 ^ 32 - 1) as [->|[->| ->]] by lia; done.
Qed.

Lemma tlsf_malloc_wraps_witness : tlsf_malloc (2 ^ 32 - 1) demo0 = tlsf_malloc 12 demo0.
Proof. apply (tlsf_malloc_wraps demo0 (2 ^ 32 - 1)). lia. Defined.

(** [tlsf_realloc] of a held block to 2^30 bytes does not leave the block
    untouched: the rounded size is 0, so the block is cut down to no bytes at
    all and the same pointer is returned as if the request had succeeded. *)
Theorem tlsf_realloc_too_large_corrupts :
  run demo2 {[7392 := 40; 7288 := 100]} ∧
  value_of (tlsf_realloc 7288 (2 ^ 30)) demo2 = Some 7288 ∧
  value_of (tlsf_block_size 7288) demo2 = Some 100 ∧
  value_of (tlsf_block_size 7288) (state_after (tlsf_realloc 7288 (2 ^ 30)) demo2) = Some 0.
Proof. split; [apply demo2_run|]. split_and!; by vm_compute. Qed.

(** [tlsf_add_pool] accepts a pool of [block_size_max] bytes, whose class
    is past the end of the control structure's arrays. *)
Theorem tlsf_add_pool_max_overruns :
  mapping_insert block_size_max = (FL_INDEX_COUNT, 0) ∧
  tlsf_add_pool (2 ^ 28) (block_size_max + tlsf_pool_overhead) demo0 = Fault OutOfBounds.
Proof. split; by vm_compute. Qed.
