(* ===== verification/TlsfCheck.v ===== *)
(** * TLSF: the integrity checks

    [tlsf_check] and [tlsf_check_pool], the debugging walks of [tlsf.c], find
    nothing wrong with any heap that satisfies the invariant.  Loops over
    linked blocks take fuel; the theorems bound the fuel that is enough. *)

From S2P Require Import Prelude Memory Tlsf TlsfMap TlsfHeap TlsfWp TlsfLists TlsfAlloc TlsfApi.
From S2P Require Import TlsfPool TlsfMemalign TlsfRealloc TlsfClient.

(** ** The checks *)

(** [tlsf_insist]: assert, and count a failure if assertions are off. *)
Definition tlsf_insist (x : bool) (status : Z) : TM Z :=
  assert_ x;; mret (if x then status else status - 1).

(** The walk of one free list. *)
Fixpoint check_list (fuel : nat) (block i j status : Z) : TM Z :=
  null ← block_null;
  if block =? null then mret status
  else
    match fuel with
    | O => raise OutOfFuel
    | S fuel =>
        free ← block_is_free block;
        status ← tlsf_insist free status;
        pfree ← block_is_prev_free block;
        status ← tlsf_insist (negb pfree) status;
        next ← block_next block;
        nfree ← block_is_free next;
        status ← tlsf_insist (negb nfree) status;
        next ← block_next block;
        npfree ← block_is_prev_free next;
        status ← tlsf_insist npfree status;
        size ← block_size block;
        status ← tlsf_insist (block_size_min <=? size) status;
        size ← block_size block;
        let '(fli, sli) := mapping_insert size in
        status ← tlsf_insist ((fli =? i) && (sli =? j)) status;
        block ← rd (next_free block);
        check_list fuel block i j status
    end.

(** One iteration of the inner loop of [tlsf_check]. *)
Definition check_class (fuel : nat) (i j status : Z) : TM Z :=
  fl_word ← gets (λ s, fl_bitmap (ctl s));
  let fl_map := Z.land fl_word (u32 (Z.shiftl 1 i)) in
  sl_list ← sl_get i;
  let sl_map := Z.land sl_list (u32 (Z.shiftl 1 j)) in
  block ← blocks_get i j;
  status ← (if testz fl_map then mret status else tlsf_insist (negb (testz sl_map)) status);
  null ← block_null;
  if testz sl_map then
    status ← tlsf_insist (testz sl_list) status;
    status ← tlsf_insist (negb (block =? null)) status;
    check_list fuel block i j status
  else tlsf_insist (block =? null) status.

Fixpoint check_row (fuel n : nat) (i j status : Z) : TM Z :=
  match n with
  | O => mret status
  | S n => status ← check_class fuel i j status; check_row fuel n i (j + 1) status
  end.

Fixpoint check_rows (fuel n : nat) (i status : Z) : TM Z :=
  match n with
  | O => mret status
  | S n =>
      status ← check_row fuel (Z.to_nat SL_INDEX_COUNT) i 0 status;
      check_rows fuel n (i + 1) status
  end.

Definition tlsf_check (fuel : nat) : TM Z := check_rows fuel (Z.to_nat FL_INDEX_COUNT) 0 0.

(** [integrity_t] *)
Record integrity_t := MkIntegrity { prev_status : Z; status : Z }.

Definition integrity_walker (ptr size : Z) (used : bool) (integ : integrity_t) : TM integrity_t :=
  let block := block_from_ptr ptr in
  pfree ← block_is_prev_free block;
  let this_prev_status := b2z pfree in
  free ← block_is_free block;
  let this_status := b2z free in
  this_block_size ← block_size block;
  st ← tlsf_insist (prev_status integ =? this_prev_status) 0;
  st ← tlsf_insist (size =? this_block_size) st;
  mret (MkIntegrity this_status (status integ + st)).

(** [tlsf_walk_pool], with the walker's user data threaded through. *)
Fixpoint walk_blocks {U} (fuel : nat) (walker : Z → Z → bool → U → TM U) (block : Z) (user : U) : TM U :=
  if testz block then
    last ← block_is_last block;
    if last : bool then mret user
    else
      match fuel with
      | O => raise OutOfFuel
      | S fuel =>
          size ← block_size block;
          free ← block_is_free block;
          user ← walker (block_to_ptr block) size (negb free) user;
          block ← block_next block;
          walk_blocks fuel walker block user
      end
  else mret user.

Definition tlsf_walk_pool {U} (fuel : nat) (pool : Z) (walker : Z → Z → bool → U → TM U) (user : U) : TM U :=
  walk_blocks fuel walker (offset_to_block pool (- block_header_overhead)) user.

Definition tlsf_check_pool (fuel : nat) (pool : Z) : TM Z :=
  integ ← tlsf_walk_pool fuel pool integrity_walker (MkIntegrity 0 0);
  mret (status integ).

(** ** [tlsf_check] *)

Lemma wp_insist x status s (Q : Z → tlsf_state → Prop) : x = true → Q status s → wp (tlsf_insist x status) s Q.
Proof. intros -> HQ. done. Qed.

Lemma land_bit w i : in_u32 w → 0 ≤ i < 32 → testz (Z.land w (u32 (Z.shiftl 1 i))) = Z.testbit w i.
Proof.
  intros Hw Hi. rewrite shiftl_1_u32, Z.shiftl_1_l by done.
  apply eq_bool_prop_intro. rewrite !Is_true_true, testz_true. split; intros Hb.
  - destruct (Z.testbit w i) eqn:E; [done|]. destruct Hb. apply Z.bits_inj_0. intros j.
    rewrite Z.land_spec. destruct (decide (0 ≤ j)) as [Hj|]; [|by rewrite !Z.testbit_neg_r by lia].
    rewrite Z.pow2_bits_eqb by lia. destruct (Z.eqb_spec i j) as [->|]; [by rewrite E|apply andb_false_r].
  - intros E. assert (Z.testbit (Z.land w (2 ^ i)) i = false) as H by (rewrite E; apply Z.testbit_0_l).
    rewrite Z.land_spec, Hb, Z.pow2_bits_true in H by lia. done.
Qed.

Section Check.
Context {H : blkmap} {s : tlsf_state} (Hp : heap ∅ H s).

Let T := h_tile _ _ _ Hp.

(** What the walk checks of a listed block. *)
Lemma listed_block b x fl sl : H !! b = Some x → fr x = true → mapping_insert (sz x) = (fl, sl) →
  pf x = false ∧ 12 ≤ sz x ∧ 0 < b ∧ b + 8 + sz x ≤ 2 ^ 32
  ∧ ∃ y, H !! nxt b x = Some y ∧ fr y = false ∧ pf y = true.
Proof.
  intros Hb Fx E. pose proof (tile_free_sz T _ _ Hb Fx). pose proof (t_ok _ _ _ T _ _ Hb) as Ok. unfold block_ok in Ok.
  destruct (t_next _ _ _ T _ _ Hb ltac:(lia)) as (y & Hy & Epf & _). split_and!; try lia.
  - destruct (pf x) eqn:Epx; [|done]. destruct (t_prev _ _ _ T _ _ Hb Epx) as (p & z & Hz & Fz & En).
    pose proof (next_not_free _ _ _ _ Hp Hz Fz x) as Hn. rewrite En in Hn. rewrite (Hn Hb) in Fx. done.
  - exists y. split_and!; [done|exact (next_not_free _ _ _ _ Hp Hb Fx y Hy)|congruence].
Qed.

Lemma wp_check_list F prev l fuel i j :
  dl (tmem s) (null s) prev l → null s ∉ l → (length l ≤ fuel)%nat →
  (∀ b, b ∈ l → free_in F H i j b) →
  wp (check_list fuel (first (null s) l) i j 0) s (λ st s', st = 0 ∧ s' = s).
Proof.
  pose proof (h_hdr _ _ _ Hp) as Hh. pose proof (tile_geo _ _ _ T) as Hg.
  revert prev l. induction fuel as [|fuel IH]; intros prev l Hdl HN Hlen Hl.
  all: destruct l as [|b l]; [simpl; unfold block_null; wp_steps; rewrite Z.eqb_refl; by wp_step|].
  { simpl in Hlen. lia. }
  destruct Hdl as (_ & En & Hdl). apply not_elem_of_cons in HN as [HbN HN].
  destruct (Hl b (list_elem_of_here _ _)) as (_ & x & Hb & Fx & E).
  destruct (listed_block b x i j Hb Fx E) as (Hpf & Hsz & Hb0 & Hlim & y & Hy & Fy & Py).
  simpl first. unfold check_list; fold check_list. unfold block_null. wp_steps.
  rewrite (proj2 (Z.eqb_neq b (null s))) by done.
  wp_step. eapply (wp_block_is_free _ H); [done..|]. wp_step. apply wp_insist; [done|].
  wp_step. eapply (wp_block_is_prev_free _ H); [done..|]. wp_step. apply wp_insist; [by rewrite Hpf|].
  wp_step. eapply (wp_block_next _ H); [done..|lia|lia|lia|].
  wp_step. eapply (wp_block_is_free _ H); [done..|]. wp_step. apply wp_insist; [by rewrite Fy|].
  wp_step. eapply (wp_block_next _ H); [done..|lia|lia|lia|].
  wp_step. eapply (wp_block_is_prev_free _ H); [done..|]. wp_step. apply wp_insist; [done|].
  wp_step. eapply (wp_block_size _ H); [done..|]. wp_step. apply wp_insist; [by apply Z.leb_le|].
  wp_step. eapply (wp_block_size _ H); [done..|]. rewrite E.
  wp_step. apply wp_insist; [by rewrite !Z.eqb_refl|]. unfold rd, next_free. wp_steps. rewrite En.
  apply (IH b l); [done|done|simpl in Hlen; lia|]. intros c Hc. apply Hl. by apply list_elem_of_further.
Qed.

Lemma wp_check_class F fuel i j :
  lists ∅ H F s → in_cls i j → (length (F i j) ≤ fuel)%nat →
  wp (check_class fuel i j 0) s (λ st s', st = 0 ∧ s' = s).
Proof.
  intros L Hc Hfuel. pose proof Hc as [Hi Hj]. pose proof (l_index _ _ _ _ L) as I.
  pose proof (i_shape _ _ I) as Hs. pose proof (i_sl_word _ _ I i Hi) as Hw.
  pose proof (i_fl_word _ _ I) as Hfw. change FL_INDEX_COUNT with 24 in *. change SL_INDEX_COUNT with 32 in *.
  unfold check_class. wp_steps. apply wp_sl_get; [done..|]. wp_step. apply wp_blocks_get; [done..|]. cbv zeta.
  rewrite !land_bit by lia. rewrite (i_fl _ _ I), (i_sl _ _ I), (i_head _ _ I) by done.
  assert (inhabited_list (F i j) = true → testz (sl_at (ctl s) i) = true) as Himp.
  { rewrite <- (i_sl _ _ I) by done. apply testz_bit. }
  wp_step. apply (wp_mono _ _ (λ st s', st = 0 ∧ s' = s)).
  { destruct (testz (sl_at (ctl s) i)) eqn:E; [by wp_step|]. apply wp_insist; [|done].
    destruct (inhabited_list (F i j)) eqn:Ei; [by specialize (Himp eq_refl)|done]. }
  intros ? ? [-> ->]. unfold block_null. wp_steps. destruct (F i j) as [|b l] eqn:EF; simpl inhabited_list; cbv iota.
  - apply wp_insist; [|done]. simpl. apply Z.eqb_refl.
  - assert (null s ∉ b :: l) as HN by (rewrite <- EF; by apply (lists_no_null T L)).
    wp_step. apply wp_insist; [by apply Himp|]. wp_step. apply wp_insist.
    { simpl. apply not_elem_of_cons in HN as [HN _]. rewrite (proj2 (Z.eqb_neq b (null s))) by done. done. }
    apply (wp_check_list ∅ (null s)); [rewrite <- EF; by apply L|done|done|].
    intros c Hcl. apply (l_mem _ _ _ _ L); [done|]. by rewrite EF.
Qed.

Lemma wp_check_row F fuel n i j :
  lists ∅ H F s → 0 ≤ i < FL_INDEX_COUNT → 0 ≤ j → j + Z.of_nat n ≤ SL_INDEX_COUNT →
  (∀ j, in_cls i j → (length (F i j) ≤ fuel)%nat) →
  wp (check_row fuel n i j 0) s (λ st s', st = 0 ∧ s' = s).
Proof.
  intros L Hi. revert j. induction n as [|n IH]; intros j Hj Hn Hf; [done|].
  unfold check_row; fold check_row. wp_step. assert (in_cls i j) as Hc by (split; [done|lia]).
  eapply wp_mono; [by apply (wp_check_class F); [..|apply Hf]|]. intros ? ? [-> ->]. apply IH; [lia|lia|done].
Qed.

Lemma wp_check_rows F fuel n i :
  lists ∅ H F s → 0 ≤ i → i + Z.of_nat n ≤ FL_INDEX_COUNT →
  (∀ i j, in_cls i j → (length (F i j) ≤ fuel)%nat) →
  wp (check_rows fuel n i 0) s (λ st s', st = 0 ∧ s' = s).
Proof.
  intros L. revert i. induction n as [|n IH]; intros i Hi Hn Hf; [done|].
  unfold check_rows; fold check_rows. wp_step.
  eapply wp_mono; [apply (wp_check_row F); [done|lia|lia|done|by auto]|]. intros ? ? [-> ->].
  apply IH; [lia|lia|done].
Qed.

(** A list of distinct free blocks is no longer than the heap map. *)
Lemma list_length_bound F i j : lists ∅ H F s → in_cls i j → (length (F i j) ≤ size H)%nat.
Proof.
  intros L Hc. rewrite <- size_dom. rewrite <- (size_list_to_set (C := gset Z) (F i j)) by (by apply L).
  apply subseteq_size. intros b Hb. apply elem_of_list_to_set in Hb.
  apply (l_mem _ _ _ _ L) in Hb as (_ & x & Hx & _); [|done]. by apply elem_of_dom_2 in Hx.
Qed.

End Check.

(** C7: [tlsf_check], the allocator's own consistency check of its free lists
    and bitmaps, succeeds in every state a client can reach, given fuel for
    the longest list. *)
Theorem tlsf_check_passes s A :
  run s A → ∃ enough, ∀ fuel, (enough ≤ fuel)%nat → tlsf_check fuel s = Ok (0, s).
Proof.
  intros (H & Hp & _)%run_inv. destruct (h_lists _ _ _ Hp) as [F L]. exists (size H). intros fuel Hf.
  assert (wp (tlsf_check fuel) s (λ st s', st = 0 ∧ s' = s)) as (st & s' & E & -> & ->)%wp_Ok; [|done].
  apply (wp_check_rows Hp F); [done|lia|done|]. intros i j Hc.
  pose proof (list_length_bound F i j L Hc). lia.
Qed.

Lemma tlsf_check_passes_witness :
  ∃ enough, ∀ fuel, (enough ≤ fuel)%nat → tlsf_check fuel demo2 = Ok (0, demo2).
Proof. apply (tlsf_check_passes demo2 {[7392 := 40; 7288 := 100]}). apply demo2_run. Defined.

(** ** [tlsf_check_pool] *)

Lemma wp_integrity_walker H s b x used :
  heap ∅ H s → H !! b = Some x → sz x ≠ 0 →
  wp (integrity_walker (block_to_ptr b) (sz x) used (MkIntegrity (b2z (pf x)) 0)) s
    (λ integ s', integ = MkIntegrity (b2z (fr x)) 0 ∧ s' = s).
Proof.
  intros Hp Hb Hx. pose proof (h_tile _ _ _ Hp) as T. pose proof (h_hdr _ _ _ Hp) as Hh.
  pose proof (tile_geo _ _ _ T) as Hg. pose proof (t_ok _ _ _ T _ _ Hb) as Ok. unfold block_ok in Ok.
  assert (block_from_ptr (block_to_ptr b) = b) as Eb.
  { unfold block_from_ptr, block_to_ptr. change block_start_offset with 8.
    rewrite (wrapu_small 32 (b + 8)) by lia. rewrite wrapu_small by lia. lia. }
  unfold integrity_walker. rewrite Eb. cbv zeta.
  wp_step. eapply (wp_block_is_prev_free _ H); [done..|].
  wp_step. eapply (wp_block_is_free _ H); [done..|]. wp_step. eapply (wp_block_size _ H); [done..|].
  wp_step. apply wp_insist; [apply Z.eqb_refl|]. wp_step. apply wp_insist; [apply Z.eqb_refl|]. by wp_steps.
Qed.

Lemma wp_walk_blocks H s fuel b x :
  heap ∅ H s → H !! b = Some x → (Z.to_nat ((lim x - b) / 4) ≤ fuel)%nat →
  wp (walk_blocks fuel integrity_walker b (MkIntegrity (b2z (pf x)) 0)) s
    (λ integ s', status integ = 0 ∧ s' = s).
Proof.
  intros Hp. pose proof (h_tile _ _ _ Hp) as T. pose proof (h_hdr _ _ _ Hp) as Hh.
  pose proof (tile_geo _ _ _ T) as Hg. revert b x. induction fuel as [|fuel IH]; intros b x Hb Hf.
  all: pose proof (t_ok _ _ _ T _ _ Hb) as Ok; unfold block_ok in Ok.
  { exfalso. assert (2 ≤ (lim x - b) / 4) by (apply Z.div_le_lower_bound; lia). lia. }
  simpl walk_blocks. rewrite (proj2 (testz_true b)) by lia.
  wp_step. eapply (wp_block_is_last _ H); [done..|].
  destruct (Z.eqb_spec (sz x) 0) as [|Hx]; [by wp_step|].
  wp_step. eapply (wp_block_size _ H); [done..|]. wp_step. eapply (wp_block_is_free _ H); [done..|].
  wp_step. eapply wp_mono; [by apply (wp_integrity_walker H s b x)|]. intros ? ? [-> ->].
  wp_step. eapply (wp_block_next _ H); [done..|lia|lia|].
  destruct (t_next _ _ _ T _ _ Hb Hx) as (y & Hy & Epf & Elim & _). rewrite <- Epf.
  apply IH; [done|]. rewrite Elim. assert ((lim x - nxt b x) / 4 + 1 ≤ (lim x - b) / 4); [|lia].
  replace (lim x - b) with (lim x - b - 4 + 1 * 4) by lia. rewrite Z.div_add by lia.
  assert ((lim x - nxt b x) / 4 ≤ (lim x - b - 4) / 4); [|lia]. apply Z.div_le_mono; [lia|]. unfold nxt. lia.
Qed.

(** [tlsf_check_pool] walks a pool from its first block to its sentinel
    and finds every block's flags and size consistent, on any heap that
    satisfies the invariant, given fuel for the blocks of the pool. *)
Theorem tlsf_check_pool_passes H s pool x fuel :
  heap ∅ H s → 4 < pool < 2 ^ 32 → H !! (pool - 4) = Some x → pf x = false →
  (Z.to_nat ((lim x - (pool - 4)) / 4) ≤ fuel)%nat →
  tlsf_check_pool fuel pool s = Ok (0, s).
Proof.
  intros Hp Hpool Hx Hpf Hf.
  assert (wp (tlsf_check_pool fuel pool) s (λ st s', st = 0 ∧ s' = s)) as (st & s' & E & -> & ->)%wp_Ok; [|done].
  unfold tlsf_check_pool, tlsf_walk_pool.
  assert (offset_to_block pool (- block_header_overhead) = pool - 4) as ->.
  { unfold offset_to_block. change block_header_overhead with 4. rewrite wrapu_small; lia. }
  wp_step. change 0 with (b2z false) at 1. rewrite <- Hpf.
  eapply wp_mono; [by apply (wp_walk_blocks H s fuel (pool - 4) x)|]. intros integ s' [E ->]. by wp_step.
Qed.

Lemma tlsf_check_pool_passes_witness : tlsf_check_pool 2000 7284 demo0 = Ok (0, demo0).
Proof.
  apply (tlsf_check_pool_passes (with_pool 7284 4996 ∅) demo0 7284 (pool_block 4996 12288) 2000);
    [apply demo0_heap|lia|reflexivity|reflexivity|]. simpl. vm_compute. lia.
Defined.
