(* ===== verification/Mm.v ===== *)
(** * The memory interface (kernel/mm/internal.c, lib/stdlib, strdup)

    The two pools of the kernel, the allocation functions on them, and
    [strdup] and [strndup], which put the string functions and the allocator
    together.  The addresses of the pools come from the linker and are
    arguments.  The memory is one; a pool adds its control structure. *)

From S2P Require Import Prelude Memory MemCopy MemCopyProof CStr CStrProof Tlsf TlsfMap TlsfHeap TlsfApi TlsfClient.
Import Memcpy Search.

Inductive pool := TLSF_POOL_PRIVATE | TLSF_POOL_USER.

Record mm_state := MkMm {
  mm_mem : mem;
  private_pool : control_t;
  user_pool : control_t;
}.

Definition tlsf_pools (i : pool) (s : mm_state) : tlsf_state :=
  MkTlsf (mm_mem s) (match i with TLSF_POOL_PRIVATE => private_pool s | TLSF_POOL_USER => user_pool s end).

Definition set_pool (i : pool) (t : tlsf_state) (s : mm_state) : mm_state :=
  match i with
  | TLSF_POOL_PRIVATE => MkMm (tmem t) (ctl t) (user_pool s)
  | TLSF_POOL_USER => MkMm (tmem t) (private_pool s) (ctl t)
  end.

(** A call on the pool [master_state()->tlsf_pools[i]]. *)
Definition on_pool {A} (i : pool) (c : TM A) : M mm_state A := λ s,
  match c (tlsf_pools i s) with Ok (a, t) => Ok (a, set_pool i t s) | Fault e => Fault e end.

Definition TLSF_POOL_PRIVATE_SIZE : Z := 32768.
Definition TLSF_POOL_USER_END : Z := 100663296 + 1048576.

(** The control structure of a pool is at its start. *)
Definition create_pool (i : pool) (start size : Z) : M mm_state unit :=
  modify (λ s, set_pool i (MkTlsf (mm_mem s) (MkControl start 0 [] [])) s);;
  _ ← on_pool i (tlsf_create_with_pool start size);
  mret tt.

Definition _internal_mm_init (_private_pool _end : Z) : M mm_state unit :=
  create_pool TLSF_POOL_PRIVATE _private_pool TLSF_POOL_PRIVATE_SIZE;;
  create_pool TLSF_POOL_USER _end (u32 (TLSF_POOL_USER_END - _end)).

Definition _internal_malloc (n : Z) : M mm_state Z := on_pool TLSF_POOL_PRIVATE (tlsf_malloc n).
Definition _internal_realloc (old new_len : Z) : M mm_state Z :=
  on_pool TLSF_POOL_PRIVATE (tlsf_realloc old new_len).
Definition _internal_memalign (n align : Z) : M mm_state Z := on_pool TLSF_POOL_PRIVATE (tlsf_memalign n align).
Definition _internal_free (addr : Z) : M mm_state unit := on_pool TLSF_POOL_PRIVATE (tlsf_free addr).

Definition malloc (n : Z) : M mm_state Z := on_pool TLSF_POOL_USER (tlsf_malloc n).
Definition realloc (old new_len : Z) : M mm_state Z := on_pool TLSF_POOL_USER (tlsf_realloc old new_len).
Definition memalign (n align : Z) : M mm_state Z := on_pool TLSF_POOL_USER (tlsf_memalign align n).
Definition free (addr : Z) : M mm_state unit := on_pool TLSF_POOL_USER (tlsf_free addr).

(** ** strdup and strndup *)

(** A function of the string library that changes the memory. *)
Definition on_mem {A} (f : mem → outcome (mem * A)) : M mm_state A := λ s,
  match f (mm_mem s) with
  | Ok (m, a) => Ok (a, MkMm m (private_pool s) (user_pool s))
  | Fault e => Fault e
  end.

Definition strdup (fuel : nat) (str : Z) : M mm_state Z :=
  l ← on_mem (λ m, l ← strlen fuel m str; Ok (m, l));
  d ← malloc (u32 (l + 1));
  if d =? 0 then mret 0
  else on_mem (λ m, memcpy m d str (u32 (l + 1))).

Definition strndup (str n : Z) : M mm_state Z :=
  l ← on_mem (λ m, l ← strnlen m str n; Ok (m, l));
  d ← malloc (u32 (l + 1));
  if d =? 0 then mret 0
  else
    _ ← on_mem (λ m, memcpy m d str l);
    on_mem (λ m, Ok (store8 m (d + l) 0, d)).

(** ** Writing into a block that was allocated *)

Lemma run_store t A p n a v : run t A → A !! p = Some n → p ≤ a < p + n →
  run (MkTlsf (store8 (tmem t) a v) (ctl t)) A.
Proof. intros. by apply (run_write t A p n a v). Qed.

Lemma run_mem_copy t A p n d s k : run t A → A !! p = Some n → p ≤ d → d + Z.of_nat k ≤ p + n →
  run (MkTlsf (mem_copy (tmem t) d s k) (ctl t)) A.
Proof.
  intros Ht Hp. revert t d s Ht. induction k as [|k IH]; intros t d s Ht Hd Hk; cbn [mem_copy].
  - by destruct t.
  - apply (IH (MkTlsf (store8 (tmem t) d (load8 (tmem t) s)) (ctl t))); [|lia..].
    apply (run_store _ _ p n); (done || lia).
Qed.

(** [malloc] as its client sees it. *)
Abbreviation user s := (tlsf_pools TLSF_POOL_USER s).

Lemma malloc_spec s A size : run (user s) A → 0 ≤ size ≤ 2 ^ 32 - 4 →
  ∃ p s', malloc size s = Ok (p, s') ∧ run (user s') (give p size A) ∧
    (p = 0 ∧ s' = s ∨ 0 < size ∧ fresh_block A p size ∧ contents_kept A (user s) (user s')).
Proof.
  intros Hr Hs. destruct (malloc_returns _ _ _ Hr Hs) as (p & t & E & Hp).
  exists p, (set_pool TLSF_POOL_USER t s). unfold malloc, on_pool. rewrite E. split; [done|].
  assert (user (set_pool TLSF_POOL_USER t s) = t) as -> by by destruct t.
  split; [by eapply run_malloc|]. destruct Hp as [[-> ->]|]; [left | by right].
  split; [done|]. by destruct s.
Qed.

(** The memory alone changes. *)
Lemma user_with_mem m s : user (MkMm m (private_pool s) (user_pool s)) = MkTlsf m (ctl (user s)).
Proof. done. Qed.

(** The bytes of a block the client holds, copied to a fresh block. *)
Lemma copy_to_fresh t A p size str k : run t (<[p := size]> A) → fresh_block A p size →
  Z.of_nat k ≤ size → p + Z.of_nat k ≤ str ∨ str + Z.of_nat k ≤ p →
  let t' := MkTlsf (mem_copy (tmem t) p str k) (ctl t) in
  run t' (<[p := size]> A) ∧ contents_kept A t t' ∧
  ∀ i, 0 ≤ i < Z.of_nat k → load8 (tmem t') (p + i) = load8 (tmem t) (str + i).
Proof.
  intros Hr Hf Hk Hdis. split; [|split].
  - apply (run_mem_copy _ _ p size); [done | apply lookup_insert_eq | lia | lia].
  - intros q n a Hq Ha. cbn [tmem]. apply load8_mem_copy_ne.
    destruct Hf as (_ & _ & _ & _ & Hf). specialize (Hf q n Hq). lia.
  - intros i Hi. cbn [tmem]. apply load8_mem_copy_in; lia.
Qed.

Section Strdup.
Context (fuel : nat) (s : mm_state) (A : holdings) (str L q n : Z).
Context (Hrun : run (user s) A) (Hq : A !! q = Some n) (Hin : q ≤ str ∧ str + L + 1 ≤ q + n).
Context (Hstr : cstring (mm_mem s) str L) (Hfuel : (Z.to_nat L < fuel)%nat) (HL : L < 2 ^ 31).

Lemma strdup_spec : ∃ p s', strdup fuel str s = Ok (p, s') ∧
  (p = 0 ∧ s' = s ∨
   fresh_block A p (L + 1) ∧ run (user s') (<[p := L + 1]> A) ∧ contents_kept A (user s) (user s') ∧
   ∀ i, 0 ≤ i ≤ L → load8 (mm_mem s') (p + i) = load8 (mm_mem s) (str + i)).
Proof.
  pose proof (proj1 Hstr) as H0. destruct (malloc_spec s A (L + 1) Hrun) as (p & s1 & E & Hr & Hp); [lia|].
  unfold strdup, mbind, M_bind, on_mem. rewrite (strlen_spec _ _ _ L) by done. cbn [mbind outcome_bind].
  replace (MkMm (mm_mem s) (private_pool s) (user_pool s)) with s by (by destruct s).
  rewrite wrapu_small by lia. rewrite E. destruct Hp as [[-> ->]|(_ & Hf & Hkept)]; [eexists _, _; by eauto|].
  pose proof Hf as (Hp0 & _ & _ & _ & Hdis). unfold give in Hr.
  destruct (Z.eqb_spec p 0); [lia|]. specialize (Hdis q n Hq).
  rewrite memcpy_correct by lia. eexists _, _. split; [done|]. right. split; [done|].
  destruct (copy_to_fresh (user s1) A p (L + 1) str (Z.to_nat (L + 1)) Hr Hf) as (Hr' & Hk' & Hcopy); [lia..|].
  split; [exact Hr'|]. split.
  - intros r k a Hrk Ha. rewrite <- (Hkept r k a Hrk Ha). exact (Hk' r k a Hrk Ha).
  - intros i Hi. transitivity (load8 (mm_mem s1) (str + i)); [apply Hcopy; lia|].
    apply (Hkept q n); [done | lia].
Qed.

End Strdup.

(** [strndup] copies at most [k] bytes and terminates the copy. *)
Lemma strndup_spec s A str K k q n :
  run (user s) A → A !! q = Some n → q ≤ str → str + K ≤ q + n → 0 < str →
  stops_at (λ p, load8 (mm_mem s) p =? 0) str K k → K < 2 ^ 31 →
  ∃ p s', strndup str k s = Ok (p, s') ∧
  (p = 0 ∧ s' = s ∨
   fresh_block A p (K + 1) ∧ run (user s') (<[p := K + 1]> A) ∧ contents_kept A (user s) (user s') ∧
   load8 (mm_mem s') (p + K) = 0 ∧
   ∀ i, 0 ≤ i < K → load8 (mm_mem s') (p + i) = load8 (mm_mem s) (str + i)).
Proof.
  intros Hrun Hq Hlo Hhi Hstr Hst HK. pose proof (proj1 Hst) as H0.
  destruct (malloc_spec s A (K + 1) Hrun) as (p & s1 & E & Hr & Hp); [lia|].
  unfold strndup, mbind, M_bind, on_mem. rewrite (strnlen_spec _ _ K) by done. cbn [mbind outcome_bind].
  replace (MkMm (mm_mem s) (private_pool s) (user_pool s)) with s by (by destruct s).
  rewrite wrapu_small by lia. rewrite E. destruct Hp as [[-> ->]|(_ & Hf & Hkept)]; [eexists _, _; by eauto|].
  pose proof Hf as (Hp0 & _ & _ & _ & Hdis). unfold give in Hr.
  destruct (Z.eqb_spec p 0); [lia|]. pose proof (Hdis q n Hq).
  rewrite memcpy_correct by lia. eexists _, _. split; [done|]. right. split; [done|].
  destruct (copy_to_fresh (user s1) A p (K + 1) str (Z.to_nat K) Hr Hf) as (Hr' & Hk' & Hcopy); [lia..|].
  cbn [mm_mem private_pool user_pool]. split; [|split; [|split]].
  - apply (run_store _ _ p (K + 1) (p + K) 0 Hr'); [apply lookup_insert_eq | lia].
  - intros r j a Hrj Ha. rewrite <- (Hkept r j a Hrj Ha), <- (Hk' r j a Hrj Ha). cbn [tmem tlsf_pools mm_mem].
    apply load8_store8_ne. specialize (Hdis r j Hrj). lia.
  - apply load8_store8_eq.
  - intros i Hi. rewrite load8_store8_ne by lia.
    transitivity (load8 (mm_mem s1) (str + i)); [apply Hcopy; lia|]. apply (Hkept q n); [done | lia].
Qed.

(** ** Claims *)

(** C14: [strdup] of a string in a block the client holds returns null and
    changes nothing, or a fresh block of its size that holds a copy of the
    string; all blocks the client holds keep their contents, and the client can
    go on with the new block as one of them. *)
Theorem strdup_copies fuel s A str L q n :
  run (user s) A → A !! q = Some n → q ≤ str → str + L + 1 ≤ q + n →
  cstring (mm_mem s) str L → (Z.to_nat L < fuel)%nat → L < 2 ^ 31 →
  ∃ p s', strdup fuel str s = Ok (p, s') ∧
    (p = 0 ∧ s' = s ∨
     fresh_block A p (L + 1) ∧ cstring (mm_mem s') p L ∧
     (∀ i, 0 ≤ i ≤ L → load8 (mm_mem s') (p + i) = load8 (mm_mem s) (str + i)) ∧
     contents_kept A (user s) (user s') ∧ run (user s') (<[p := L + 1]> A)).
Proof.
  intros Hr Hq Hlo Hhi Hs Hf HL.
  destruct (strdup_spec fuel s A str L q n Hr Hq (conj Hlo Hhi) Hs Hf HL) as (p & s' & E & Hp).
  exists p, s'. split; [done|]. destruct Hp as [|(Hfr & Hr' & Hk & Hc)]; [by left | right].
  split; [done|]. split; [|done]. destruct Hs as (H0 & Hnz & Hz). split; [done|]. split.
  - intros i Hi. rewrite Hc by lia. by apply Hnz.
  - by rewrite Hc by lia.
Qed.

(** The string "ya" in the block of 100 bytes at 7288. *)
Definition with_ya (t : tlsf_state) : mm_state :=
  MkMm (store8 (store8 (store8 (tmem t) 7288 121) 7289 97) 7290 0) (ctl t) (ctl t).

Lemma with_ya_run t A : run t A → A !! 7288 = Some 100 → run (user (with_ya t)) A.
Proof.
  intros H0 Hl. pose proof (run_store _ _ 7288 100 7288 121 H0 Hl ltac:(lia)) as H1.
  pose proof (run_store _ _ 7288 100 7289 97 H1 Hl ltac:(lia)) as H2.
  exact (run_store _ _ 7288 100 7290 0 H2 Hl ltac:(lia)).
Qed.

Lemma with_ya_string t : cstring (mm_mem (with_ya t)) 7288 2.
Proof.
  unfold with_ya. cbn [mm_mem]. split; [lia|]. split.
  - intros i Hi. assert (i = 0 ∨ i = 1) as [-> | ->] by lia; repeat (rewrite load8_store8; case_decide; try lia); done.
  - rewrite load8_store8_eq. done.
Qed.

Lemma strdup_copies_witness : ∃ p s', strdup 3 7288 (with_ya demo1) = Ok (p, s') ∧
  (p = 0 ∧ s' = with_ya demo1 ∨ fresh_block {[7288 := 100]} p (2 + 1) ∧ cstring (mm_mem s') p 2 ∧
   (∀ i, 0 ≤ i ≤ 2 → load8 (mm_mem s') (p + i) = load8 (mm_mem (with_ya demo1)) (7288 + i)) ∧
   contents_kept {[7288 := 100]} (user (with_ya demo1)) (user s') ∧
   run (user s') (<[p := 2 + 1]> {[7288 := 100]})).
Proof.
  apply (strdup_copies 3 (with_ya demo1) {[7288 := 100]} 7288 2 7288 100);
    [apply with_ya_run; [apply demo1_run | reflexivity] | reflexivity | lia | lia | apply with_ya_string | lia | lia].
Defined.

(** [_internal_memalign] passes the size as the alignment: for a size that
    is not a power of two it fails an assertion, whatever the state of the pool
    and the alignment asked for. *)
Theorem internal_memalign_swapped n align s :
  is_pow2 n = false → 0 < align < 2 ^ 30 → 0 ≤ n < 2 ^ 30 →
  _internal_memalign n align s = Fault AssertFailed.
Proof.
  intros Hn Ha Hb. unfold _internal_memalign, on_pool, tlsf_memalign, mbind, M_bind.
  change ALIGN_SIZE with (2 ^ 2). rewrite adjust_request_spec by lia. change sizeof_block_header_t with 16.
  set (adjust := if _ || _ then 0 else _).
  assert (0 ≤ adjust < 2 ^ 30).
  { unfold adjust. destruct (_ || _) eqn:E; [lia|]. apply orb_false_iff in E as [_ E]. lia. }
  clearbody adjust. unfold adjust_request_size at 1, align_up, mbind, M_bind, assert_.
  rewrite wrapu_small by lia. rewrite Hn. unfold testz. by destruct (Z.eqb_spec (adjust + n + 16) 0); [lia|].
Qed.

Lemma internal_memalign_swapped_witness :
  _internal_memalign 100 4 (with_ya demo1) = Fault AssertFailed.
Proof. apply (internal_memalign_swapped 100 4 (with_ya demo1)); [reflexivity | lia | lia]. Defined.
