(* ===== verification/Bcl.v ===== *)
(** * libbcl: what the coders share

    The coders of src/libbcl read an input buffer and write an output buffer
    through a running index.  A buffer is the list of its bytes; an access
    outside it is a fault, so that a theorem that a coder yields a result also
    shows that it stays inside its buffers.  [buf] is an output buffer with the
    index of the next byte, [put] is [out[idx++] = x].

    RLE and LZ77 both escape their codes with the least common byte of the
    input ([least_common]); [least_common_spec] bounds how common it is. *)

From S2P Require Import Prelude.

Abbreviation byte_list := (Forall (λ x : Z, in_u8 x)).

Abbreviation buf := (list Z * Z)%type.

Definition put (o : buf) (x : Z) : outcome buf :=
  out ← arr_set o.1 o.2 (u8 x);
  Ok (out, u32 (o.2 + 1)).

(** ** The least common byte *)

Definition histogram (inb : list Z) (insize : Z) : outcome (list Z) :=
  h ← for_up 256 0 (λ i h, arr_set h i 0) (replicate 256 0);
  for_up (Z.to_nat insize) 0 (λ i h,
    b ← arr_get inb i;
    c ← arr_get h b;
    arr_set h b (u32 (c + 1))) h.

Definition least_common (inb : list Z) (insize : Z) : outcome Z :=
  h ← histogram inb insize;
  for_up 255 1 (λ i marker,
    hi ← arr_get h i;
    hm ← arr_get h marker;
    Ok (if hi <? hm then i else marker)) 0.

(** ** Writing *)

(** [wrote o w cap]: [o] is a buffer of [cap] bytes that holds [w] so far. *)
Definition wrote (o : buf) (w : list Z) (cap : Z) : Prop :=
  ∃ r, o.1 = w ++ r ∧ o.2 = Z.of_nat (length w) ∧ Z.of_nat (length o.1) = cap.

Lemma put_wrote_u8 o w cap x :
  wrote o w cap → Z.of_nat (length w) < cap → cap < 2 ^ 32 →
  yields (put o x) (λ o', wrote o' (w ++ [u8 x]) cap).
Proof.
  destruct o as [out pos]. intros (r & Hr & Hpos & Hcap) Hlt H32. simpl in *. subst.
  rewrite length_app in *. destruct r as [|c r]; [simpl in *; lia|].
  unfold put; simpl. rewrite arr_set_app by done. simpl.
  exists r. split_and!; [done | | ]; simpl.
  - rewrite wrapu_small by lia. rewrite length_app; simpl; lia.
  - simpl in *. rewrite !length_app; simpl; lia.
Qed.

Lemma put_wrote o w cap x :
  wrote o w cap → Z.of_nat (length w) < cap → cap < 2 ^ 32 → in_u8 x →
  yields (put o x) (λ o', wrote o' (w ++ [x]) cap).
Proof. intros ? ? ? Hx. pose proof (put_wrote_u8 o w cap x) as Hp. rewrite wrapu_small in Hp by lia. auto. Qed.

Lemma put_step o w cap x (f : buf → outcome buf) Q :
  wrote o w cap → Z.of_nat (length w) < cap → cap < 2 ^ 32 → in_u8 x →
  (∀ o', wrote o' (w ++ [x]) cap → yields (f o') Q) →
  yields (o' ← put o x; f o') Q.
Proof. intros. apply yields_bind. eapply yields_mono; [by eapply put_wrote|]. auto. Qed.

Lemma wrote_length o w cap : wrote o w cap → Z.of_nat (length w) ≤ cap.
Proof. intros (r & -> & _ & <-). rewrite length_app. lia. Qed.

Lemma wrote_prefix o w cap : wrote o w cap → take (length w) o.1 = w.
Proof. intros (r & -> & _). by rewrite take_app_length. Qed.

(** Lengths of written lists, and one write. *)
Ltac room := simpl length; rewrite ?length_app, ?length_replicate; simpl length; lia.
Ltac put_next o H :=
  lazymatch goal with
  | |- yields (put _ _) _ => eapply yields_mono; [eapply put_wrote; [eassumption | room | lia | lia] |]
  | |- yields (mbind _ (put _ _)) _ => eapply put_step; [eassumption | room | lia | lia |]
  end; intros o H; rewrite <- ?app_assoc in H; simpl app in H.

(** Writing a run of a byte. *)
Lemma put_run o w cap x n :
  wrote o w cap → Z.of_nat (length w) + Z.of_nat n ≤ cap → cap < 2 ^ 32 → in_u8 x →
  yields (for_up n 0 (λ _ o, put o x) o) (λ o', wrote o' (w ++ replicate n x) cap).
Proof.
  intros Hw Hn Hcap Hx.
  eapply yields_mono.
  - apply (for_up_inv (λ j o, wrote o (w ++ replicate (Z.to_nat j) x) cap)).
    + by rewrite app_nil_r.
    + intros j b Hj Hb. eapply yields_mono; [apply (put_wrote _ _ _ _ Hb); auto|].
      * rewrite length_app, length_replicate. lia.
      * intros o' Ho'. replace (Z.to_nat (j + 1)) with (Z.to_nat j + 1)%nat by lia.
        by rewrite replicate_add, app_assoc.
  - intros o'. by replace (Z.to_nat (0 + Z.of_nat n)) with n by lia.
Qed.

(** Reading past a consumed prefix. *)
Lemma arr_get_at {A} (w l : list A) i k :
  i = Z.of_nat (length w) + k → 0 ≤ k → arr_get (w ++ l) i = arr_get l k.
Proof.
  intros -> Hk. unfold arr_get. destruct (Z.ltb_spec (Z.of_nat (length w) + k) 0), (Z.ltb_spec k 0); try lia.
  rewrite lookup_app_r by lia. by replace (Z.to_nat (Z.of_nat (length w) + k) - length w)%nat with (Z.to_nat k) by lia.
Qed.

Lemma arr_get_pref {A} (l slack : list A) x i :
  l !! Z.to_nat i = Some x → 0 ≤ i → arr_get (l ++ slack) i = Ok x.
Proof. intros Hx Hi. apply arr_get_Ok. split; [done|]. by apply lookup_app_l_Some. Qed.

(** ** Decoding

    A decompressor reads one code after the other until its input ends.
    [reading v e]: at the variables [v] (input index, output) the codes [e] are
    left to read. *)
Section Decode.
Context (one : Z * buf → outcome (Z * buf)) (reading : Z * buf → list Z → Prop).

Definition decode_loop (fuel : nat) (insize : Z) (v : Z * buf) : outcome buf :=
  iter fuel (λ v,
    '(inpos, o) ← one v;
    Ok (if inpos <? insize then inl (inpos, o) else inr o)) v.

Definition read_one (v : Z * buf) (e : list Z) (v' : Z * buf) : Prop :=
  ∃ e0 e', e = e0 ++ e' ∧ e0 ≠ [] ∧ v'.1 = v.1 + Z.of_nat (length e0) ∧ reading v' e'.

Lemma decode_loop_spec v e insize fuel (Q : buf → Prop) :
  (∀ v e, e ≠ [] → reading v e → yields (one v) (read_one v e)) →
  (∀ v, reading v [] → Q v.2) →
  e ≠ [] → reading v e → insize = v.1 + Z.of_nat (length e) → (length e ≤ fuel)%nat →
  yields (decode_loop fuel insize v) Q.
Proof.
  intros Hone HQ Hne Hr Hsize Hfuel.
  apply (iter_inv (λ v, ∃ e, e ≠ [] ∧ reading v e ∧ insize = v.1 + Z.of_nat (length e))
    (λ v, Z.to_nat (insize - v.1) - 1)%nat).
  - by exists e.
  - destruct e; [done|]. simpl length in *. lia.
  - clear v e Hne Hr Hsize Hfuel. intros v (e & Hne & Hr & Hsize).
    apply yields_bind. eapply yields_mono; [by apply Hone|].
    intros [inpos o] (e0 & e' & -> & Hne0 & Hpos & Hr'). simpl in Hpos. subst inpos.
    rewrite length_app in Hsize. destruct e0 as [|x e0]; [done|]. simpl length in *.
    case_cmp; simpl.
    + split; [|lia]. exists e'. split_and!; [|done|simpl; lia]. intros ->. simpl in *. lia.
    + assert (e' = []) as -> by (destruct e'; [done | simpl in *; lia]). by apply (HQ _ Hr').
Qed.

End Decode.

(** ** Counting *)

(** [occ b l]: how often [b] occurs in [l]. *)
Definition occ (b : Z) (l : list Z) : Z := Z.of_nat (length (filter (λ x, x = b) l)).

Lemma occ_app b l k : occ b (l ++ k) = occ b l + occ b k.
Proof. unfold occ. rewrite filter_app, length_app. lia. Qed.

Lemma occ_cons b x l : occ b (x :: l) = b2z (x =? b) + occ b l.
Proof. unfold occ. rewrite filter_cons. case_decide; case_cmp; simpl; try done; simpl; lia. Qed.

Lemma occ_range b l : 0 ≤ occ b l ≤ Z.of_nat (length l).
Proof. unfold occ. pose proof (length_filter (λ x, x = b) l). lia. Qed.

Lemma occ_replicate n x b : occ b (replicate n x) = if x =? b then Z.of_nat n else 0.
Proof.
  induction n as [|n IH]; [by case_cmp|].
  simpl replicate. rewrite occ_cons, IH. repeat case_cmp; simpl; lia.
Qed.

Lemma occ_take_le b l n : occ b (take n l) ≤ occ b l.
Proof. rewrite <- (take_drop n l) at 2. rewrite occ_app. pose proof (occ_range b (drop n l)). lia. Qed.

(** The counts of the 256 byte values add up to the length. *)
Fixpoint total (n : nat) (f : Z → Z) : Z :=
  match n with O => 0 | S n => total n f + f (Z.of_nat n) end.

Lemma total_ge n f m : (∀ i, 0 ≤ i < Z.of_nat n → m ≤ f i) → Z.of_nat n * m ≤ total n f.
Proof.
  induction n as [|n IH]; intros Hf; [simpl; lia|].
  simpl total. specialize (IH ltac:(intros; apply Hf; lia)). specialize (Hf (Z.of_nat n) ltac:(lia)).
  lia.
Qed.

Lemma total_add n f g : total n (λ i, f i + g i) = total n f + total n g.
Proof. induction n as [|n IH]; simpl; [done|]. rewrite IH. lia. Qed.

Lemma total_eqb n x : total n (λ i, b2z (x =? i)) = b2z ((0 <=? x) && (x <? Z.of_nat n)).
Proof. induction n as [|n IH]; [simpl; by repeat case_cmp; try lia|]. simpl total. rewrite IH. repeat case_cmp; simpl; lia. Qed.

Lemma total_ext n f g : (∀ i, f i = g i) → total n f = total n g.
Proof. intros Hfg. induction n as [|n IH]; simpl; [done|]. by rewrite IH, Hfg. Qed.

Lemma total_occ l : byte_list l → total 256 (λ b, occ b l) = Z.of_nat (length l).
Proof.
  induction 1 as [|x l Hx _ IH]; [by vm_compute|].
  rewrite (total_ext _ _ (λ b, b2z (x =? b) + occ b l)) by (intros; apply occ_cons).
  rewrite total_add, IH, total_eqb. repeat case_cmp; simpl; lia.
Qed.

(** ** The chosen byte is rare *)

Definition counts (h l : list Z) : Prop :=
  length h = 256%nat ∧ ∀ b, in_u8 b → h !! Z.to_nat b = Some (occ b l).

Lemma arr_get_counts h l b : counts h l → in_u8 b → arr_get h b = Ok (occ b l).
Proof. intros [_ Hh] Hb. apply arr_get_Ok. split; [lia | auto]. Qed.

Lemma histogram_spec l slack :
  byte_list l → Z.of_nat (length l) < 2 ^ 32 →
  yields (histogram (l ++ slack) (Z.of_nat (length l))) (λ h, counts h l).
Proof.
  intros Hl Hlen. unfold histogram.
  change (for_up 256 0 _ _) with (Ok (replicate 256 0)).
  cbv beta iota delta [mbind outcome_bind].
  generalize (lookup_replicate_2 256 0). generalize (length_replicate 256 0).
  generalize (replicate 256 0). intros h0 Hh0 Hlook.
  rewrite Nat2Z.id.
  eapply yields_mono.
  { apply (for_up_inv (λ j h, counts h (take (Z.to_nat j) l))).
    - split; [done|]. intros b Hb. apply Hlook. lia.
    - intros j h Hj Hh. destruct (arr_get_in_range l j) as (b & _ & Hb); [lia|].
      rewrite (arr_get_pref _ _ _ _ Hb) by lia. simpl.
      assert (in_u8 b) as Hb8 by (eapply Forall_lookup_1 in Hl; eauto).
      rewrite (arr_get_counts _ _ _ Hh Hb8). simpl. destruct Hh as [Hl256 Hh].
      rewrite arr_set_in_range by lia. simpl.
      replace (Z.to_nat (j + 1)) with (S (Z.to_nat j)) by lia.
      rewrite (take_S_r _ _ _ Hb). split; [by rewrite length_insert|].
      intros c Hc. rewrite occ_app, occ_cons.
      destruct (Z.eqb_spec b c) as [->|Hne].
      + rewrite list_lookup_insert_eq by lia. f_equal.
        pose proof (occ_take_le c l (Z.to_nat j)). pose proof (occ_range c l).
        pose proof (occ_range c (take (Z.to_nat j) l)).
        destruct (decide (occ c l = Z.of_nat (length l))).
        * rewrite wrapu_small; [by rewrite Z.add_0_r|].
          rewrite length_take in *. lia.
        * rewrite wrapu_small; [by rewrite Z.add_0_r|]. lia.
      + rewrite list_lookup_insert_ne by lia. rewrite Hh by done. f_equal. change (occ c []) with 0. simpl; lia. }
  intros h. replace (Z.to_nat (0 + Z.of_nat (length l))) with (length l) by lia.
  by rewrite firstn_all.
Qed.

Lemma least_common_spec l slack :
  byte_list l → Z.of_nat (length l) < 2 ^ 32 →
  yields (least_common (l ++ slack) (Z.of_nat (length l)))
    (λ m, in_u8 m ∧ 256 * occ m l ≤ Z.of_nat (length l)).
Proof.
  intros Hl Hlen. unfold least_common. apply yields_bind.
  eapply yields_mono; [by apply histogram_spec|]. intros h Hh.
  eapply yields_mono.
  { apply (for_up_inv (λ j m, in_u8 m ∧ ∀ b, 0 ≤ b < j → occ m l ≤ occ b l)).
    - split; [lia|]. intros b Hb. by replace b with 0 by lia.
    - intros j m Hj [Hm Hmin]. rewrite (arr_get_counts _ _ j Hh), (arr_get_counts _ _ m Hh) by lia. simpl.
      case_cmp; (split; [lia|]); intros b Hb.
      + destruct (decide (b = j)) as [->|]; [lia|]. specialize (Hmin b). lia.
      + destruct (decide (b = j)) as [->|]; [lia|]. apply Hmin; lia. }
  intros m [Hm Hmin]. split; [done|].
  rewrite <- (total_occ l Hl). apply (total_ge 256). intros i Hi. apply Hmin. lia.
Qed.
