(* ===== verification/BitStream.v ===== *)
(** * libbcl: the bit streams of the Huffman and Shannon-Fano coders

    huffman.c and shannonfano.c contain the same bit-stream functions under two
    names; they are modelled once.  A stream is the index of its byte and the
    bit in it; the buffer it points into is passed beside it.

    [bit_at l i] is the [i]-th bit of a buffer.  [wrote_bits] says which bits a
    writer has written, [reads] which bits a reader is about to read. *)

From S2P Require Import Prelude Bits Bcl.

Record bitstream := BitStream {
  BytePtr : Z;
  BitPos : Z;
}.

Definition _Huffman_InitBitstream (buf : Z) : bitstream := BitStream buf 0.

(** The position after one more bit. *)
Definition next_bit (s : bitstream) : bitstream :=
  let bit := Z.land (u32 (BitPos s + 1)) 7 in
  BitStream (if bit =? 0 then BytePtr s + 1 else BytePtr s) bit.

Definition _Huffman_ReadBit (inb : list Z) (s : bitstream) : outcome (Z * bitstream) :=
  b ← arr_get inb (BytePtr s);
  let x := if testz (Z.land b (Z.shiftl 1 (7 - BitPos s))) then 1 else 0 in
  Ok (x, next_bit s).

Definition _Huffman_Read8Bits (inb : list Z) (s : bitstream) : outcome (Z * bitstream) :=
  b0 ← arr_get inb (BytePtr s);
  b1 ← arr_get inb (BytePtr s + 1);
  let x := u32 (Z.lor (Z.shiftl b0 (BitPos s)) (Z.shiftr b1 (8 - BitPos s))) in
  Ok (x, BitStream (BytePtr s + 1) (BitPos s)).

Abbreviation writer := (list Z * bitstream)%type.

Definition _Huffman_WriteBits (o : writer) (x bits : Z) : outcome writer :=
  mask ← shl32 1 (u32 (bits - 1));
  '(o, _) ← for_up (Z.to_nat bits) 0 (λ _ '((out, s), x),
    b ← arr_get out (BytePtr s);
    let k := 7 - BitPos s in
    out ← arr_set out (BytePtr s)
      (u8 (Z.land b (Z.lxor 0xff (Z.shiftl 1 k)) +
           Z.shiftl (if testz (Z.land x mask) then 1 else 0) k));
    Ok ((out, next_bit s), u32 (Z.shiftl x 1))) (o, x);
  Ok o.

(** ** Bits of a buffer *)

Definition bit_at (l : list Z) (i : Z) : bool :=
  Z.testbit (l !!! Z.to_nat (i / 8)) (7 - i mod 8).

(** [n] bits of a number, the most significant first. *)
Fixpoint to_bits (n : nat) (x : Z) : list bool :=
  match n with
  | O => []
  | S n => Z.testbit x (Z.of_nat n) :: to_bits n x
  end.

Lemma length_to_bits n x : length (to_bits n x) = n.
Proof. induction n; simpl; congruence. Qed.

Lemma lookup_to_bits n x i :
  (i < n)%nat → to_bits n x !! i = Some (Z.testbit x (Z.of_nat n - 1 - Z.of_nat i)).
Proof.
  revert i. induction n as [|n IH]; intros i Hi; [lia|]. destruct i as [|i]; simpl.
  - do 2 f_equal. lia.
  - rewrite IH by lia. do 2 f_equal. lia.
Qed.

Definition pos (s : bitstream) : Z := 8 * BytePtr s + BitPos s.

Definition stream_ok (s : bitstream) : Prop := 0 ≤ BytePtr s ∧ 0 ≤ BitPos s < 8.

Lemma pos_div s : stream_ok s → pos s / 8 = BytePtr s ∧ pos s mod 8 = BitPos s.
Proof. intros [? ?]. unfold pos. split; dlia. Qed.

Lemma next_bit_ok s : stream_ok s → stream_ok (next_bit s) ∧ pos (next_bit s) = pos s + 1.
Proof.
  intros [Hp Hb]. unfold next_bit, pos, stream_ok. rewrite wrapu_small, (land_mask _ 3) by lia.
  change (2 ^ 3) with 8. simpl. case_cmp; dlia.
Qed.

(** ** Writing *)

Definition wrote_bits (o : writer) (w : list bool) (cap : Z) : Prop :=
  stream_ok o.2 ∧ pos o.2 = Z.of_nat (length w) ∧ pos o.2 ≤ 8 * cap ∧
  Z.of_nat (length o.1) = cap ∧ byte_list o.1 ∧
  ∀ i, (i < length w)%nat → w !! i = Some (bit_at o.1 (Z.of_nat i)).

(** The byte with one bit replaced: all bytes, bits and values. *)
Definition set_bit (b k : Z) (c : bool) : Z :=
  Z.land b (Z.lxor 0xff (Z.shiftl 1 k)) + Z.shiftl (if c then 1 else 0) k.

Definition set_bit_ok (b k : Z) (c : bool) : bool :=
  let v := set_bit b k c in
  (0 <=? v) && (v <? 256) &&
  forallb (λ j, Bool.eqb (Z.testbit v j) (if j =? k then c else Z.testbit b j)) (seqZ 0 8).

Lemma set_bit_spec b k c :
  in_u8 b → 0 ≤ k < 8 →
  in_u8 (set_bit b k c) ∧
  ∀ j, 0 ≤ j < 8 → Z.testbit (set_bit b k c) j = if j =? k then c else Z.testbit b j.
Proof.
  intros Hb Hk.
  assert (forallb (λ b, forallb (λ k, set_bit_ok b k true && set_bit_ok b k false) (seqZ 0 8)) (seqZ 0 256) = true)
    as Hall by (vm_compute; reflexivity).
  rewrite forallb_forall in Hall. specialize (Hall b).
  rewrite <- list_elem_of_In, elem_of_seqZ in Hall. specialize (Hall ltac:(lia)).
  rewrite forallb_forall in Hall. specialize (Hall k).
  rewrite <- list_elem_of_In, elem_of_seqZ in Hall. specialize (Hall ltac:(lia)).
  apply andb_true_iff in Hall as [Ht Hf].
  assert (set_bit_ok b k c = true) as Hok by (by destruct c). unfold set_bit_ok in Hok.
  rewrite !andb_true_iff, Z.leb_le, Z.ltb_lt, forallb_forall in Hok. destruct Hok as [? Hbits].
  split; [done|]. intros j Hj. apply eqb_prop, Hbits. apply list_elem_of_In, elem_of_seqZ. lia.
Qed.

Lemma write_bit_spec out s w cap c :
  wrote_bits (out, s) w cap → Z.of_nat (length w) < 8 * cap →
  ∃ b out', arr_get out (BytePtr s) = Ok b ∧ in_u8 b ∧
    arr_set out (BytePtr s) (u8 (set_bit b (7 - BitPos s) c)) = Ok out' ∧
    wrote_bits (out', next_bit s) (w ++ [c]) cap.
Proof.
  intros (Hs & Hpos & Hle & Hcap & Hbytes & Hw) Hroom. simpl in *.
  destruct (pos_div s Hs) as [Hdiv Hmod]. destruct (next_bit_ok s Hs) as [Hs' Hpos'].
  pose proof Hs as [Hp Hb].
  destruct (arr_get_in_range out (BytePtr s)) as (b & Hget & Hlook); [unfold pos in *; lia|].
  pose proof (Forall_lookup_1 _ _ _ _ Hbytes Hlook) as Hb8. cbv beta in Hb8.
  destruct (set_bit_spec b (7 - BitPos s) c Hb8 ltac:(lia)) as [Hv8 Hvbits].
  exists b, (<[Z.to_nat (BytePtr s) := set_bit b (7 - BitPos s) c]> out).
  split_and!; [done | lia | lia | |].
  - rewrite wrapu_small by lia. apply arr_set_in_range. unfold pos in *; lia.
  - split_and!; simpl; auto.
    + rewrite Hpos', Hpos, length_app. simpl. lia.
    + lia.
    + by rewrite length_insert.
    + by apply Forall_insert.
    + intros i Hi. rewrite length_app in Hi. simpl in Hi.
      assert (bit_at (<[Z.to_nat (BytePtr s) := set_bit b (7 - BitPos s) c]> out) (Z.of_nat i) =
        if Z.of_nat i =? pos s then c else bit_at out (Z.of_nat i)) as ->.
      { unfold bit_at. destruct (decide (Z.of_nat i / 8 = BytePtr s)) as [Heq|Hne].
        - rewrite Heq. rewrite list_lookup_total_insert_eq by (unfold pos in *; lia).
          rewrite Hvbits by dlia. rewrite (list_lookup_total_correct _ _ _ Hlook).
          destruct (Z.eqb_spec (7 - Z.of_nat i mod 8) (7 - BitPos s)), (Z.eqb_spec (Z.of_nat i) (pos s));
            try done; exfalso; unfold pos in *; dlia.
        - rewrite list_lookup_total_insert_ne by dlia. case_cmp; [|done]. exfalso. unfold pos in *. dlia. }
      destruct (decide (i < length w)%nat).
      * rewrite lookup_app_l by done. rewrite Hw by done. case_cmp; [lia | done].
      * rewrite lookup_app_r by lia. replace (i - length w)%nat with O by lia. simpl.
        case_cmp; [done | lia].
Qed.

Lemma write_bits_spec o w cap x bits :
  wrote_bits o w cap → 1 ≤ bits ≤ 32 → in_u32 x → Z.of_nat (length w) + bits ≤ 8 * cap →
  yields (_Huffman_WriteBits o x bits) (λ o', wrote_bits o' (w ++ to_bits (Z.to_nat bits) x) cap).
Proof.
  intros Ho Hbits Hx Hroom. unfold _Huffman_WriteBits.
  rewrite wrapu_small by lia. unfold shl32. destruct (Z.leb_spec 0 (bits - 1)), (Z.ltb_spec (bits - 1) 32); try lia.
  cbn [andb mbind outcome_bind]. rewrite Z.shiftl_1_l.
  rewrite (wrapu_small 32) by (pose proof (Z.pow_lt_mono_r 2 (bits - 1) 32); lia).
  apply yields_bind. eapply yields_mono.
  - apply (for_up_inv (λ j '(o, y),
      wrote_bits o (w ++ take (Z.to_nat j) (to_bits (Z.to_nat bits) x)) cap ∧ y = u32 (x * 2 ^ j))).
    + simpl. rewrite app_nil_r, Z.mul_1_r, wrapu_small by lia. done.
    + intros j [[out s] y] Hj [Hb ->].
      rewrite land_bit_test by lia.
      assert (Z.testbit (u32 (x * 2 ^ j)) (bits - 1) = Z.testbit x (bits - 1 - j)) as ->.
      { unfold wrapu. rewrite Z.mod_pow2_bits_low by lia. apply Z.mul_pow2_bits. lia. }
      pose proof (lookup_to_bits (Z.to_nat bits) x (Z.to_nat j) ltac:(lia)) as Hl.
      rewrite !Z2Nat.id in Hl by lia.
      destruct (write_bit_spec out s _ cap (Z.testbit x (bits - 1 - j)) Hb) as (b & out' & -> & Hb8 & Hset & Hw').
      { rewrite length_app, length_take, length_to_bits. lia. }
      cbn [mbind outcome_bind]. unfold set_bit in Hset. rewrite Hset. cbn [mbind outcome_bind yields].
      split.
      * replace (Z.to_nat (j + 1)) with (S (Z.to_nat j)) by lia.
        by rewrite (take_S_r _ _ _ Hl), app_assoc.
      * unfold wrapu. rewrite Z.shiftl_mul_pow2, Zmult_mod_idemp_l by lia. f_equal.
        rewrite Z.pow_add_r by lia. lia.
  - intros [o' y] [Ho' _]. simpl. rewrite Z.add_0_l, Z2Nat.id in Ho' by lia.
    by rewrite firstn_all2 in Ho' by (rewrite length_to_bits; lia).
Qed.

(** ** Reading *)

(** The bits from the position of [s] on are [l]. *)
Definition reads (inb : list Z) (s : bitstream) (l : list bool) : Prop :=
  stream_ok s ∧ byte_list inb ∧ pos s + Z.of_nat (length l) ≤ 8 * Z.of_nat (length inb) ∧
  ∀ i, (i < length l)%nat → l !! i = Some (bit_at inb (pos s + Z.of_nat i)).

Lemma read_bit_spec inb s c l :
  reads inb s (c :: l) →
  yields (_Huffman_ReadBit inb s) (λ '(x, s'), x = b2z c ∧ reads inb s' l).
Proof.
  intros (Hs & Hbytes & Hlen & Hbits). destruct (pos_div s Hs) as [Hdiv Hmod].
  destruct (next_bit_ok s Hs) as [Hs' Hpos']. pose proof Hs as [Hp Hb]. unfold _Huffman_ReadBit.
  destruct (arr_get_in_range inb (BytePtr s)) as (b & -> & Hlook); [simpl in *; unfold pos in *; lia|].
  cbn [mbind outcome_bind yields].
  rewrite Z.shiftl_1_l, land_bit_test by lia.
  pose proof (Hbits O ltac:(simpl; lia)) as H0. simpl in H0. injection H0 as H0.
  rewrite Z.add_0_r in H0. unfold bit_at in H0. rewrite Hdiv, Hmod in H0.
  rewrite (list_lookup_total_correct _ _ _ Hlook) in H0. rewrite <- H0.
  split; [by destruct c|]. split_and!; auto.
  - rewrite Hpos'. simpl in *. lia.
  - intros i Hi. pose proof (Hbits (S i) ltac:(simpl; lia)) as HS. simpl in HS. rewrite HS. do 2 f_equal. lia.
Qed.

Lemma read8_spec inb s x l :
  reads inb s (to_bits 8 x ++ l) → l ≠ [] → in_u8 x →
  yields (_Huffman_Read8Bits inb s) (λ '(y, s'), 0 ≤ y < 2 ^ 31 ∧ u8 y = x ∧ reads inb s' l).
Proof.
  intros (Hs & Hbytes & Hlen & Hbits) Hl Hx. pose proof Hs as [Hp Hb].
  rewrite length_app, length_to_bits in Hlen.
  assert (1 ≤ length l)%nat as Hl1 by (destruct l; [done | simpl; lia]).
  unfold _Huffman_Read8Bits.
  destruct (arr_get_in_range inb (BytePtr s)) as (b0 & -> & Hlook0); [unfold pos in *; lia|].
  destruct (arr_get_in_range inb (BytePtr s + 1)) as (b1 & -> & Hlook1); [unfold pos in *; lia|].
  cbn [mbind outcome_bind yields].
  pose proof (Forall_lookup_1 _ _ _ _ Hbytes Hlook0) as H0. pose proof (Forall_lookup_1 _ _ _ _ Hbytes Hlook1) as H1.
  cbv beta in H0, H1. set (B := BitPos s) in *.
  assert (0 ≤ Z.lor (Z.shiftl b0 B) (Z.shiftr b1 (8 - B)) < 2 ^ 16) as Hr.
  { assert (0 ≤ Z.shiftl b0 B < 2 ^ 16).
    { rewrite Z.shiftl_mul_pow2 by lia. pose proof (Z.pow_le_mono_r 2 B 7 ltac:(lia) ltac:(lia)).
      assert (0 < 2 ^ B) by lia. nia. }
    assert (0 ≤ Z.shiftr b1 (8 - B) < 2 ^ 16).
    { rewrite Z.shiftr_div_pow2 by lia. assert (0 < 2 ^ (8 - B)) by lia.
      split; [apply Z.div_pos; lia|]. apply Z.div_lt_upper_bound; nia. }
    assert (∀ a, 0 ≤ a < 2 ^ 16 → a mod 2 ^ 16 = a) as Hmod by (intros; by apply Z.mod_small).
    rewrite <- (Hmod (Z.shiftl b0 B)), <- (Hmod (Z.shiftr b1 (8 - B))) by done.
    rewrite <- !Z.land_ones, <- Z.land_lor_distr_l, Z.land_ones by lia.
    apply Z.mod_pos_bound. lia. }
  rewrite (wrapu_small 32) by lia. split_and!; [lia..| |].
  - apply Z.bits_inj'. intros j Hj. unfold wrapu. destruct (decide (j < 8)).
    2: { rewrite Z.mod_pow2_bits_high, (testbit_above x 8) by lia. done. }
    rewrite Z.mod_pow2_bits_low, Z.lor_spec, Z.shiftl_spec, Z.shiftr_spec by lia.
    assert (Some (Z.testbit x j) = Some (bit_at inb (pos s + (7 - j)))) as [= ->].
    { pose proof (Hbits (Z.to_nat (7 - j))) as Hbit. rewrite length_app, length_to_bits in Hbit.
      specialize (Hbit ltac:(lia)). rewrite lookup_app_l in Hbit by (rewrite length_to_bits; lia).
      rewrite lookup_to_bits in Hbit by lia. rewrite Z2Nat.id in Hbit by lia. rewrite <- Hbit. do 2 f_equal. lia. }
    unfold bit_at. destruct (decide (B ≤ j)).
    + replace ((pos s + (7 - j)) / 8) with (BytePtr s) by (unfold pos in *; dlia).
      replace (7 - (pos s + (7 - j)) mod 8) with (j - B) by (unfold pos, B in *; dlia).
      rewrite (list_lookup_total_correct _ _ _ Hlook0), (testbit_above b1 8) by lia. by rewrite orb_false_r.
    + replace ((pos s + (7 - j)) / 8) with (BytePtr s + 1) by (unfold pos, B in *; dlia).
      replace (7 - (pos s + (7 - j)) mod 8) with (j + (8 - B)) by (unfold pos, B in *; dlia).
      rewrite (list_lookup_total_correct _ _ _ Hlook1), (Z.testbit_neg_r b0) by lia. done.
  - assert (pos (BitStream (BytePtr s + 1) B) = pos s + 8) as Hpos by (unfold pos, B; simpl; lia).
    split_and!; [by split; simpl; lia | done | lia |].
    intros i Hi. rewrite Hpos. pose proof (Hbits (8 + i)%nat) as Hbit.
    rewrite length_app, length_to_bits in Hbit. specialize (Hbit ltac:(lia)).
    rewrite lookup_app_r in Hbit by (rewrite length_to_bits; lia). rewrite length_to_bits in Hbit.
    replace (8 + i - 8)%nat with i in Hbit by lia. rewrite Hbit. do 2 f_equal. lia.
Qed.

(** What was written can be read, also from a copy of the bytes written only. *)
Definition stream_bytes (s : bitstream) : Z :=
  if 0 <? BitPos s then BytePtr s + 1 else BytePtr s.

Lemma stream_bytes_pos s : stream_ok s → 8 * stream_bytes s - 8 < pos s ≤ 8 * stream_bytes s.
Proof. intros [? ?]. unfold stream_bytes, pos. case_cmp; lia. Qed.

Lemma wrote_reads o w cap :
  wrote_bits o w cap →
  reads (take (Z.to_nat (stream_bytes o.2)) o.1) (_Huffman_InitBitstream 0) w.
Proof.
  intros (Hs & Hpos & Hle & Hcap & Hbytes & Hw). pose proof (stream_bytes_pos _ Hs).
  assert (0 ≤ BytePtr o.2) by apply Hs.
  split_and!; simpl.
  - split; simpl; lia.
  - by apply Forall_take.
  - rewrite length_take. unfold pos at 1. simpl. unfold stream_bytes in *. case_cmp; lia.
  - intros i Hi. rewrite Hw by done. unfold bit_at, pos. simpl. do 2 f_equal.
    rewrite !list_lookup_total_alt, lookup_take_lt by dlia. done.
Qed.
