(* ===== verification/Tree.v ===== *)
(** * libbcl: code trees

    What the Huffman and Shannon-Fano coders build: binary trees with the byte
    values at their leaves.  The code of a byte is the path to its leaf.

    - [codes]: the bytes of a tree with their paths; [data_bits]: how many bits
      the coded data take, the weighted path length of the tree.
    - [balanced]: Huffman's joining order; such a tree is at most as deep as
      the Fibonacci numbers allow ([balanced_depth]).
    - [greedy]: joining the two lightest weights again and again; joining 256
      weights costs at most eight times their sum ([greedy_cost]). *)

From S2P Require Import Prelude Bits Bcl BitStream.

Inductive tree :=
| Leaf (s : Z)
| Node (a b : tree).

Fixpoint codes (t : tree) : list (Z * list bool) :=
  match t with
  | Leaf s => [(s, [])]
  | Node a b => (prod_map id (cons false) <$> codes a) ++ (prod_map id (cons true) <$> codes b)
  end.

Fixpoint leaves (t : tree) : list Z :=
  match t with
  | Leaf s => [s]
  | Node a b => leaves a ++ leaves b
  end.

Fixpoint depth (t : tree) : nat :=
  match t with
  | Leaf _ => O
  | Node a b => S (depth a `max` depth b)
  end.

Lemma codes_leaves t : (codes t).*1 = leaves t.
Proof.
  induction t as [s|a IHa b IHb]; simpl; [done|].
  rewrite fmap_app, <- IHa, <- IHb. f_equal; rewrite <- list_fmap_compose; by apply list_fmap_ext.
Qed.

Lemma codes_depth t s p : (s, p) ∈ codes t → (length p ≤ depth t)%nat.
Proof.
  revert p. induction t as [s'|a IHa b IHb]; intros p; simpl.
  - intros [= -> ->]%list_elem_of_singleton. done.
  - rewrite elem_of_app, !list_elem_of_fmap.
    intros [([s' q] & [= -> ->] & Hq)|([s' q] & [= -> ->] & Hq)]; simpl.
    + specialize (IHa _ Hq). lia.
    + specialize (IHb _ Hq). lia.
Qed.

Lemma leaves_nonempty t : leaves t ≠ [].
Proof. induction t as [|a IHa b IHb]; simpl; [done|]. by destruct (leaves a). Qed.

(** ** Codes as numbers *)

Fixpoint bits_val (p : list bool) : Z :=
  match p with
  | [] => 0
  | b :: p => b2z b * 2 ^ Z.of_nat (length p) + bits_val p
  end.

Lemma bits_val_range p : 0 ≤ bits_val p < 2 ^ Z.of_nat (length p).
Proof.
  induction p as [|b p IH]; simpl length; [simpl; lia|].
  rewrite Nat2Z.inj_succ, Z.pow_succ_r by lia. destruct b; simpl; lia.
Qed.

Lemma bits_val_snoc p b : bits_val (p ++ [b]) = 2 * bits_val p + b2z b.
Proof.
  induction p as [|c p IH]; simpl; [lia|]. rewrite IH, length_app. simpl length.
  rewrite Nat.add_1_r, Nat2Z.inj_succ, Z.pow_succ_r by lia. lia.
Qed.

Lemma to_bits_ext n x y : (∀ i, 0 ≤ i < Z.of_nat n → Z.testbit x i = Z.testbit y i) → to_bits n x = to_bits n y.
Proof.
  induction n as [|n IH]; intros Hxy; simpl; [done|]. rewrite Hxy by lia. f_equal. apply IH. intros. apply Hxy. lia.
Qed.

Lemma to_bits_val p : to_bits (length p) (bits_val p) = p.
Proof.
  induction p as [|b p IH]; simpl; [done|]. pose proof (bits_val_range p) as Hr.
  set (n := Z.of_nat (length p)) in *. f_equal.
  - rewrite testbit_div by lia. rewrite Z.div_add_l, Z.div_small by lia. by destruct b.
  - etransitivity; [|exact IH]. apply to_bits_ext. intros i Hi. fold n in Hi.
    rewrite <- (Z.mod_pow2_bits_low (b2z b * 2 ^ n + bits_val p) n i) by lia.
    rewrite Z.add_comm, Z.mod_add, Z.mod_small by lia. done.
Qed.

(** ** Weights *)

Section Weights.
Context (c : Z → Z).

Fixpoint wt (t : tree) : Z :=
  match t with
  | Leaf s => c s
  | Node a b => wt a + wt b
  end.

(** The weighted path length. *)
Fixpoint wpl (t : tree) : Z :=
  match t with
  | Leaf _ => 0
  | Node a b => wpl a + wpl b + wt (Node a b)
  end.

Fixpoint sumZ (l : list Z) : Z :=
  match l with [] => 0 | x :: l => x + sumZ l end.

Lemma sumZ_app l k : sumZ (l ++ k) = sumZ l + sumZ k.
Proof. induction l as [|x l IH]; simpl; [done|]. rewrite IH. lia. Qed.

Lemma wt_leaves t : wt t = sumZ (c <$> leaves t).
Proof. induction t as [s|a IHa b IHb]; simpl; [lia|]. rewrite fmap_app, sumZ_app. lia. Qed.

Definition cost (x : Z * list bool) : Z := c x.1 * Z.of_nat (length x.2).

Lemma cost_cons_bit d l :
  sumZ (cost <$> (prod_map id (cons d) <$> l)) = sumZ (cost <$> l) + sumZ (c <$> l.*1).
Proof. induction l as [|[s p] l IH]; csimpl; [done|]. rewrite IH. unfold cost. simpl. lia. Qed.

Lemma wpl_codes t : wpl t = sumZ (cost <$> codes t).
Proof.
  induction t as [s|a IHa b IHb]; simpl; [unfold cost; simpl; lia|].
  rewrite fmap_app, sumZ_app, !cost_cons_bit, !codes_leaves, <- !wt_leaves. lia.
Qed.

(** ** Depth *)

(** The heavier child. *)
Definition kids (t : tree) : Z :=
  match t with
  | Leaf _ => 0
  | Node a b => Z.max (wt a) (wt b)
  end.

(** No node is lighter than a child of its sibling. *)
Fixpoint balanced (t : tree) : Prop :=
  match t with
  | Leaf s => 1 ≤ c s
  | Node a b => balanced a ∧ balanced b ∧ kids a ≤ wt b ∧ kids b ≤ wt a
  end.

Fixpoint fib (n : nat) : Z :=
  match n with
  | O => 0
  | S n => match n with O => 1 | S m => fib n + fib m end
  end.

Lemma fib_SS n : fib (S (S n)) = fib (S n) + fib n.
Proof. done. Qed.

Lemma fib_iter n : Nat.iter n (λ '(a, b), (b, a + b)) (0, 1) = (fib n, fib (S n)).
Proof. induction n as [|n IH]; [done|]. rewrite Nat.iter_succ, IH, fib_SS. f_equal. lia. Qed.

Lemma fib_value n : fib n = (Nat.iter n (λ '(a, b), (b, a + b)) (0, 1)).1.
Proof. by rewrite fib_iter. Qed.

Lemma fib_nonneg n : 0 ≤ fib n ∧ 0 ≤ fib (S n).
Proof. induction n as [|n [IH1 IH2]]; [done|]. split; [done|]. rewrite fib_SS. lia. Qed.

Lemma fib_mono m n : (m ≤ n)%nat → fib m ≤ fib n.
Proof.
  induction 1 as [|n _ IH]; [done|]. destruct n as [|n]; [simpl in *; lia|].
  rewrite fib_SS. pose proof (fib_nonneg n). lia.
Qed.

Lemma balanced_pos t : balanced t → 1 ≤ wt t.
Proof. induction t as [s|a IHa b IHb]; simpl; [done|]. intros (Ha & Hb & _). specialize (IHa Ha). specialize (IHb Hb). lia. Qed.

Lemma balanced_depth t : balanced t → fib (depth t + 2) ≤ wt t.
Proof.
  revert t. assert (∀ n t, (depth t ≤ n)%nat → balanced t → fib (depth t + 2) ≤ wt t) as Hall.
  2: { intros t. apply (Hall (depth t)). done. }
  induction n as [n IH] using lt_wf_ind. intros t Hn Ht.
  destruct t as [s|a b]; [simpl in *; lia|].
  assert (∀ x y, (depth y ≤ depth x)%nat → (S (depth x) ≤ n)%nat → balanced x → balanced y → kids x ≤ wt y →
    fib (S (depth x) + 2) ≤ wt x + wt y) as Hstep.
  { clear a b Hn Ht. intros x y Hxy Hxn Hx Hy Hk.
    pose proof (IH (depth x) ltac:(lia) x ltac:(lia) Hx) as IHx. pose proof (balanced_pos y Hy).
    destruct x as [s|x1 x2]; [simpl in *; lia|].
    assert (fib (depth (Node x1 x2) + 1) ≤ wt y) as Hy2.
    { transitivity (kids (Node x1 x2)); [|done]. simpl kids. destruct Hx as (Hx1 & Hx2 & _).
      simpl depth in *. pose proof (IH (depth x1) ltac:(lia) x1 ltac:(lia) Hx1).
      pose proof (IH (depth x2) ltac:(lia) x2 ltac:(lia) Hx2).
      replace (S (depth x1 `max` depth x2) + 1)%nat with ((depth x1 `max` depth x2) + 2)%nat by lia.
      destruct (Nat.max_spec (depth x1) (depth x2)) as [[_ ->]|[_ ->]]; lia. }
    replace (S (depth (Node x1 x2)) + 2)%nat with (S (S (depth (Node x1 x2) + 1))) by lia.
    rewrite fib_SS. replace (S (depth (Node x1 x2) + 1)) with (depth (Node x1 x2) + 2)%nat by lia. lia. }
  destruct Ht as (Ha & Hb & Hka & Hkb). simpl depth in *. simpl wt.
  destruct (decide (depth b ≤ depth a)%nat).
  - rewrite Nat.max_l by lia. apply Hstep; auto; lia.
  - rewrite Nat.max_r by lia. rewrite Z.add_comm. apply Hstep; auto; lia.
Qed.

End Weights.

(** ** Joining the two lightest *)

(** [greedy n ws vs k]: [n] joins turn the weights [ws] into [vs]; each costs the
    weight of the join, [k] in all. *)
Inductive greedy : nat → list Z → list Z → Z → Prop :=
| greedy_0 ws : greedy 0 ws ws 0
| greedy_S n ws a b r vs k :
    ws ≡ₚ a :: b :: r → a ≤ b → Forall (λ x, b ≤ x) r →
    greedy n (a + b :: r) vs k → greedy (S n) ws vs (a + b + k).

Lemma greedy_snoc n ws vs k a b r :
  greedy n ws vs k → vs ≡ₚ a :: b :: r → a ≤ b → Forall (λ x, b ≤ x) r →
  greedy (S n) ws (a + b :: r) (k + (a + b)).
Proof.
  induction 1 as [ws|n ws a' b' r' vs k Hws Hab Hr Hg IH]; intros Hvs Hle Hall.
  - replace (0 + (a + b)) with (a + b + 0) by lia. econstructor; [done..|]. constructor.
  - rewrite <- Z.add_assoc. econstructor; [done..|]. by apply IH.
Qed.

Lemma sumZ_perm l k : l ≡ₚ k → sumZ l = sumZ k.
Proof. induction 1; simpl; lia. Qed.

Lemma greedy_sum n ws vs k :
  greedy n ws vs k → sumZ vs = sumZ ws ∧ length ws = (length vs + n)%nat.
Proof.
  induction 1 as [ws|n ws a b r vs k Hws Hab Hr Hg [IHs IHl]]; [lia|].
  rewrite (sumZ_perm _ _ Hws), Hws. simpl in *. lia.
Qed.

(** Paying for a join: an element that covers it. *)
Lemma budget_step (l x r : list Z) a :
  l ++ x ≡ₚ a :: r → l ≠ [] → Forall (λ y, a ≤ y) r →
  ∃ y l' x', l ≡ₚ y :: l' ∧ a ≤ y ∧ l' ++ x' ≡ₚ r.
Proof.
  intros Hp Hne Hall.
  assert (a ∈ l ++ x) as Ha by (rewrite Hp; left).
  apply elem_of_app in Ha as [Ha|Ha].
  - apply elem_of_Permutation in Ha as [l' Hl']. exists a, l', x. split_and!; [done|lia|].
    rewrite Hl' in Hp. simpl in Hp. by apply Permutation_cons_inv in Hp.
  - apply elem_of_Permutation in Ha as [x' Hx']. destruct l as [|y l']; [done|].
    rewrite Hx', (Permutation_app_comm _ (a :: x')) in Hp. simpl in Hp.
    apply Permutation_cons_inv in Hp. exists y, l', (y :: x'). split_and!; [done| |].
    + rewrite Forall_forall in Hall. apply Hall. rewrite <- Hp. apply elem_of_app. right. left.
    + rewrite <- Hp. rewrite <- Permutation_middle. rewrite (Permutation_app_comm x'). done.
Qed.

Lemma greedy_budget n ws vs k o x :
  greedy n ws vs k → ws ≡ₚ o ++ x → (2 * n ≤ length o)%nat → Forall (λ y, 0 ≤ y) ws →
  k ≤ sumZ o.
Proof.
  intros Hg. revert o x. induction Hg as [ws|n ws a b r vs k Hws Hab Hr Hg IH]; intros o x Hp Hlen Hpos.
  - rewrite Hp in Hpos. apply Forall_app in Hpos as [Ho _]. clear -Ho. induction Ho; simpl; lia.
  - rewrite Hws in Hp, Hpos. symmetry in Hp.
    destruct (budget_step _ _ _ _ Hp) as (y1 & o1 & x1 & Ho1 & Hy1 & Hp1).
    { intros ->. simpl in Hlen. lia. }
    { constructor; [done|]. eapply Forall_impl; [exact Hr|]. simpl. lia. }
    destruct (budget_step _ _ _ _ Hp1) as (y2 & o2 & x2 & Ho2 & Hy2 & Hp2); [|done|].
    { intros ->. apply Permutation_length in Ho1. simpl in Ho1. lia. }
    rewrite (sumZ_perm _ _ Ho1). simpl. rewrite (sumZ_perm _ _ Ho2). simpl.
    assert (k ≤ sumZ o2); [|lia]. apply (IH o2 (a + b :: x2)).
    + rewrite <- Hp2. apply Permutation_middle.
    + apply Permutation_length in Ho1, Ho2. simpl in *. lia.
    + apply Forall_cons in Hpos as [? Hpos]. apply Forall_cons in Hpos as [? Hpos]. constructor; [lia | done].
Qed.

Lemma greedy_split n m ws vs k :
  greedy (n + m) ws vs k → ∃ us k1 k2, greedy n ws us k1 ∧ greedy m us vs k2 ∧ k = k1 + k2.
Proof.
  revert ws k. induction n as [|n IH]; intros ws k Hg.
  - exists ws, 0, k. split_and!; [constructor | done | lia].
  - inversion Hg as [|? ? a b r ? k' Hws Hab Hr Hg']; subst.
    destruct (IH _ _ Hg') as (us & k1 & k2 & H1 & H2 & ->).
    exists us, (a + b + k1), k2. split_and!; [by econstructor | done | lia].
Qed.

Lemma greedy_pos n ws vs k :
  greedy n ws vs k → Forall (λ y, 0 ≤ y) ws → Forall (λ y, 0 ≤ y) vs.
Proof.
  induction 1 as [ws|n ws a b r vs k Hws Hab Hr Hg IH]; [done|]. rewrite Hws. intros Hpos.
  apply IH. apply Forall_cons in Hpos as [? Hpos]. apply Forall_cons in Hpos as [? Hpos]. constructor; [lia | done].
Qed.

Lemma greedy_cost j ws vs k :
  greedy (length ws - 1) ws vs k → ws ≠ [] → (length ws ≤ 2 ^ j)%nat → Forall (λ y, 0 ≤ y) ws →
  k ≤ Z.of_nat j * sumZ ws.
Proof.
  revert ws k. induction j as [|j IH]; intros ws k Hg Hne Hlen Hpos.
  - simpl in Hlen. destruct ws as [|w [|w' ws]]; simpl in *; try done; [|lia].
    inversion Hg; subst. lia.
  - set (r := (length ws / 2)%nat). assert (length ws ≠ 0%nat) by (by destruct ws).
    assert (2 * r ≤ length ws)%nat as Hr by (unfold r; pose proof (Nat.div_mod (length ws) 2); lia).
    assert (length ws - r ≤ 2 ^ j)%nat as Hhalf.
    { unfold r. rewrite Nat.pow_succ_r' in Hlen. pose proof (Nat.div_mod (length ws) 2).
      pose proof (Nat.mod_upper_bound (length ws) 2). lia. }
    replace (length ws - 1)%nat with (r + (length ws - r - 1))%nat in Hg by lia.
    apply greedy_split in Hg as (us & k1 & k2 & H1 & H2 & ->).
    destruct (greedy_sum _ _ _ _ H1) as [Hs Hl]. pose proof (greedy_pos _ _ _ _ H1 Hpos) as Hpos'.
    assert (k1 ≤ sumZ ws) by (apply (greedy_budget _ _ _ _ ws [] H1); [by rewrite app_nil_r | lia | done]).
    assert (k2 ≤ Z.of_nat j * sumZ us).
    { apply IH; [|intros ->; simpl in *; lia|lia|done]. by replace (length us - 1)%nat with (length ws - r - 1)%nat by lia. }
    rewrite Hs in *. lia.
Qed.
