(* ===== verification/SymTable.v ===== *)
(** * libbcl: the symbol tables of the Huffman and Shannon-Fano coders

    [sym_t] is huff_sym_t and sf_sym_t, which are the same; the histogram loop and
    the bubble sort occur in both files as well.  The sort is proved to end
    (every round that swaps removes an inversion), to permute the table and to
    leave no neighbours out of order. *)

From stdpp Require Import sorting.
From S2P Require Import Prelude Bits Bcl.

Record sym_t := Sym {
  Symbol : Z;
  Count : Z;
  Code : Z;
  Bits : Z;
}.

#[global] Instance sym_inhabited : Inhabited sym_t := populate (Sym 0 0 0 0).

Definition set_Count (n : Z) (e : sym_t) : sym_t := Sym (Symbol e) n (Code e) (Bits e).
Definition set_Code (code bits : Z) (e : sym_t) : sym_t := Sym (Symbol e) (Count e) code bits.

Definition _Huffman_Hist (inb : list Z) (sym : list sym_t) (size : Z) : outcome (list sym_t) :=
  sym ← for_up 256 0 (λ k sym, arr_set sym k (Sym k 0 0 0)) sym;
  for_up (Z.to_nat size) 0 (λ i sym,
    b ← arr_get inb i;
    e ← arr_get sym b;
    arr_set sym b (set_Count (u32 (Count e + 1)) e)) sym.

Section Bubble.
(** [gt a b]: [a] may not stand before [b]. *)
Context (gt : sym_t → sym_t → bool).

Definition bubble_round (sym : list sym_t) : outcome (list sym_t * bool) :=
  for_up 255 0 (λ k '(sym, swaps),
    a ← arr_get sym k;
    b ← arr_get sym (k + 1);
    if gt a b then
      sym ← arr_set sym k b;
      sym ← arr_set sym (k + 1) a;
      Ok (sym, true)
    else Ok (sym, swaps)) (sym, false).

(** 256 entries have at most 32640 inversions. *)
Definition bubble_sort (sym : list sym_t) : outcome (list sym_t) :=
  iter (Z.to_nat 32641) (λ sym,
    '(sym, swaps) ← bubble_round sym;
    Ok (if swaps : bool then inl sym else inr sym)) sym.

(** ** Inversions *)

Fixpoint inv (l : list sym_t) : nat :=
  match l with
  | [] => O
  | x :: l => (length (filter (λ y, gt x y) l) + inv l)%nat
  end.

Lemma inv_bound l : (2 * inv l ≤ length l * (length l - 1))%nat.
Proof.
  induction l as [|x l IH]; simpl; [lia|]. pose proof (length_filter (λ y, gt x y) l).
  rewrite Nat.sub_0_r. destruct (length l); simpl in *; lia.
Qed.

Context (gt_asym : ∀ a b, gt a b = true → gt b a = false).

Lemma inv_swap p a b q :
  gt a b = true → inv (p ++ a :: b :: q) = S (inv (p ++ b :: a :: q)).
Proof.
  intros Hgt. induction p as [|x p IH]; simpl.
  - rewrite !filter_cons. rewrite Hgt, (gt_asym _ _ Hgt).
    destruct (decide (Is_true true)), (decide (Is_true false)); try done. simpl. lia.
  - rewrite IH. rewrite Nat.add_succ_r. do 2 f_equal.
    apply Permutation_length, filter_Permutation. by rewrite (Permutation_swap a b).
Qed.

(** The neighbours before [k] are in order. *)
Definition ordered_upto (k : Z) (l : list sym_t) : Prop :=
  ∀ i, 0 ≤ i < k → gt (l !!! Z.to_nat i) (l !!! Z.to_nat (i + 1)) = false.

Lemma split_at (l : list sym_t) k :
  0 ≤ k → k + 1 < Z.of_nat (length l) →
  ∃ p q, l = p ++ l !!! Z.to_nat k :: l !!! Z.to_nat (k + 1) :: q ∧ Z.of_nat (length p) = k.
Proof.
  intros Hk Hl. destruct (lookup_lt_is_Some_2 l (Z.to_nat k)) as [a Ha]; [lia|].
  destruct (lookup_lt_is_Some_2 l (Z.to_nat (k + 1))) as [b Hb]; [lia|].
  rewrite (list_lookup_total_correct _ _ _ Ha), (list_lookup_total_correct _ _ _ Hb).
  exists (take (Z.to_nat k) l), (drop (S (S (Z.to_nat k))) l). split; [|rewrite length_take; lia].
  replace (Z.to_nat (k + 1)) with (S (Z.to_nat k)) in Hb by lia.
  rewrite <- (drop_S _ _ _ Hb), <- (drop_S _ _ _ Ha). by rewrite take_drop.
Qed.

Lemma bubble_round_spec l :
  length l = 256%nat →
  yields (bubble_round l) (λ '(l', swaps),
    l' ≡ₚ l ∧ if swaps : bool then (inv l' < inv l)%nat else l' = l ∧ ordered_upto 255 l).
Proof.
  intros Hlen.
  eapply yields_mono.
  - apply (for_up_inv (λ k '(l', swaps), l' ≡ₚ l ∧
      if swaps : bool then (inv l' < inv l)%nat else l' = l ∧ ordered_upto k l)).
    + split; [done|]. split; [done|]. intros i Hi. lia.
    + intros k [l' swaps] Hk [Hp Hs].
      assert (length l' = 256%nat) as Hlen' by (by rewrite Hp).
      destruct (split_at l' k) as (p & q & Hl' & Hpk); [lia..|].
      set (a := l' !!! Z.to_nat k) in *. set (b := l' !!! Z.to_nat (k + 1)) in *.
      rewrite Hl' at 1. rewrite arr_get_app by lia. cbn [mbind outcome_bind].
      assert (l' = (p ++ [a]) ++ b :: q) as Hl2 by (by rewrite <- app_assoc).
      rewrite Hl2 at 1. rewrite arr_get_app by room. cbn [mbind outcome_bind].
      destruct (gt a b) eqn:Hgt.
      * rewrite Hl' at 1. rewrite arr_set_app by lia. cbn [mbind outcome_bind].
        rewrite arr_set_app by room. cbn [mbind outcome_bind yields].
        assert (((p ++ [b]) ++ [a]) ++ q = p ++ b :: a :: q) as -> by (by rewrite <- !app_assoc).
        split; [by rewrite <- Hp, Hl', (Permutation_swap a b)|].
        assert (inv l' ≤ inv l)%nat as Hle by (destruct swaps; [lia | by destruct Hs as [-> _]]).
        rewrite Hl', (inv_swap _ _ _ _ Hgt) in Hle. lia.
      * cbn [yields]. split; [done|]. destruct swaps; [done|]. destruct Hs as [-> Hord]. split; [done|].
        intros i Hi. destruct (decide (i = k)) as [->|]; [done|]. apply Hord. lia.
  - intros [l' swaps]. done.
Qed.

Lemma bubble_sort_spec l :
  length l = 256%nat →
  yields (bubble_sort l) (λ l', l' ≡ₚ l ∧ ordered_upto 255 l').
Proof.
  intros Hlen. apply (iter_inv (λ l', l' ≡ₚ l) inv); [done| |].
  - pose proof (inv_bound l) as Hb. rewrite Hlen in Hb. lia.
  - intros l' Hp. apply yields_bind. eapply yields_mono; [apply bubble_round_spec; by rewrite Hp|].
    intros [l2 swaps] [Hp2 Hs]. destruct swaps; simpl.
    + split; [by rewrite Hp2 | done].
    + destruct Hs as [-> Hord]. done.
Qed.

End Bubble.

(** ** The histogram *)

Definition sym_counts (sym : list sym_t) (l : list Z) : Prop :=
  length sym = 256%nat ∧ ∀ b, in_u8 b → sym !! Z.to_nat b = Some (Sym b (occ b l) 0 0).

Lemma hist_spec inb sym :
  byte_list inb → Z.of_nat (length inb) < 2 ^ 31 → length sym = 256%nat →
  yields (_Huffman_Hist inb sym (Z.of_nat (length inb))) (λ sym', sym_counts sym' inb).
Proof.
  intros Hin Hlen Hsym. unfold _Huffman_Hist. apply yields_bind.
  eapply yields_mono.
  { apply (for_up_inv (λ j h, length h = 256%nat ∧ ∀ b, 0 ≤ b < j → h !! Z.to_nat b = Some (Sym b 0 0 0))).
    - split; [done | lia].
    - intros j h Hj [Hl Hh]. rewrite arr_set_in_range by lia. simpl. split; [by rewrite length_insert|].
      intros b Hb. destruct (decide (b = j)) as [->|].
      + apply list_lookup_insert_eq. lia.
      + rewrite list_lookup_insert_ne by lia. apply Hh. lia. }
  intros h0 [Hl0 Hh0]. simpl in Hh0. rewrite Nat2Z.id.
  eapply yields_mono.
  { apply (for_up_inv (λ j h, sym_counts h (take (Z.to_nat j) inb))).
    - split; [done|]. intros b Hb. apply Hh0. lia.
    - intros j h Hj [Hl Hh]. destruct (arr_get_in_range inb j) as (b & -> & Hb); [lia|]. cbn [mbind outcome_bind].
      assert (in_u8 b) as Hb8 by exact (Forall_lookup_1 _ _ _ _ Hin Hb).
      rewrite (proj2 (arr_get_Ok h b _) (conj (proj1 Hb8) (Hh b Hb8))). cbn [mbind outcome_bind].
      rewrite arr_set_in_range by lia. cbn [yields]. unfold set_Count. cbn [Symbol Code Bits Count].
      replace (Z.to_nat (j + 1)) with (S (Z.to_nat j)) by lia. rewrite (take_S_r _ _ _ Hb).
      split; [by rewrite length_insert|]. intros c Hc. rewrite occ_app, occ_cons. change (occ c []) with 0.
      destruct (Z.eqb_spec b c) as [->|Hne].
      + rewrite list_lookup_insert_eq by lia. do 2 f_equal. pose proof (occ_range c (take (Z.to_nat j) inb)).
        rewrite length_take in *. rewrite wrapu_small by lia. simpl. lia.
      + rewrite list_lookup_insert_ne by lia. rewrite Hh by done. do 2 f_equal. simpl. lia. }
  intros h. replace (Z.to_nat (0 + Z.of_nat (length inb))) with (length inb) by lia. by rewrite firstn_all.
Qed.

(** ** Sorting by symbol *)

Definition by_symbol (a b : sym_t) : bool := Symbol b <? Symbol a.

Lemma by_symbol_asym a b : by_symbol a b = true → by_symbol b a = false.
Proof. unfold by_symbol. rewrite Z.ltb_lt, Z.ltb_ge. lia. Qed.

Lemma sorted_neighbours (l : list Z) :
  (∀ i x y, l !! i = Some x → l !! S i = Some y → x ≤ y) → Sorted Z.le l.
Proof.
  induction l as [|x l IH]; intros H; constructor.
  - apply IH. intros i a b Ha Hb. by apply (H (S i)).
  - destruct l as [|y l]; constructor. by apply (H O).
Qed.

(** A table of all 256 symbols, in order, is indexed by the symbol. *)
Lemma ordered_symbols l :
  Symbol <$> l ≡ₚ seqZ 0 256 → ordered_upto by_symbol 255 l → Symbol <$> l = seqZ 0 256.
Proof.
  intros Hp Hord.
  assert (length l = 256%nat) as Hlen by (apply Permutation_length in Hp; by rewrite length_fmap in Hp).
  apply (StronglySorted_unique Z.le); [| |done].
  - apply Sorted_StronglySorted; [intros ???; lia|]. apply sorted_neighbours. intros i x y Hx Hy.
    rewrite list_lookup_fmap in Hx, Hy. apply fmap_Some in Hx as (a & Ha & ->), Hy as (b & Hb & ->).
    pose proof (lookup_lt_Some _ _ _ Hb). specialize (Hord (Z.of_nat i) ltac:(lia)).
    replace (Z.to_nat (Z.of_nat i + 1)) with (S i) in Hord by lia. rewrite Nat2Z.id in Hord.
    rewrite (list_lookup_total_correct _ _ _ Ha), (list_lookup_total_correct _ _ _ Hb) in Hord.
    unfold by_symbol in Hord. apply Z.ltb_ge in Hord. lia.
  - apply Sorted_StronglySorted; [intros ???; lia|]. apply sorted_neighbours. intros i x y Hx Hy.
    apply lookup_seqZ in Hx, Hy. lia.
Qed.
