(* ===== verification/Huffman.v ===== *)
(** * libbcl/huffman.c

    The coder and the decoder.  Nodes live in arrays; a pointer to a node is its
    index, a null pointer is [None].  The bit streams are in BitStream.v, the
    symbol table and its histogram in SymTable.v. *)

From S2P Require Import Prelude Bits Bcl BitStream Tree SymTable.

Definition MAX_TREE_NODES : nat := 511.

(** A pointer that has to be valid. *)
Definition deref (p : option Z) : outcome Z :=
  match p with Some i => Ok i | None => Fault NullPointer end.

(** ** The encoder *)

Record huff_encodenode := EncNode {
  enc_ChildA : option Z;
  enc_ChildB : option Z;
  enc_Count : Z;
  enc_Symbol : Z;
}.

#[global] Instance enc_inhabited : Inhabited huff_encodenode := populate (EncNode None None 0 0).

Definition set_enc_Count (n : Z) (e : huff_encodenode) : huff_encodenode :=
  EncNode (enc_ChildA e) (enc_ChildB e) n (enc_Symbol e).

(** The index of a symbol in the table; 256 when it is not there. *)
Definition find_symbol (sym : list sym_t) (s : Z) : outcome Z :=
  iter 257 (λ sym_idx,
    if sym_idx <? 256 then
      e ← arr_get sym sym_idx;
      if Symbol e =? s then Ok (inr sym_idx) else Ok (inl (sym_idx + 1))
    else Ok (inr sym_idx)) 0.

Fixpoint _Huffman_StoreTree (fuel : nat) (nodes : list huff_encodenode) (node : Z)
    (sym : list sym_t) (o : writer) (code bits : Z) : outcome (list sym_t * writer) :=
  match fuel with
  | O => Fault OutOfFuel
  | S fuel =>
      nd ← arr_get nodes node;
      if 0 <=? enc_Symbol nd then
        o ← _Huffman_WriteBits o 1 1;
        o ← _Huffman_WriteBits o (enc_Symbol nd) 8;
        sym_idx ← find_symbol sym (enc_Symbol nd);
        e ← arr_get sym sym_idx;
        sym ← arr_set sym sym_idx (set_Code code bits e);
        Ok (sym, o)
      else
        o ← _Huffman_WriteBits o 0 1;
        a ← deref (enc_ChildA nd);
        '(sym, o) ← _Huffman_StoreTree fuel nodes a sym o (u32 (Z.shiftl code 1 + 0)) (u32 (bits + 1));
        b ← deref (enc_ChildB nd);
        _Huffman_StoreTree fuel nodes b sym o (u32 (Z.shiftl code 1 + 1)) (u32 (bits + 1))
  end.

(** The leaf nodes: one for each symbol that occurs. *)
Definition huff_leaves (sym : list sym_t) : outcome (list huff_encodenode * Z) :=
  for_up 256 0 (λ k '(nodes, num_symbols),
    e ← arr_get sym k;
    if 0 <? Count e then
      nodes ← arr_set nodes num_symbols (EncNode None None (i32 (Count e)) (Symbol e));
      Ok (nodes, u32 (num_symbols + 1))
    else Ok (nodes, num_symbols)) (replicate MAX_TREE_NODES (EncNode None None 0 0), 0).

(** The two lightest of the first [next_idx] nodes. *)
Definition huff_lightest (nodes : list huff_encodenode) (next_idx : Z) :
    outcome (option Z * option Z) :=
  for_up (Z.to_nat next_idx) 0 (λ k '(node_1, node_2),
    nd ← arr_get nodes k;
    if 0 <? enc_Count nd then
      first ← match node_1 with
              | None => Ok true
              | Some i => n1 ← arr_get nodes i; Ok (enc_Count nd <=? enc_Count n1)
              end;
      if first : bool then Ok (Some k, node_1)
      else
        second ← match node_2 with
                 | None => Ok true
                 | Some i => n2 ← arr_get nodes i; Ok (enc_Count nd <=? enc_Count n2)
                 end;
        Ok (node_1, if second : bool then Some k else node_2)
    else Ok (node_1, node_2)) (None, None).

(** Join the two lightest nodes into a new one. *)
Definition huff_join (nodes : list huff_encodenode) (next_idx : Z) : outcome (list huff_encodenode) :=
  '(node_1, node_2) ← huff_lightest nodes next_idx;
  i1 ← deref node_1;
  i2 ← deref node_2;
  n1 ← arr_get nodes i1;
  n2 ← arr_get nodes i2;
  nodes ← arr_set nodes next_idx
            (EncNode node_1 node_2 (i32 (enc_Count n1 + enc_Count n2)) (-1));
  nodes ← arr_set nodes i1 (set_enc_Count 0 n1);
  n2 ← arr_get nodes i2;
  arr_set nodes i2 (set_enc_Count 0 n2).

(** Join until one node is left; its index is [root]. *)
Definition huff_build (sym : list sym_t) : outcome (list huff_encodenode * option Z) :=
  '(nodes, num_symbols) ← huff_leaves sym;
  iter 257 (λ '(nodes, root, nodes_left, next_idx),
    if 1 <? nodes_left then
      nodes ← huff_join nodes next_idx;
      Ok (inl (nodes, Some next_idx, u32 (nodes_left - 1), u32 (next_idx + 1)))
    else Ok (inr (nodes, root))) (nodes, None, num_symbols, num_symbols).

Definition _Huffman_MakeTree (sym : list sym_t) (o : writer) : outcome (list sym_t * writer) :=
  '(nodes, root) ← huff_build sym;
  match root with
  | Some i => _Huffman_StoreTree (S MAX_TREE_NODES) nodes i sym o 0 0
  | None => _Huffman_StoreTree (S MAX_TREE_NODES) nodes 0 sym o 0 1
  end.

(** Write the code of every input byte. *)
Definition huff_encode (inb : list Z) (sym : list sym_t) (insize : Z) (o : writer) : outcome writer :=
  for_up (Z.to_nat insize) 0 (λ k o,
    symbol ← arr_get inb k;
    e ← arr_get sym symbol;
    _Huffman_WriteBits o (Code e) (Bits e)) o.

(** The bytes written, the last one maybe in part. *)
Definition total_bytes (s : bitstream) : Z :=
  let total := i32 (BytePtr s) in
  i32 (if 0 <? BitPos s then u32 (total + 1) else total).

Definition Huffman_Compress (inb out : list Z) (insize : Z) : outcome (Z * list Z) :=
  if insize <? 1 then Ok (0, out)
  else
    let stream := _Huffman_InitBitstream 0 in
    sym ← _Huffman_Hist inb (replicate 256 (Sym 0 0 0 0)) insize;
    '(sym, o) ← _Huffman_MakeTree sym (out, stream);
    sym ← bubble_sort by_symbol sym;
    o ← huff_encode inb sym insize o;
    Ok (total_bytes o.2, o.1).

(** ** The decoder *)

Record huff_decodenode := DecNode {
  dec_ChildA : option Z;
  dec_ChildB : option Z;
  dec_Symbol : Z;
}.

#[global] Instance dec_inhabited : Inhabited huff_decodenode := populate (DecNode None None 0).

Definition set_dec_ChildA (p : Z) (e : huff_decodenode) := DecNode (Some p) (dec_ChildB e) (dec_Symbol e).
Definition set_dec_ChildB (p : Z) (e : huff_decodenode) := DecNode (dec_ChildA e) (Some p) (dec_Symbol e).
Definition set_dec_Symbol (s : Z) (e : huff_decodenode) := DecNode (dec_ChildA e) (dec_ChildB e) s.

(** The decoder's variables: the node array, the stream, and the number of
    nodes used. *)
Abbreviation dec_vars := (list huff_decodenode * bitstream * Z)%type.

(** [nodes[i] = f(nodes[i])] *)
Definition node_update (nodes : list huff_decodenode) (i : Z) (f : huff_decodenode → huff_decodenode) :
    outcome (list huff_decodenode) :=
  e ← arr_get nodes i;
  arr_set nodes i (f e).

Fixpoint _Huffman_RecoverTree (fuel : nat) (inb : list Z) (v : dec_vars) : outcome (Z * dec_vars) :=
  match fuel with
  | O => Fault OutOfFuel
  | S fuel =>
      let '(nodes, s, nodenum) := v in
      let this_node := nodenum in
      let nodenum := u32 (nodenum + 1) in
      nodes ← arr_set nodes this_node (DecNode None None (-1));
      '(leaf, s) ← _Huffman_ReadBit inb s;
      if testz leaf then
        '(x, s) ← _Huffman_Read8Bits inb s;
        nodes ← node_update nodes this_node (set_dec_Symbol (i32 x));
        Ok (this_node, (nodes, s, nodenum))
      else
        '(a, (nodes, s, nodenum)) ← _Huffman_RecoverTree fuel inb (nodes, s, nodenum);
        nodes ← node_update nodes this_node (set_dec_ChildA a);
        '(b, (nodes, s, nodenum)) ← _Huffman_RecoverTree fuel inb (nodes, s, nodenum);
        nodes ← node_update nodes this_node (set_dec_ChildB b);
        Ok (this_node, (nodes, s, nodenum))
  end.

(** Follow the bits from the root to a leaf. *)
Definition huff_walk (nodes : list huff_decodenode) (root : Z) (inb : list Z) (s : bitstream) :
    outcome (Z * bitstream) :=
  iter (S MAX_TREE_NODES) (λ '(node, s),
    nd ← arr_get nodes node;
    if dec_Symbol nd <? 0 then
      '(x, s) ← _Huffman_ReadBit inb s;
      node ← deref (if testz x then dec_ChildB nd else dec_ChildA nd);
      Ok (inl (node, s))
    else Ok (inr (dec_Symbol nd, s))) (root, s).

Definition huff_decode (nodes : list huff_decodenode) (root : Z) (inb : list Z) (outsize : Z)
    (s : bitstream) (out : list Z) : outcome (list Z) :=
  '(_, o) ← for_up (Z.to_nat outsize) 0 (λ _ '(s, o),
    '(x, s) ← huff_walk nodes root inb s;
    o ← put o x;
    Ok (s, o)) (s, (out, 0));
  Ok o.1.

Definition Huffman_Uncompress (inb out : list Z) (insize outsize : Z) : outcome (list Z) :=
  if insize <? 1 then Ok out
  else
    let stream := _Huffman_InitBitstream 0 in
    '(root, (nodes, stream, _)) ←
      _Huffman_RecoverTree (S MAX_TREE_NODES) inb (replicate MAX_TREE_NODES (DecNode None None 0), stream, 0);
    huff_decode nodes root inb outsize stream out.
