(* ===== verification/HuffTree.v ===== *)
(** * libbcl/huffman.c: the tree the encoder builds

    [enc_at nodes n i t]: among the first [n] nodes, node [i] is the root of the
    tree [t].  [forest] is the invariant of the joining loop; [make_tree_spec]
    says what the loop ends with. *)

From S2P Require Import Prelude Bits Bcl BitStream Tree SymTable Huffman.

(** ** Trees in the node array *)

Fixpoint enc_at (nodes : list huff_encodenode) (n i : Z) (t : tree) : Prop :=
  0 ≤ i < n ∧
  match t with
  | Leaf s => 0 ≤ s ∧ ∃ nd, nodes !! Z.to_nat i = Some nd ∧ enc_Symbol nd = s
  | Node a b => ∃ ia ib count, nodes !! Z.to_nat i = Some (EncNode (Some ia) (Some ib) count (-1)) ∧
                               enc_at nodes n ia a ∧ enc_at nodes n ib b
  end.

(** Changing counts, or nodes outside the first [n], leaves the trees. *)
Definition same_shape (n : Z) (nodes nodes' : list huff_encodenode) : Prop :=
  ∀ k nd, 0 ≤ k < n → nodes !! Z.to_nat k = Some nd →
    ∃ count, nodes' !! Z.to_nat k = Some (set_enc_Count count nd).

Lemma enc_at_shape nodes nodes' n m i t :
  same_shape n nodes nodes' → n ≤ m → enc_at nodes n i t → enc_at nodes' m i t.
Proof.
  intros Hs Hnm. revert i. induction t as [s|a IHa b IHb]; intros i; simpl.
  - intros (Hi & H0 & nd & Hnd & Hsym). split; [lia|]. split; [done|].
    destruct (Hs i nd Hi Hnd) as [count Hc]. by exists (set_enc_Count count nd).
  - intros (Hi & ia & ib & count & Hnd & Ha & Hb). split; [lia|].
    destruct (Hs i _ Hi Hnd) as [count' Hc]. exists ia, ib, count'. auto.
Qed.

(** ** Lists with one entry per key *)

Lemma filter_ext_in {A} (P Q : A → Prop) `{∀ x, Decision (P x)} `{∀ x, Decision (Q x)} (l : list A) :
  (∀ x, x ∈ l → P x ↔ Q x) → filter P l = filter Q l.
Proof.
  induction l as [|x l IH]; intros HPQ; [done|]. rewrite !filter_cons.
  rewrite IH by (intros; apply HPQ; by right). pose proof (HPQ x ltac:(left)).
  by repeat case_decide; try tauto.
Qed.

Lemma filter_none {A} (P : A → Prop) `{∀ x, Decision (P x)} (l : list A) :
  (∀ x, x ∈ l → ¬ P x) → filter P l = [].
Proof.
  induction l as [|x l IH]; intros HP; [done|]. rewrite filter_cons_False by (apply HP; left).
  apply IH. intros y Hy. apply HP. by right.
Qed.

Lemma filter_all {A} (P : A → Prop) `{∀ x, Decision (P x)} (l : list A) :
  (∀ x, x ∈ l → P x) → filter P l = l.
Proof.
  induction l as [|x l IH]; intros HP; [done|]. rewrite filter_cons_True by (apply HP; left).
  f_equal. apply IH. intros y Hy. apply HP. by right.
Qed.

Lemma filter_below (act : list (Z * tree)) k t :
  NoDup act.*1 → (k, t) ∈ act →
  filter (λ x, x.1 < k + 1) act ≡ₚ (k, t) :: filter (λ x, x.1 < k) act.
Proof.
  induction act as [|[j u] act IH]; simpl; intros Hnd Hin; [by apply elem_of_nil in Hin|].
  apply NoDup_cons in Hnd as [Hj Hnd]. rewrite !filter_cons. apply elem_of_cons in Hin as [[= <- <-]|Hin].
  - rewrite decide_True, decide_False by (simpl; lia). constructor.
    assert (filter (λ x : Z * tree, x.1 < k + 1) act = filter (λ x, x.1 < k) act) as ->; [|done].
    apply filter_ext_in. intros [i v] Hi. simpl.
    assert (i ≠ k); [|lia]. intros ->. apply Hj. by apply (list_elem_of_fmap_2 fst _ (k, v)).
  - assert (j ≠ k) as Hne by (intros ->; apply Hj; by apply (list_elem_of_fmap_2 fst _ (k, t))).
    destruct (decide (j < k)).
    + rewrite !decide_True by (simpl; lia). rewrite IH by done. apply Permutation_swap.
    + rewrite !decide_False by (simpl; lia). by apply IH.
Qed.

Lemma filter_below_same (act : list (Z * tree)) k :
  k ∉ act.*1 → filter (λ x, x.1 < k + 1) act = filter (λ x, x.1 < k) act.
Proof.
  intros Hk. apply filter_ext_in. intros [i v] Hi. simpl.
  assert (i ≠ k); [|lia]. intros ->. apply Hk. by apply (list_elem_of_fmap_2 fst _ (k, v)).
Qed.

(** ** The forest *)

Section Forest.
Context (c : Z → Z).

(** The active nodes with their trees. *)
Record forest (nodes : list huff_encodenode) (next : Z) (act : list (Z * tree)) : Prop := {
  forest_length : length nodes = MAX_TREE_NODES;
  forest_keys : NoDup act.*1;
  forest_tree i t : (i, t) ∈ act →
    enc_at nodes next i t ∧ balanced c t ∧
    ∃ nd, nodes !! Z.to_nat i = Some nd ∧ enc_Count nd = wt c t;
  forest_dead k : 0 ≤ k < next → k ∉ act.*1 →
    ∃ nd, nodes !! Z.to_nat k = Some nd ∧ enc_Count nd = 0;
  forest_kids i t j u : (i, t) ∈ act → (j, u) ∈ act → i ≠ j → kids c t ≤ wt c u;
}.

Lemma enc_at_range nodes n i t : enc_at nodes n i t → 0 ≤ i < n.
Proof. by destruct t; intros [? _]. Qed.

(** [picks l p]: [p] are the lightest of [l], as far as there are any. *)
Inductive picks (l : list (Z * tree)) : option Z * option Z → Prop :=
| picks_none : l ≡ₚ [] → picks l (None, None)
| picks_one i t : l ≡ₚ [(i, t)] → picks l (Some i, None)
| picks_two i t j u r : l ≡ₚ (i, t) :: (j, u) :: r → wt c t ≤ wt c u →
    Forall (λ x, wt c u ≤ wt c x.2) r → picks l (Some i, Some j).

Lemma picks_perm l l' p : l' ≡ₚ l → picks l p → picks l' p.
Proof.
  intros Hp. destruct 1; [apply picks_none | eapply picks_one | eapply picks_two]; try done; by rewrite Hp.
Qed.

Lemma arr_get_look {A} (l : list A) i x : 0 ≤ i → l !! Z.to_nat i = Some x → arr_get l i = Ok x.
Proof. intros. by apply arr_get_Ok. Qed.

Lemma huff_lightest_spec nodes next act :
  forest nodes next act → 0 ≤ next → yields (huff_lightest nodes next) (picks act).
Proof.
  intros HF Hnext. unfold huff_lightest. eapply yields_mono.
  - apply (for_up_inv (λ k, picks (filter (λ x, x.1 < k) act))).
    + apply picks_none. rewrite filter_none; [done|]. intros [i t] Hi. simpl.
      pose proof (enc_at_range _ _ _ _ (proj1 (forest_tree _ _ _ HF i t Hi))). lia.
    + intros k p Hk Hp.
      destruct (decide (k ∈ act.*1)) as [Hin|Hout].
      2: { destruct (forest_dead _ _ _ HF k ltac:(lia) Hout) as (nd & Hnd & Hc).
           destruct p as [n1 n2]. rewrite (arr_get_look nodes _ _ (proj1 Hk) Hnd). cbn [mbind outcome_bind].
           rewrite Hc. change (0 <? 0) with false. cbn [yields].
           by rewrite filter_below_same. }
      apply list_elem_of_fmap in Hin as ([k' t] & -> & Hin). simpl in *.
      destruct (forest_tree _ _ _ HF k' t Hin) as (Hat & Hbal & nd & Hnd & Hc).
      pose proof (balanced_pos c t Hbal).
      assert (∀ i u, (i, u) ∈ act → ∃ nu, arr_get nodes i = Ok nu ∧ enc_Count nu = wt c u) as Hget.
      { intros i u Hi. destruct (forest_tree _ _ _ HF i u Hi) as (Hat' & _ & nu & Hnu & Hcu).
        exists nu. split; [|done]. apply arr_get_look; [|done]. apply enc_at_range in Hat'. lia. }
      pose proof (filter_below act k' t (forest_keys _ _ _ HF) Hin) as Hf.
      assert (∀ x, x ∈ filter (λ x : Z * tree, x.1 < k') act → x ∈ act) as Hsub by (intros x Hx; apply list_elem_of_filter in Hx; tauto).
      destruct p as [n1 n2]. rewrite (arr_get_look nodes _ _ (proj1 Hk) Hnd). cbn [mbind outcome_bind].
      rewrite Hc. destruct (Z.ltb_spec 0 (wt c t)); [|lia].
      inversion Hp as [Hnil|i u Hone|i u j v r Htwo Huv Hr]; subst; cbn [mbind outcome_bind].
      * cbn [yields]. eapply picks_one. by rewrite Hf, Hnil.
      * destruct (Hget i u) as (nu & Hg & Hcu); [apply Hsub; rewrite Hone; left|]. rewrite Hg. cbn [mbind outcome_bind]. rewrite Hcu. cbn [mbind outcome_bind].
        case_cmp; cbn [mbind outcome_bind yields]; eapply picks_two.
        -- by rewrite Hf, Hone.
        -- done.
        -- constructor.
        -- rewrite Hf, Hone. apply Permutation_swap.
        -- lia.
        -- constructor.
      * destruct (Hget i u) as (nu & Hg & Hcu); [apply Hsub; rewrite Htwo; left|]. rewrite Hg. cbn [mbind outcome_bind]. rewrite Hcu.
        cbn [mbind outcome_bind]. case_cmp; cbn [mbind outcome_bind yields].
        -- eapply picks_two; [by rewrite Hf, Htwo | done |]. constructor; [simpl; lia|].
           eapply Forall_impl; [exact Hr|]. simpl. lia.
        -- destruct (Hget j v) as (nv & Hgv & Hcv); [apply Hsub; rewrite Htwo; right; left|]. rewrite Hgv. cbn [mbind outcome_bind]. rewrite Hcv.
           cbn [mbind outcome_bind yields]. case_cmp.
           ++ eapply picks_two; [rewrite Hf, Htwo; apply Permutation_swap | lia |].
              constructor; [simpl; lia|]. eapply Forall_impl; [exact Hr|]. simpl. lia.
           ++ eapply (picks_two _ i u j v ((k', t) :: r)); [|lia|constructor; [simpl; lia | done]].
              rewrite Hf, Htwo, (Permutation_swap (k', t)). by rewrite (Permutation_swap (k', t)).
  - intros p. rewrite Z.add_0_l, Z2Nat.id by lia. rewrite filter_all; [done|].
    intros [i t] Hi. simpl. apply (enc_at_range nodes next i t), (forest_tree _ _ _ HF i t Hi).
Qed.

Lemma forest_perm nodes next act act' : act' ≡ₚ act → forest nodes next act → forest nodes next act'.
Proof.
  intros Hp [Hl Hk Ht Hd Hkids]. split; [done | by rewrite Hp | | |].
  - intros i t. rewrite Hp. apply Ht.
  - intros k Hk'. rewrite Hp. by apply Hd.
  - intros i t j u. rewrite Hp. apply Hkids.
Qed.

Section Join.
Context (nodes : list huff_encodenode) (next : Z) (i j : Z) (t u : tree) (r : list (Z * tree)).
Context (HF : forest nodes next ((i, t) :: (j, u) :: r)).
Context (Hnext : 0 ≤ next < Z.of_nat MAX_TREE_NODES).
Context (Htu : wt c t ≤ wt c u) (Hr : Forall (λ x, wt c u ≤ wt c x.2) r).

(** The node array after the join. *)
Definition joined (ni nj : huff_encodenode) (count : Z) : list huff_encodenode :=
  <[Z.to_nat j := set_enc_Count 0 nj]> (<[Z.to_nat i := set_enc_Count 0 ni]>
    (<[Z.to_nat next := EncNode (Some i) (Some j) count (-1)]> nodes)).

Lemma joined_forest ni nj :
  nodes !! Z.to_nat i = Some ni → nodes !! Z.to_nat j = Some nj →
  forest (joined ni nj (wt c t + wt c u)) (next + 1) ((next, Node t u) :: r).
Proof.
  intros Hni Hnj. pose proof HF as [Hl Hk Ht Hd Hkids].
  destruct (Ht i t) as (Hati & Hbi & _); [left|]. destruct (Ht j u) as (Hatj & Hbj & _); [right; left|].
  pose proof (enc_at_range _ _ _ _ Hati). pose proof (enc_at_range _ _ _ _ Hatj).
  simpl in Hk. apply NoDup_cons in Hk as [Hi' Hk]. apply NoDup_cons in Hk as [Hj' Hk].
  assert (i ≠ j) as Hij by (intros ->; apply Hi'; left).
  assert (∀ k v, (k, v) ∈ r → k ≠ i ∧ k ≠ j ∧ k < next) as Hkr.
  { intros k v Hv. split_and!.
    - intros ->. apply Hi'. right. by apply (list_elem_of_fmap_2 fst r (i, v)).
    - intros ->. apply Hj'. by apply (list_elem_of_fmap_2 fst r (j, v)).
    - destruct (Ht k v) as [Hat _]; [by do 2 right|]. apply enc_at_range in Hat. lia. }
  assert (same_shape next nodes (joined ni nj (wt c t + wt c u))) as Hshape.
  { intros k nd Hkn Hnd. unfold joined.
    destruct (decide (k = j)) as [->|]; [exists 0; rewrite list_lookup_insert_eq by (rewrite !length_insert, Hl; lia); congruence|].
    rewrite list_lookup_insert_ne by lia.
    destruct (decide (k = i)) as [->|]; [exists 0; rewrite list_lookup_insert_eq by (rewrite !length_insert, Hl; lia); congruence|].
    rewrite !list_lookup_insert_ne by lia. exists (enc_Count nd). rewrite Hnd. by destruct nd. }
  assert (joined ni nj (wt c t + wt c u) !! Z.to_nat next = Some (EncNode (Some i) (Some j) (wt c t + wt c u) (-1))) as Hroot.
  { unfold joined. rewrite !list_lookup_insert_ne by lia. apply list_lookup_insert_eq. rewrite Hl. lia. }
  split.
  - unfold joined. by rewrite !length_insert.
  - simpl. apply NoDup_cons. split; [|done]. intros Hin. apply list_elem_of_fmap in Hin as ([k v] & -> & Hv).
    pose proof (Hkr _ _ Hv). simpl in *. lia.
  - intros k v Hv. apply elem_of_cons in Hv as [[= -> ->]|Hv].
    + split_and!.
      * simpl. split; [lia|]. exists i, j, (wt c t + wt c u). split_and!; [done| |];
          (eapply enc_at_shape; [exact Hshape | lia | done]).
      * simpl. split_and!; auto; [apply (Hkids i t j u) | apply (Hkids j u i t)]; auto;
          (try by left); right; by left.
      * by exists (EncNode (Some i) (Some j) (wt c t + wt c u) (-1)).
    + destruct (Ht k v) as (Hat & Hb & nd & Hnd & Hc); [by do 2 right|]. pose proof (Hkr _ _ Hv).
      split_and!; [by eapply enc_at_shape; [exact Hshape | lia | ] | done|].
      exists nd. split; [|done]. unfold joined. pose proof (enc_at_range _ _ _ _ Hat).
      by rewrite !list_lookup_insert_ne by lia.
  - intros k Hkn Hout. simpl in Hout. apply not_elem_of_cons in Hout as [Hne Hout]. unfold joined.
    destruct (decide (k = j)) as [->|]; [exists (set_enc_Count 0 nj); split; [|done]; apply list_lookup_insert_eq; rewrite !length_insert, Hl; lia|].
    rewrite list_lookup_insert_ne by lia.
    destruct (decide (k = i)) as [->|]; [exists (set_enc_Count 0 ni); split; [|done]; apply list_lookup_insert_eq; rewrite !length_insert, Hl; lia|].
    rewrite !list_lookup_insert_ne by lia. apply Hd; [lia|]. simpl. by rewrite !not_elem_of_cons.
  - rewrite Forall_forall in Hr.
    intros k v k' v' Hv Hv' Hne.
    apply elem_of_cons in Hv as [Ev|Hv]; apply elem_of_cons in Hv' as [Ev'|Hv'];
      try injection Ev as -> ->; try injection Ev' as -> ->; simpl.
    + done.
    + specialize (Hr _ Hv'). simpl in Hr. lia.
    + pose proof (Hkr _ _ Hv). pose proof (balanced_pos c u Hbj).
      pose proof (Hkids k v i t ltac:(by do 2 right) ltac:(left) ltac:(lia)). lia.
    + apply (Hkids k v k' v'); [by do 2 right..|done].
Qed.

End Join.

Lemma huff_join_spec nodes next act :
  forest nodes next act → 0 ≤ next < Z.of_nat MAX_TREE_NODES → (2 ≤ length act)%nat →
  sumZ (wt c <$> act.*2) < 2 ^ 31 →
  yields (huff_join nodes next) (λ nodes', ∃ i t j u r,
    act ≡ₚ (i, t) :: (j, u) :: r ∧ wt c t ≤ wt c u ∧ Forall (λ x, wt c u ≤ wt c x.2) r ∧
    forest nodes' (next + 1) ((next, Node t u) :: r)).
Proof.
  intros HF Hnext Hlen Hsum. unfold huff_join. apply yields_bind.
  eapply yields_mono; [apply huff_lightest_spec; [done | lia]|]. intros p Hp.
  inversion Hp as [Hnil|i t Hone|i t j u r Htwo Htu Hr]; subst.
  { rewrite Hnil in Hlen. simpl in Hlen. lia. }
  { rewrite Hone in Hlen. simpl in Hlen. lia. }
  pose proof (forest_perm _ _ _ _ (symmetry Htwo) HF) as HF'.
  destruct (forest_tree _ _ _ HF' i t) as (Hati & Hbi & ni & Hni & Hci); [left|].
  destruct (forest_tree _ _ _ HF' j u) as (Hatj & Hbj & nj & Hnj & Hcj); [right; left|].
  pose proof (enc_at_range _ _ _ _ Hati) as Hi. pose proof (enc_at_range _ _ _ _ Hatj) as Hj.
  assert (i ≠ j) as Hij.
  { intros ->. pose proof (forest_keys _ _ _ HF') as Hk. simpl in Hk. apply NoDup_cons in Hk as [Hk _]. apply Hk. left. }
  assert (0 ≤ sumZ (wt c <$> r.*2)) as Hrest.
  { clear -HF'. assert (∀ x, x ∈ r → 0 ≤ wt c x.2) as Hall.
    { intros [k v] Hv. simpl. destruct (forest_tree _ _ _ HF' k v) as (_ & Hb & _); [by do 2 right|].
      pose proof (balanced_pos c v Hb). lia. }
    clear HF'. induction r as [|x r IH]; csimpl; [lia|].
    pose proof (Hall x ltac:(left)). specialize (IH ltac:(intros; apply Hall; by right)). simpl. lia. }
  rewrite (sumZ_perm _ (wt c <$> ((i, t) :: (j, u) :: r).*2)) in Hsum by (by rewrite Htwo). csimpl in Hsum.
  pose proof (balanced_pos c t Hbi). pose proof (balanced_pos c u Hbj).
  cbn [mbind outcome_bind deref].
  rewrite (arr_get_look nodes i ni), (arr_get_look nodes j nj) by (done || lia). cbn [mbind outcome_bind].
  rewrite Hci, Hcj, wraps_small by (change (32 - 1) with 31; lia).
  pose proof (forest_length _ _ _ HF) as Hl.
  rewrite arr_set_in_range by (rewrite Hl; lia). cbn [mbind outcome_bind].
  rewrite arr_set_in_range by (rewrite length_insert, Hl; lia). cbn [mbind outcome_bind].
  rewrite (arr_get_look _ j nj) by (try lia; rewrite !list_lookup_insert_ne by lia; done). cbn [mbind outcome_bind].
  rewrite arr_set_in_range by (rewrite !length_insert, Hl; lia). cbn [yields].
  exists i, t, j, u, r. split_and!; auto. by apply joined_forest.
Qed.

End Forest.

(** ** From the histogram to one tree *)

Section Make.
Context (data : list Z) (Hdata : byte_list data) (Hlen : 1 ≤ Z.of_nat (length data) < 2 ^ 31).
Let c (s : Z) := occ s data.

(** The symbols that occur, and their leaves. *)
Definition used_upto (k : Z) : list Z := filter (λ s, 0 < occ s data) (seqZ 0 k).
Definition used : list Z := used_upto 256.

Definition leaf_nodes (l : list Z) : list (Z * tree) := imap (λ j s, (Z.of_nat j, Leaf s)) l.

Lemma leaf_nodes_fst l : (leaf_nodes l).*1 = seqZ 0 (Z.of_nat (length l)).
Proof.
  apply list_eq. intros i. unfold leaf_nodes. rewrite list_lookup_fmap, list_lookup_imap.
  destruct (l !! i) as [s|] eqn:E; simpl.
  - pose proof (lookup_lt_Some _ _ _ E). symmetry. apply lookup_seqZ. lia.
  - apply lookup_ge_None in E. symmetry. apply lookup_seqZ_ge. lia.
Qed.

Lemma leaf_nodes_snd l : (leaf_nodes l).*2 = Leaf <$> l.
Proof.
  apply list_eq. intros i. unfold leaf_nodes. rewrite !list_lookup_fmap, list_lookup_imap. by destruct (l !! i).
Qed.

Lemma elem_of_leaf_nodes l i t : (i, t) ∈ leaf_nodes l → ∃ s, 0 ≤ i ∧ l !! Z.to_nat i = Some s ∧ t = Leaf s.
Proof.
  intros Hin. apply list_elem_of_lookup in Hin as [k Hk]. unfold leaf_nodes in Hk.
  rewrite list_lookup_imap in Hk. apply fmap_Some in Hk as (s & Hs & [= -> ->]).
  exists s. rewrite Nat2Z.id. split_and!; [lia | done | done].
Qed.

Lemma used_upto_S k : 0 ≤ k → used_upto (k + 1) = used_upto k ++ (if 0 <? occ k data then [k] else []).
Proof.
  intros Hk. unfold used_upto. rewrite seqZ_app by lia. rewrite filter_app. f_equal. rewrite Z.add_0_l.
  rewrite (seqZ_cons k 1) by lia. change (seqZ (Z.succ k) (Z.pred 1)) with (@nil Z).
  case_cmp; [rewrite filter_cons_True by done | rewrite filter_cons_False by lia]; done.
Qed.

Lemma elem_of_used s : s ∈ used ↔ in_u8 s ∧ 0 < occ s data.
Proof. unfold used, used_upto. rewrite list_elem_of_filter, elem_of_seqZ. lia. Qed.

Lemma length_used_upto k : 0 ≤ k → Z.of_nat (length (used_upto k)) ≤ k.
Proof. intros Hk. unfold used_upto. pose proof (length_filter (λ s, 0 < occ s data) (seqZ 0 k)). rewrite length_seqZ in *. lia. Qed.

Lemma huff_leaves_spec sym :
  sym_counts sym data →
  yields (huff_leaves sym) (λ '(nodes, num),
    num = Z.of_nat (length used) ∧ forest c nodes num (leaf_nodes used)).
Proof.
  intros [Hsl Hsym]. unfold huff_leaves. eapply yields_mono.
  - apply (for_up_inv (λ k '(nodes, num), num = Z.of_nat (length (used_upto k)) ∧
      length nodes = MAX_TREE_NODES ∧
      ∀ j s, used_upto k !! j = Some s → nodes !! j = Some (EncNode None None (occ s data) s))).
    + split_and!; [done | by rewrite length_replicate | done].
    + intros k [nodes num] Hk (-> & Hl & Hn). pose proof (Hsym k ltac:(lia)) as Hk'.
      rewrite (arr_get_look sym k _ ltac:(lia) Hk'). cbn [mbind outcome_bind Count Symbol].
      pose proof (occ_range k data). pose proof (length_used_upto k ltac:(lia)).
      rewrite used_upto_S by lia. case_cmp.
      * rewrite wraps_small by (change (32 - 1) with 31; lia).
        rewrite arr_set_in_range by (rewrite Hl; unfold MAX_TREE_NODES; lia). cbn [mbind outcome_bind yields].
        rewrite wrapu_small by lia. split_and!; [room | by rewrite length_insert |].
        intros j s Hj. rewrite Nat2Z.id. apply lookup_app_Some in Hj as [Hj|[Hge Hj]].
        -- pose proof (lookup_lt_Some _ _ _ Hj). rewrite list_lookup_insert_ne by lia. by apply Hn.
        -- apply list_lookup_singleton_Some in Hj as [Hj <-]. replace j with (length (used_upto k)) by lia.
           apply list_lookup_insert_eq. rewrite Hl. unfold MAX_TREE_NODES. lia.
      * cbn [yields]. by rewrite app_nil_r.
  - intros [nodes num] (-> & Hl & Hn). change (0 + Z.of_nat 256) with 256 in *. fold used in Hn |- *. split; [done|].
    pose proof (length_used_upto 256 ltac:(lia)) as Hmax. fold used in Hmax.
    assert (∀ i s, 0 ≤ i → used !! Z.to_nat i = Some s → 1 ≤ c s) as Hpos.
    { intros i s _ Hs. apply list_elem_of_lookup_2, elem_of_used in Hs. unfold c. lia. }
    split; [done| | | |].
    + rewrite leaf_nodes_fst. apply NoDup_seqZ.
    + intros i t Hin. apply elem_of_leaf_nodes in Hin as (s & Hi & Hs & ->). pose proof (Hpos i s Hi Hs).
      pose proof (lookup_lt_Some _ _ _ Hs). pose proof Hs as Hs'. apply list_elem_of_lookup_2, elem_of_used in Hs'.
      split_and!; simpl; [|done|].
      * split; [lia|]. split; [lia|]. eexists. split; [by apply Hn | done].
      * eexists. split; [by apply Hn | done].
    + intros k Hk Hout. rewrite leaf_nodes_fst, elem_of_seqZ in Hout. lia.
    + intros i t j u Hi Hj _. apply elem_of_leaf_nodes in Hi as (s & ? & ? & ->), Hj as (s' & ? & Hs' & ->).
      simpl. pose proof (Hpos j s' ltac:(done) Hs'). lia.
Qed.

Lemma used_sum : sumZ (c <$> used) = Z.of_nat (length data).
Proof.
  rewrite <- (total_occ data Hdata). unfold used. change 256 with (Z.of_nat 256).
  generalize 256%nat. intros n. induction n as [|n IH]; [done|].
  replace (Z.of_nat (S n)) with (Z.of_nat n + 1) by lia. rewrite used_upto_S by lia.
  rewrite fmap_app, sumZ_app, IH. simpl total. pose proof (occ_range (Z.of_nat n) data).
  case_cmp; simpl; unfold c; lia.
Qed.

Lemma used_nonempty : used ≠ [].
Proof. intros E. pose proof used_sum as Hs. rewrite E in Hs. simpl in Hs. lia. Qed.

Lemma NoDup_used : NoDup used.
Proof. apply NoDup_filter, NoDup_seqZ. Qed.

(** The joining loop, with [act] the active nodes. *)
Record joining (nodes : list huff_encodenode) (root : option Z) (left next : Z) (act : list (Z * tree)) : Prop := {
  joining_forest : forest c nodes next act;
  joining_left : left = Z.of_nat (length act) ∧ 1 ≤ left;
  joining_next : next = 2 * Z.of_nat (length used) - left;
  joining_leaves : concat (leaves <$> act.*2) ≡ₚ used;
  joining_cost : greedy (length used - length act) (c <$> used) (wt c <$> act.*2) (sumZ (wpl c <$> act.*2));
  joining_root : match root with None => act = leaf_nodes used | Some i => i ∈ act.*1 ∧ (2 ≤ length used)%nat end;
}.

Lemma joining_start nodes :
  forest c nodes (Z.of_nat (length used)) (leaf_nodes used) →
  joining nodes None (Z.of_nat (length used)) (Z.of_nat (length used)) (leaf_nodes used).
Proof.
  intros HF. assert (length (leaf_nodes used) = length used) as Hl by apply length_imap.
  split; rewrite ?Hl, ?leaf_nodes_snd; try done.
  - split; [done|]. pose proof used_nonempty. destruct used; [done | simpl; lia].
  - lia.
  - clear. induction used as [|s l IH]; [done|]. simpl. by constructor.
  - rewrite Nat.sub_diag.
    assert (sumZ (wpl c <$> (Leaf <$> used)) = 0) as ->.
    { clear. induction used as [|s l IH]; [done|]. done. }
    replace (wt c <$> (Leaf <$> used)) with (c <$> used); [constructor|].
    rewrite <- list_fmap_compose. done.
Qed.

Lemma joining_step nodes root left next act nodes' i t j u r :
  joining nodes root left next act → 1 < left →
  act ≡ₚ (i, t) :: (j, u) :: r → wt c t ≤ wt c u → Forall (λ x, wt c u ≤ wt c x.2) r →
  forest c nodes' (next + 1) ((next, Node t u) :: r) →
  joining nodes' (Some next) (left - 1) (next + 1) ((next, Node t u) :: r).
Proof.
  intros [HF [Hleft _] Hnext Hleaves Hcost _] Hlt Hact Htu Hr HF'.
  pose proof (Permutation_length Hact) as Hla. simpl in Hla.
  assert (length act ≤ length used)%nat as Hle.
  { apply greedy_sum in Hcost as [_ Hl]. rewrite !length_fmap in Hl. lia. }
  split; csimpl; try done; try lia.
  - rewrite <- Hleaves. rewrite Hact. csimpl. by rewrite app_assoc.
  - replace (length used - S (length r))%nat with (S (length used - length act)) by lia.
    eapply greedy_snoc in Hcost.
    + replace (wpl c t + wpl c u + (wt c t + wt c u) + sumZ (wpl c <$> r.*2))
        with (sumZ (wpl c <$> act.*2) + (wt c t + wt c u)); [exact Hcost|].
      rewrite (sumZ_perm (wpl c <$> act.*2) (wpl c <$> ((i, t) :: (j, u) :: r).*2)) by (by rewrite Hact).
      csimpl. lia.
    + rewrite Hact. csimpl. done.
    + done.
    + rewrite !Forall_fmap. exact Hr.
  - split; [left | lia].
Qed.

(** The tree of the data: the leaves are the bytes that occur, it is no deeper
    than [balanced] allows and no costlier than eight bits per byte. *)
Record data_tree (t : tree) : Prop := {
  data_leaves : leaves t ≡ₚ used;
  data_balanced : balanced c t;
  data_cost : wpl c t ≤ 8 * Z.of_nat (length data);
}.

Lemma huff_build_spec sym :
  sym_counts sym data →
  yields (huff_build sym) (λ '(nodes, root), ∃ n i t,
    data_tree t ∧ length nodes = MAX_TREE_NODES ∧ n ≤ Z.of_nat MAX_TREE_NODES ∧ enc_at nodes n i t ∧
    match root with None => i = 0 ∧ ∃ s, t = Leaf s | Some i' => i' = i ∧ ∃ a b, t = Node a b end).
Proof.
  intros Hsym. unfold huff_build. apply yields_bind. eapply yields_mono; [by apply huff_leaves_spec|].
  intros [nodes num] [-> HF]. pose proof (length_used_upto 256 ltac:(lia)) as Hmax. fold used in Hmax.
  apply (iter_inv (λ '(nodes, root, nleft, next), ∃ act, joining nodes root nleft next act)
           (λ '(_, _, nleft, _), Z.to_nat nleft)).
  - exists (leaf_nodes used). by apply joining_start.
  - lia.
  - intros [[[nodes' root] left] next] [act HJ]. pose proof HJ as [HF' [Hleft H1] Hnext Hleaves Hcost Hroot].
    pose proof (greedy_sum _ _ _ _ Hcost) as [Hs Hl]. rewrite !length_fmap in Hl. rewrite used_sum in Hs.
    case_cmp.
    + apply yields_bind. eapply yields_mono.
      { apply huff_join_spec; [done | unfold MAX_TREE_NODES; lia | lia | lia]. }
      intros nodes'' (i & t & j & u & r & Hact & Htu & Hr & HF''). cbn [yields].
      rewrite !wrapu_small by lia. split; [|lia].
      exists ((next, Node t u) :: r). by eapply joining_step.
    + cbn [yields]. destruct act as [|[i t] [|]]; simpl in Hleft; try lia.
      destruct (forest_tree _ _ _ _ HF' i t ltac:(left)) as (Hat & Hbal & _).
      exists next, i, t. split_and!; [|by apply (forest_length _ _ _ _ HF') | unfold MAX_TREE_NODES; lia | done|].
      * csimpl in *. rewrite app_nil_r in Hleaves. split; [done..|].
        rewrite <- used_sum. rewrite Z.add_0_r, <- (length_fmap c used) in Hcost.
        apply (greedy_cost 8) in Hcost; [done|..].
        -- pose proof used_nonempty. by destruct used.
        -- rewrite length_fmap. change (2 ^ 8)%nat with 256%nat. lia.
        -- rewrite Forall_fmap. apply Forall_forall. intros s _. apply occ_range.
      * destruct root as [i'|].
        -- destruct Hroot as [Hin H2]. simpl in Hin. apply list_elem_of_singleton in Hin. split; [done|].
           destruct t as [s|a b]; [|eauto]. csimpl in *. apply Permutation_length in Hleaves. simpl in Hleaves. lia.
        -- destruct used as [|s [|]]; [done | |done]. unfold leaf_nodes in Hroot. simpl in Hroot.
           injection Hroot as -> ->. eauto.
Qed.

End Make.
