(* ===== verification/TreeCode.v ===== *)
(** * libbcl: coding with a tree

    What the Huffman and the Shannon-Fano coder do once they have their trees:
    the encoder writes the code of every byte ([encode_spec]), the decoder
    follows the bits from the root to a leaf for every byte ([decode_spec]).

    [entry sym s q]: the table gives the byte [s] the code [q].
    [dec_path nodes lo hi i q s]: the bits [q] lead from node [i] to the byte
    [s], through nodes in [lo .. hi). *)

From S2P Require Import Prelude Bits Bcl BitStream Tree SymTable Huffman.

(** ** The code of a byte *)

Definition code_of (t : tree) (s : Z) : list bool :=
  default [] ((list_to_map (codes t) : gmap Z (list bool)) !! s).

Lemma code_of_elem t s q : NoDup (leaves t) → (s, q) ∈ codes t → code_of t s = q.
Proof.
  intros Hnd Hin. unfold code_of. rewrite (elem_of_list_to_map_1 (M := gmap Z) _ s q); [done | | done].
  by rewrite codes_leaves.
Qed.

Lemma code_of_leaf t s : NoDup (leaves t) → s ∈ leaves t → (s, code_of t s) ∈ codes t.
Proof.
  intros Hnd Hin. rewrite <- codes_leaves in Hin. apply list_elem_of_fmap in Hin as ([s' q] & -> & Hin).
  simpl. by rewrite (code_of_elem _ _ _ Hnd Hin).
Qed.

Lemma codes_code_of t : NoDup (leaves t) → codes t = (λ s, (s, code_of t s)) <$> leaves t.
Proof.
  intros Hnd. rewrite <- codes_leaves, <- list_fmap_compose. rewrite <- (list_fmap_id (codes t)) at 1.
  apply list_fmap_ext. intros i [s q] Hx. simpl. f_equal. symmetry. apply code_of_elem; [done|].
  by eapply list_elem_of_lookup_2.
Qed.

(** The length of the coded data. *)
Lemma sumZ_occ_cons (g : Z → Z) x l ks :
  NoDup ks → x ∈ ks →
  sumZ ((λ s, occ s (x :: l) * g s) <$> ks) = g x + sumZ ((λ s, occ s l * g s) <$> ks).
Proof.
  intros Hnd. revert x. induction Hnd as [|k ks Hk Hnd IH]; intros x Hx; [by apply elem_of_nil in Hx|].
  csimpl. rewrite occ_cons. destruct (Z.eqb_spec x k) as [->|Hne]; simpl b2z.
  - assert (∀ s, s ∈ ks → occ s (k :: l) = occ s l) as Hks.
    { intros s Hs. rewrite occ_cons. destruct (Z.eqb_spec k s) as [->|]; [done | simpl; lia]. }
    rewrite (list_fmap_ext (λ s, occ s (k :: l) * g s) (λ s, occ s l * g s) ks); [lia|].
    intros i s Hs. rewrite Hks; [done|]. by eapply list_elem_of_lookup_2.
  - apply elem_of_cons in Hx as [?|Hx]; [done|]. rewrite (IH x Hx). lia.
Qed.

Lemma coded_length (f : Z → list bool) l ks :
  NoDup ks → Forall (λ x, x ∈ ks) l →
  Z.of_nat (length (concat (f <$> l))) = sumZ ((λ s, occ s l * Z.of_nat (length (f s))) <$> ks).
Proof.
  intros Hnd. induction 1 as [|x l Hx Hl IH]; csimpl.
  - clear. induction ks as [|k ks IH]; csimpl; [done|]. rewrite <- IH. change (occ k []) with 0. lia.
  - rewrite length_app, (sumZ_occ_cons (λ s, Z.of_nat (length (f s)))) by done. lia.
Qed.

Lemma code_length t l :
  NoDup (leaves t) → Forall (λ x, x ∈ leaves t) l →
  Z.of_nat (length (concat (code_of t <$> l))) = wpl (λ s, occ s l) t.
Proof.
  intros Hnd Hl. rewrite (coded_length _ _ (leaves t)) by done.
  rewrite wpl_codes, codes_code_of by done. by rewrite <- list_fmap_compose.
Qed.

(** ** The encoder *)

Definition entry (sym : list sym_t) (s : Z) (q : list bool) : Prop :=
  ∃ e, e ∈ sym ∧ Symbol e = s ∧ Code e = bits_val q ∧ Bits e = Z.of_nat (length q).

(** The table after it is sorted by symbol. *)
Lemma sorted_table sym :
  Symbol <$> sym ≡ₚ seqZ 0 256 →
  yields (bubble_sort by_symbol sym) (λ sym', ∀ e, e ∈ sym → arr_get sym' (Symbol e) = Ok e).
Proof.
  intros Hsym. eapply yields_mono.
  { apply bubble_sort_spec; [apply by_symbol_asym|].
    apply Permutation_length in Hsym. by rewrite length_fmap in Hsym. }
  intros sym' [Hp Hord] e He.
  assert (Symbol <$> sym' = seqZ 0 256) as Hs by (apply ordered_symbols; [by rewrite Hp | done]).
  rewrite <- Hp in He. apply list_elem_of_lookup in He as [i Hi].
  assert ((Symbol <$> sym') !! i = Some (Symbol e)) as Hse by (by rewrite list_lookup_fmap, Hi).
  rewrite Hs in Hse. apply lookup_seqZ in Hse as [Hse _]. apply arr_get_Ok. split; [lia|].
  by replace (Z.to_nat (Symbol e)) with i by lia.
Qed.

Lemma encode_spec inb sym o w cap (f : Z → list bool) :
  (∀ s, s ∈ inb → ∃ e, arr_get sym s = Ok e ∧ Code e = bits_val (f s) ∧ Bits e = Z.of_nat (length (f s))) →
  (∀ s, s ∈ inb → (1 ≤ length (f s) ≤ 32)%nat) →
  wrote_bits o w cap → Z.of_nat (length w) + Z.of_nat (length (concat (f <$> inb))) ≤ 8 * cap →
  yields (huff_encode inb sym (Z.of_nat (length inb)) o) (λ o', wrote_bits o' (w ++ concat (f <$> inb)) cap).
Proof.
  intros Htab Hlen Ho Hcap. unfold huff_encode. rewrite Nat2Z.id. eapply yields_mono.
  - apply (for_up_inv (λ k o, wrote_bits o (w ++ concat (f <$> take (Z.to_nat k) inb)) cap)).
    + by rewrite app_nil_r.
    + intros k o' Hk Ho'. destruct (arr_get_in_range inb k) as (s & -> & Hs); [lia|].
      cbn [mbind outcome_bind]. pose proof (list_elem_of_lookup_2 _ _ _ Hs) as Hin.
      destruct (Htab s Hin) as (e & -> & Hcode & Hbits). cbn [mbind outcome_bind]. rewrite Hcode, Hbits.
      pose proof (Hlen s Hin). pose proof (bits_val_range (f s)).
      assert (concat (f <$> inb) = concat (f <$> take (Z.to_nat k) inb) ++ f s ++ concat (f <$> drop (S (Z.to_nat k)) inb)) as Hsplit.
      { rewrite <- (take_drop_middle _ _ _ Hs) at 1. rewrite fmap_app, concat_app. done. }
      rewrite Hsplit, !length_app in Hcap.
      eapply yields_mono; [apply (write_bits_spec _ _ _ _ _ Ho')|].
      * lia.
      * pose proof (Z.pow_le_mono_r 2 (Z.of_nat (length (f s))) 32). lia.
      * rewrite length_app. lia.
      * intros o''. rewrite Nat2Z.id, to_bits_val. replace (Z.to_nat (k + 1)) with (S (Z.to_nat k)) by lia.
        rewrite (take_S_r _ _ _ Hs), fmap_app, concat_app. csimpl. by rewrite app_nil_r, app_assoc.
  - intros o' Ho'. by rewrite Z.add_0_l, Nat2Z.id, firstn_all in Ho'.
Qed.

(** ** The decoder *)

Inductive dec_path (nodes : list huff_decodenode) (lo hi : Z) : Z → list bool → Z → Prop :=
| dec_leaf i nd s :
    lo ≤ i < hi → arr_get nodes i = Ok nd → 0 ≤ dec_Symbol nd → u8 (dec_Symbol nd) = s →
    dec_path nodes lo hi i [] s
| dec_node i nd b j q s :
    lo ≤ i < hi → arr_get nodes i = Ok nd → dec_Symbol nd < 0 →
    (if b : bool then dec_ChildB nd else dec_ChildA nd) = Some j →
    dec_path nodes lo hi j q s → dec_path nodes lo hi i (b :: q) s.

(** Nodes outside the range do not matter. *)
Lemma dec_path_frame nodes nodes' lo hi lo' hi' i q s :
  (∀ k, lo ≤ k < hi → arr_get nodes' k = arr_get nodes k) → lo' ≤ lo → hi ≤ hi' →
  dec_path nodes lo hi i q s → dec_path nodes' lo' hi' i q s.
Proof.
  intros Hsame Hlo Hhi. induction 1 as [i nd s Hi Hnd|i nd b j q s Hi Hnd].
  - apply (dec_leaf _ _ _ _ nd); [lia | by rewrite Hsame | done | done].
  - apply (dec_node _ _ _ _ nd b j); [lia | by rewrite Hsame | done..].
Qed.

Lemma walk_spec nodes lo hi inb root q s st l :
  dec_path nodes lo hi root q s → reads inb st (q ++ l) → (length q ≤ MAX_TREE_NODES)%nat →
  yields (huff_walk nodes root inb st) (λ '(x, st'), u8 x = s ∧ reads inb st' l).
Proof.
  unfold huff_walk. intros Hp. generalize MAX_TREE_NODES. revert st.
  induction Hp as [i nd s Hi Hnd Hpos Hs|i nd b j q s Hi Hnd Hneg Hj Hp IH]; intros st fuel Hr Hfuel; simpl in Hfuel.
  - cbn [iter]. rewrite Hnd. cbn [mbind outcome_bind]. destruct (Z.ltb_spec (dec_Symbol nd) 0); [lia|].
    by cbn [mbind outcome_bind yields].
  - destruct fuel as [|fuel]; [lia|]. set (body := λ v : Z * bitstream, _).
    change (iter (S (S fuel)) body (i, st)) with
      (r ← body (i, st); match r with inl v => iter (S fuel) body v | inr y => Ok y end).
    apply yields_bind. unfold body at 1. rewrite Hnd. cbn [mbind outcome_bind].
    destruct (Z.ltb_spec (dec_Symbol nd) 0); [|lia]. apply yields_bind.
    eapply yields_mono; [apply read_bit_spec; exact Hr|]. intros [x st'] [-> Hr'].
    assert (testz (b2z b) = b) as -> by (by destruct b). rewrite Hj. cbn [deref mbind outcome_bind yields].
    apply IH; [done | lia].
Qed.

Lemma decode_spec nodes lo hi inb root (f : Z → list bool) data out st l :
  (∀ s, s ∈ data → dec_path nodes lo hi root (f s) s ∧ (length (f s) ≤ MAX_TREE_NODES)%nat) →
  reads inb st (concat (f <$> data) ++ l) → length out = length data → Z.of_nat (length data) < 2 ^ 32 →
  huff_decode nodes root inb (Z.of_nat (length data)) st out = Ok data.
Proof.
  intros Hcode Hr Hout H32.
  assert (yields (huff_decode nodes root inb (Z.of_nat (length data)) st out) (λ o, o = data)) as Hy;
    [|by destruct huff_decode; simpl in Hy; subst].
  unfold huff_decode. apply yields_bind. rewrite Nat2Z.id. eapply yields_mono.
  - apply (for_up_inv (λ k '(st, o), wrote o (take (Z.to_nat k) data) (Z.of_nat (length data)) ∧
      reads inb st (concat (f <$> drop (Z.to_nat k) data) ++ l))).
    + split; [|done]. exists out. split_and!; simpl; lia || done.
    + intros k [st' o] Hk [Ho Hr']. destruct (lookup_lt_is_Some_2 data (Z.to_nat k)) as [s Hs]; [lia|].
      rewrite (drop_S _ _ _ Hs) in Hr'. csimpl in Hr'. rewrite <- app_assoc in Hr'.
      destruct (Hcode s (list_elem_of_lookup_2 _ _ _ Hs)) as [Hp Hlen].
      apply yields_bind. eapply yields_mono; [by eapply walk_spec|]. intros [x st''] [Hx Hr''].
      apply yields_bind. eapply yields_mono; [eapply put_wrote_u8; [exact Ho | rewrite length_take; lia | lia]|].
      intros o' Ho'. cbn [yields]. replace (Z.to_nat (k + 1)) with (S (Z.to_nat k)) by lia.
      rewrite (take_S_r _ _ _ Hs). by rewrite Hx in Ho'.
  - intros [st' o] [(r & Hr' & _ & Hl) _]. cbn [yields]. rewrite Z.add_0_l, Nat2Z.id, firstn_all in Hr'.
    rewrite Hr', length_app in *. destruct r; [by rewrite app_nil_r | simpl in *; lia].
Qed.

(** ** The size *)

Lemma total_bytes_spec s : stream_ok s → stream_bytes s < 2 ^ 31 → total_bytes s = stream_bytes s.
Proof.
  intros [Hp Hb] Hs. unfold total_bytes, stream_bytes in *. cbv zeta.
  rewrite (wraps_small 32 (BytePtr s)) by (change (32 - 1) with 31; case_cmp; lia).
  case_cmp; [rewrite wrapu_small by lia|]; apply wraps_small; change (32 - 1) with 31; lia.
Qed.
