(* ===== verification/HuffProof.v ===== *)
(** * libbcl/huffman.c: the coder round-trips

    The header of the compressed data is the tree, written in preorder
    ([tree_bits]).  [store_tree_spec]: the encoder writes it and enters the codes
    in the table; [recover_tree_spec]: the decoder rebuilds the same tree from
    it.  Joining the lightest nodes keeps the tree shallow enough for 32-bit
    codes, and the coded data no longer than the input. *)

From S2P Require Import Prelude Bits Bcl BitStream Tree SymTable Huffman HuffTree TreeCode.

Fixpoint tree_bits (t : tree) : list bool :=
  match t with
  | Leaf s => true :: to_bits 8 s
  | Node a b => false :: tree_bits a ++ tree_bits b
  end.

Fixpoint size (t : tree) : Z :=
  match t with
  | Leaf _ => 1
  | Node a b => 1 + size a + size b
  end.

Lemma size_pos t : 1 ≤ size t.
Proof. induction t; simpl; lia. Qed.

Lemma size_leaves t : size t = 2 * Z.of_nat (length (leaves t)) - 1.
Proof. induction t as [s|a IHa b IHb]; simpl; [done|]. rewrite length_app. lia. Qed.

Lemma length_tree_bits t : Z.of_nat (length (tree_bits t)) = 10 * Z.of_nat (length (leaves t)) - 1.
Proof. induction t as [s|a IHa b IHb]; simpl; [done|]. rewrite !length_app. lia. Qed.

Abbreviation bytes_tree t := (Forall (λ s : Z, in_u8 s) (leaves t)).

(** ** Storing *)

Lemma find_symbol_spec sym s :
  Symbol <$> sym = seqZ 0 256 → in_u8 s → yields (find_symbol sym s) (λ k, k = s).
Proof.
  intros Hsym Hs. apply (iter_inv (λ k, 0 ≤ k ≤ s) (λ k, Z.to_nat (256 - k))); [lia | lia|].
  intros k Hk. destruct (Z.ltb_spec k 256); [|lia].
  assert ((Symbol <$> sym) !! Z.to_nat k = Some k) as Hl.
  { rewrite Hsym. apply lookup_seqZ. lia. }
  rewrite list_lookup_fmap in Hl. apply fmap_Some in Hl as (e & He & Hke).
  rewrite (arr_get_look sym k e) by (done || lia). cbn [mbind outcome_bind]. rewrite <- Hke.
  case_cmp; cbn [yields]; [done|lia].
Qed.

(** Entries of other bytes stay. *)
Definition entries_kept (t : tree) (sym sym' : list sym_t) : Prop :=
  ∀ s, s ∉ leaves t → ∀ q, entry sym s q → entry sym' s q.

Lemma set_code_spec sym s q :
  Symbol <$> sym = seqZ 0 256 → in_u8 s →
  yields (sym_idx ← find_symbol sym s; e ← arr_get sym sym_idx; arr_set sym sym_idx (set_Code (bits_val q) (Z.of_nat (length q)) e))
    (λ sym', Symbol <$> sym' = seqZ 0 256 ∧ entry sym' s q ∧ entries_kept (Leaf s) sym sym').
Proof.
  intros Hsym Hs. apply yields_bind. eapply yields_mono; [by apply find_symbol_spec|]. intros k ->.
  assert (length sym = 256%nat) as Hl by (apply (f_equal length) in Hsym; by rewrite length_fmap in Hsym).
  destruct (arr_get_in_range sym s) as (e & -> & He); [lia|]. cbn [mbind outcome_bind].
  assert (Symbol e = s) as Hes.
  { assert ((Symbol <$> sym) !! Z.to_nat s = Some (Symbol e)) as Hx by (by rewrite list_lookup_fmap, He).
    rewrite Hsym in Hx. apply lookup_seqZ in Hx. lia. }
  rewrite arr_set_in_range by lia. cbn [yields]. split_and!.
  - rewrite list_fmap_insert. simpl. rewrite <- Hsym. apply list_insert_id. by rewrite list_lookup_fmap, He.
  - eexists. split; [eapply list_elem_of_lookup_2, list_lookup_insert_eq; lia|]. done.
  - intros s' Hs' q' (e' & He' & Hsy & Hcd). exists e'. split; [|done].
    apply list_elem_of_lookup in He' as [i Hi]. apply (list_elem_of_lookup_2 _ i).
    rewrite list_lookup_insert_ne; [done|]. intros <-. rewrite He in Hi. injection Hi as <-.
    apply Hs'. simpl. rewrite <- Hsy, Hes. apply list_elem_of_singleton. done.
Qed.

Lemma code_step p (b : bool) :
  (length p < 32)%nat →
  u32 (Z.shiftl (bits_val p) 1 + b2z b) = bits_val (p ++ [b]) ∧
  u32 (Z.of_nat (length p) + 1) = Z.of_nat (length (p ++ [b])).
Proof.
  intros Hp. rewrite bits_val_snoc, Z.shiftl_mul_pow2 by lia. pose proof (bits_val_range p) as Hr.
  assert (2 ^ Z.of_nat (length p) ≤ 2 ^ 31) by (apply Z.pow_le_mono_r; lia).
  rewrite !wrapu_small by (destruct b; simpl b2z; lia). rewrite length_app. simpl. lia.
Qed.

Lemma store_tree_spec nodes n t fuel i p sym o w cap :
  enc_at nodes n i t → bytes_tree t → NoDup (leaves t) → (depth t < fuel)%nat →
  (length p + depth t ≤ 32)%nat → Symbol <$> sym = seqZ 0 256 →
  wrote_bits o w cap → Z.of_nat (length w) + Z.of_nat (length (tree_bits t)) ≤ 8 * cap →
  yields (_Huffman_StoreTree fuel nodes i sym o (bits_val p) (Z.of_nat (length p))) (λ '(sym', o'),
    wrote_bits o' (w ++ tree_bits t) cap ∧ Symbol <$> sym' = seqZ 0 256 ∧
    (∀ s q, (s, q) ∈ codes t → entry sym' s (p ++ q)) ∧ entries_kept t sym sym').
Proof.
  revert fuel i p sym o w. induction t as [s|a IHa b IHb]; intros fuel i p sym o w Hat Hbytes Hnd Hfuel Hdep Hsym Ho Hcap.
  - destruct fuel as [|fuel]; [simpl in *; lia|]. destruct Hat as (Hi & H0 & nd & Hnd' & Hs). cbn [_Huffman_StoreTree].
    rewrite (arr_get_look nodes i nd) by (done || lia). cbn [mbind outcome_bind]. rewrite Hs.
    apply Forall_cons in Hbytes as [Hbytes _]. destruct (Z.leb_spec 0 s); [|lia].
    cbn [tree_bits length] in Hcap. rewrite length_to_bits in Hcap.
    apply yields_bind. eapply yields_mono; [apply (write_bits_spec o w cap 1 1 Ho); lia|].
    intros o1 Ho1. apply yields_bind. eapply yields_mono; [apply (write_bits_spec o1 _ cap s 8 Ho1); [lia | lia | room]|].
    intros o2 Ho2. pose proof (set_code_spec sym s p Hsym Hbytes) as Hset.
    destruct (find_symbol sym s) as [k|]; [|done]. cbn [mbind outcome_bind] in Hset |- *.
    destruct (arr_get sym k) as [e|]; [|done]. cbn [mbind outcome_bind] in Hset |- *.
    apply yields_bind. eapply yields_mono; [exact Hset|]. intros sym' (Hsym' & Hent & Hkeep). cbn [yields].
    split_and!; [|done| |done].
    + rewrite <- app_assoc in Ho2. done.
    + intros s' q Hq. simpl in Hq. apply list_elem_of_singleton in Hq as [= -> ->]. by rewrite app_nil_r.
  - destruct fuel as [|fuel]; [simpl in *; lia|]. destruct Hat as (Hi & ia & ib & count & Hnd' & Ha & Hb). cbn [_Huffman_StoreTree].
    rewrite (arr_get_look nodes i _ ltac:(lia) Hnd'). cbn [mbind outcome_bind enc_Symbol enc_ChildA enc_ChildB deref].
    change (0 <=? -1) with false. cbn [depth leaves tree_bits length] in *. rewrite length_app in Hcap.
    apply Forall_app in Hbytes as [Hba Hbb]. apply NoDup_app in Hnd as (Hna & Hab & Hnb).
    apply yields_bind. eapply yields_mono; [apply (write_bits_spec o w cap 0 1 Ho); lia|].
    intros o1 Ho1. change (to_bits (Z.to_nat 1) 0) with [false] in Ho1.
    destruct (code_step p false ltac:(lia)) as [Hc0 ->]. change (b2z false) with 0 in Hc0. rewrite Hc0.
    destruct (code_step p true ltac:(lia)) as [Hc1 _]. change (b2z true) with 1 in Hc1. rewrite Hc1.
    apply yields_bind. eapply yields_mono.
    { eapply (IHa fuel ia (p ++ [false]) sym o1 _ Ha Hba Hna); [lia | rewrite length_app; simpl; lia | done | exact Ho1 | room]. }
    intros [sym1 o2] (Ho2 & Hsym1 & Hca & Hka).
    replace (length (p ++ [false])) with (length (p ++ [true])) by (rewrite !length_app; done).
    eapply yields_mono.
    { eapply (IHb fuel ib (p ++ [true]) sym1 o2 _ Hb Hbb Hnb); [lia | rewrite length_app; simpl; lia | done | exact Ho2 | room]. }
    intros [sym2 o3] (Ho3 & Hsym2 & Hcb & Hkb). split_and!; [|done| |].
    + rewrite <- !app_assoc in Ho3. exact Ho3.
    + intros s q Hq. apply elem_of_app in Hq as [Hq|Hq]; apply list_elem_of_fmap in Hq as ([s' q'] & [= -> ->] & Hq).
      * apply Hkb; [|apply Hca in Hq; by rewrite <- app_assoc in Hq].
        apply Hab. rewrite <- codes_leaves. by apply (list_elem_of_fmap_2 fst _ (s', q')).
      * apply Hcb in Hq. by rewrite <- app_assoc in Hq.
    + intros s Hs q Hq. cbn [leaves] in Hs. rewrite elem_of_app in Hs. apply Hkb; [tauto|]. apply Hka; [tauto | done].
Qed.

(** ** Recovering *)

Lemma node_update_spec nodes i f :
  0 ≤ i < Z.of_nat (length nodes) →
  ∃ nodes' e, arr_get nodes i = Ok e ∧ node_update nodes i f = Ok nodes' ∧ arr_get nodes' i = Ok (f e) ∧
    length nodes' = length nodes ∧ ∀ k, 0 ≤ k → k ≠ i → arr_get nodes' k = arr_get nodes k.
Proof.
  intros Hi. destruct (arr_get_in_range nodes i Hi) as (e & He & Hl). unfold node_update. rewrite He.
  cbn [mbind outcome_bind]. rewrite arr_set_in_range by lia. do 2 eexists. split_and!; [done..| | |].
  - apply arr_get_Ok. split; [lia|]. apply list_lookup_insert_eq. lia.
  - by rewrite length_insert.
  - intros k Hk Hne. unfold arr_get. by rewrite list_lookup_insert_ne by lia.
Qed.

(** [grown nodes nodes' i j]: only the nodes from [i] to [j] have changed. *)
Definition grown (nodes nodes' : list huff_decodenode) (i : Z) : Prop :=
  length nodes' = length nodes ∧ ∀ k, 0 ≤ k < i → arr_get nodes' k = arr_get nodes k.

Definition tree_at (nodes : list huff_decodenode) (i j : Z) (t : tree) : Prop :=
  ∀ s q, (s, q) ∈ codes t → dec_path nodes i j i q s.

Lemma new_node_spec nodes i :
  0 ≤ i < Z.of_nat (length nodes) →
  ∃ nodes', arr_set nodes i (DecNode None None (-1)) = Ok nodes' ∧
    arr_get nodes' i = Ok (DecNode None None (-1)) ∧ grown nodes nodes' i.
Proof.
  intros Hi. rewrite arr_set_in_range by lia. eexists. split_and!; [done| |].
  - apply arr_get_Ok. split; [lia|]. apply list_lookup_insert_eq. lia.
  - split; [by rewrite length_insert|]. intros k Hk. unfold arr_get. by rewrite list_lookup_insert_ne by lia.
Qed.

Lemma grown_get nodes nodes' i k x : grown nodes nodes' i → 0 ≤ k < i → arr_get nodes k = Ok x → arr_get nodes' k = Ok x.
Proof. intros [_ Hk] ?. by rewrite Hk. Qed.

(** A node and the trees under it. *)
Lemma tree_at_node nodes i j k a b :
  arr_get nodes i = Ok (DecNode (Some (i + 1)) (Some j) (-1)) → i + 1 ≤ j → j ≤ k → i < k →
  tree_at nodes (i + 1) j a → tree_at nodes j k b → tree_at nodes i k (Node a b).
Proof.
  intros Hnd Hij Hjk Hik Ha Hb s q Hq.
  apply elem_of_app in Hq as [Hq|Hq]; apply list_elem_of_fmap in Hq as ([s' q'] & [= -> ->] & Hq); simpl;
    (eapply dec_node; [lia | exact Hnd | done | done|]).
  - eapply (dec_path_frame nodes nodes (i + 1) j); [done | lia | lia | by apply Ha].
  - eapply (dec_path_frame nodes nodes j k); [done | lia | lia | by apply Hb].
Qed.

Lemma tree_at_frame nodes nodes' i j t :
  (∀ k, i ≤ k < j → arr_get nodes' k = arr_get nodes k) → tree_at nodes i j t → tree_at nodes' i j t.
Proof. intros Hsame Ht s q Hq. eapply (dec_path_frame nodes nodes' i j); [done | lia | lia | by apply Ht]. Qed.

Lemma recover_tree_spec inb t fuel nodes s num l :
  reads inb s (tree_bits t ++ l) → l ≠ [] → bytes_tree t → (depth t < fuel)%nat →
  0 ≤ num → num + size t ≤ Z.of_nat (length nodes) → Z.of_nat (length nodes) < 2 ^ 31 →
  yields (_Huffman_RecoverTree fuel inb (nodes, s, num)) (λ '(root, (nodes', s', num')),
    root = num ∧ num' = num + size t ∧ reads inb s' l ∧ grown nodes nodes' num ∧ tree_at nodes' num num' t).
Proof.
  revert fuel nodes s num l. induction t as [sy|a IHa b IHb]; intros fuel nodes s num l Hr Hl Hbytes Hfuel Hnum Hroom Hmax;
    (destruct fuel as [|fuel]; [simpl in *; lia|]); cbn [_Huffman_RecoverTree tree_bits size leaves depth app] in *.
  - destruct (new_node_spec nodes num) as (n0 & -> & Hn0 & Hg0 & Hk0); [lia|]. cbn [mbind outcome_bind].
    rewrite wrapu_small by lia. apply Forall_cons in Hbytes as [Hsy _].
    apply yields_bind. eapply yields_mono; [by apply read_bit_spec|]. intros [x s1] [-> Hr1]. cbn [b2z testz].
    apply yields_bind. eapply yields_mono; [by apply read8_spec|]. intros [x s2] (Hx & Hu8 & Hr2).
    destruct (node_update_spec n0 num (set_dec_Symbol (i32 x))) as (n1 & e & He & -> & Hn1 & Hg1 & Hk1); [lia|].
    cbn [mbind outcome_bind yields]. split_and!; [done..| |].
    + split; [congruence|]. intros k Hk. rewrite Hk1 by lia. by apply Hk0.
    + intros s' q Hq. apply list_elem_of_singleton in Hq as [= -> ->].
      rewrite wraps_small in Hn1 by (change (32 - 1) with 31; lia).
      eapply dec_leaf; [lia | exact Hn1 | simpl; lia | done].
  - pose proof (size_pos a). pose proof (size_pos b). apply Forall_app in Hbytes as [Hba Hbb].
    destruct (new_node_spec nodes num) as (n0 & -> & Hn0 & Hg0 & Hk0); [lia|]. cbn [mbind outcome_bind].
    rewrite wrapu_small by lia.
    apply yields_bind. eapply yields_mono; [by apply read_bit_spec|]. intros [x s1] [-> Hr1]. cbn [b2z testz].
    rewrite <- app_assoc in Hr1. apply yields_bind. eapply yields_mono.
    { apply (IHa fuel n0 s1 (num + 1) _ Hr1); [destruct b; simpl; done | done | lia..]. }
    intros [ra [[n1 s2] num1]] (-> & -> & Hr2 & [Hl1 Hk1] & Ha).
    destruct (node_update_spec n1 num (set_dec_ChildA (num + 1))) as (n2 & e & He & -> & Hn2 & Hl2 & Hk2); [lia|].
    rewrite Hk1, Hn0 in He by lia. injection He as <-. cbn [mbind outcome_bind].
    apply yields_bind. eapply yields_mono.
    { apply (IHb fuel n2 s2 _ _ Hr2 Hl Hbb); lia. }
    intros [rb [[n3 s3] num2]] (-> & -> & Hr3 & [Hl3 Hk3] & Hb).
    destruct (node_update_spec n3 num (set_dec_ChildB (num + 1 + size a))) as (n4 & e & He & -> & Hn4 & Hl4 & Hk4); [lia|].
    rewrite Hk3, Hn2 in He by lia. injection He as <-. cbn [mbind outcome_bind yields].
    split_and!; [done | lia | done | split; [congruence|] |].
    + intros k Hk. rewrite Hk4, Hk3, Hk2, Hk1 by lia. by apply Hk0.
    + apply (tree_at_node _ _ (num + 1 + size a)); [exact Hn4 | lia..| |].
      * eapply tree_at_frame; [|exact Ha]. intros k Hk. rewrite Hk4, Hk3, Hk2 by lia. done.
      * eapply tree_at_frame; [|exact Hb]. intros k Hk. rewrite Hk4 by lia. done.
Qed.

(** ** The coder *)

Lemma sym_counts_symbols sym l : sym_counts sym l → Symbol <$> sym = seqZ 0 256.
Proof.
  intros [Hl Hs]. apply list_eq. intros i. rewrite list_lookup_fmap. destruct (decide (i < 256)%nat).
  - specialize (Hs (Z.of_nat i) ltac:(lia)). rewrite Nat2Z.id in Hs. rewrite Hs. simpl. symmetry. apply lookup_seqZ. lia.
  - rewrite lookup_ge_None_2 by lia. simpl. symmetry. apply lookup_seqZ_ge. lia.
Qed.

Lemma fib_35 : fib 35 = 9227465.
Proof. rewrite fib_value. reflexivity. Qed.

Section Coder.
Context (data : list Z) (Hdata : byte_list data).
(** Data shorter than the 35th Fibonacci number: 32-bit codes are enough. *)
Context (Hlen : 1 ≤ Z.of_nat (length data) < 9227465).

Lemma data_used : Forall (λ s, s ∈ used data) data.
Proof.
  apply Forall_forall. intros s Hs. apply elem_of_used. split; [by eapply Forall_forall in Hdata|].
  unfold occ. assert (s ∈ filter (λ x, x = s) data) as Hin by (by apply list_elem_of_filter).
  destruct (filter _ _); [by apply elem_of_nil in Hin | simpl; lia].
Qed.

(** What a tree for the data is good for. *)
Lemma data_tree_spec t :
  data_tree data t →
  bytes_tree t ∧ NoDup (leaves t) ∧ (depth t ≤ 32)%nat ∧ (length (leaves t) ≤ 256)%nat ∧
  Z.of_nat (length (concat (code_of t <$> data))) ≤ 8 * Z.of_nat (length data).
Proof.
  intros [Hleaves Hbal Hcost].
  assert (NoDup (leaves t)) as Hnd by (rewrite Hleaves; apply NoDup_used).
  split_and!; [|done| | |].
  - rewrite Hleaves. apply Forall_forall. intros s Hs. apply elem_of_used in Hs. tauto.
  - apply balanced_depth in Hbal. rewrite wt_leaves in Hbal.
    rewrite (sumZ_perm _ _ (fmap_Permutation _ _ _ Hleaves)), used_sum in Hbal by done.
    destruct (decide (depth t ≤ 32)%nat); [done|]. pose proof (fib_mono 35 (depth t + 2) ltac:(lia)). rewrite fib_35 in *. lia.
  - rewrite Hleaves. pose proof (length_used_upto data 256 ltac:(lia)) as Hu. unfold used. lia.
  - rewrite code_length; [done | done |]. eapply Forall_impl; [exact data_used|]. intros s. by rewrite Hleaves.
Qed.

(** The codes in the table; a tree of one leaf gives it the code 0. *)
Record coding (t : tree) (f : Z → list bool) : Prop := {
  coding_length s : s ∈ data → (1 ≤ length (f s) ≤ 32)%nat;
  coding_total : 1 ≤ Z.of_nat (length (concat (f <$> data))) ≤ 8 * Z.of_nat (length data);
  coding_tree : ∃ rest, concat (f <$> data) = concat (code_of t <$> data) ++ rest;
}.

Lemma coding_node a b : data_tree data (Node a b) → coding (Node a b) (code_of (Node a b)).
Proof.
  intros Ht. pose proof (data_tree_spec _ Ht) as (Hb & Hnd & Hdep & _ & Hcost).
  assert (∀ s, s ∈ data → (1 ≤ length (code_of (Node a b) s) ≤ 32)%nat) as Hl.
  { intros s Hs. assert ((s, code_of (Node a b) s) ∈ codes (Node a b)) as Hin.
    { apply code_of_leaf; [done|]. rewrite (data_leaves _ _ Ht). pose proof data_used as Hu.
      rewrite Forall_forall in Hu. auto. }
    split; [|apply codes_depth in Hin; lia].
    apply elem_of_app in Hin as [Hin|Hin]; apply list_elem_of_fmap in Hin as ([s' q] & [= -> ->] & _); simpl; lia. }
  split; [done | |by exists []; rewrite app_nil_r]. split; [|done].
  destruct data as [|s l]; [simpl in *; lia|]. csimpl. rewrite length_app. specialize (Hl s ltac:(left)). lia.
Qed.

Lemma coding_leaf s : data_tree data (Leaf s) → coding (Leaf s) (λ _, [false]).
Proof.
  intros Ht.
  assert (∀ l : list Z, length (concat ((λ _, [false]) <$> l)) = length l) as Hl.
  { intros l. induction l as [|x l IH]; csimpl; congruence. }
  split; [simpl; lia | rewrite Hl; lia |]. exists (concat ((λ _, [false]) <$> data)).
  assert (Forall (λ x, x = s) data) as Hs.
  { eapply Forall_impl; [exact data_used|]. simpl. intros x Hx.
    rewrite <- (data_leaves _ _ Ht) in Hx. by apply list_elem_of_singleton in Hx. }
  assert (∀ l, Forall (λ x, x = s) l → concat (code_of (Leaf s) <$> l) = []) as ->; [|done|done].
  intros l. induction 1 as [|x l -> _ IH]; csimpl; [done|]. rewrite IH, app_nil_r.
  apply code_of_elem; [apply NoDup_singleton | left].
Qed.

Lemma make_tree_spec sym o cap :
  sym_counts sym data → wrote_bits o [] cap → Z.of_nat (length data) + 320 ≤ cap →
  yields (_Huffman_MakeTree sym o) (λ '(sym', o'), ∃ t f,
    data_tree data t ∧ coding t f ∧ wrote_bits o' (tree_bits t) cap ∧ Symbol <$> sym' = seqZ 0 256 ∧
    ∀ s, s ∈ data → entry sym' s (f s)).
Proof.
  intros Hsym Ho Hcap. unfold _Huffman_MakeTree. apply yields_bind.
  pose proof (sym_counts_symbols _ _ Hsym) as Hsy.
  eapply yields_mono; [apply (huff_build_spec data); [done | lia | done]|].
  intros [nodes root] (n & i & t & Ht & Hnl & Hn & Hat & Hroot).
  destruct (data_tree_spec t Ht) as (Hb & Hnd & Hdep & Hll & Hcost). pose proof (length_tree_bits t) as Hbits.
  assert (∀ s, s ∈ data → (s, code_of t s) ∈ codes t) as Hcodes.
  { intros s Hs. apply code_of_leaf; [done|]. rewrite (data_leaves _ _ Ht). pose proof data_used as Hu.
    rewrite Forall_forall in Hu. auto. }
  destruct root as [i'|].
  - destruct Hroot as [-> (a & b & ->)].
    eapply yields_mono; [apply (store_tree_spec nodes n _ _ i [] sym o [] cap Hat); try done; cbn [length]; unfold MAX_TREE_NODES; lia|].
    intros [sym' o'] (Ho' & Hsym' & Hent & _). exists (Node a b), (code_of (Node a b)).
    split_and!; [done | by apply coding_node | done | done |].
    intros s Hs. by apply (Hent s), Hcodes.
  - destruct Hroot as [-> (s0 & ->)].
    eapply yields_mono; [apply (store_tree_spec nodes n _ _ 0 [false] sym o [] cap Hat); try done; cbn [length depth]; unfold MAX_TREE_NODES; lia|].
    intros [sym' o'] (Ho' & Hsym' & Hent & _). exists (Leaf s0), (λ _, [false]).
    split_and!; [done | by apply coding_leaf | done | done |].
    intros s Hs. specialize (Hcodes s Hs). simpl in Hcodes. apply list_elem_of_singleton in Hcodes as [= -> _].
    apply (Hent s0 []). left.
Qed.

Lemma compress_spec out cap :
  byte_list out → Z.of_nat (length out) = cap → Z.of_nat (length data) + 320 ≤ cap →
  yields (Huffman_Compress data out (Z.of_nat (length data))) (λ '(n, out'), ∃ t rest,
    data_tree data t ∧ rest ≠ [] ∧ 0 < n ≤ Z.of_nat (length data) + 320 ∧
    reads (take (Z.to_nat n) out') (_Huffman_InitBitstream 0) (tree_bits t ++ rest) ∧
    ∃ r, rest = concat (code_of t <$> data) ++ r).
Proof.
  intros Hout Hol Hcap. unfold Huffman_Compress. destruct (Z.ltb_spec (Z.of_nat (length data)) 1); [lia|].
  apply yields_bind. eapply yields_mono; [apply hist_spec; [done | lia | apply length_replicate]|].
  intros sym Hsym. apply yields_bind. eapply yields_mono.
  { apply (make_tree_spec _ _ cap Hsym); [|done]. split_and!; simpl; [split; simpl; lia | done | unfold pos; simpl; lia | done | done |].
    intros i Hi. lia. }
  intros [sym1 o1] (t & f & Ht & [Hfl Hft Hfr] & Ho1 & Hsy & Hent).
  pose proof (data_tree_spec t Ht) as (_ & _ & _ & Hll & _). pose proof (length_tree_bits t) as Hbits.
  apply yields_bind. eapply yields_mono; [by apply sorted_table; rewrite Hsy|].
  intros sym2 Htab. apply yields_bind. eapply yields_mono.
  { apply (encode_spec data sym2 o1 (tree_bits t) cap f); [|done|done|lia].
    intros s Hs. destruct (Hent s Hs) as (e & He & <- & Hc & Hb). exists e. auto. }
  intros o2 Ho2. pose proof Ho2 as (Hok & Hpos & _). pose proof (stream_bytes_pos _ Hok) as Hsb. cbn [yields].
  rewrite length_app in Hpos. rewrite total_bytes_spec by (done || lia).
  exists t, (concat (f <$> data)). split_and!; [done | | lia | lia | by apply wrote_reads in Ho2 | done].
  intros E. rewrite E in Hft. simpl in Hft. lia.
Qed.

End Coder.

(** C21: Huffman coding round-trips.  For data of less than 9,227,465 bytes (the
    35th Fibonacci number), Huffman_Compress with an output buffer of 320 bytes
    more than the data stays inside its buffers and returns the size of the
    coded data, and Huffman_Uncompress of those bytes gives the data back. *)
Theorem huffman_round_trip (data out out' : list Z) :
  byte_list data → 1 ≤ Z.of_nat (length data) < 9227465 →
  byte_list out → Z.of_nat (length data) + 320 ≤ Z.of_nat (length out) → length out' = length data →
  ∃ n c, Huffman_Compress data out (Z.of_nat (length data)) = Ok (n, c) ∧
    0 < n ≤ Z.of_nat (length data) + 320 ∧
    Huffman_Uncompress (take (Z.to_nat n) c) out' n (Z.of_nat (length data)) = Ok data.
Proof.
  intros Hdata Hlen Hout Hcap Hout'.
  destruct (Huffman_Compress data out (Z.of_nat (length data))) as [[n c]|] eqn:E;
    pose proof (compress_spec data Hdata Hlen out _ Hout eq_refl Hcap) as Hc; rewrite E in Hc; [|done].
  destruct Hc as (t & rest & Ht & Hne & Hn & Hr & r & Hrest).
  exists n, c. split_and!; [done | lia | lia |]. unfold Huffman_Uncompress.
  destruct (Z.ltb_spec n 1); [lia|].
  pose proof (data_tree_spec data Hdata Hlen t Ht) as (Hb & Hnd & Hdep & Hll & _).
  pose proof (size_leaves t).
  assert (yields (_Huffman_RecoverTree (S MAX_TREE_NODES) (take (Z.to_nat n) c)
    (replicate MAX_TREE_NODES (DecNode None None 0), _Huffman_InitBitstream 0, 0)) (λ '(root, (nodes, s, num)),
    root = 0 ∧ reads (take (Z.to_nat n) c) s rest ∧ tree_at nodes 0 num t)) as Hrec.
  { eapply yields_mono; [apply (recover_tree_spec _ t _ _ _ _ rest Hr Hne Hb); rewrite ?length_replicate; unfold MAX_TREE_NODES; lia|].
    intros [root [[nodes s] num]]. tauto. }
  destruct _Huffman_RecoverTree as [[root [[nodes s] num]]|]; [|done].
  destruct Hrec as (-> & Hr' & Hat). cbn [mbind outcome_bind]. rewrite Hrest in Hr'.
  eapply decode_spec; [|exact Hr' | done | lia]. intros x Hx.
  assert ((x, code_of t x) ∈ codes t) as Hin.
  { apply code_of_leaf; [done|]. rewrite (data_leaves _ _ Ht). pose proof (data_used data Hdata) as Hu.
    rewrite Forall_forall in Hu. auto. }
  split; [by apply Hat|]. apply codes_depth in Hin. unfold MAX_TREE_NODES. lia.
Qed.

Lemma huffman_round_trip_witness :
  ∃ n c, Huffman_Compress [7; 7; 9; 7; 200; 9; 7] (replicate 327 0) 7 = Ok (n, c) ∧ 0 < n ≤ 7 + 320 ∧
    Huffman_Uncompress (take (Z.to_nat n) c) (replicate 7 0) n 7 = Ok [7; 7; 9; 7; 200; 9; 7].
Proof.
  apply (huffman_round_trip [7; 7; 9; 7; 200; 9; 7] (replicate 327 0) (replicate 7 0)).
  - repeat constructor; lia.
  - simpl. lia.
  - apply Forall_replicate. lia.
  - rewrite length_replicate. simpl. lia.
  - reflexivity.
Defined.

(** ** Too deep a tree *)

(** The histogram of 9,227,465 bytes: byte 0 once, byte [k] as often as the
    [k]-th Fibonacci number says, for [k] up to 33. *)
Definition fib_counts : list sym_t :=
  Sym 0 1 0 0 :: ((λ k, Sym k (Nat.iter (Z.to_nat k) (λ '(a, b), (b, a + b)) (0, 1)).1 0 0) <$> seqZ 1 33)
  ++ ((λ k, Sym k 0 0 0) <$> seqZ 34 222).

(** The bound of the round trip is sharp, and the coder does not abort
    beyond it, as the file's header says, but shifts by more than the word.
    The 9,227,465 bytes with the histogram fib_counts get a tree with a code of 33
    bits, and writing that code shifts 1 by 32. *)
Theorem huffman_code_of_33_bits :
  sumZ (Count <$> fib_counts) = 9227465 ∧
  ∃ sym o e, _Huffman_MakeTree fib_counts (replicate 50 0, _Huffman_InitBitstream 0) = Ok (sym, o) ∧
    e ∈ sym ∧ 0 < Count e ∧ Bits e = 33 ∧ _Huffman_WriteBits o (Code e) (Bits e) = Fault BadShift.
Proof.
  split; [vm_compute; reflexivity|].
  destruct (_Huffman_MakeTree fib_counts (replicate 50 0, _Huffman_InitBitstream 0)) as [[sym o]|] eqn:E; vm_compute in E; [|discriminate].
  injection E as <- <-. do 3 eexists. split; [reflexivity|]. split; [right; left|]. split_and!; reflexivity.
Qed.
