(* ===== verification/Sf.v ===== *)
(** * libbcl/shannonfano.c

    The coder and the decoder.  The bit streams, the first half of the histogram
    function, the second sort, the encoding loop and the decoding loop are the
    text of huffman.c with other names; they are the definitions of
    BitStream.v, SymTable.v and Huffman.v. *)

From S2P Require Import Prelude Bits Bcl BitStream Tree SymTable Huffman.

Definition sf_treenode : Type := huff_decodenode.

Definition _SF_InitBitstream : Z → bitstream := _Huffman_InitBitstream.
Definition _SF_ReadBit : list Z → bitstream → outcome (Z * bitstream) := _Huffman_ReadBit.
Definition _SF_Read8Bits : list Z → bitstream → outcome (Z * bitstream) := _Huffman_Read8Bits.
Definition _SF_WriteBits : writer → Z → Z → outcome writer := _Huffman_WriteBits.

(** ** The encoder *)

Definition by_count (a b : sym_t) : bool := Count a <? Count b.

Definition _SF_Hist (inb : list Z) (sym : list sym_t) (size : Z) : outcome (list sym_t) :=
  sym ← _Huffman_Hist inb sym size;
  bubble_sort by_count sym.

(** The total count of the interval. *)
Definition sf_size (sym : list sym_t) (first last : Z) : outcome Z :=
  for_up (Z.to_nat (last - first + 1)) first (λ k size,
    e ← arr_get sym k;
    Ok (u32 (size + Count e))) 0.

(** Branch A takes symbols until it has half of the size; [(k, size_a)]. *)
Definition sf_cut (sym : list sym_t) (first last size : Z) : outcome (Z * Z) :=
  iter 257 (λ '(k, size_a),
    if (size_a <? Z.shiftr (u32 (size + 1)) 1) && (k <? last) then
      e ← arr_get sym k;
      Ok (inl (u32 (k + 1), u32 (size_a + Count e)))
    else Ok (inr (k, size_a))) (first, 0).

Fixpoint _SF_MakeTree (fuel : nat) (sym : list sym_t) (o : writer) (code bits first last : Z) :
    outcome (list sym_t * writer) :=
  match fuel with
  | O => Fault OutOfFuel
  | S fuel =>
      if first =? last then
        o ← _SF_WriteBits o 1 1;
        e ← arr_get sym first;
        o ← _SF_WriteBits o (Symbol e) 8;
        sym ← arr_set sym first (set_Code code bits e);
        Ok (sym, o)
      else
        o ← _SF_WriteBits o 0 1;
        size ← sf_size sym first last;
        '(k, size_a) ← sf_cut sym first last size;
        '(sym, o) ←
          (if 0 <? size_a then
             o ← _SF_WriteBits o 1 1;
             _SF_MakeTree fuel sym o (u32 (Z.shiftl code 1 + 0)) (u32 (bits + 1)) first (u32 (k - 1))
           else
             o ← _SF_WriteBits o 0 1;
             Ok (sym, o));
        let size_b := u32 (size - size_a) in
        if 0 <? size_b then
          o ← _SF_WriteBits o 1 1;
          _SF_MakeTree fuel sym o (u32 (Z.shiftl code 1 + 1)) (u32 (bits + 1)) k last
        else
          o ← _SF_WriteBits o 0 1;
          Ok (sym, o)
  end.

(** The last symbol that occurs. *)
Definition sf_last_symbol (sym : list sym_t) : outcome Z :=
  last_symbol ← iter 257 (λ last_symbol,
    e ← arr_get sym last_symbol;
    if Count e =? 0 then Ok (inl (u32 (last_symbol - 1))) else Ok (inr last_symbol)) 255;
  Ok (if last_symbol =? 0 then last_symbol + 1 else last_symbol).

Definition SF_Compress (inb out : list Z) (insize : Z) : outcome (Z * list Z) :=
  if insize <? 1 then Ok (0, out)
  else
    let stream := _SF_InitBitstream 0 in
    sym ← _SF_Hist inb (replicate 256 (Sym 0 0 0 0)) insize;
    last_symbol ← sf_last_symbol sym;
    '(sym, o) ← _SF_MakeTree 257 sym (out, stream) 0 0 0 last_symbol;
    sym ← bubble_sort by_symbol sym;
    o ← huff_encode inb sym insize o;
    Ok (total_bytes o.2, o.1).

(** ** The decoder *)

Fixpoint _SF_RecoverTree (fuel : nat) (inb : list Z) (v : dec_vars) : outcome (Z * dec_vars) :=
  match fuel with
  | O => Fault OutOfFuel
  | S fuel =>
      let '(nodes, s, nodenum) := v in
      let this_node := nodenum in
      let nodenum := u32 (nodenum + 1) in
      nodes ← arr_set nodes this_node (DecNode None None (-1));
      '(leaf, s) ← _SF_ReadBit inb s;
      if testz leaf then
        '(x, s) ← _SF_Read8Bits inb s;
        nodes ← node_update nodes this_node (set_dec_Symbol (i32 x));
        Ok (this_node, (nodes, s, nodenum))
      else
        '(branch_a, s) ← _SF_ReadBit inb s;
        '(nodes, s, nodenum) ←
          (if testz branch_a then
             '(a, (nodes, s, nodenum)) ← _SF_RecoverTree fuel inb (nodes, s, nodenum);
             nodes ← node_update nodes this_node (set_dec_ChildA a);
             Ok (nodes, s, nodenum)
           else Ok (nodes, s, nodenum));
        '(branch_b, s) ← _SF_ReadBit inb s;
        '(nodes, s, nodenum) ←
          (if testz branch_b then
             '(b, (nodes, s, nodenum)) ← _SF_RecoverTree fuel inb (nodes, s, nodenum);
             nodes ← node_update nodes this_node (set_dec_ChildB b);
             Ok (nodes, s, nodenum)
           else Ok (nodes, s, nodenum));
        Ok (this_node, (nodes, s, nodenum))
  end.

Definition SF_Uncompress (inb out : list Z) (insize outsize : Z) : outcome (list Z) :=
  if insize <? 1 then Ok out
  else
    let stream := _SF_InitBitstream 0 in
    '(root, (nodes, stream, _)) ←
      _SF_RecoverTree (S MAX_TREE_NODES) inb (replicate MAX_TREE_NODES (DecNode None None 0), stream, 0);
    huff_decode nodes root inb outsize stream out.
