(* ===== verification/SfProof.v ===== *)
(** * libbcl/shannonfano.c: the coder round-trips

    The encoder cuts the table, sorted by count, into intervals.  A cut leaves
    branch A no more than half of the symbols (rounded up) and branch B no more
    than half of the count ([cut_spec]), which bounds the depth of the tree.
    [sf_bits] is the header: the tree in preorder, with a bit for each branch. *)

From stdpp Require Import sorting.
From S2P Require Import Prelude Bits Bcl BitStream Tree SymTable Huffman HuffTree TreeCode HuffProof Sf.

(** ** Sums of sorted counts *)

Abbreviation noninc := (StronglySorted (λ x y : Z, y ≤ x)).
Abbreviation nonneg := (Forall (λ x : Z, 0 ≤ x)).

Lemma sumZ_nonneg l : nonneg l → 0 ≤ sumZ l.
Proof. induction 1; simpl; lia. Qed.

Lemma sumZ_le a b :
  (∀ x y, x ∈ a → y ∈ b → y ≤ x) → (length b ≤ length a)%nat → nonneg a → sumZ b ≤ sumZ a.
Proof.
  revert a. induction b as [|y b IH]; intros a Hle Hlen Ha; [by apply sumZ_nonneg|].
  destruct Ha as [|x a Hx Ha]; [simpl in Hlen; lia|]. simpl in *.
  pose proof (Hle x y ltac:(left) ltac:(left)).
  assert (sumZ b ≤ sumZ a); [|lia]. apply IH; [|lia|done]. intros u v Hu Hv. apply Hle; by right.
Qed.

Lemma noninc_lookup l i j x y : noninc l → (i ≤ j)%nat → l !! i = Some x → l !! j = Some y → y ≤ x.
Proof.
  intros Hs. revert i j. induction Hs as [|z l Hs IH Hz]; intros i j Hij Hx Hy; [done|].
  destruct i as [|i], j as [|j]; simpl in *; try lia.
  - simplify_eq. lia.
  - injection Hx as ->. rewrite Forall_forall in Hz. apply Hz. by eapply list_elem_of_lookup_2.
  - apply (IH i j); auto with lia.
Qed.

(** The first half of the symbols has half of the count. *)
Lemma half_sum l h : noninc l → nonneg l → (length l ≤ 2 * h)%nat → sumZ l ≤ 2 * sumZ (take h l).
Proof.
  intros Hs Hp Hh. rewrite <- (take_drop h l) in Hs, Hp |- * at 1. apply Forall_app in Hp as [Hp _].
  rewrite sumZ_app. assert (sumZ (drop h l) ≤ sumZ (take h l)); [|lia]. apply sumZ_le; [| |done].
  - intros x y Hx Hy. apply (StronglySorted_app_1_elem_of _ _ _ x y Hs Hx Hy).
  - rewrite length_take, length_drop. lia.
Qed.

Lemma sumZ_take_mono l i j : nonneg l → (i ≤ j)%nat → sumZ (take i l) ≤ sumZ (take j l).
Proof.
  intros Hp Hij. rewrite <- (take_drop i (take j l)), take_take, Nat.min_l, sumZ_app by done.
  pose proof (sumZ_nonneg (drop i (take j l)) ltac:(by apply Forall_drop, Forall_take)). lia.
Qed.

(** One more count: the sums stay between 0 and the total. *)
Lemma sumZ_take_S l i x :
  nonneg l → l !! i = Some x →
  sumZ (take (S i) l) = sumZ (take i l) + x ∧ 0 ≤ x ∧ 0 ≤ sumZ (take i l) ∧ sumZ (take i l) + x ≤ sumZ l.
Proof.
  intros Hp Hx. pose proof (sumZ_take_mono l (S i) (length l) Hp ltac:(apply lookup_lt_Some in Hx; lia)) as Hm.
  rewrite firstn_all in Hm. rewrite (take_S_r _ _ _ Hx), sumZ_app in Hm |- *. simpl in *.
  pose proof (sumZ_nonneg (take i l) ltac:(by apply Forall_take)).
  pose proof (Forall_lookup_1 _ _ _ _ Hp Hx) as Hx0. simpl in Hx0. lia.
Qed.

(** ** The table *)

(** The symbols and counts of the table. *)
Definition like (base : list (Z * Z)) (sym : list sym_t) : Prop := (λ e, (Symbol e, Count e)) <$> sym = base.

Lemma like_get base sym k x :
  like base sym → 0 ≤ k → base !! Z.to_nat k = Some x →
  ∃ e, arr_get sym k = Ok e ∧ sym !! Z.to_nat k = Some e ∧ (Symbol e, Count e) = x.
Proof.
  intros <- Hk Hx. rewrite list_lookup_fmap in Hx. apply fmap_Some in Hx as (e & He & ->).
  exists e. split_and!; [by apply arr_get_look | done | done].
Qed.

Lemma like_set_code base sym k x q :
  like base sym → NoDup base.*1 → 0 ≤ k → base !! Z.to_nat k = Some x →
  ∃ e sym', arr_get sym k = Ok e ∧ (Symbol e, Count e) = x ∧
    arr_set sym k (set_Code (bits_val q) (Z.of_nat (length q)) e) = Ok sym' ∧
    like base sym' ∧ entry sym' x.1 q ∧ entries_kept (Leaf x.1) sym sym'.
Proof.
  intros Hlike Hnd Hk Hx. destruct (like_get _ _ _ _ Hlike Hk Hx) as (e & He & Hl & <-).
  pose proof (lookup_lt_Some _ _ _ Hl) as Hlt. eexists e, _. rewrite arr_set_in_range by lia.
  split_and!; [done..| | |].
  - unfold like in *. rewrite list_fmap_insert. simpl. rewrite <- Hlike. apply list_insert_id.
    by rewrite list_lookup_fmap, Hl.
  - eexists. split; [eapply list_elem_of_lookup_2, list_lookup_insert_eq; done|]. done.
  - intros s Hs q' (e' & He' & Hsy & Hcd). exists e'. split; [|done].
    apply list_elem_of_lookup in He' as [i Hi]. apply (list_elem_of_lookup_2 _ i).
    rewrite list_lookup_insert_ne; [done|]. intros <-. rewrite Hl in Hi. injection Hi as <-.
    apply Hs. simpl. apply list_elem_of_singleton. done.
Qed.

(** ** Cutting an interval *)

(** An interval of the table: [seg] starts at [first] and ends at [last]. *)
Record interval (base : list (Z * Z)) (first last : Z) (seg : list (Z * Z)) : Prop := {
  interval_at : ∃ p r, base = p ++ seg ++ r ∧ first = Z.of_nat (length p);
  interval_last : last = first + Z.of_nat (length seg) - 1;
  interval_sorted : noninc seg.*2;
  interval_used : Forall (λ x, 1 ≤ x.2) seg;
}.

Lemma interval_get base first last seg k x :
  interval base first last seg → seg !! k = Some x → base !! Z.to_nat (first + Z.of_nat k) = Some x.
Proof.
  intros [(p & r & -> & ->) _ _ _] Hk. replace (Z.to_nat _) with (length p + k)%nat by lia.
  rewrite lookup_app_r by lia. rewrite lookup_app_l by (apply lookup_lt_Some in Hk; lia).
  by replace (length p + k - length p)%nat with k by lia.
Qed.

Lemma interval_nonneg base first last seg : interval base first last seg → nonneg seg.*2.
Proof. intros [_ _ _ Hu]. rewrite Forall_fmap. eapply Forall_impl; [exact Hu|]. simpl. lia. Qed.

Lemma interval_cut base first last a b :
  interval base first last (a ++ b) → 
  interval base first (first + Z.of_nat (length a) - 1) a ∧ interval base (first + Z.of_nat (length a)) last b.
Proof.
  intros [(p & r & -> & ->) -> Hs Hu]. rewrite fmap_app in Hs. apply Forall_app in Hu as [Hua Hub].
  split; split; eauto using StronglySorted_app_1_l, StronglySorted_app_1_r.
  - exists p, (b ++ r). by rewrite <- app_assoc.
  - exists (p ++ a), r. rewrite <- !app_assoc. split; [done|]. rewrite length_app. lia.
  - rewrite length_app. lia.
Qed.

Lemma sf_size_spec base sym first last seg :
  like base sym → interval base first last seg → 0 ≤ first → sumZ seg.*2 < 2 ^ 32 →
  yields (sf_size sym first last) (λ size, size = sumZ seg.*2).
Proof.
  intros Hlike Hseg H0 Hsum. pose proof (interval_nonneg _ _ _ _ Hseg) as Hp. unfold sf_size.
  rewrite (interval_last _ _ _ _ Hseg). replace (Z.to_nat _) with (length seg) by lia.
  eapply yields_mono.
  - apply (for_up_inv (λ k size, size = sumZ (take (Z.to_nat (k - first)) seg.*2))).
    + by rewrite Z.sub_diag.
    + intros k size Hk ->. destruct (lookup_lt_is_Some_2 seg (Z.to_nat (k - first))) as [x Hx]; [lia|].
      pose proof (interval_get _ _ _ _ _ _ Hseg Hx) as Hb. replace (first + _) with k in Hb by lia.
      destruct (like_get base sym k _ Hlike ltac:(lia) Hb) as (e & -> & _ & <-). cbn [mbind outcome_bind yields].
      replace (Z.to_nat (k + 1 - first)) with (S (Z.to_nat (k - first))) by lia.
      assert (seg.*2 !! Z.to_nat (k - first) = Some (Count e)) as Hc by (by rewrite list_lookup_fmap, Hx).
      pose proof (sumZ_take_S _ _ _ Hp Hc) as (-> & ? & ? & ?). rewrite wrapu_small; lia.
  - intros size ->. rewrite firstn_all2; [done|]. rewrite length_fmap. lia.
Qed.

Lemma sf_cut_spec base sym first last seg :
  like base sym → interval base first last seg → 0 ≤ first → last < 256 →
  (2 ≤ length seg)%nat → sumZ seg.*2 < 2 ^ 31 →
  yields (sf_cut sym first last (sumZ seg.*2)) (λ '(k, size_a), ∃ a b,
    seg = a ++ b ∧ k = first + Z.of_nat (length a) ∧ size_a = sumZ a.*2 ∧
    a ≠ [] ∧ b ≠ [] ∧ (2 * length a ≤ S (length seg))%nat ∧ 2 * sumZ b.*2 ≤ sumZ seg.*2).
Proof.
  intros Hlike Hseg H0 Hlast Hlen Hsum. pose proof (interval_nonneg _ _ _ _ Hseg) as Hp.
  pose proof (interval_last _ _ _ _ Hseg) as Hl. pose proof (sumZ_nonneg _ Hp) as Hs0.
  set (n := length seg) in *. set (h := (n - n / 2)%nat).
  assert (length seg.*2 = n) as Hn by apply length_fmap.
  assert (n ≤ 2 * h ∧ 2 * h ≤ S n ∧ 1 ≤ h ≤ n - 1)%nat as Hh.
  { unfold h. pose proof (Nat.div_mod n 2 ltac:(lia)). pose proof (Nat.mod_upper_bound n 2 ltac:(lia)). lia. }
  pose proof (half_sum seg.*2 h (interval_sorted _ _ _ _ Hseg) Hp ltac:(lia)) as Hhalf.
  unfold sf_cut. rewrite wrapu_small, Z.shiftr_div_pow2 by lia. change (2 ^ 1) with 2.
  apply (iter_inv (λ '(k, size_a), ∃ j, k = first + Z.of_nat j ∧ (j ≤ h)%nat ∧ size_a = sumZ (take j seg.*2))
    (λ '(k, _), Z.to_nat (last - k))).
  - exists O. split_and!; [lia | lia | done].
  - lia.
  - intros [k size_a] (j & -> & Hj & ->).
    destruct (lookup_lt_is_Some_2 seg j) as [x Hx]; [fold n; lia|].
    assert (seg.*2 !! j = Some x.2) as Hc by (by rewrite list_lookup_fmap, Hx).
    pose proof (sumZ_take_S _ _ _ Hp Hc) as (HS & ? & ? & ?).
    destruct (Z.ltb_spec (sumZ (take j seg.*2)) ((sumZ seg.*2 + 1) / 2)) as [Hlt|Hge].
    + assert (j ≠ h) by (intros ->; dlia).
      destruct (Z.ltb_spec (first + Z.of_nat j) last); [|lia]. cbn [andb].
      pose proof (interval_get _ _ _ _ _ _ Hseg Hx) as Hb.
      destruct (like_get base sym (first + Z.of_nat j) _ Hlike ltac:(lia) Hb) as (e & -> & _ & <-).
      cbn [mbind outcome_bind yields snd] in *. rewrite !wrapu_small by lia.
      split; [|lia]. exists (S j). split_and!; lia.
    + cbn [andb yields]. exists (take j seg), (drop j seg). rewrite take_drop, !fmap_take, !fmap_drop, length_take.
      pose proof (take_drop j seg.*2) as Htd. apply (f_equal sumZ) in Htd. rewrite sumZ_app in Htd.
      assert (1 ≤ sumZ seg.*2) as Hs1.
      { destruct seg as [|[s c] r]; [simpl in *; lia|]. pose proof (interval_used _ _ _ _ Hseg) as Hu.
        apply Forall_cons in Hu as [Hc1 _]. simpl in *. apply Forall_cons in Hp as [_ Hp].
        pose proof (sumZ_nonneg _ Hp). lia. }
      split_and!; [done | lia | done | | | lia | dlia].
      * intros E. apply (f_equal length) in E. rewrite length_take in E. simpl in E.
        assert (j = 0)%nat as -> by lia. simpl in Hge. dlia.
      * intros E. apply (f_equal length) in E. rewrite length_drop in E. simpl in E. lia.
Qed.

(** ** Making the tree *)

Fixpoint sf_bits (t : tree) : list bool :=
  match t with
  | Leaf s => true :: to_bits 8 s
  | Node a b => false :: true :: sf_bits a ++ true :: sf_bits b
  end.

Lemma length_sf_bits t : Z.of_nat (length (sf_bits t)) = 12 * Z.of_nat (length (leaves t)) - 3.
Proof. induction t as [s|a IHa b IHb]; simpl; [done|]. rewrite !length_app. simpl. lia. Qed.

(** Symbols that are bytes, each once. *)
Definition byte_table (base : list (Z * Z)) : Prop := NoDup base.*1 ∧ Forall (λ s : Z, in_u8 s) base.*1.

Lemma interval_symbols base first last seg :
  byte_table base → interval base first last seg → NoDup seg.*1 ∧ Forall (λ s : Z, in_u8 s) seg.*1.
Proof.
  intros [Hnd Hb] [(p & r & -> & _) _ _ _]. rewrite !fmap_app in Hnd, Hb.
  apply NoDup_app in Hnd as (_ & _ & Hnd). apply NoDup_app in Hnd as (Hnd & _).
  apply Forall_app in Hb as [_ Hb]. apply Forall_app in Hb as [Hb _]. done.
Qed.

(** [sf_made base seg A B p w cap]: what [_SF_MakeTree] leaves for the interval [seg] *)
Definition sf_made (base seg : list (Z * Z)) (n : nat) (p w : list bool) (cap : Z) (sym : list sym_t)
    (r : list sym_t * writer) : Prop :=
  ∃ t, leaves t = seg.*1 ∧ (depth t ≤ n)%nat ∧ wrote_bits r.2 (w ++ sf_bits t) cap ∧ like base r.1 ∧
    (∀ s q, (s, q) ∈ codes t → entry r.1 s (p ++ q)) ∧ entries_kept t sym r.1.

(** The codes and entries of a node's branches together. *)
Lemma node_entries a b p sym sym1 sym2 :
  NoDup (leaves (Node a b)) →
  (∀ s q, (s, q) ∈ codes a → entry sym1 s ((p ++ [false]) ++ q)) → entries_kept a sym sym1 →
  (∀ s q, (s, q) ∈ codes b → entry sym2 s ((p ++ [true]) ++ q)) → entries_kept b sym1 sym2 →
  (∀ s q, (s, q) ∈ codes (Node a b) → entry sym2 s (p ++ q)) ∧ entries_kept (Node a b) sym sym2.
Proof.
  intros Hnd Hca Hka Hcb Hkb. apply NoDup_app in Hnd as (_ & Hab & _). split.
  - intros s q Hq. apply elem_of_app in Hq as [Hq|Hq]; apply list_elem_of_fmap in Hq as ([s' q'] & [= -> ->] & Hq).
    + apply Hkb; [|apply Hca in Hq; by rewrite <- app_assoc in Hq].
      apply Hab. rewrite <- codes_leaves. by apply (list_elem_of_fmap_2 fst _ (s', q')).
    + apply Hcb in Hq. by rewrite <- app_assoc in Hq.
  - intros s Hs q Hq. cbn [leaves] in Hs. rewrite elem_of_app in Hs. apply Hkb; [tauto|]. apply Hka; [tauto | done].
Qed.

Lemma sf_leaf_spec base fuel i x p sym o w cap :
  byte_table base → like base sym → 0 ≤ i → base !! Z.to_nat i = Some x →
  wrote_bits o w cap → Z.of_nat (length w) + 9 ≤ 8 * cap →
  yields (_SF_MakeTree (S fuel) sym o (bits_val p) (Z.of_nat (length p)) i i) (sf_made base [x] 0 p w cap sym).
Proof.
  intros [Hnd Hb8] Hlike Hi Hx Ho Hcap. cbn [_SF_MakeTree]. rewrite Z.eqb_refl.
  destruct (like_set_code base sym i x p Hlike Hnd Hi Hx) as (e & sym' & -> & He & Hset & Hlike' & Hent & Hkeep).
  apply yields_bind. eapply yields_mono; [apply (write_bits_spec o w cap 1 1 Ho); lia|]. intros o1 Ho1. cbn [mbind outcome_bind].
  assert (in_u8 (Symbol e)) as He8.
  { apply (Forall_lookup_1 _ _ (Z.to_nat i) (Symbol e) Hb8). by rewrite list_lookup_fmap, Hx, <- He. }
  apply yields_bind. eapply yields_mono; [apply (write_bits_spec o1 _ cap (Symbol e) 8 Ho1); [lia | lia | room]|].
  intros o2 Ho2. rewrite Hset. cbn [mbind outcome_bind yields]. exists (Leaf x.1). simpl.
  split_and!; [done | lia | | done | | done].
  - rewrite <- app_assoc, <- He in *. exact Ho2.
  - intros s q Hq. apply list_elem_of_singleton in Hq as [= -> ->]. by rewrite app_nil_r.
Qed.

(** The induction hypothesis for the branches, and a node. *)
Definition sf_makes (base : list (Z * Z)) (cap : Z) (fuel : nat) : Prop := ∀ A B first last seg p sym o w,
  interval base first last seg → 0 ≤ first → last < 256 → seg ≠ [] →
  Z.of_nat (length seg) ≤ 2 ^ Z.of_nat A → sumZ seg.*2 < 2 ^ (Z.of_nat B + 1) → sumZ seg.*2 < 2 ^ 31 →
  (length p + (A + B) ≤ 32)%nat → (A + B < fuel)%nat → like base sym → wrote_bits o w cap →
  Z.of_nat (length w) + (12 * Z.of_nat (length seg) - 3) ≤ 8 * cap →
  yields (_SF_MakeTree fuel sym o (bits_val p) (Z.of_nat (length p)) first last)
    (sf_made base seg (A + B) p w cap sym).

Lemma used_sum_pos seg : Forall (λ x : Z * Z, 1 ≤ x.2) seg → Z.of_nat (length seg) ≤ sumZ seg.*2.
Proof. induction 1 as [|x l Hx _ IH]; csimpl; lia. Qed.

Lemma sf_node_spec base cap fuel A B first last seg p sym o w :
  byte_table base → sf_makes base cap fuel →
  interval base first last seg → 0 ≤ first → last < 256 → (2 ≤ length seg)%nat →
  Z.of_nat (length seg) ≤ 2 ^ Z.of_nat A → sumZ seg.*2 < 2 ^ (Z.of_nat B + 1) → sumZ seg.*2 < 2 ^ 31 →
  (length p + (A + B) ≤ 32)%nat → (A + B < S fuel)%nat → like base sym → wrote_bits o w cap →
  Z.of_nat (length w) + (12 * Z.of_nat (length seg) - 3) ≤ 8 * cap →
  yields (_SF_MakeTree (S fuel) sym o (bits_val p) (Z.of_nat (length p)) first last)
    (sf_made base seg (A + B) p w cap sym).
Proof.
  intros Hbase IH Hseg H0 Hlast Hlen HA HB H31 Hbits Hfuel Hlike Ho Hcap.
  pose proof (interval_last _ _ _ _ Hseg) as Hl. pose proof (used_sum_pos _ (interval_used _ _ _ _ Hseg)) as Hpos.
  destruct A as [|A]; [simpl in HA; lia|]. destruct B as [|B]; [simpl in HB; lia|].
  assert (2 ^ Z.of_nat (S A) = 2 * 2 ^ Z.of_nat A) as HpA by (by rewrite Nat2Z.inj_succ, Z.pow_succ_r by lia).
  assert (2 ^ (Z.of_nat (S B) + 1) = 2 * 2 ^ (Z.of_nat B + 1)) as HpB.
  { rewrite <- Z.pow_succ_r by lia. f_equal. lia. }
  cbn [_SF_MakeTree]. destruct (Z.eqb_spec first last); [lia|].
  apply yields_bind. eapply yields_mono; [apply (write_bits_spec o w cap 0 1 Ho); lia|]. intros o1 Ho1.
  apply yields_bind. eapply yields_mono; [apply (sf_size_spec base sym first last seg); [done | done | lia | lia]|]. intros size ->.
  apply yields_bind. eapply yields_mono; [apply (sf_cut_spec base sym first last seg); done|].
  intros [k size_a] (a & b & -> & -> & -> & Ha & Hb & Hhalf & Hsb).
  pose proof (interval_cut _ _ _ _ _ Hseg) as [Hia Hib].
  pose proof (used_sum_pos _ (interval_used _ _ _ _ Hia)). pose proof (used_sum_pos _ (interval_used _ _ _ _ Hib)).
  rewrite fmap_app, sumZ_app, length_app in *.
  assert (1 ≤ length a)%nat by (destruct a; [done | simpl; lia]). assert (1 ≤ length b)%nat by (destruct b; [done | simpl; lia]).
  destruct (Z.ltb_spec 0 (sumZ a.*2)); [|lia]. rewrite (wrapu_small 32 (_ - 1)) by lia.
  rewrite (wrapu_small 32 (_ - _)) by lia. destruct (Z.ltb_spec 0 (sumZ a.*2 + sumZ b.*2 - sumZ a.*2)); [|lia].
  destruct (code_step p false ltac:(lia)) as [Hc0 ->]. change (b2z false) with 0 in Hc0. rewrite Hc0.
  destruct (code_step p true ltac:(lia)) as [Hc1 _]. change (b2z true) with 1 in Hc1. rewrite Hc1.
  apply yields_bind, yields_bind. eapply yields_mono; [apply (write_bits_spec o1 _ cap 1 1 Ho1); [lia | lia | room]|]. intros o2 Ho2.
  eapply yields_mono.
  { eapply (IH A (S B) first _ a (p ++ [false]) sym o2 _ Hia); [lia | lia | done | lia | lia | lia | room | lia | done | exact Ho2 | room]. }
  intros [sym1 o3] (ta & Hla & Hda & Ho3 & Hlike1 & Hca & Hka). cbn [fst snd] in *.
  apply yields_bind. eapply yields_mono; [apply (write_bits_spec o3 _ cap 1 1 Ho3); [lia | lia |]|].
  { pose proof (length_sf_bits ta) as Hba. rewrite Hla, length_fmap in Hba. rewrite !length_app. simpl. lia. }
  intros o4 Ho4. replace (length (p ++ [false])) with (length (p ++ [true])) by (rewrite !length_app; done).
  eapply yields_mono.
  { eapply (IH (S A) B _ last b (p ++ [true]) sym1 o4 _ Hib); [lia | lia | done | lia | lia | lia | room | lia | done | exact Ho4 |].
    pose proof (length_sf_bits ta) as Hba. rewrite Hla, length_fmap in Hba. rewrite !length_app. simpl. lia. }
  intros [sym2 o5] (tb & Hlb & Hdb & Ho5 & Hlike2 & Hcb & Hkb). cbn [fst snd] in *.
  exists (Node ta tb). destruct (interval_symbols _ _ _ _ Hbase Hseg) as [Hnd _].
  assert (leaves (Node ta tb) = (a ++ b).*1) as Hlv by (simpl; by rewrite fmap_app, Hla, Hlb).
  destruct (node_entries ta tb p sym sym1 sym2) as [Hcab Hkab]; [by rewrite Hlv | done..|].
  split_and!; [done | simpl; lia | | done..].
  rewrite <- !app_assoc in Ho5. simpl in Ho5. exact Ho5.
Qed.

Lemma sf_make_spec base cap fuel : byte_table base → sf_makes base cap fuel.
Proof.
  intros Hbase. induction fuel as [|fuel IH]; intros A B first last seg p sym o w Hseg H0 Hlast Hne HA HB H31 Hbits Hfuel Hlike Ho Hcap; [lia|].
  pose proof (interval_last _ _ _ _ Hseg) as Hl.
  destruct (decide (length seg = 1%nat)) as [H1|H1].
  { destruct seg as [|x [|]]; try done. replace last with first by (simpl in Hl; lia).
    eapply yields_mono; [apply (sf_leaf_spec base fuel first x p sym o w cap); try done|].
    - pose proof (interval_get _ _ _ _ 0 x Hseg eq_refl) as Hx. by rewrite Z.add_0_r in Hx.
    - intros r (t & Hlv & Hd & ?). exists t. split_and!; [done | lia | tauto..]. }
  assert (2 ≤ length seg)%nat as Hlen by (destruct seg as [|? [|]]; simpl in *; [done | done | lia]).
  by apply sf_node_spec.
Qed.

(** ** Recovering the tree *)

Lemma sf_recover_spec inb t fuel nodes s num l :
  reads inb s (sf_bits t ++ l) → l ≠ [] → bytes_tree t → (depth t < fuel)%nat →
  0 ≤ num → num + size t ≤ Z.of_nat (length nodes) → Z.of_nat (length nodes) < 2 ^ 31 →
  yields (_SF_RecoverTree fuel inb (nodes, s, num)) (λ '(root, (nodes', s', num')),
    root = num ∧ num' = num + size t ∧ reads inb s' l ∧ grown nodes nodes' num ∧ tree_at nodes' num num' t).
Proof.
  revert fuel nodes s num l. induction t as [sy|a IHa b IHb]; intros fuel nodes s num l Hr Hl Hbytes Hfuel Hnum Hroom Hmax;
    (destruct fuel as [|fuel]; [simpl in *; lia|]); cbn [_SF_RecoverTree sf_bits size leaves depth app] in *.
  - destruct (new_node_spec nodes num) as (n0 & -> & Hn0 & Hg0 & Hk0); [lia|]. cbn [mbind outcome_bind].
    rewrite wrapu_small by lia. apply Forall_cons in Hbytes as [Hsy _].
    apply yields_bind. eapply yields_mono; [by apply read_bit_spec|]. intros [x s1] [-> Hr1]. cbn [b2z testz].
    apply yields_bind. eapply yields_mono; [by apply read8_spec|]. intros [x s2] (Hx & Hu8 & Hr2).
    destruct (node_update_spec n0 num (set_dec_Symbol (i32 x))) as (n1 & e & He & -> & Hn1 & Hg1 & Hk1); [lia|].
    cbn [mbind outcome_bind yields]. split_and!; [done..| |].
    + split; [congruence|]. intros k Hk. rewrite Hk1 by lia. by apply Hk0.
    + intros s' q Hq. apply list_elem_of_singleton in Hq as [= -> ->].
      rewrite wraps_small in Hn1 by (change (32 - 1) with 31; lia).
      eapply dec_leaf; [lia | exact Hn1 | simpl; lia | done].
  - pose proof (size_pos a). pose proof (size_pos b). apply Forall_app in Hbytes as [Hba Hbb].
    destruct (new_node_spec nodes num) as (n0 & -> & Hn0 & Hg0 & Hk0); [lia|]. cbn [mbind outcome_bind].
    rewrite wrapu_small by lia.
    apply yields_bind. eapply yields_mono; [by apply read_bit_spec|]. intros [x s1] [-> Hr1]. cbn [b2z testz].
    apply yields_bind. eapply yields_mono; [by apply read_bit_spec|]. intros [x s2] [-> Hr2]. cbn [b2z testz].
    rewrite <- app_assoc in Hr2. apply yields_bind, yields_bind. eapply yields_mono.
    { apply (IHa fuel n0 s2 (num + 1) _ Hr2); [done | done | lia..]. }
    intros [ra [[n1 s3] num1]] (-> & -> & Hr3 & [Hl1 Hk1] & Ha).
    destruct (node_update_spec n1 num (set_dec_ChildA (num + 1))) as (n2 & e & He & -> & Hn2 & Hl2 & Hk2); [lia|].
    rewrite Hk1, Hn0 in He by lia. injection He as <-. cbn [mbind outcome_bind yields].
    apply yields_bind. eapply yields_mono; [by apply read_bit_spec|]. intros [x s4] [-> Hr4]. cbn [b2z testz].
    apply yields_bind, yields_bind. eapply yields_mono.
    { apply (IHb fuel n2 s4 _ _ Hr4 Hl Hbb); lia. }
    intros [rb [[n3 s5] num2]] (-> & -> & Hr5 & [Hl3 Hk3] & Hb).
    destruct (node_update_spec n3 num (set_dec_ChildB (num + 1 + size a))) as (n4 & e & He & -> & Hn4 & Hl4 & Hk4); [lia|].
    rewrite Hk3, Hn2 in He by lia. injection He as <-. cbn [mbind outcome_bind yields].
    split_and!; [done | lia | done | split; [congruence|] |].
    + intros k Hk. rewrite Hk4, Hk3, Hk2, Hk1 by lia. by apply Hk0.
    + apply (tree_at_node _ _ (num + 1 + size a)); [exact Hn4 | lia..| |].
      * eapply tree_at_frame; [|exact Ha]. intros k Hk. rewrite Hk4, Hk3, Hk2 by lia. done.
      * eapply tree_at_frame; [|exact Hb]. intros k Hk. rewrite Hk4 by lia. done.
Qed.

(** ** One symbol *)

(** The header [hdr] makes the decoder find the codes [f] of the data. *)
Definition sf_recovers (data : list Z) (hdr : list bool) (f : Z → list bool) : Prop :=
  ∀ inb rest, reads inb (_SF_InitBitstream 0) (hdr ++ rest) → rest ≠ [] →
  yields (_SF_RecoverTree (S MAX_TREE_NODES) inb
            (replicate MAX_TREE_NODES (DecNode None None 0), _SF_InitBitstream 0, 0))
    (λ '(root, (nodes, s, num)), reads inb s rest ∧ ∀ x, x ∈ data → dec_path nodes 0 num root (f x) x).

Lemma sf_tree_recovers data t :
  bytes_tree t → NoDup (leaves t) → (depth t ≤ 32)%nat → (length (leaves t) ≤ 256)%nat →
  Forall (λ x, x ∈ leaves t) data → sf_recovers data (sf_bits t) (code_of t).
Proof.
  intros Hb Hnd Hdep Hll Hdata inb rest Hr Hne. pose proof (size_leaves t).
  eapply yields_mono; [apply (sf_recover_spec _ t _ _ _ _ rest Hr Hne Hb); rewrite ?length_replicate; unfold MAX_TREE_NODES; lia|].
  intros [root [[nodes s] num]] (-> & -> & Hr' & _ & Hat). split; [done|]. intros x Hx.
  rewrite Forall_forall in Hdata. apply Hat, code_of_leaf; auto.
Qed.

(** A single symbol: a root with only branch A. *)
Definition sf_bits_single (x : Z) : list bool := false :: true :: sf_bits (Leaf x) ++ [false].

Lemma sf_single_recover_spec fuel nodes inb s x rest :
  in_u8 x → length nodes = MAX_TREE_NODES → reads inb s (sf_bits_single x ++ rest) →
  yields (_SF_RecoverTree (S (S fuel)) inb (nodes, s, 0)) (λ '(root, (nodes', s', num)),
    reads inb s' rest ∧ dec_path nodes' 0 num root [false] x).
Proof.
  intros Hx Hl Hr. unfold sf_bits_single in Hr. cbn [app] in Hr. rewrite <- app_assoc in Hr.
  unfold MAX_TREE_NODES in Hl. pose proof (sf_recover_spec inb (Leaf x) (S fuel)) as Hrec.
  remember (S fuel) as fuel' eqn:E. assert (0 < fuel')%nat as Hf by lia. clear E. cbn [_SF_RecoverTree].
  destruct (new_node_spec nodes 0) as (n0 & -> & Hn0 & Hg0 & Hk0); [lia|]. cbn [mbind outcome_bind].
  rewrite wrapu_small by lia.
  apply yields_bind. eapply yields_mono; [by apply read_bit_spec|]. intros [b s1] [-> Hr1]. cbn [b2z testz].
  apply yields_bind. eapply yields_mono; [by apply read_bit_spec|]. intros [b s2] [-> Hr2]. cbn [b2z testz].
  apply yields_bind, yields_bind. eapply yields_mono.
  { apply (Hrec n0 s2 (0 + 1) _ Hr2); [done | by constructor | simpl; lia..]. }
  intros [ra [[n1 s3] num1]] (-> & -> & Hr3 & [Hl1 Hk1] & Ha).
  destruct (node_update_spec n1 0 (set_dec_ChildA (0 + 1))) as (n2 & e & He & -> & Hn2 & Hl2 & Hk2); [lia|].
  rewrite Hk1, Hn0 in He by lia. injection He as <-. cbn [mbind outcome_bind yields].
  apply yields_bind. eapply yields_mono; [by apply read_bit_spec|]. intros [b s4] [-> Hr4]. cbn [b2z testz mbind outcome_bind yields].
  split; [done|]. eapply dec_node; [simpl; lia | exact Hn2 | done | done |].
  eapply (dec_path_frame n1 n2 1 2); [|lia | simpl; lia | apply (Ha x []); left]. intros k Hk. apply Hk2; lia.
Qed.

Lemma sf_single_recovers data x :
  in_u8 x → Forall (λ y, y = x) data → sf_recovers data (sf_bits_single x) (λ _, [false]).
Proof.
  intros Hx Hdata inb rest Hr Hne.
  eapply yields_mono; [apply (sf_single_recover_spec 510 _ inb _ x rest Hx); [apply length_replicate | exact Hr]|].
  intros [root [[nodes s] num]] [Hr' Hp]. split; [done|]. intros y Hy. rewrite Forall_forall in Hdata. by rewrite (Hdata y Hy).
Qed.

Lemma sf_single_spec fuel base x c y r sym o cap :
  base = (x, c) :: (y, 0) :: r → byte_table base → 1 ≤ c < 2 ^ 31 → like base sym →
  wrote_bits o [] cap → 12 ≤ 8 * cap →
  yields (_SF_MakeTree (S (S fuel)) sym o 0 0 0 1) (λ '(sym', o'),
    wrote_bits o' (sf_bits_single x) cap ∧ like base sym' ∧ entry sym' x [false]).
Proof.
  intros Hb Hbase Hc Hlike Ho Hcap.
  destruct (like_get base sym 0 (x, c) Hlike ltac:(lia)) as (e0 & He0 & _ & [= Hs0 Hc0]); [by rewrite Hb|].
  destruct (like_get base sym 1 (y, 0) Hlike ltac:(lia)) as (e1 & He1 & _ & [= Hs1 Hc1]); [by rewrite Hb|].
  assert (sf_size sym 0 1 = Ok c) as Hsize.
  { unfold sf_size. change (Z.to_nat (1 - 0 + 1)) with 2%nat. cbn [for_up]. rewrite He0. cbn [mbind outcome_bind].
    change (0 + 1) with 1. rewrite He1. cbn [mbind outcome_bind]. rewrite Hc0, Hc1, !wrapu_small by (rewrite ?wrapu_small; lia). f_equal. lia. }
  assert (yields (sf_cut sym 0 1 c) (λ r, r = (1, c))) as Hcut.
  { unfold sf_cut. rewrite wrapu_small, Z.shiftr_div_pow2 by lia. change (2 ^ 1) with 2.
    apply (iter_inv (λ v, v = (0, 0) ∨ v = (1, c)) (λ v, Z.to_nat (1 - v.1))); [by left | simpl; lia |].
    intros v [-> | ->].
    - destruct (Z.ltb_spec 0 ((c + 1) / 2)); [|dlia]. cbn [andb]. change (0 <? 1) with true. cbn iota.
      rewrite He0. cbn [mbind outcome_bind yields]. rewrite Hc0. change (u32 (0 + 1)) with 1.
      rewrite Z.add_0_l, wrapu_small by lia. split; [by right | simpl; lia].
    - change (1 <? 1) with false. rewrite andb_false_r. done. }
  pose proof (sf_leaf_spec base fuel 0 (x, c) [false] sym) as Hleaf.
  remember (S fuel) as fuel' eqn:E. clear E. cbn [_SF_MakeTree]. change (0 =? 1) with false. cbn iota.
  apply yields_bind. eapply yields_mono; [apply (write_bits_spec o [] cap 0 1 Ho); simpl; lia|]. intros o1 Ho1.
  rewrite Hsize. cbn [mbind outcome_bind]. apply yields_bind. eapply yields_mono; [exact Hcut|]. intros v ->.
  destruct (Z.ltb_spec 0 c); [|lia]. rewrite Z.sub_diag. change (0 <? u32 0) with false. cbn iota.
  apply yields_bind, yields_bind. eapply yields_mono; [apply (write_bits_spec o1 _ cap 1 1 Ho1); [lia | lia | room]|]. intros o2 Ho2.
  change (u32 (1 - 1)) with 0. eapply yields_mono.
  { apply (Hleaf o2 _ cap Hbase Hlike ltac:(lia) ltac:(by rewrite Hb) Ho2). room. }
  intros [sym1 o3] (t & Hlv & Hd & Ho3 & Hlike1 & Hent & _). cbn [fst snd] in *.
  destruct t as [x'|]; [|simpl in Hd; lia]. simpl in Hlv. injection Hlv as ->.
  apply yields_bind. eapply yields_mono; [apply (write_bits_spec o3 _ cap 0 1 Ho3); [lia | lia | room]|]. intros o4 Ho4.
  cbn [yields]. split_and!; [exact Ho4 | done | apply (Hent x []); left].
Qed.

(** ** The sorted histogram *)

Lemma by_count_asym a b : by_count a b = true → by_count b a = false.
Proof. unfold by_count. rewrite Z.ltb_lt, Z.ltb_ge. lia. Qed.

Lemma ordered_noninc sym : length sym = 256%nat → ordered_upto by_count 255 sym → noninc (Count <$> sym).
Proof.
  intros Hl Hord. apply Sorted_StronglySorted; [intros x y z ? ?; lia|].
  assert (∀ i x y, (Count <$> sym) !! i = Some x → (Count <$> sym) !! S i = Some y → y ≤ x) as Hn.
  { intros i x y Hx Hy. rewrite list_lookup_fmap in Hx, Hy. apply fmap_Some in Hx as (a & Ha & ->), Hy as (b & Hb & ->).
    pose proof (lookup_lt_Some _ _ _ Hb). specialize (Hord (Z.of_nat i) ltac:(lia)).
    replace (Z.to_nat (Z.of_nat i + 1)) with (S i) in Hord by lia. rewrite Nat2Z.id in Hord.
    rewrite (list_lookup_total_correct _ _ _ Ha), (list_lookup_total_correct _ _ _ Hb) in Hord.
    unfold by_count in Hord. apply Z.ltb_ge in Hord. lia. }
  revert Hn. generalize (Count <$> sym). intros l. induction l as [|x l IH]; intros Hn; constructor.
  - apply IH. intros i a b Ha Hb. by apply (Hn (S i)).
  - destruct l as [|y l]; constructor. by apply (Hn O).
Qed.

Section Coder.
Context (data : list Z) (Hdata : byte_list data) (Hlen : 1 ≤ Z.of_nat (length data) < 2 ^ 25).

(** The sorted table: every byte once, with its count, most frequent first. *)
Record sf_table (sym : list sym_t) : Prop := {
  sf_table_symbols : Symbol <$> sym ≡ₚ seqZ 0 256;
  sf_table_count e : e ∈ sym → Count e = occ (Symbol e) data;
  sf_table_sorted : noninc (Count <$> sym);
}.

Lemma sf_hist_spec sym : length sym = 256%nat → yields (_SF_Hist data sym (Z.of_nat (length data))) sf_table.
Proof.
  intros Hsl. unfold _SF_Hist. apply yields_bind. eapply yields_mono; [apply hist_spec; [done | lia | done]|].
  intros sym0 Hsym. pose proof (sym_counts_symbols _ _ Hsym) as Hsy. destruct Hsym as [Hl Hs].
  eapply yields_mono; [apply bubble_sort_spec; [apply by_count_asym | done]|].
  intros sym1 [Hp Hord]. split.
  - by rewrite Hp, Hsy.
  - intros e He. rewrite Hp in He. apply list_elem_of_lookup in He as [i Hi]. pose proof (lookup_lt_Some _ _ _ Hi).
    specialize (Hs (Z.of_nat i) ltac:(lia)). rewrite Nat2Z.id, Hi in Hs. by injection Hs as ->.
  - apply ordered_noninc; [by rewrite Hp | done].
Qed.

Lemma sumZ_seq f n : sumZ (f <$> seqZ 0 (Z.of_nat n)) = total n f.
Proof.
  induction n as [|n IH]; [done|]. replace (Z.of_nat (S n)) with (Z.of_nat n + 1) by lia.
  rewrite seqZ_app by lia. rewrite fmap_app, sumZ_app, IH. rewrite (seqZ_cons _ 1) by lia. simpl. rewrite Z.add_0_l. lia.
Qed.

Lemma sf_table_sum sym : sf_table sym → sumZ (Count <$> sym) = Z.of_nat (length data).
Proof.
  intros [Hs Hc _]. rewrite <- (total_occ data Hdata), <- sumZ_seq. change (Z.of_nat 256) with 256.
  rewrite <- (sumZ_perm _ _ (fmap_Permutation (λ b, occ b data) _ _ Hs)). f_equal.
  rewrite <- list_fmap_compose. apply list_fmap_ext. intros i e He. simpl. apply Hc. by eapply list_elem_of_lookup_2.
Qed.

Lemma sf_last_spec sym :
  sf_table sym →
  yields (sf_last_symbol sym) (λ l, ∃ n, 0 ≤ n < 256 ∧ l = (if n =? 0 then 1 else n) ∧
    (∀ i e, sym !! i = Some e → (1 ≤ Count e ↔ Z.of_nat i ≤ n))).
Proof.
  intros Ht. pose proof (sf_table_sum _ Ht) as Hsum. destruct Ht as [Hs Hc Hso].
  assert (length sym = 256%nat) as Hl by (apply Permutation_length in Hs; by rewrite length_fmap in Hs).
  assert (∃ i0 e0, sym !! i0 = Some e0 ∧ Count e0 ≠ 0) as (i0 & e0 & Hi0 & He0).
  { destruct (decide (Forall (λ e, Count e = 0) sym)) as [Hz|Hz].
    - assert (sumZ (Count <$> sym) = 0); [|lia]. clear -Hz. induction Hz as [|e l He _ IH]; csimpl; lia.
    - apply not_Forall_Exists in Hz; [|intros ?; apply _]. apply Exists_exists in Hz as (e & He & Hne).
      apply list_elem_of_lookup in He as [i Hi]. eauto. }
  assert (∀ i e, sym !! i = Some e → 0 ≤ Count e) as Hpos.
  { intros i e He. rewrite (Hc e (list_elem_of_lookup_2 _ _ _ He)). apply occ_range. }
  unfold sf_last_symbol. apply yields_bind. eapply yields_mono.
  - apply (iter_inv (λ k, 0 ≤ k < 256 ∧ ∀ i e, sym !! i = Some e → k < Z.of_nat i → Count e = 0) (λ k, Z.to_nat k)
      (λ n, 0 ≤ n < 256 ∧ (∀ i e, sym !! i = Some e → (1 ≤ Count e ↔ Z.of_nat i ≤ n)))).
    + split; [lia|]. intros i e He Hi. apply lookup_lt_Some in He. lia.
    + lia.
    + intros k [Hk Hz]. destruct (arr_get_in_range sym k) as (e & -> & He); [lia|]. cbn [mbind outcome_bind].
      pose proof (lookup_lt_Some _ _ _ Hi0). case_cmp; cbn [yields].
      * assert (Z.of_nat i0 < k) as Hlt.
        { destruct (Z.lt_trichotomy (Z.of_nat i0) k) as [?|[Heq|Hgt]]; [done| |].
          - replace (Z.to_nat k) with i0 in He by lia. congruence.
          - by specialize (Hz _ _ Hi0 Hgt). }
        rewrite wrapu_small by lia. split; [split; [lia|]|lia]. intros i e' He' Hi.
        destruct (decide (Z.of_nat i = k)); [|apply (Hz i); [done | lia]].
        replace (Z.to_nat k) with i in He by lia. congruence.
      * split; [lia|]. intros i e' He'. split.
        -- intros H1. destruct (decide (Z.of_nat i ≤ k)); [done|]. rewrite (Hz i e' He') in H1; lia.
        -- intros Hi. pose proof (Hpos _ _ He). destruct (decide (Z.of_nat i = k)).
           { replace (Z.to_nat k) with i in He by lia. rewrite He' in He. injection He as ->. lia. }
           assert (Count e ≤ Count e'); [|lia].
           eapply (noninc_lookup _ i (Z.to_nat k)); [exact Hso | lia | by rewrite list_lookup_fmap, He' | by rewrite list_lookup_fmap, He].
  - intros n [Hn Hi]. cbn [yields]. exists n. split_and!; [lia | lia | | done]. case_cmp; lia.
Qed.

Abbreviation base_of sym := ((λ e, (Symbol e, Count e)) <$> (sym : list sym_t)).

Lemma base_of_fst sym : (base_of sym).*1 = Symbol <$> sym.
Proof. rewrite <- list_fmap_compose. by apply list_fmap_ext. Qed.

Lemma base_of_snd sym : (base_of sym).*2 = Count <$> sym.
Proof. rewrite <- list_fmap_compose. by apply list_fmap_ext. Qed.

Lemma sf_table_bytes sym : sf_table sym → byte_table (base_of sym).
Proof.
  intros [Hs _ _]. unfold byte_table. rewrite base_of_fst. split; rewrite Hs.
  - apply NoDup_seqZ.
  - apply Forall_forall. intros s. rewrite elem_of_seqZ. lia.
Qed.

(** The bytes of the data are among the used symbols. *)
Lemma sf_table_used sym n s :
  sf_table sym → (∀ i e, sym !! i = Some e → (1 ≤ Count e ↔ Z.of_nat i ≤ n)) → s ∈ data →
  ∃ i e, sym !! i = Some e ∧ Symbol e = s ∧ Z.of_nat i ≤ n.
Proof.
  intros [Hs Hc _] Hn Hin. pose proof (data_used data Hdata) as Hu. rewrite Forall_forall in Hu.
  apply Hu, elem_of_used in Hin as [Hs8 Hocc].
  assert (s ∈ Symbol <$> sym) as Hin by (rewrite Hs, elem_of_seqZ; lia).
  apply list_elem_of_fmap in Hin as (e & -> & He). pose proof (Hc e He).
  apply list_elem_of_lookup in He as [i Hi]. exists i, e. split_and!; [done..|]. apply (Hn i e Hi). lia.
Qed.

(** Their interval. *)
Lemma sf_seg_spec sym n (seg := take (Z.to_nat (n + 1)) (base_of sym)) :
  sf_table sym → 0 ≤ n < 256 → (∀ i e, sym !! i = Some e → (1 ≤ Count e ↔ Z.of_nat i ≤ n)) →
  interval (base_of sym) 0 n seg ∧ Z.of_nat (length seg) = n + 1 ∧ sumZ seg.*2 < 2 ^ 25 ∧ Forall (λ s, s ∈ seg.*1) data.
Proof.
  intros Ht Hn Hcnt. pose proof (sf_table_sum _ Ht) as Hsum. pose proof Ht as [Hs Hc Hso].
  assert (length sym = 256%nat) as Hl by (apply Permutation_length in Hs; by rewrite length_fmap in Hs).
  assert (Z.of_nat (length seg) = n + 1) as Hsl by (unfold seg; rewrite length_take, length_fmap; lia).
  split_and!; [|done| |].
  - split; [|lia| |].
    + exists [], (drop (Z.to_nat (n + 1)) (base_of sym)). unfold seg. by rewrite app_nil_l, take_drop.
    + unfold seg. rewrite fmap_take, base_of_snd. rewrite <- (take_drop (Z.to_nat (n + 1)) (Count <$> sym)) in Hso.
      by eapply StronglySorted_app_1_l.
    + apply Forall_lookup. intros i x Hx. pose proof (lookup_lt_Some _ _ _ Hx).
      unfold seg in Hx. rewrite lookup_take_lt, list_lookup_fmap in Hx by lia.
      apply fmap_Some in Hx as (e & He & ->). apply (Hcnt i e He). lia.
  - unfold seg. rewrite fmap_take, base_of_snd.
    pose proof (sumZ_take_mono (Count <$> sym) (Z.to_nat (n + 1)) (length (Count <$> sym))) as Hm. rewrite firstn_all, length_fmap in Hm.
    specialize (Hm ltac:(apply Forall_fmap, Forall_forall; intros e He; simpl; rewrite (Hc e He); apply occ_range) ltac:(lia)). lia.
  - apply Forall_forall. intros s Hin. destruct (sf_table_used _ _ _ Ht Hcnt Hin) as (i & e & Hi & <- & Hin').
    apply list_elem_of_fmap. exists (Symbol e, Count e). split; [done|]. apply (list_elem_of_lookup_2 _ i).
    unfold seg. rewrite lookup_take_lt by lia. by rewrite list_lookup_fmap, Hi.
Qed.

(** The tree, its header and its codes. *)
Definition sf_coded (cap : Z) (r : list sym_t * writer) : Prop := ∃ hdr f,
  wrote_bits r.2 hdr cap ∧ Z.of_nat (length hdr) ≤ 3072 ∧ sf_recovers data hdr f ∧
  Symbol <$> r.1 ≡ₚ seqZ 0 256 ∧ ∀ s, s ∈ data → entry r.1 s (f s) ∧ (1 ≤ length (f s) ≤ 32)%nat.

Lemma like_symbols sym sym' : sf_table sym → like (base_of sym) sym' → Symbol <$> sym' ≡ₚ seqZ 0 256.
Proof. intros [Hs _ _] Hl'. by rewrite <- base_of_fst, Hl', base_of_fst. Qed.

Lemma sf_one_symbol sym o cap :
  sf_table sym → (∀ i e, sym !! i = Some e → (1 ≤ Count e ↔ Z.of_nat i ≤ 0)) →
  wrote_bits o [] cap → 384 ≤ cap → yields (_SF_MakeTree 257 sym o 0 0 0 1) (sf_coded cap).
Proof.
  intros Ht Hcnt Ho Hcap. pose proof (sf_table_bytes _ Ht) as Hbase. pose proof Ht as [Hs Hc _].
  pose proof (Permutation_length Hs) as Hl. rewrite length_fmap in Hl. change (length (seqZ 0 256)) with 256%nat in Hl.
  destruct sym as [|e0 [|e1 r]]; [done..|].
  pose proof (Hcnt 0%nat e0 eq_refl) as H0. pose proof (Hcnt 1%nat e1 eq_refl) as H1.
  pose proof (Hc e1 ltac:(right; left)) as Hc1. pose proof (occ_range (Symbol e1) data).
  pose proof (Hc e0 ltac:(left)). pose proof (occ_range (Symbol e0) data).
  eapply yields_mono.
  { apply (sf_single_spec 255 (base_of (e0 :: e1 :: r)) (Symbol e0) (Count e0) (Symbol e1) (base_of r)); try done; [|lia..].
    csimpl. do 2 f_equal. f_equal. lia. }
  intros [sym' o'] (Ho' & Hl' & Hent). exists (sf_bits_single (Symbol e0)), (λ _, [false]).
  assert (Forall (λ y, y = Symbol e0) data) as Hall.
  { apply Forall_forall. intros s Hin. destruct (sf_table_used _ _ _ Ht Hcnt Hin) as (i & e & Hi & <- & Hi0).
    replace i with 0%nat in Hi by lia. simpl in Hi. by injection Hi as ->. }
  split_and!; [done | simpl; lia | | by eapply like_symbols |].
  - apply sf_single_recovers; [|done]. destruct Hbase as [_ Hb8]. by apply Forall_cons in Hb8 as [? _].
  - intros s Hin. rewrite Forall_forall in Hall. rewrite (Hall s Hin). simpl. split; [done | lia].
Qed.

Lemma sf_many_symbols sym n o cap :
  sf_table sym → 1 ≤ n < 256 → (∀ i e, sym !! i = Some e → (1 ≤ Count e ↔ Z.of_nat i ≤ n)) →
  wrote_bits o [] cap → 384 ≤ cap → yields (_SF_MakeTree 257 sym o 0 0 0 n) (sf_coded cap).
Proof.
  intros Ht Hn Hcnt Ho Hcap. pose proof (sf_table_bytes _ Ht) as Hbase.
  destruct (sf_seg_spec sym n Ht ltac:(lia) Hcnt) as (Hint & Hsl & Hsum & Hin). set (seg := take _ _) in *.
  destruct (interval_symbols _ _ _ _ Hbase Hint) as [Hnd Hb8].
  eapply yields_mono.
  { apply (sf_make_spec (base_of sym) cap 257 Hbase 8%nat 24%nat 0 n seg [] sym o []); try done; simpl; try lia.
    intros E. rewrite E in Hsl. simpl in Hsl. lia. }
  intros [sym' o'] (t & Hlv & Hd & Ho' & Hl' & Hent & _). cbn [fst snd] in *. simpl app in *.
  rewrite <- Hlv in Hnd, Hb8, Hin. assert (length (leaves t) = length seg) as Hll by (by rewrite Hlv, length_fmap).
  exists (sf_bits t), (code_of t). pose proof (length_sf_bits t).
  split_and!; [done | lia | apply sf_tree_recovers; auto; lia | by eapply like_symbols |].
  intros s Hs. rewrite Forall_forall in Hin. pose proof (code_of_leaf t s Hnd (Hin s Hs)) as Hc. split; [by apply (Hent s)|].
  split; [|apply codes_depth in Hc; lia]. destruct t as [x|a b]; [simpl in Hll; lia|].
  apply elem_of_app in Hc as [Hc|Hc]; apply list_elem_of_fmap in Hc as ([s' q] & [= -> ->] & _); simpl; lia.
Qed.

Lemma sf_compress_spec out cap :
  byte_list out → Z.of_nat (length out) = cap → 4 * Z.of_nat (length data) + 384 ≤ cap →
  yields (SF_Compress data out (Z.of_nat (length data))) (λ '(n, out'), ∃ hdr f,
    0 < n ≤ 4 * Z.of_nat (length data) + 384 ∧ sf_recovers data hdr f ∧
    (∀ s, s ∈ data → (1 ≤ length (f s) ≤ 32)%nat) ∧
    reads (take (Z.to_nat n) out') (_SF_InitBitstream 0) (hdr ++ concat (f <$> data))).
Proof.
  intros Hout Hol Hcap. unfold SF_Compress. destruct (Z.ltb_spec (Z.of_nat (length data)) 1); [lia|].
  apply yields_bind. eapply yields_mono; [apply sf_hist_spec, length_replicate|]. intros sym Ht.
  apply yields_bind. eapply yields_mono; [by apply sf_last_spec|]. intros l (n & Hn & -> & Hcnt).
  assert (wrote_bits (out, _SF_InitBitstream 0) [] cap) as Ho.
  { split_and!; simpl; [split; simpl; lia | done | unfold pos; simpl; lia | done | done |]. intros i Hi. lia. }
  apply yields_bind, (yields_mono _ (sf_coded cap)).
  { case_cmp; [subst n; apply sf_one_symbol; auto; lia | apply sf_many_symbols; auto; lia]. }
  intros [sym1 o1] (hdr & f & Ho1 & Hhl & Hrec & Hsy & Hent). cbn [fst snd] in *.
  assert (∀ s, s ∈ data → (1 ≤ length (f s) ≤ 32)%nat) as Hfl by (intros s Hs; by apply Hent).
  assert (Z.of_nat (length (concat (f <$> data))) ≤ 32 * Z.of_nat (length data) ∧ 1 ≤ Z.of_nat (length (concat (f <$> data)))) as [Htot Htot1].
  { clear -Hfl Hlen. split.
    - clear Hlen. induction data as [|s d IH]; csimpl; [lia|]. rewrite length_app. specialize (IH ltac:(intros; apply Hfl; by right)).
      specialize (Hfl s ltac:(left)). lia.
    - destruct data as [|s d]; [simpl in *; lia|]. csimpl. rewrite length_app. specialize (Hfl s ltac:(left)). lia. }
  apply yields_bind. eapply yields_mono; [by apply sorted_table|]. intros sym2 Htab.
  apply yields_bind. eapply yields_mono.
  { apply (encode_spec data sym2 o1 hdr cap f); [|done|done|lia].
    intros s Hs. destruct (Hent s Hs) as [(e & He & <- & Hc & Hb) _]. exists e. auto. }
  intros o2 Ho2. pose proof Ho2 as (Hok & Hpos & _). pose proof (stream_bytes_pos _ Hok) as Hsb. cbn [yields].
  rewrite length_app in Hpos. rewrite total_bytes_spec by (done || lia).
  exists hdr, f. split_and!; [lia | lia | done | done | by apply wrote_reads in Ho2].
Qed.

End Coder.

(** C24: Shannon-Fano coding round-trips.  For data of less than 2^25 bytes, SF_Compress
    with an output buffer of four times the data and 384 bytes stays inside its
    buffers, no code is longer than 32 bits, and SF_Uncompress of what it wrote
    gives the data back. *)
Theorem sf_round_trip (data out out' : list Z) :
  byte_list data → 1 ≤ Z.of_nat (length data) < 2 ^ 25 →
  byte_list out → 4 * Z.of_nat (length data) + 384 ≤ Z.of_nat (length out) → length out' = length data →
  ∃ n c, SF_Compress data out (Z.of_nat (length data)) = Ok (n, c) ∧
    0 < n ≤ 4 * Z.of_nat (length data) + 384 ∧
    SF_Uncompress (take (Z.to_nat n) c) out' n (Z.of_nat (length data)) = Ok data.
Proof.
  intros Hdata Hlen Hout Hcap Hout'.
  destruct (SF_Compress data out (Z.of_nat (length data))) as [[n c]|] eqn:E;
    pose proof (sf_compress_spec data Hdata Hlen out _ Hout eq_refl Hcap) as Hc; rewrite E in Hc; [|done].
  destruct Hc as (hdr & f & Hn & Hrec & Hfl & Hr).
  exists n, c. split_and!; [done | lia | lia |]. unfold SF_Uncompress.
  destruct (Z.ltb_spec n 1); [lia|].
  assert (concat (f <$> data) ≠ []) as Hne.
  { destruct data as [|s d]; [simpl in *; lia|]. csimpl. specialize (Hfl s ltac:(left)). destruct (f s); [simpl in *; lia | done]. }
  specialize (Hrec _ _ Hr Hne). destruct _SF_RecoverTree as [[root [[nodes s] num]]|]; [|done].
  destruct Hrec as [Hr' Hp]. cbn [mbind outcome_bind].
  eapply (decode_spec nodes 0 num _ _ f _ _ _ []); [|by rewrite app_nil_r | done | lia].
  intros x Hx. split; [by apply Hp|]. specialize (Hfl x Hx). unfold MAX_TREE_NODES. lia.
Qed.

Lemma sf_round_trip_witness :
  ∃ n c, SF_Compress [7; 7; 9; 7; 200; 9; 7] (replicate 412 0) 7 = Ok (n, c) ∧ 0 < n ≤ 4 * 7 + 384 ∧
    SF_Uncompress (take (Z.to_nat n) c) (replicate 7 0) n 7 = Ok [7; 7; 9; 7; 200; 9; 7].
Proof.
  apply (sf_round_trip [7; 7; 9; 7; 200; 9; 7] (replicate 412 0) (replicate 7 0)).
  - repeat constructor; lia.
  - simpl. lia.
  - apply Forall_replicate. lia.
  - rewrite length_replicate. simpl. lia.
  - reflexivity.
Defined.

(** ** The documented buffer *)

(** Bytes 0 to 7 three times each, the others twice. *)
Definition sf_overflow_data : list Z :=
  concat ((λ s, replicate (if s <? 8 then 3 else 2) s) <$> seqZ 0 256).

(** The output buffer that shannonfano.c asks for, 384 bytes more than the
    input, is too small: on these 520 bytes SF_Compress writes past 904 bytes. *)
Theorem sf_compress_overflows :
  length sf_overflow_data = 520%nat ∧
  SF_Compress sf_overflow_data (replicate 904 0) 520 = Fault OutOfBounds.
Proof. split; vm_compute; reflexivity. Qed.
