(* ===== verification/Rice.v ===== *)
(** * libbcl/rice.c

    The Rice coder and decoder.  A stream is the number of bits read or written
    and the size of its buffer; the buffer is passed beside it.  The words are
    read and written with the byte order of the machine, which is big-endian.
    The history arrays are local variables without an initial value: their
    contents are an argument. *)

From S2P Require Import Prelude Bits Bcl BitStream.

Definition RICE_FMT_INT8 : Z := 1.
Definition RICE_FMT_UINT8 : Z := 2.
Definition RICE_FMT_INT16 : Z := 3.
Definition RICE_FMT_UINT16 : Z := 4.
Definition RICE_FMT_INT32 : Z := 7.
Definition RICE_FMT_UINT32 : Z := 8.

Definition RICE_HISTORY : Z := 16.
Definition RICE_THRESHOLD : Z := 8.

Record rice_bitstream_t := RiceStream {
  rice_BitPos : Z;
  rice_NumBytes : Z;
}.

Definition _Rice_InitBitstream (bytes : Z) : rice_bitstream_t := RiceStream 0 bytes.

(** The number of information bits in a word. *)
Definition _Rice_NumBits (x : Z) : outcome Z :=
  iter 33 (λ '(n, x),
    if negb (testz (Z.land x 0x80000000)) && (0 <? n) then Ok (inl (n - 1, u32 (Z.shiftl x 1)))
    else Ok (inr n)) (32, x).

(** ** Bits *)

Definition _Rice_ReadBit (inb : list Z) (s : rice_bitstream_t) : outcome (Z * rice_bitstream_t) :=
  let idx := Z.shiftr (rice_BitPos s) 3 in
  if idx <? rice_NumBytes s then
    let bit := 7 - Z.land (rice_BitPos s) 7 in
    b ← arr_get inb idx;
    Ok (Z.land (Z.shiftr b bit) 1, RiceStream (u32 (rice_BitPos s + 1)) (rice_NumBytes s))
  else Ok (0, s).

Abbreviation rice_writer := (list Z * rice_bitstream_t)%type.

Definition _Rice_WriteBit (o : rice_writer) (x : Z) : outcome rice_writer :=
  let '(out, s) := o in
  let idx := Z.shiftr (rice_BitPos s) 3 in
  if idx <? rice_NumBytes s then
    let bit := 7 - Z.land (rice_BitPos s) 7 in
    let mask := Z.lxor 0xff (Z.shiftl 1 bit) in
    let set := Z.shiftl (Z.land x 1) bit in
    b ← arr_get out idx;
    out ← arr_set out idx (u8 (Z.lor (Z.land b mask) set));
    Ok (out, RiceStream (u32 (rice_BitPos s + 1)) (rice_NumBytes s))
  else Ok o.

(** [for (j = n-1; j >= 0; --j) WriteBit((x >> j) & 1)] *)
Definition rice_write_low (n : nat) (x : Z) (o : rice_writer) : outcome rice_writer :=
  for_down n (λ j o, y ← shr32 x j; _Rice_WriteBit o (Z.land y 1)) o.

Definition rice_write_ones (n : nat) (o : rice_writer) : outcome rice_writer :=
  for_up n 0 (λ _ o, _Rice_WriteBit o 1) o.

Definition _Rice_EncodeWord (x k : Z) (o : rice_writer) : outcome rice_writer :=
  q ← shr32 x k;
  o ← (if RICE_THRESHOLD <? q then
         o ← rice_write_ones (Z.to_nat RICE_THRESHOLD) o;
         let q := u32 (q - RICE_THRESHOLD) in
         n ← _Rice_NumBits q;
         o ← rice_write_ones (Z.to_nat n) o;
         o ← _Rice_WriteBit o 0;
         rice_write_low (Z.to_nat (n - 1)) q o
       else
         o ← rice_write_ones (Z.to_nat q) o;
         _Rice_WriteBit o 0);
  rice_write_low (Z.to_nat k) x o.

(** [for (i = 0; i < n; ++i) x = (x << 1) | ReadBit()] *)
Definition rice_read_low (inb : list Z) (n : nat) (x : Z) (s : rice_bitstream_t) : outcome (Z * rice_bitstream_t) :=
  for_up n 0 (λ _ '(x, s),
    '(b, s) ← _Rice_ReadBit inb s;
    Ok (Z.lor (u32 (Z.shiftl x 1)) b, s)) (x, s).

(** The part of the word above [k] bits: a number of ones, and the overflow. *)
Definition rice_read_prefix (inb : list Z) (s : rice_bitstream_t) : outcome (Z * rice_bitstream_t) :=
  '(q, s) ← iter (S (8 * length inb)) (λ '(q, s),
    '(b, s) ← _Rice_ReadBit inb s;
    if testz b then Ok (inl (u32 (q + 1), s)) else Ok (inr (q, s))) (0, s);
  if RICE_THRESHOLD <? q then
    let o := i32 (q - RICE_THRESHOLD) in
    '(x, s) ← rice_read_low inb (Z.to_nat (o - 1)) 1 s;
    Ok (u32 (x + RICE_THRESHOLD), s)
  else Ok (q, s).

Definition _Rice_DecodeWord (inb : list Z) (k : Z) (s : rice_bitstream_t) : outcome (Z * rice_bitstream_t) :=
  '(x, s) ← rice_read_prefix inb s;
  rice_read_low inb (Z.to_nat k) x s.

(** ** Words *)

(** The value of [n] bytes from index [i] on, and writing them. *)
Fixpoint load_be (inb : list Z) (i : Z) (n : nat) (acc : Z) : outcome Z :=
  match n with
  | O => Ok acc
  | S n => b ← arr_get inb i; load_be inb (i + 1) n (256 * acc + b)
  end.

Fixpoint store_be (out : list Z) (i : Z) (n : nat) (x : Z) : outcome (list Z) :=
  match n with
  | O => Ok out
  | S n => out ← arr_set out i (u8 (Z.shiftr x (8 * Z.of_nat n))); store_be out (i + 1) n x
  end.

Definition _Rice_ReadWord (ptr : list Z) (idx format : Z) : outcome Z :=
  let signed (w : Z) (bytes : nat) :=
    v ← load_be ptr (Z.of_nat bytes * idx) bytes 0;
    let sx := wraps w v in
    Ok (u32 (if sx <? 0 then -1 - i32 (Z.shiftl sx 1) else i32 (Z.shiftl sx 1))) in
  let unsigned (bytes : nat) := load_be ptr (Z.of_nat bytes * idx) bytes 0 in
  if format =? RICE_FMT_INT8 then signed 8 1%nat
  else if format =? RICE_FMT_UINT8 then unsigned 1%nat
  else if format =? RICE_FMT_INT16 then signed 16 2%nat
  else if format =? RICE_FMT_UINT16 then unsigned 2%nat
  else if format =? RICE_FMT_INT32 then signed 32 4%nat
  else if format =? RICE_FMT_UINT32 then unsigned 4%nat
  else Ok 0.

Definition _Rice_WriteWord (ptr : list Z) (idx format x : Z) : outcome (list Z) :=
  let signed (bytes : nat) :=
    let sx := if testz (Z.land x 1) then - i32 (Z.shiftr (u32 (x + 1)) 1) else i32 (Z.shiftr x 1) in
    store_be ptr (Z.of_nat bytes * idx) bytes sx in
  let unsigned (bytes : nat) := store_be ptr (Z.of_nat bytes * idx) bytes x in
  if format =? RICE_FMT_INT8 then signed 1%nat
  else if format =? RICE_FMT_UINT8 then unsigned 1%nat
  else if format =? RICE_FMT_INT16 then signed 2%nat
  else if format =? RICE_FMT_UINT16 then unsigned 2%nat
  else if format =? RICE_FMT_INT32 then signed 4%nat
  else if format =? RICE_FMT_UINT32 then unsigned 4%nat
  else Ok ptr.

(** The word size in bits; [None]: not a format. *)
Definition rice_wordsize (format : Z) : option Z :=
  if (format =? RICE_FMT_INT8) || (format =? RICE_FMT_UINT8) then Some 8
  else if (format =? RICE_FMT_INT16) || (format =? RICE_FMT_UINT16) then Some 16
  else if (format =? RICE_FMT_INT32) || (format =? RICE_FMT_UINT32) then Some 32
  else None.

(** ** The coder *)

(** The initial [k] from the first words. *)
Definition rice_initial_k (inb : list Z) (incount format : Z) : outcome Z :=
  let i := Z.min RICE_HISTORY incount in
  k ← for_up (Z.to_nat i) 0 (λ i k,
    x ← _Rice_ReadWord inb i format;
    n ← _Rice_NumBits x;
    Ok (u32 (k + n))) 0;
  let k := u32 (k + Z.shiftr i 1) / i in
  Ok (if k =? 0 then 1 else k).

(** The revised [k] from the history. *)
Definition rice_revise_k (i k : Z) (hist : list Z) : outcome Z :=
  if RICE_HISTORY <=? i then
    k ← for_up (Z.to_nat RICE_HISTORY) 0 (λ j k, h ← arr_get hist j; Ok (u32 (k + h))) 0;
    Ok (u32 (k + Z.shiftr RICE_HISTORY 1) / RICE_HISTORY)
  else Ok k.

Definition Rice_Compress (hist inb out : list Z) (insize format : Z) : outcome (Z * list Z) :=
  match rice_wordsize format with
  | None => Ok (0, out)
  | Some wordsize =>
      let incount := insize / Z.shiftr wordsize 3 in
      if incount =? 0 then Ok (0, out)
      else
        let stream := _Rice_InitBitstream (u32 (insize + 1)) in
        k ← rice_initial_k inb incount format;
        out ← arr_set out 0 (u8 k);
        '(i, o) ← iter (S (Z.to_nat incount)) (λ '(i, k, hist, (out, s)),
          if (i <? incount) && (Z.shiftr (rice_BitPos s) 3 <=? insize) then
            k ← rice_revise_k i k hist;
            x ← _Rice_ReadWord inb i format;
            o ← _Rice_EncodeWord x k (out, s);
            n ← _Rice_NumBits x;
            hist ← arr_set hist (i mod RICE_HISTORY) n;
            Ok (inl (i + 1, k, hist, o))
          else Ok (inr (i, (out, s)))) (0, k, hist, (out, RiceStream 8 (rice_NumBytes stream)));
        o ← (if i <? incount then
               out ← arr_set o.1 0 0;
               for_up (Z.to_nat incount) 0 (λ i o,
                 x ← _Rice_ReadWord inb i format;
                 rice_write_low (Z.to_nat wordsize) x o) (out, RiceStream 8 (rice_NumBytes o.2))
             else Ok o);
        Ok (i32 (Z.shiftr (u32 (rice_BitPos o.2 + 7)) 3), o.1)
  end.

(** ** The decoder *)

Definition Rice_Uncompress (hist inb out : list Z) (insize outsize format : Z) : outcome (list Z) :=
  match rice_wordsize format with
  | None => Ok out
  | Some wordsize =>
      let outcount := outsize / Z.shiftr wordsize 3 in
      if outcount =? 0 then Ok out
      else
        k ← arr_get inb 0;
        let stream := RiceStream 8 (rice_NumBytes (_Rice_InitBitstream insize)) in
        if k =? 0 then
          '(out, _) ← for_up (Z.to_nat outcount) 0 (λ i '(out, s),
            '(x, s) ← rice_read_low inb (Z.to_nat wordsize) 0 s;
            out ← _Rice_WriteWord out i format x;
            Ok (out, s)) (out, stream);
          Ok out
        else
          '(_, _, out, _) ← for_up (Z.to_nat outcount) 0 (λ i '(k, hist, out, s),
            k ← rice_revise_k i k hist;
            '(x, s) ← _Rice_DecodeWord inb k s;
            out ← _Rice_WriteWord out i format x;
            n ← _Rice_NumBits x;
            hist ← arr_set hist (i mod RICE_HISTORY) n;
            Ok (k, hist, out, s)) (k, hist, out, stream);
          Ok out
  end.
