(* ===== verification/RiceBits.v ===== *)
(** * libbcl/rice.c: the codes of the words

    [rice_code k x] are the bits of a word [x] coded with the parameter [k];
    [encode_word_spec] and [decode_word_spec]: the coder writes and the decoder
    reads exactly them.  The coder drops what does not fit into its buffer:
    [rice_wrote o w cap] says that the bits [w] were written and as many of them
    kept as fit. *)

From S2P Require Import Prelude Bits Bcl BitStream Tree Rice.

(** ** Positions *)

Definition bs (p : Z) : bitstream := BitStream (p / 8) (p mod 8).

Lemma bs_ok p : 0 ≤ p → stream_ok (bs p) ∧ pos (bs p) = p.
Proof. intros Hp. unfold stream_ok, pos, bs. simpl. dlia. Qed.

Lemma bs_pos s : stream_ok s → s = bs (pos s).
Proof. intros Hs. destruct (pos_div s Hs) as [Hd Hm]. unfold bs. rewrite Hd, Hm. by destruct s. Qed.

Lemma bs_next p : 0 ≤ p → next_bit (bs p) = bs (p + 1).
Proof.
  intros Hp. destruct (bs_ok p Hp) as [Hs Hpos]. destruct (next_bit_ok _ Hs) as [Hs' Hpos'].
  rewrite (bs_pos _ Hs'), Hpos', Hpos. done.
Qed.

(** ** Information bits *)

Definition numbits (x : Z) : Z := if x =? 0 then 0 else Z.log2 x + 1.

Lemma numbits_unique n x : 0 ≤ n → 0 ≤ x < 2 ^ n → (n = 0 ∨ 2 ^ (n - 1) ≤ x) → numbits x = n.
Proof.
  intros Hn Hx Hlow. unfold numbits. destruct (decide (n = 0)) as [->|].
  { assert (x = 0) as -> by (change (2 ^ 0) with 1 in Hx; lia). done. }
  destruct Hlow as [->|Hlow]; [done|]. assert (0 < 2 ^ (n - 1)) by (apply Z.pow_pos_nonneg; lia).
  case_cmp; [lia|]. rewrite (Z.log2_unique x (n - 1)); [lia | lia|].
  split; [done|]. replace (Z.succ (n - 1)) with n by lia. lia.
Qed.

Lemma numbits_spec n x : 0 ≤ x < 2 ^ n → 0 ≤ n → 0 ≤ numbits x ≤ n ∧ 0 ≤ x < 2 ^ numbits x ∧ (numbits x = 0 ∨ 2 ^ (numbits x - 1) ≤ x).
Proof.
  intros Hx Hn. unfold numbits. case_cmp; [subst; simpl; lia|].
  pose proof (Z.log2_spec x ltac:(lia)) as [Hl Hu]. pose proof (Z.log2_nonneg x).
  assert (Z.log2 x < n) by (apply Z.log2_lt_pow2; lia).
  replace (Z.succ (Z.log2 x)) with (Z.log2 x + 1) in Hu by lia.
  replace (Z.log2 x + 1 - 1) with (Z.log2 x) by lia. lia.
Qed.

Lemma num_bits_spec x : in_u32 x → yields (_Rice_NumBits x) (λ n, n = numbits x).
Proof.
  intros Hx. apply (iter_inv (λ '(n, y), 0 ≤ n ≤ 32 ∧ x < 2 ^ n ∧ y = x * 2 ^ (32 - n)) (λ '(n, _), Z.to_nat n)).
  - rewrite Z.mul_1_r. split_and!; lia.
  - lia.
  - intros [n y] (Hn & Hlt & ->). set (c := 2 ^ (32 - n)).
    assert (0 < c) as Hc by (apply Z.pow_pos_nonneg; lia).
    assert (2 ^ n * c = 2 ^ 32) as Hnc by (unfold c; rewrite <- Z.pow_add_r by lia; f_equal; lia).
    assert (x * c < 2 ^ 32) by nia.
    change 0x80000000 with (2 ^ 31). rewrite land_bit_test, testbit_div by lia.
    assert (0 < n → 2 ^ n = 2 * 2 ^ (n - 1)) as Hpn by (intros; rewrite <- Z.pow_succ_r by lia; f_equal; lia).
    destruct (Z.eqb_spec (x * c / 2 ^ 31 mod 2) 1) as [Hb|Hb]; cbn [negb andb].
    + cbn [yields]. symmetry. apply numbits_unique; [lia | lia|]. destruct (decide (n = 0)); [by left|right].
      rewrite Hpn in Hnc by lia. assert (2 ^ 31 ≤ x * c) by dlia. nia.
    + case_cmp; cbn [yields].
      * rewrite Hpn in Hnc by lia. assert (x * c < 2 ^ 31) by dlia.
        rewrite Z.shiftl_mul_pow2, wrapu_small by lia. split; [|lia]. split_and!; [lia | lia | nia |].
        replace (32 - (n - 1)) with (32 - n + 1) by lia. rewrite Z.pow_add_r by lia. unfold c. lia.
      * replace n with 0 in * by lia. symmetry. apply numbits_unique; [lia | lia | by left].
Qed.

(** ** Writing *)

Definition rice_wrote (o : rice_writer) (w : list bool) (cap : Z) : Prop :=
  rice_NumBytes o.2 = cap ∧ rice_BitPos o.2 = Z.min (Z.of_nat (length w)) (8 * cap) ∧
  wrote_bits (o.1, bs (rice_BitPos o.2)) (take (Z.to_nat (8 * cap)) w) cap.

Lemma lor_set_bit b k c :
  in_u8 b → 0 ≤ k < 8 →
  Z.lor (Z.land b (Z.lxor 0xff (Z.shiftl 1 k))) (Z.shiftl (Z.land (b2z c) 1) k) = set_bit b k c.
Proof.
  intros Hb Hk.
  assert (forallb (λ b, forallb (λ k, forallb (λ c,
    Z.lor (Z.land b (Z.lxor 0xff (Z.shiftl 1 k))) (Z.shiftl (Z.land (b2z c) 1) k) =? set_bit b k c) [false; true])
    (seqZ 0 8)) (seqZ 0 256) = true) as Hall by (vm_compute; reflexivity).
  rewrite forallb_forall in Hall. specialize (Hall b ltac:(apply list_elem_of_In, elem_of_seqZ; lia)).
  rewrite forallb_forall in Hall. specialize (Hall k ltac:(apply list_elem_of_In, elem_of_seqZ; lia)).
  rewrite forallb_forall in Hall. apply Z.eqb_eq, Hall. destruct c; simpl; auto.
Qed.

Lemma rice_write_bit_spec o w cap c :
  rice_wrote o w cap → 0 ≤ 8 * cap < 2 ^ 32 →
  yields (_Rice_WriteBit o (b2z c)) (λ o', rice_wrote o' (w ++ [c]) cap).
Proof.
  destruct o as [out [p num]]. intros (Hn & Hp & Hw) Hcap. simpl in Hn, Hp, Hw. subst num.
  unfold _Rice_WriteBit. cbn [rice_BitPos rice_NumBytes].
  assert (0 ≤ p) by lia. rewrite Z.shiftr_div_pow2, (land_mask _ 3) by lia. change (2 ^ 3) with 8.
  destruct (Z.ltb_spec (p / 8) cap) as [Hlt|Hge].
  - assert (p = Z.of_nat (length w)) as Hpw by dlia. rewrite take_ge in Hw by lia.
    destruct (write_bit_spec _ _ _ _ c Hw) as (b & out' & Hget & Hb & Hset & Hw'); [dlia|].
    unfold bs in Hget, Hset. cbn [BytePtr BitPos] in Hget, Hset. rewrite Hget. cbn [mbind outcome_bind].
    rewrite lor_set_bit by dlia. rewrite Hset. cbn [mbind outcome_bind yields].
    rewrite wrapu_small by dlia. rewrite bs_next in Hw' by done.
    split_and!; simpl; [done | rewrite length_app; simpl length; dlia | rewrite take_ge by (rewrite length_app; simpl; dlia); done].
  - cbn [yields]. assert (Z.to_nat (8 * cap) ≤ length w)%nat as Hle by dlia.
    split_and!; simpl; [done | rewrite length_app; simpl length; lia |]. by rewrite take_app_le.
Qed.

Lemma rice_write_ones_spec n o w cap :
  rice_wrote o w cap → 0 ≤ 8 * cap < 2 ^ 32 →
  yields (rice_write_ones n o) (λ o', rice_wrote o' (w ++ replicate n true) cap).
Proof.
  intros Ho Hcap. eapply yields_mono.
  - apply (for_up_inv (λ j o, rice_wrote o (w ++ replicate (Z.to_nat j) true) cap)).
    + by rewrite app_nil_r.
    + intros j o' Hj Ho'. eapply yields_mono; [apply (rice_write_bit_spec _ _ _ true Ho' Hcap)|].
      intros o2 Ho2. replace (Z.to_nat (j + 1)) with (S (Z.to_nat j)) by lia.
      by rewrite replicate_S_end, app_assoc.
  - intros o'. by rewrite Z.add_0_l, Nat2Z.id.
Qed.

Lemma land_1_bit x j : 0 ≤ j → Z.land (Z.shiftr x j) 1 = b2z (Z.testbit x j).
Proof.
  intros Hj. change 1 with (Z.ones 1). rewrite Z.land_ones by lia. change (2 ^ 1) with 2.
  rewrite Zmod_odd, <- Z.bit0_odd, Z.shiftr_spec by lia. rewrite Z.add_0_l. by destruct (Z.testbit x j).
Qed.

(** The bits above [j] have been written when [j] comes next. *)
Lemma to_bits_split n x j :
  (j < n)%nat → take (n - S j) (to_bits n x) ++ [Z.testbit x (Z.of_nat j)] = take (n - j) (to_bits n x).
Proof.
  intros Hj. replace (n - j)%nat with (S (n - S j)) by lia. symmetry. apply take_S_r.
  rewrite lookup_to_bits by lia. do 2 f_equal. lia.
Qed.

Lemma rice_write_low_spec n x o w cap :
  rice_wrote o w cap → 0 ≤ 8 * cap < 2 ^ 32 → (n ≤ 32)%nat →
  yields (rice_write_low n x o) (λ o', rice_wrote o' (w ++ to_bits n x) cap).
Proof.
  intros Ho Hcap Hn. eapply yields_mono.
  - apply (for_down_inv (λ j o, rice_wrote o (w ++ take (n - Z.to_nat j) (to_bits n x)) cap)).
    + rewrite Nat2Z.id, Nat.sub_diag. by rewrite app_nil_r.
    + intros j o' Hj Ho'. unfold shr32. destruct (Z.leb_spec 0 j), (Z.ltb_spec j 32); try lia.
      cbn [andb mbind outcome_bind]. rewrite land_1_bit by lia.
      eapply yields_mono; [apply (rice_write_bit_spec _ _ _ _ Ho' Hcap)|]. intros o2.
      rewrite <- app_assoc. replace (Z.to_nat (j + 1)) with (S (Z.to_nat j)) by lia.
      pose proof (to_bits_split n x (Z.to_nat j) ltac:(lia)) as Hs. rewrite Z2Nat.id in Hs by lia. by rewrite Hs.
  - intros o'. rewrite take_ge; [done|]. rewrite length_to_bits. simpl. lia.
Qed.

(** ** The code of a word *)

Definition rice_prefix (q : Z) : list bool :=
  if RICE_THRESHOLD <? q then
    let o := numbits (q - RICE_THRESHOLD) in
    replicate (8 + Z.to_nat o) true ++ false :: to_bits (Z.to_nat (o - 1)) (q - RICE_THRESHOLD)
  else replicate (Z.to_nat q) true ++ [false].

Definition rice_code (k x : Z) : list bool := rice_prefix (x / 2 ^ k) ++ to_bits (Z.to_nat k) x.

Lemma shr32_div x k : 0 ≤ k < 32 → shr32 x k = Ok (x / 2 ^ k).
Proof. intros Hk. unfold shr32. destruct (Z.leb_spec 0 k), (Z.ltb_spec k 32); try lia. by rewrite Z.shiftr_div_pow2 by lia. Qed.

Lemma div_pow2_range x k : 0 ≤ k → in_u32 x → 0 ≤ x / 2 ^ k < 2 ^ 32.
Proof.
  intros Hk Hx. assert (0 < 2 ^ k) by (apply Z.pow_pos_nonneg; lia).
  split; [apply Z.div_pos; lia|]. apply Z.div_lt_upper_bound; nia.
Qed.

Lemma encode_word_spec x k o w cap :
  rice_wrote o w cap → 0 ≤ 8 * cap < 2 ^ 32 → 0 ≤ k < 32 → in_u32 x →
  yields (_Rice_EncodeWord x k o) (λ o', rice_wrote o' (w ++ rice_code k x) cap).
Proof.
  intros Ho Hcap Hk Hx. unfold _Rice_EncodeWord, rice_code. rewrite shr32_div by done. cbn [mbind outcome_bind].
  pose proof (div_pow2_range x k ltac:(lia) Hx). set (q := x / 2 ^ k) in *.
  apply yields_bind, (yields_mono _ (λ o', rice_wrote o' (w ++ rice_prefix q) cap)).
  - unfold rice_prefix, RICE_THRESHOLD. case_cmp.
    + rewrite wrapu_small by lia. apply yields_bind.
      eapply yields_mono; [by apply rice_write_ones_spec|]. intros o1 Ho1.
      apply yields_bind. eapply yields_mono; [apply num_bits_spec; lia|]. intros n ->.
      pose proof (numbits_spec 32 (q - 8) ltac:(lia) ltac:(lia)).
      apply yields_bind. eapply yields_mono; [by apply (rice_write_ones_spec _ _ _ _ Ho1)|]. intros o2 Ho2.
      apply yields_bind. eapply yields_mono; [by apply (rice_write_bit_spec _ _ _ false Ho2)|]. intros o3 Ho3.
      eapply yields_mono; [apply (rice_write_low_spec _ _ _ _ _ Ho3); lia|]. intros o4.
      rewrite <- !app_assoc. cbn [app]. by rewrite replicate_add, <- app_assoc.
    + apply yields_bind. eapply yields_mono; [by apply rice_write_ones_spec|]. intros o1 Ho1.
      eapply yields_mono; [by apply (rice_write_bit_spec _ _ _ false Ho1)|]. intros o2. by rewrite <- app_assoc.
  - intros o1 Ho1. eapply yields_mono; [apply (rice_write_low_spec _ _ _ _ _ Ho1); lia|]. intros o2. by rewrite app_assoc.
Qed.

(** ** Reading *)

(** At the stream [s] the bits [l] come next. *)
Definition rice_reads (inb : list Z) (s : rice_bitstream_t) (l : list bool) : Prop :=
  0 ≤ rice_BitPos s ∧ rice_NumBytes s = Z.of_nat (length inb) ∧ 8 * Z.of_nat (length inb) < 2 ^ 32 ∧
  reads inb (bs (rice_BitPos s)) l.

Lemma rice_read_bit_spec inb s c l :
  rice_reads inb s (c :: l) →
  yields (_Rice_ReadBit inb s) (λ '(x, s'), x = b2z c ∧ rice_reads inb s' l).
Proof.
  destruct s as [p num]. intros (Hp & Hnum & Hcap & Hr). simpl in Hp, Hnum, Hr. subst num.
  pose proof (read_bit_spec _ _ _ _ Hr) as Hrd. destruct Hr as (_ & _ & Hlen & _).
  rewrite (proj2 (bs_ok p Hp)) in Hlen. simpl length in Hlen.
  unfold _Rice_ReadBit, _Huffman_ReadBit in *. cbn [rice_BitPos rice_NumBytes].
  rewrite bs_next in Hrd by done. change (BytePtr (bs p)) with (p / 8) in Hrd. change (BitPos (bs p)) with (p mod 8) in Hrd.
  rewrite Z.shiftr_div_pow2, (land_mask _ 3) by lia. change (2 ^ 3) with 8.
  destruct (Z.ltb_spec (p / 8) (Z.of_nat (length inb))); [|dlia].
  destruct (arr_get inb (p / 8)) as [b|]; [|done]. cbn [mbind outcome_bind yields] in *.
  destruct Hrd as [Hb Hr']. rewrite Z.shiftl_1_l, land_bit_test in Hb by dlia. rewrite land_1_bit by dlia.
  rewrite wrapu_small by lia. split; [|by split_and!; simpl; [lia | ..]].
  by destruct (Z.testbit b _), c.
Qed.

Lemma bits_val_to_bits n y : bits_val (to_bits n y) = y mod 2 ^ Z.of_nat n.
Proof.
  induction n as [|n IH]; [by rewrite Z.mod_1_r|]. cbn [to_bits bits_val]. rewrite IH, length_to_bits.
  rewrite Nat2Z.inj_succ, Z.pow_succ_r, Z.mul_comm, (Z.mul_comm 2), Z.rem_mul_r by lia.
  rewrite testbit_div by lia. pose proof (Z.mod_pos_bound (y / 2 ^ Z.of_nat n) 2 ltac:(lia)).
  case_cmp; simpl b2z; lia.
Qed.

Lemma rice_read_list_spec inb p x s l :
  rice_reads inb s (p ++ l) → 0 ≤ x → (x + 1) * 2 ^ Z.of_nat (length p) ≤ 2 ^ 32 →
  yields (rice_read_low inb (length p) x s) (λ '(x', s'),
    x' = x * 2 ^ Z.of_nat (length p) + bits_val p ∧ rice_reads inb s' l).
Proof.
  intros Hr Hx Hmax. unfold rice_read_low. eapply yields_mono.
  - apply (for_up_inv (λ j '(x', s'), x' = x * 2 ^ j + bits_val (take (Z.to_nat j) p) ∧
      rice_reads inb s' (drop (Z.to_nat j) p ++ l))).
    + rewrite Z.mul_1_r, Z.add_0_r. done.
    + intros j [x' s'] Hj [-> Hr']. destruct (lookup_lt_is_Some_2 p (Z.to_nat j)) as [b Hb]; [lia|].
      rewrite (drop_S _ _ _ Hb) in Hr'. apply yields_bind.
      eapply yields_mono; [by apply rice_read_bit_spec|]. intros [b' s2] [-> Hr2]. cbn [yields].
      replace (Z.to_nat (j + 1)) with (S (Z.to_nat j)) by lia. split; [|done].
      rewrite (take_S_r _ _ _ Hb), bits_val_snoc, Z.pow_add_r by lia. change (2 ^ 1) with 2.
      pose proof (bits_val_range (take (Z.to_nat j) p)) as Hv. rewrite length_take_le in Hv by lia. rewrite Z2Nat.id in Hv by lia.
      assert (2 ^ j * 2 ≤ 2 ^ Z.of_nat (length p)) as Hpow.
      { rewrite Z.mul_comm, <- Z.pow_succ_r by lia. apply Z.pow_le_mono_r; lia. }
      assert (0 < 2 ^ j) by (apply Z.pow_pos_nonneg; lia).
      set (v := bits_val _) in *. rewrite Z.shiftl_mul_pow2, wrapu_small by nia.
      rewrite lor_add by (destruct b; simpl; lia). lia.
  - intros [x' s'] [-> Hr']. rewrite Z.add_0_l, Nat2Z.id, firstn_all, drop_all in *. done.
Qed.

Lemma rice_read_low_spec inb n y x s l :
  rice_reads inb s (to_bits n y ++ l) → 0 ≤ x → (x + 1) * 2 ^ Z.of_nat n ≤ 2 ^ 32 →
  yields (rice_read_low inb n x s) (λ '(x', s'),
    x' = x * 2 ^ Z.of_nat n + y mod 2 ^ Z.of_nat n ∧ rice_reads inb s' l).
Proof.
  intros Hr Hx Hmax. rewrite <- bits_val_to_bits. pose proof (length_to_bits n y) as Hl. rewrite <- Hl in Hmax.
  pose proof (rice_read_list_spec inb _ x s l Hr Hx Hmax) as Hs. by rewrite Hl in Hs.
Qed.

(** Counting the ones before the zero. *)
Lemma rice_count_spec inb n s l :
  rice_reads inb s (replicate n true ++ false :: l) →
  yields (iter (S (8 * length inb)) (λ '(q, s),
    '(b, s) ← _Rice_ReadBit inb s;
    if testz b then Ok (inl (u32 (q + 1), s)) else Ok (inr (q, s))) (0, s))
    (λ '(q, s'), q = Z.of_nat n ∧ rice_reads inb s' l).
Proof.
  intros Hr. assert (n < 8 * length inb)%nat as Hn.
  { destruct Hr as (? & _ & _ & _ & _ & Hl & _). rewrite length_app, length_replicate in Hl. simpl in Hl.
    rewrite (proj2 (bs_ok _ ltac:(done))) in Hl. lia. }
  assert (8 * Z.of_nat (length inb) < 2 ^ 32) by apply Hr.
  apply (iter_inv (λ '(q, s'), ∃ k, (k ≤ n)%nat ∧ q = Z.of_nat (n - k) ∧ rice_reads inb s' (replicate k true ++ false :: l))
    (λ '(q, _), (n - Z.to_nat q)%nat)).
  - exists n. split_and!; [lia | lia | done].
  - lia.
  - intros [q s'] (k & Hk & -> & Hr'). apply yields_bind.
    destruct k as [|k]; cbn [replicate app] in Hr'; (eapply yields_mono; [apply (rice_read_bit_spec _ _ _ _ Hr')|]); intros [b s2] [-> Hr2]; cbn [b2z testz].
    + cbn [yields]. split; [lia | done].
    + cbn [yields]. rewrite wrapu_small by lia. split; [|lia]. exists k. split_and!; [lia | lia | done].
Qed.

Lemma rice_prefix_spec inb q s l :
  rice_reads inb s (rice_prefix q ++ l) → 0 ≤ q < 2 ^ 32 →
  yields (rice_read_prefix inb s) (λ '(y, s'), y = q ∧ rice_reads inb s' l).
Proof.
  intros Hr Hq. unfold rice_read_prefix, rice_prefix, RICE_THRESHOLD in *. apply yields_bind.
  destruct (Z.ltb_spec 8 q) as [Hbig|Hsmall]; rewrite <- app_assoc in Hr; cbn [app] in Hr.
  - pose proof (numbits_spec 32 (q - 8) ltac:(lia) ltac:(lia)) as (Hn & Hlt & Hge).
    set (o := numbits (q - 8)) in *. destruct Hge as [Ho|Hge]; [rewrite Ho in Hlt; simpl in Hlt; lia|].
    assert (1 ≤ o) by (destruct (decide (o = 0)) as [Ho|]; [rewrite Ho in Hlt; simpl in Hlt; lia | lia]).
    eapply yields_mono; [by apply rice_count_spec|]. intros [n s1] [-> Hr1].
    destruct (Z.ltb_spec 8 (Z.of_nat (8 + Z.to_nat o))); [|lia].
    rewrite wraps_small by (change (32 - 1) with 31; lia). apply yields_bind.
    replace (Z.of_nat (8 + Z.to_nat o) - 8) with o by lia.
    assert (2 ^ o = 2 * 2 ^ (o - 1)) as Hpo by (rewrite <- Z.pow_succ_r by lia; f_equal; lia).
    assert (2 ^ o ≤ 2 ^ 32) by (apply Z.pow_le_mono_r; lia).
    eapply yields_mono; [apply (rice_read_low_spec _ _ _ _ _ _ Hr1); rewrite ?Z2Nat.id by lia; lia|].
    intros [y s2] [-> Hr2]. cbn [yields]. split; [|done]. rewrite Z2Nat.id by lia.
    assert ((q - 8) mod 2 ^ (o - 1) = q - 8 - 2 ^ (o - 1)) as ->.
    { symmetry. apply (Z.mod_unique_pos _ _ 1); lia. }
    rewrite wrapu_small; lia.
  - eapply yields_mono; [by apply rice_count_spec|]. intros [n s1] [-> Hr1].
    destruct (Z.ltb_spec 8 (Z.of_nat (Z.to_nat q))); [lia|]. cbn [yields]. split; [lia | done].
Qed.

Lemma decode_word_spec inb x k s l :
  rice_reads inb s (rice_code k x ++ l) → 0 ≤ k < 32 → in_u32 x →
  yields (_Rice_DecodeWord inb k s) (λ '(x', s'), x' = x ∧ rice_reads inb s' l).
Proof.
  intros Hr Hk Hx. unfold rice_code in Hr. rewrite <- app_assoc in Hr. unfold _Rice_DecodeWord.
  pose proof (div_pow2_range x k ltac:(lia) Hx) as Hq. pose proof (Z.div_mod x (2 ^ k) ltac:(lia)) as Hdm.
  pose proof (Z.mod_pos_bound x (2 ^ k) ltac:(lia)) as Hmb. set (q := x / 2 ^ k) in *.
  assert ((q + 1) * 2 ^ k ≤ 2 ^ 32) as Hmax.
  { pose proof (Z.pow_add_r 2 k (32 - k) ltac:(lia) ltac:(lia)) as Hp. replace (k + (32 - k)) with 32 in Hp by lia.
    assert (q < 2 ^ (32 - k)); [|nia]. apply Z.div_lt_upper_bound; lia. }
  apply yields_bind. eapply yields_mono; [by apply (rice_prefix_spec inb q)|]. intros [y s2] [-> Hr2].
  eapply yields_mono; [apply (rice_read_low_spec _ _ _ _ _ _ Hr2); rewrite ?Z2Nat.id by lia; lia|].
  intros [y s3] [-> Hr3]. rewrite Z2Nat.id by lia. split; [lia | done].
Qed.
