(* ===== verification/RiceProof.v ===== *)
(** * libbcl/rice.c: the coder round-trips

    The data are a list of words of one, two or four bytes.  [word_code] is the
    number the coder makes of a word; [read_word_spec] and [write_word_spec] relate
    it to the bytes.  Coder and decoder derive the same parameter from the words
    before ([k_at]), so the decoder reads the codes the coder wrote. *)

From S2P Require Import Prelude Bits Bcl BitStream Tree Rice RiceBits.

(** ** Bytes of words *)

Definition be (l : list Z) : Z := foldl (λ acc b, 256 * acc + b) 0 l.

Fixpoint be_bytes (n : nat) (x : Z) : list Z :=
  match n with
  | O => []
  | S n => u8 (Z.shiftr x (8 * Z.of_nat n)) :: be_bytes n x
  end.

Lemma foldl_be acc l : foldl (λ acc b, 256 * acc + b) acc l = acc * 256 ^ Z.of_nat (length l) + be l.
Proof.
  unfold be. revert acc. induction l as [|b l IH]; intros acc; [simpl; lia|].
  cbn [foldl length]. rewrite IH, (IH (256 * 0 + b)). rewrite Nat2Z.inj_succ, Z.pow_succ_r by lia. lia.
Qed.

Lemma be_cons b l : be (b :: l) = b * 256 ^ Z.of_nat (length l) + be l.
Proof. unfold be at 1. cbn [foldl]. by rewrite foldl_be. Qed.

Lemma be_range l : byte_list l → 0 ≤ be l < 256 ^ Z.of_nat (length l).
Proof.
  induction 1 as [|b l Hb _ IH]; [done|]. rewrite be_cons. simpl length. rewrite Nat2Z.inj_succ, Z.pow_succ_r by lia. nia.
Qed.

Lemma pow_256 n : 2 ^ (8 * Z.of_nat n) = 256 ^ Z.of_nat n.
Proof. rewrite Z.pow_mul_r by lia. done. Qed.

Lemma be_bytes_mod n x y : x mod 256 ^ Z.of_nat n = y mod 256 ^ Z.of_nat n → be_bytes n x = be_bytes n y.
Proof.
  revert x y. induction n as [|n IH]; intros x y Hxy; [done|]. cbn [be_bytes].
  rewrite Nat2Z.inj_succ, Z.pow_succ_r, (Z.mul_comm 256), !Z.rem_mul_r in Hxy by lia.
  set (m := 256 ^ Z.of_nat n) in *. assert (0 < m) by (apply Z.pow_pos_nonneg; lia).
  pose proof (Z.mod_pos_bound x m ltac:(lia)). pose proof (Z.mod_pos_bound y m ltac:(lia)).
  pose proof (Z.mod_pos_bound (x / m) 256 ltac:(lia)). pose proof (Z.mod_pos_bound (y / m) 256 ltac:(lia)).
  destruct (Z.div_mod_unique m ((x / m) mod 256) ((y / m) mod 256) (x mod m) (y mod m)) as [Hq Hr]; [lia..|].
  f_equal; [|by apply IH].
  unfold wrapu. rewrite !Z.shiftr_div_pow2, pow_256 by lia. done.
Qed.

Lemma be_bytes_be l : byte_list l → be_bytes (length l) (be l) = l.
Proof.
  induction 1 as [|b l Hb Hl IH]; [done|]. cbn [length be_bytes]. pose proof (be_range l Hl).
  set (m := 256 ^ Z.of_nat (length l)) in *. assert (0 < m) by (apply Z.pow_pos_nonneg; lia).
  f_equal.
  - rewrite be_cons, Z.shiftr_div_pow2, pow_256 by lia. fold m. rewrite Z.div_add_l, Z.div_small, Z.add_0_r by lia.
    apply wrapu_small. lia.
  - etransitivity; [|exact IH]. apply be_bytes_mod. rewrite be_cons. fold m. rewrite Z.add_comm. apply Z_mod_plus_full.
Qed.

Lemma load_be_spec p m r acc :
  load_be (p ++ m ++ r) (Z.of_nat (length p)) (length m) acc = Ok (acc * 256 ^ Z.of_nat (length m) + be m).
Proof.
  rewrite <- foldl_be. revert p acc. induction m as [|b m IH]; intros p acc; [done|]. cbn [load_be length app].
  rewrite arr_get_app by done. cbn [mbind outcome_bind foldl].
  replace (Z.of_nat (length p) + 1) with (Z.of_nat (length (p ++ [b]))) by room.
  replace (p ++ b :: m ++ r) with ((p ++ [b]) ++ m ++ r) by (by rewrite <- app_assoc). apply IH.
Qed.

Lemma store_be_spec p m r x :
  store_be (p ++ m ++ r) (Z.of_nat (length p)) (length m) x = Ok (p ++ be_bytes (length m) x ++ r).
Proof.
  revert p. induction m as [|b m IH]; intros p; [done|]. cbn [store_be length app be_bytes].
  rewrite arr_set_app by done. cbn [mbind outcome_bind].
  replace (Z.of_nat (length p) + 1) with (Z.of_nat (length (p ++ [b]))) by room. rewrite !length_app. simpl length.
  specialize (IH (p ++ [u8 (Z.shiftr x (8 * Z.of_nat (length m)))])). rewrite !length_app in IH. simpl length in IH.
  rewrite IH. by rewrite <- app_assoc.
Qed.

(** ** Formats *)

(** The six formats: bytes per word, and whether the words are signed. *)
Inductive rice_format : Z → nat → bool → Prop :=
| fmt_int8 : rice_format RICE_FMT_INT8 1 true
| fmt_uint8 : rice_format RICE_FMT_UINT8 1 false
| fmt_int16 : rice_format RICE_FMT_INT16 2 true
| fmt_uint16 : rice_format RICE_FMT_UINT16 2 false
| fmt_int32 : rice_format RICE_FMT_INT32 4 true
| fmt_uint32 : rice_format RICE_FMT_UINT32 4 false.

(** The number coded for a word. *)
Definition zigzag (sx : Z) : Z := if sx <? 0 then -1 - 2 * sx else 2 * sx.

Definition word_code (signed : bool) (m : list Z) : Z :=
  if signed then zigzag (wraps (8 * Z.of_nat (length m)) (be m)) else be m.

Lemma format_bytes f b sg : rice_format f b sg → (b = 1 ∨ b = 2 ∨ b = 4)%nat.
Proof. destruct 1; auto. Qed.

Lemma wraps_eq w x : 0 < w → ∃ k, wraps w x = x + k * 2 ^ w.
Proof.
  intros Hw. exists (- ((x + 2 ^ (w - 1)) / 2 ^ w)). unfold wraps. rewrite Z.mod_eq by lia. lia.
Qed.

(** The conversions of the signed formats. *)
Lemma zigzag_code sx :
  - 2 ^ 31 ≤ sx < 2 ^ 31 →
  u32 (if sx <? 0 then -1 - i32 (Z.shiftl sx 1) else i32 (Z.shiftl sx 1)) = zigzag sx ∧ 0 ≤ zigzag sx < 2 ^ 32.
Proof.
  intros Hsx. rewrite Z.shiftl_mul_pow2 by lia. change (2 ^ 1) with 2.
  destruct (wraps_eq 32 (sx * 2) ltac:(lia)) as [k Hk]. rewrite Hk. unfold zigzag, wrapu.
  split; [|case_cmp; lia]. case_cmp; symmetry.
  - apply (Z.mod_unique_pos _ _ (- k)); lia.
  - apply (Z.mod_unique_pos _ _ k); lia.
Qed.

Lemma zigzag_decode sx :
  zigzag sx < 2 ^ 31 → - 2 ^ 31 ≤ sx < 2 ^ 31 →
  (if testz (Z.land (zigzag sx) 1) then - i32 (Z.shiftr (u32 (zigzag sx + 1)) 1) else i32 (Z.shiftr (zigzag sx) 1)) = sx.
Proof.
  intros Hlt Hsx. unfold zigzag in *. rewrite (land_mask _ 1), !Z.shiftr_div_pow2 by lia. change (2 ^ 1) with 2.
  unfold testz. destruct (Z.ltb_spec sx 0).
  - replace ((-1 - 2 * sx) mod 2) with 1 by dlia. cbn [negb Z.eqb]. rewrite wrapu_small by lia.
    replace ((-1 - 2 * sx + 1) / 2) with (- sx) by dlia. rewrite wraps_small by (change (32 - 1) with 31; lia). lia.
  - replace (2 * sx mod 2) with 0 by dlia. cbn [negb Z.eqb].
    replace (2 * sx / 2) with sx by dlia. rewrite wraps_small by (change (32 - 1) with 31; lia). done.
Qed.

Section Words.
Context (f : Z) (b : nat) (sg : bool) (Hf : rice_format f b sg).

(** The data as words. *)
Definition rice_words (ws : list (list Z)) : Prop := Forall (λ m, length m = b ∧ byte_list m) ws.

Lemma length_words ws : rice_words ws → length (concat ws) = (b * length ws)%nat.
Proof. induction 1 as [|m ws [Hm _] _ IH]; simpl; [lia|]. rewrite length_app. lia. Qed.

Lemma word_code_range ws i m : rice_words ws → ws !! i = Some m → in_u32 (word_code sg m).
Proof.
  intros Hws Hi. destruct (Forall_lookup_1 _ _ _ _ Hws Hi) as [Hm Hb]. pose proof (be_range m Hb) as Hr. rewrite Hm in Hr.
  pose proof (format_bytes _ _ _ Hf) as Hbs. unfold word_code. rewrite Hm. destruct sg.
  - apply zigzag_code. destruct Hbs as [-> | [-> | ->]]; pose proof (wraps_range (8 * Z.of_nat 1) (be m) ltac:(lia));
      pose proof (wraps_range (8 * Z.of_nat 2) (be m) ltac:(lia)); pose proof (wraps_range (8 * Z.of_nat 4) (be m) ltac:(lia)); simpl in *; lia.
  - destruct Hbs as [-> | [-> | ->]]; simpl in Hr; lia.
Qed.

Lemma word_code_bits ws i m : rice_words ws → ws !! i = Some m → 0 ≤ word_code sg m < 2 ^ (Z.of_nat (8 * b)).
Proof.
  intros Hws Hi. destruct (Forall_lookup_1 _ _ _ _ Hws Hi) as [Hm Hb]. pose proof (be_range m Hb) as Hr. rewrite Hm in Hr.
  replace (Z.of_nat (8 * b)) with (8 * Z.of_nat b) by lia. rewrite pow_256. unfold word_code. rewrite Hm. destruct sg; [|done].
  pose proof (wraps_range (8 * Z.of_nat b) (be m) ltac:(destruct (format_bytes _ _ _ Hf) as [-> | [-> | ->]]; lia)).
  rewrite <- pow_256. unfold zigzag. destruct (format_bytes _ _ _ Hf) as [-> | [-> | ->]]; simpl in *; case_cmp; lia.
Qed.

Lemma read_word_spec ws i m :
  rice_words ws → ws !! i = Some m → _Rice_ReadWord (concat ws) (Z.of_nat i) f = Ok (word_code sg m).
Proof.
  intros Hws Hi. destruct (Forall_lookup_1 _ _ _ _ Hws Hi) as [Hm Hb].
  assert (load_be (concat ws) (Z.of_nat b * Z.of_nat i) b 0 = Ok (be m)) as Hload.
  { rewrite <- (take_drop_middle _ _ _ Hi), concat_app. cbn [concat].
    pose proof (length_words (take i ws) ltac:(by apply Forall_take)) as Hl.
    rewrite length_take_le in Hl by (apply lookup_lt_Some in Hi; lia).
    replace (Z.of_nat b * Z.of_nat i) with (Z.of_nat (length (concat (take i ws)))) by lia.
    pose proof (load_be_spec (concat (take i ws)) m (concat (drop (S i) ws)) 0) as Hs. rewrite Hm in Hs. by rewrite Hs. }
  pose proof (be_range m Hb) as Hr. rewrite Hm in Hr. unfold word_code. rewrite Hm.
  assert (∀ w, w = 8 * Z.of_nat b → 0 < w ≤ 32 →
    u32 (if wraps w (be m) <? 0 then -1 - i32 (Z.shiftl (wraps w (be m)) 1) else i32 (Z.shiftl (wraps w (be m)) 1)) =
    zigzag (wraps w (be m))) as Hz.
  { intros w -> Hw. apply zigzag_code. pose proof (wraps_range (8 * Z.of_nat b) (be m) ltac:(lia)).
    pose proof (Z.pow_le_mono_r 2 (8 * Z.of_nat b - 1) 31). lia. }
  unfold _Rice_ReadWord. destruct Hf; simpl in *; rewrite Hload; try done;
    cbn [mbind outcome_bind]; f_equal; apply Hz; lia.
Qed.

Lemma write_word_spec ws i m r :
  rice_words ws → ws !! i = Some m → word_code sg m < 2 ^ 31 → (b ≤ length r)%nat →
  _Rice_WriteWord (concat (take i ws) ++ r) (Z.of_nat i) f (word_code sg m) = Ok (concat (take (S i) ws) ++ drop b r).
Proof.
  intros Hws Hi Hlt Hr. destruct (Forall_lookup_1 _ _ _ _ Hws Hi) as [Hm Hb].
  rewrite (take_S_r _ _ _ Hi), concat_app. cbn [concat]. rewrite app_nil_r, <- app_assoc.
  pose proof (length_words (take i ws) ltac:(by apply Forall_take)) as Hl.
  rewrite length_take_le in Hl by (apply lookup_lt_Some in Hi; lia).
  set (p := concat (take i ws)) in *.
  assert (∀ x, x mod 256 ^ Z.of_nat b = be m mod 256 ^ Z.of_nat b →
    store_be (p ++ r) (Z.of_nat b * Z.of_nat i) b x = Ok (p ++ m ++ drop b r)) as Hstore.
  { intros x Hx. rewrite <- (take_drop b r) at 1. replace (Z.of_nat b * Z.of_nat i) with (Z.of_nat (length p)) by lia.
    pose proof (store_be_spec p (take b r) (drop b r) x) as Hs. rewrite length_take_le in Hs by done. rewrite Hs.
    rewrite (be_bytes_mod b x (be m) Hx). pose proof (be_bytes_be m Hb) as Hbb. rewrite Hm in Hbb. by rewrite Hbb. }
  unfold word_code in *. rewrite Hm in *.
  assert (∀ w, w = 8 * Z.of_nat b → 0 < w ≤ 32 → zigzag (wraps w (be m)) < 2 ^ 31 →
    let x := zigzag (wraps w (be m)) in
    store_be (p ++ r) (Z.of_nat b * Z.of_nat i) b (if testz (Z.land x 1) then - i32 (Z.shiftr (u32 (x + 1)) 1) else i32 (Z.shiftr x 1)) =
    Ok (p ++ m ++ drop b r)) as Hz.
  { intros w -> Hw Hz x. unfold x. rewrite zigzag_decode; [|done|].
    - apply Hstore. destruct (wraps_eq (8 * Z.of_nat b) (be m) ltac:(lia)) as [k ->]. rewrite pow_256. apply Z_mod_plus_full.
    - pose proof (wraps_range (8 * Z.of_nat b) (be m) ltac:(lia)).
      pose proof (Z.pow_le_mono_r 2 (8 * Z.of_nat b - 1) 31). lia. }
  unfold _Rice_WriteWord. destruct Hf; cbn [Z.eqb Pos.eqb RICE_FMT_INT8 RICE_FMT_UINT8 RICE_FMT_INT16 RICE_FMT_UINT16 RICE_FMT_INT32 RICE_FMT_UINT32];
    first [by apply Hstore | by apply Hz].
Qed.

End Words.

(** ** The parameter *)

Section History.
Context (xs : list Z) (Hxs : Forall (λ x, 0 ≤ x < 2 ^ 31) xs).

Abbreviation info j := (numbits (xs !!! Z.to_nat j)).

Lemma info_range j : 0 ≤ info j ≤ 31.
Proof.
  apply (numbits_spec 31); [|lia]. destruct (xs !! Z.to_nat j) as [x|] eqn:E.
  - rewrite (list_lookup_total_correct _ _ _ E). exact (Forall_lookup_1 _ _ _ _ Hxs E).
  - rewrite list_lookup_total_alt, E. simpl. lia.
Qed.

(** The history array when word [i] comes next: the last sixteen words. *)
Definition hist_ok (i : Z) (hist : list Z) : Prop :=
  length hist = 16%nat ∧ ∀ j, 0 ≤ j < i → i - 16 ≤ j → hist !! Z.to_nat (j mod 16) = Some (info j).

Definition hist_at (i : Z) : list Z := (λ r, info (i - 1 - (i - 1 - r) mod 16)) <$> seqZ 0 16.

Definition k_at (k0 i : Z) : Z := if RICE_HISTORY <=? i then (sumZ (hist_at i) + 8) / 16 else k0.

Lemma hist_ok_at i hist : 16 ≤ i → hist_ok i hist → hist = hist_at i.
Proof.
  intros Hi [Hl Hh]. apply list_eq. intros r. unfold hist_at. rewrite list_lookup_fmap.
  destruct (decide (r < 16)%nat).
  - rewrite (proj2 (lookup_seqZ 0 16 r (Z.of_nat r)) ltac:(lia)). simpl.
    rewrite <- (Hh (i - 1 - (i - 1 - Z.of_nat r) mod 16)) by dlia. f_equal. dlia.
  - rewrite !lookup_ge_None_2; [done | rewrite length_seqZ; lia | lia].
Qed.

Lemma hist_step i hist :
  0 ≤ i → hist_ok i hist → yields (arr_set hist (i mod RICE_HISTORY) (info i)) (λ hist', hist_ok (i + 1) hist').
Proof.
  intros Hi [Hl Hh]. unfold RICE_HISTORY. rewrite arr_set_in_range by dlia. cbn [yields]. split; [by rewrite length_insert|].
  intros j Hj Hji. destruct (decide (j = i)) as [->|].
  - apply list_lookup_insert_eq. dlia.
  - rewrite list_lookup_insert_ne by dlia. apply Hh; lia.
Qed.

Lemma sumZ_bound l c : Forall (λ x, 0 ≤ x ≤ c) l → 0 ≤ sumZ l ≤ c * Z.of_nat (length l).
Proof. induction 1; simpl length; simpl sumZ; lia. Qed.

Lemma sum_loop l :
  Forall (λ x, 0 ≤ x ≤ 31) l → Z.of_nat (length l) ≤ 2 ^ 20 →
  yields (for_up (length l) 0 (λ j k, h ← arr_get l j; Ok (u32 (k + h))) 0) (λ k, k = sumZ l).
Proof.
  intros Hl Hlen. eapply yields_mono.
  - apply (for_up_inv (λ j k, k = sumZ (take (Z.to_nat j) l))); [done|].
    intros j k Hj ->. destruct (arr_get_in_range l j) as (h & -> & Hh); [lia|]. cbn [mbind outcome_bind yields].
    replace (Z.to_nat (j + 1)) with (S (Z.to_nat j)) by lia. rewrite (take_S_r _ _ _ Hh), sumZ_app. simpl.
    pose proof (sumZ_bound (take (Z.to_nat j) l) 31 ltac:(by apply Forall_take)) as Hb. rewrite length_take in Hb.
    pose proof (Forall_lookup_1 _ _ _ _ Hl Hh) as Hh'. simpl in Hh'. rewrite wrapu_small; lia.
  - intros k ->. by rewrite Z.add_0_l, Nat2Z.id, firstn_all.
Qed.

Lemma hist_at_range i : Forall (λ x, 0 ≤ x ≤ 31) (hist_at i) ∧ length (hist_at i) = 16%nat.
Proof.
  unfold hist_at. rewrite length_fmap, length_seqZ. split; [|done]. apply Forall_fmap, Forall_forall. intros r _. apply info_range.
Qed.

Lemma revise_k_spec k0 i k hist :
  hist_ok i hist → (i < 16 → k = k0) → yields (rice_revise_k i k hist) (λ k', k' = k_at k0 i).
Proof.
  intros Hh Hk. unfold rice_revise_k, k_at, RICE_HISTORY. case_cmp; [|cbn [yields]; by apply Hk].
  destruct (hist_at_range i) as [Hr Hl]. rewrite (hist_ok_at i hist) by done.
  apply yields_bind. pose proof (sum_loop (hist_at i) Hr ltac:(lia)) as Hs. rewrite Hl in Hs.
  eapply yields_mono; [exact Hs|]. intros s ->. cbn [yields]. pose proof (sumZ_bound _ _ Hr).
  change (Z.shiftr 16 1) with 8. rewrite wrapu_small by lia. done.
Qed.

Lemma k_at_range k0 i : 1 ≤ k0 ≤ 31 → 0 ≤ k_at k0 i ≤ 31.
Proof.
  intros Hk0. unfold k_at. case_cmp; [|lia]. destruct (hist_at_range i) as [Hr Hl].
  pose proof (sumZ_bound _ _ Hr). rewrite Hl in *. dlia.
Qed.

(** The codes of the words [i] to [j - 1]. *)
Definition rice_codes (k0 : Z) (i n : nat) : list bool :=
  concat ((λ j, rice_code (k_at k0 (Z.of_nat j)) (xs !!! j)) <$> seq i n).

Lemma rice_codes_S k0 n : rice_codes k0 0 (S n) = rice_codes k0 0 n ++ rice_code (k_at k0 (Z.of_nat n)) (xs !!! n).
Proof. unfold rice_codes. rewrite seq_S, fmap_app, concat_app. csimpl. by rewrite app_nil_r. Qed.

Lemma rice_codes_cons k0 i n : rice_codes k0 i (S n) = rice_code (k_at k0 (Z.of_nat i)) (xs !!! i) ++ rice_codes k0 (S i) n.
Proof. done. Qed.

End History.

(** ** The first byte *)

Lemma first_byte_wrote out k cap :
  byte_list out → Z.of_nat (length out) = cap → 1 ≤ cap → in_u8 k →
  yields (arr_set out 0 (u8 k)) (λ out', rice_wrote (out', RiceStream 8 cap) (to_bits 8 k) cap).
Proof.
  intros Hout Hl Hcap Hk. rewrite arr_set_in_range by lia. rewrite wrapu_small by lia. cbn [yields].
  destruct out as [|b r]; [simpl in Hl; lia|]. apply Forall_cons in Hout as [_ Hr].
  change (<[Z.to_nat 0:=k]> (b :: r)) with (k :: r). simpl length in Hl.
  split_and!; [done | rewrite length_to_bits; cbn [snd rice_BitPos]; lia |]. cbn [fst snd rice_BitPos].
  rewrite take_ge by (rewrite length_to_bits; lia). destruct (bs_ok 8 ltac:(lia)) as [Hs Hp].
  split_and!; cbn [fst snd]; [done | by rewrite Hp, length_to_bits | lia | done | by constructor |].
  intros i Hi. rewrite length_to_bits in Hi. rewrite lookup_to_bits by done. unfold bit_at.
  replace (Z.of_nat i / 8) with 0 by dlia. replace (Z.of_nat i mod 8) with (Z.of_nat i) by dlia. done.
Qed.

Lemma first_byte_reads inb k l :
  reads inb (bs 0) (to_bits 8 k ++ l) → in_u8 k →
  arr_get inb 0 = Ok k ∧ reads inb (bs 8) l.
Proof.
  intros (Hs & Hb & Hl & Hbits) Hk. rewrite length_app, length_to_bits in Hl. destruct (bs_ok 0 ltac:(lia)) as [_ Hp0].
  destruct (bs_ok 8 ltac:(lia)) as [Hs8 Hp8]. rewrite Hp0 in Hl, Hbits. split.
  - destruct inb as [|b r]; [simpl in Hl; lia|]. apply arr_get_Ok. split; [lia|]. simpl. f_equal.
    apply Forall_cons in Hb as [Hb8 _]. apply Z.bits_inj'. intros j Hj. destruct (decide (j < 8)).
    2: { rewrite !(testbit_above _ 8) by lia. done. }
    specialize (Hbits (Z.to_nat (7 - j))). rewrite length_app, length_to_bits in Hbits. specialize (Hbits ltac:(lia)).
    rewrite lookup_app_l, lookup_to_bits in Hbits by (rewrite ?length_to_bits; lia). unfold bit_at in Hbits.
    replace (Z.to_nat ((0 + Z.of_nat (Z.to_nat (7 - j))) / 8)) with 0%nat in Hbits by dlia.
    replace ((0 + Z.of_nat (Z.to_nat (7 - j))) mod 8) with (7 - j) in Hbits by dlia. simpl in Hbits.
    injection Hbits as Hbits. replace (7 - (7 - j)) with j in Hbits by lia. rewrite <- Hbits. f_equal. lia.
  - split_and!; [done | done | lia |]. intros i Hi. rewrite Hp8. specialize (Hbits (8 + i)%nat).
    rewrite length_app, length_to_bits in Hbits. specialize (Hbits ltac:(lia)).
    rewrite lookup_app_r in Hbits by (rewrite length_to_bits; lia). rewrite length_to_bits in Hbits.
    replace (8 + i - 8)%nat with i in Hbits by lia. rewrite Hbits. do 2 f_equal. lia.
Qed.

(** What was kept can be read. *)
Lemma rice_wrote_reads o w cap :
  rice_wrote o w cap → 0 ≤ 8 * cap < 2 ^ 32 - 7 →
  let size := Z.shiftr (u32 (rice_BitPos o.2 + 7)) 3 in
  0 ≤ size ≤ cap ∧ 8 * size - 8 < rice_BitPos o.2 ≤ 8 * size ∧
  reads (take (Z.to_nat size) o.1) (bs 0) (take (Z.to_nat (8 * cap)) w).
Proof.
  intros (Hnum & Hpos & Hw) Hcap size. assert (0 ≤ rice_BitPos o.2 ≤ 8 * cap) as Hp by lia.
  assert (size = (rice_BitPos o.2 + 7) / 8) as Hsize.
  { unfold size. rewrite wrapu_small by lia. by rewrite Z.shiftr_div_pow2 by lia. }
  clearbody size. apply wrote_reads in Hw. cbn [fst snd] in Hw.
  replace (stream_bytes (bs (rice_BitPos o.2))) with size in Hw; [split_and!; [dlia.. | exact Hw]|].
  unfold stream_bytes, bs. cbn [BytePtr BitPos]. case_cmp; dlia.
Qed.

(** ** The coder *)

Section Coder.
Context (f : Z) (b : nat) (sg : bool) (Hf : rice_format f b sg).
Context (ws : list (list Z)) (Hws : rice_words b ws) (Hn : (1 ≤ length ws)%nat).
Context (Hsmall : Forall (λ m, word_code sg m < 2 ^ 31) ws).
Context (Hlen : Z.of_nat (length (concat ws)) < 2 ^ 28).

Let n := Z.of_nat (length ws).
Let xs := word_code sg <$> ws.
Let insize := Z.of_nat (length (concat ws)).

Lemma xs_range : Forall (λ x, 0 ≤ x < 2 ^ 31) xs.
Proof.
  apply Forall_fmap, Forall_lookup. intros i m Hm. simpl. pose proof (word_code_range f b sg Hf ws i m Hws Hm).
  pose proof (Forall_lookup_1 _ _ _ _ Hsmall Hm) as Hlt. simpl in Hlt. lia.
Qed.

Lemma word_at i :
  0 ≤ i < n → ∃ m, ws !! Z.to_nat i = Some m ∧ xs !!! Z.to_nat i = word_code sg m ∧
    _Rice_ReadWord (concat ws) i f = Ok (word_code sg m) ∧ 0 ≤ word_code sg m < 2 ^ 31.
Proof.
  intros Hi. destruct (lookup_lt_is_Some_2 ws (Z.to_nat i)) as [m Hm]; [unfold n in Hi; lia|]. exists m.
  assert (xs !! Z.to_nat i = Some (word_code sg m)) as Hx by (unfold xs; by rewrite list_lookup_fmap, Hm).
  split_and!; [done | by apply list_lookup_total_correct | | exact (proj1 (Forall_lookup_1 _ _ _ _ xs_range Hx)) | exact (proj2 (Forall_lookup_1 _ _ _ _ xs_range Hx))].
  pose proof (read_word_spec f b sg Hf ws (Z.to_nat i) m Hws Hm) as Hr. by rewrite Z2Nat.id in Hr by lia.
Qed.

Lemma insize_words : insize = Z.of_nat b * n ∧ 1 ≤ Z.of_nat b ≤ 4 ∧ 1 ≤ n.
Proof.
  unfold insize, n. rewrite (length_words b) by done. destruct (format_bytes _ _ _ Hf) as [-> | [-> | ->]]; lia.
Qed.

Lemma wordsize_spec : rice_wordsize f = Some (8 * Z.of_nat b) ∧ Z.shiftr (8 * Z.of_nat b) 3 = Z.of_nat b ∧ insize / Z.of_nat b = n.
Proof.
  destruct insize_words as (-> & Hb & _). split_and!; [by destruct Hf | by destruct Hf |].
  rewrite Z.mul_comm. apply Z.div_mul. lia.
Qed.

Lemma initial_k_spec : yields (rice_initial_k (concat ws) n f) (λ k, 1 ≤ k ≤ 31).
Proof.
  destruct insize_words as (_ & _ & Hn1). unfold rice_initial_k, RICE_HISTORY. set (i := Z.min 16 n). assert (1 ≤ i ≤ 16 ∧ i ≤ n) by lia.
  apply yields_bind. eapply yields_mono.
  - apply (for_up_inv (λ j k, 0 ≤ k ≤ 31 * j)); [lia|]. intros j k Hj Hk.
    destruct (word_at j ltac:(lia)) as (m & _ & _ & -> & Hx). cbn [mbind outcome_bind].
    apply yields_bind. eapply yields_mono; [apply num_bits_spec; lia|]. intros ? ->. cbn [yields].
    pose proof (numbits_spec 31 _ Hx ltac:(lia)). rewrite wrapu_small; lia.
  - intros k Hk. rewrite Z.add_0_l, Z2Nat.id in Hk by lia. cbn [yields].
    rewrite Z.shiftr_div_pow2 by lia. change (2 ^ 1) with 2. rewrite wrapu_small by dlia.
    assert ((k + i / 2) / i < 32) by (apply Z.div_lt_upper_bound; dlia).
    assert (0 ≤ (k + i / 2) / i) by (apply Z.div_pos; dlia). case_cmp; lia.
Qed.

Definition coded (k0 i : Z) : list bool := to_bits 8 k0 ++ rice_codes xs k0 0 (Z.to_nat i).

Lemma encode_loop_spec k0 hist o cap :
  1 ≤ k0 ≤ 31 → length hist = 16%nat → rice_wrote o (to_bits 8 k0) cap → 0 ≤ 8 * cap < 2 ^ 32 →
  yields (iter (S (Z.to_nat n)) (λ '(i, k, hist, (out, s)),
      if (i <? n) && (Z.shiftr (rice_BitPos s) 3 <=? insize) then
        k ← rice_revise_k i k hist;
        x ← _Rice_ReadWord (concat ws) i f;
        o ← _Rice_EncodeWord x k (out, s);
        n ← _Rice_NumBits x;
        hist ← arr_set hist (i mod RICE_HISTORY) n;
        Ok (inl (i + 1, k, hist, o))
      else Ok (inr (i, (out, s)))) (0, k0, hist, o))
    (λ '(i, o), 0 ≤ i ≤ n ∧ rice_wrote o (coded k0 i) cap).
Proof.
  intros Hk0 Hhl Ho Hcap.
  apply (iter_inv (λ '(i, k, hist, o), 0 ≤ i ≤ n ∧ (i ≤ 16 → k = k0 ∨ i = 16) ∧ hist_ok xs i hist ∧ rice_wrote o (coded k0 i) cap)
    (λ '(i, _, _, _), Z.to_nat (n - i))).
  - destruct o as [out s]. split_and!; [lia | lia | auto | split; [done | intros; lia] |]. unfold coded. by rewrite app_nil_r.
  - lia.
  - intros [[[i k] h] [out s]] (Hi & Hk & Hh & Ho'). destruct (Z.ltb_spec i n); cbn [andb]; [|by cbn [yields]].
    case_cmp; [|by cbn [yields]].
    apply yields_bind. eapply yields_mono; [apply (revise_k_spec xs xs_range k0); [done | intros; destruct Hk; lia]|].
    intros k' ->. destruct (word_at i ltac:(lia)) as (m & _ & Hxi & -> & Hx). cbn [mbind outcome_bind].
    pose proof (k_at_range xs xs_range k0 i Hk0).
    apply yields_bind. eapply yields_mono; [apply (encode_word_spec _ _ _ _ _ Ho'); lia|]. intros o1 Ho1.
    apply yields_bind. eapply yields_mono; [apply num_bits_spec; lia|]. intros nb ->. rewrite <- Hxi.
    apply yields_bind. eapply yields_mono; [apply hist_step; [lia | done]|]. intros h' Hh'. cbn [yields].
    split; [|lia]. split_and!; [lia | lia | | done |].
    + intros Hi16. destruct (decide (i + 1 = 16)); [by right | left]. unfold k_at, RICE_HISTORY. destruct (Z.leb_spec 16 i); [lia | done].
    + unfold coded in *. replace (Z.to_nat (i + 1)) with (S (Z.to_nat i)) by lia.
      rewrite rice_codes_S, app_assoc, Z2Nat.id, Hxi by lia. done.
Qed.

(** The words as they are. *)
Definition raw (i : nat) : list bool := concat (to_bits (8 * b) <$> take i xs).

Lemma length_raw i : (i ≤ length ws)%nat → length (raw i) = (8 * b * i)%nat.
Proof.
  intros Hi. unfold raw. assert (i ≤ length xs)%nat as Hx by (unfold xs; by rewrite length_fmap). clear Hi.
  revert i Hx. induction xs as [|x l IH]; intros [|i] Hx; simpl in *; try lia.
  rewrite length_app, length_to_bits, IH by lia. lia.
Qed.

Lemma raw_S i x : xs !! i = Some x → raw (S i) = raw i ++ to_bits (8 * b) x.
Proof. intros Hx. unfold raw. rewrite (take_S_r _ _ _ Hx), fmap_app, concat_app. csimpl. by rewrite app_nil_r. Qed.

Lemma raw_loop_spec o cap :
  rice_wrote o (to_bits 8 0) cap → 0 ≤ 8 * cap < 2 ^ 32 →
  yields (for_up (Z.to_nat n) 0 (λ i o,
      x ← _Rice_ReadWord (concat ws) i f;
      rice_write_low (Z.to_nat (8 * Z.of_nat b)) x o) o)
    (λ o, rice_wrote o (to_bits 8 0 ++ raw (length ws)) cap).
Proof.
  intros Ho Hcap. destruct insize_words as (_ & Hb & _). eapply yields_mono.
  - apply (for_up_inv (λ i o, rice_wrote o (to_bits 8 0 ++ raw (Z.to_nat i)) cap)); [by unfold raw; rewrite app_nil_r|].
    intros i o' Hi Ho'. destruct (word_at i ltac:(lia)) as (m & Hm & _ & -> & _). cbn [mbind outcome_bind].
    eapply yields_mono; [apply (rice_write_low_spec _ _ _ _ _ Ho' Hcap); lia|]. intros o2.
    replace (Z.to_nat (i + 1)) with (S (Z.to_nat i)) by lia.
    rewrite (raw_S _ (word_code sg m)) by (unfold xs; by rewrite list_lookup_fmap, Hm). rewrite app_assoc.
    by replace (Z.to_nat (8 * Z.of_nat b)) with (8 * b)%nat by lia.
  - intros o'. unfold n. by rewrite Z.add_0_l, !Nat2Z.id.
Qed.

(** What the compressor leaves: the codes, as far as they fit, or the words. *)
Definition rice_result (size : Z) (out : list Z) : Prop :=
  0 < size ≤ insize + 1 ∧ Z.of_nat (length out) = insize + 1 ∧
  ∃ k0, 0 ≤ k0 ≤ 31 ∧ arr_get out 0 = Ok k0 ∧
    (k0 = 0 → reads (take (Z.to_nat size) out) (bs 0) (to_bits 8 0 ++ raw (length ws))) ∧
    (1 ≤ k0 → size ≤ insize → reads (take (Z.to_nat size) out) (bs 0) (coded k0 n)).

Lemma arr_get_take {A} (l : list A) m i x : arr_get (take m l) i = Ok x → arr_get l i = Ok x.
Proof.
  rewrite !arr_get_Ok. intros [Hi Hx]. split; [done|]. apply lookup_take_Some in Hx. tauto.
Qed.

Lemma rice_finish o w k0 :
  rice_wrote o (to_bits 8 k0 ++ w) (insize + 1) → 0 ≤ k0 ≤ 31 →
  let size := Z.shiftr (u32 (rice_BitPos o.2 + 7)) 3 in
  0 < size ≤ insize + 1 ∧ Z.of_nat (length o.1) = insize + 1 ∧ arr_get o.1 0 = Ok k0 ∧
  (size ≤ insize ∨ Z.of_nat (length w) ≤ 8 * insize → reads (take (Z.to_nat size) o.1) (bs 0) (to_bits 8 k0 ++ w)).
Proof.
  intros Ho Hk0. pose proof (rice_wrote_reads _ _ _ Ho ltac:(unfold insize in *; lia)) as (Hs & Hlow & Hr). cbv zeta.
  set (size := Z.shiftr _ 3) in *. destruct Ho as (_ & Hpos & _ & _ & _ & Hlo & _). rewrite length_app, length_to_bits in Hpos.
  rewrite take_app_ge in Hr by (rewrite length_to_bits; unfold insize; lia).
  destruct (first_byte_reads _ _ _ Hr ltac:(lia)) as [H0 _]. split_and!; [|lia | done | by eapply arr_get_take|].
  - destruct (decide (size = 0)) as [E|]; [|lia]. rewrite E in H0. done.
  - rewrite length_to_bits in Hr. intros Hfit. rewrite (take_ge w) in Hr; [done|]. unfold insize in *. lia.
Qed.

Lemma rice_compress_spec hist out :
  length hist = 16%nat → byte_list out → Z.of_nat (length out) = insize + 1 →
  yields (Rice_Compress hist (concat ws) out insize f) (λ '(size, out'), rice_result size out').
Proof.
  intros Hh Hout Hol. destruct wordsize_spec as (Hwz & Hsh & Hdiv). destruct insize_words as (Hin & Hb & Hn1).
  unfold Rice_Compress. rewrite Hwz, Hsh, Hdiv. assert (0 ≤ insize < 2 ^ 28) as Hi28 by (unfold insize; lia).
  destruct (Z.eqb_spec n 0); [lia|]. rewrite (wrapu_small 32) by lia. cbn [_Rice_InitBitstream rice_NumBytes].
  apply yields_bind. eapply yields_mono; [apply initial_k_spec|]. intros k0 Hk0. cbv beta in Hk0.
  apply yields_bind. eapply yields_mono; [apply (first_byte_wrote _ _ _ Hout Hol); lia|]. intros out1 Ho1.
  apply yields_bind. eapply yields_mono; [apply (encode_loop_spec k0 hist (out1, RiceStream 8 (insize + 1)) (insize + 1) Hk0 Hh Ho1); lia|].
  intros [i o] [Hi Ho]. apply yields_bind. destruct (Z.ltb_spec i n) as [Hlt|Hge].
  - pose proof Ho as (Hnum & _ & _ & _ & _ & Hl & Hby & _). cbn [fst] in Hl, Hby.
    apply yields_bind. pose proof (first_byte_wrote o.1 0 (insize + 1) Hby Hl ltac:(lia) ltac:(lia)) as Hfb.
    change (u8 0) with 0 in Hfb. eapply yields_mono; [exact Hfb|]. intros out2 Ho2. rewrite Hnum.
    eapply yields_mono; [apply (raw_loop_spec (out2, RiceStream 8 (insize + 1)) _ Ho2); lia|]. intros o2 Ho3. cbn [yields].
    destruct (rice_finish o2 _ 0 Ho3 ltac:(lia)) as (Hs & Hlo & H0 & Hr).
    set (size := Z.shiftr _ 3) in *. rewrite wraps_small by (change (32 - 1) with 31; lia).
    split; [done|]. split; [done|]. exists 0. split_and!; [lia | lia | done | | lia].
    intros _. apply Hr. right. rewrite length_raw by done. unfold n in *. lia.
  - replace i with n in * by lia. cbn [yields].
    destruct (rice_finish o _ k0 Ho ltac:(lia)) as (Hs & Hlo & H0 & Hr).
    set (size := Z.shiftr _ 3) in *. rewrite wraps_small by (change (32 - 1) with 31; lia).
    split; [done|]. split; [done|]. exists k0. split_and!; [lia | lia | done | lia |]. intros _ Hle. apply Hr. by left.
Qed.

(** ** The decoder *)

(** The first [i] words are restored. *)
Definition restored (i : Z) (out : list Z) : Prop :=
  ∃ r, out = concat (take (Z.to_nat i) ws) ++ r ∧ Z.of_nat (length r) = Z.of_nat b * (n - i).

Lemma restored_write i out m :
  0 ≤ i < n → restored i out → ws !! Z.to_nat i = Some m → word_code sg m < 2 ^ 31 →
  yields (_Rice_WriteWord out i f (word_code sg m)) (restored (i + 1)).
Proof.
  intros Hi (r & -> & Hr) Hm Hlt. pose proof (write_word_spec f b sg Hf ws (Z.to_nat i) m r Hws Hm Hlt) as Hw.
  rewrite Z2Nat.id in Hw by lia. rewrite Hw by nia. cbn [yields]. exists (drop b r).
  replace (Z.to_nat (i + 1)) with (S (Z.to_nat i)) by lia. split; [done|]. rewrite length_drop. nia.
Qed.

Lemma restored_all out : restored n out → out = concat ws.
Proof.
  intros (r & -> & Hr). unfold n in *. rewrite Nat2Z.id, firstn_all. destruct r; [by rewrite app_nil_r | simpl in Hr; lia].
Qed.

Lemma rice_decode_loop_spec inb k0 hist out s :
  1 ≤ k0 ≤ 31 → length hist = 16%nat → rice_reads inb s (rice_codes xs k0 0 (length ws)) → restored 0 out →
  yields (for_up (Z.to_nat n) 0 (λ i '(k, hist, out, s),
      k ← rice_revise_k i k hist;
      '(x, s) ← _Rice_DecodeWord inb k s;
      out ← _Rice_WriteWord out i f x;
      n ← _Rice_NumBits x;
      hist ← arr_set hist (i mod RICE_HISTORY) n;
      Ok (k, hist, out, s)) (k0, hist, out, s)) (λ '(_, _, out, _), out = concat ws).
Proof.
  intros Hk0 Hhl Hr Hout. eapply yields_mono.
  - apply (for_up_inv (λ i '(k, hist, out, s), (i ≤ 16 → k = k0 ∨ i = 16) ∧ hist_ok xs i hist ∧ restored i out ∧
      rice_reads inb s (rice_codes xs k0 (Z.to_nat i) (length ws - Z.to_nat i)))).
    + split_and!; [auto | split; [done | intros; lia] | done |]. by rewrite Nat.sub_0_r.
    + intros i [[[k h] o] s'] Hi (Hk & Hh & Ho & Hr').
      assert (0 ≤ i < n) as Hin by (unfold n in *; lia).
      apply yields_bind. eapply yields_mono; [apply (revise_k_spec xs xs_range k0); [done | intros; destruct Hk; lia]|].
      intros k' ->. destruct (word_at i Hin) as (m & Hm & Hxi & _ & Hx).
      replace (length ws - Z.to_nat i)%nat with (S (length ws - S (Z.to_nat i))) in Hr' by (unfold n in *; lia).
      rewrite rice_codes_cons, Z2Nat.id, Hxi in Hr' by lia. pose proof (k_at_range xs xs_range k0 i Hk0).
      apply yields_bind. eapply yields_mono; [apply (decode_word_spec _ _ _ _ _ Hr'); lia|]. intros [x s2] [-> Hr2].
      apply yields_bind. eapply yields_mono; [apply restored_write; [done | done | done | lia]|]. intros o' Ho'.
      apply yields_bind. eapply yields_mono; [apply num_bits_spec; lia|]. intros nb ->. rewrite <- Hxi.
      apply yields_bind. eapply yields_mono; [apply hist_step; [lia | done]|]. intros h' Hh'. cbn [yields].
      replace (Z.to_nat (i + 1)) with (S (Z.to_nat i)) by lia. split_and!; [|done|done|done].
      intros Hi16. destruct (decide (i + 1 = 16)); [by right | left]. unfold k_at, RICE_HISTORY. destruct (Z.leb_spec 16 i); [lia | done].
  - intros [[[k h] o] s'] (_ & _ & Ho & _). apply restored_all. by rewrite Z.add_0_l, Z2Nat.id in Ho by (unfold n; lia).
Qed.

Lemma raw_decode_spec inb out s :
  rice_reads inb s (raw (length ws)) → restored 0 out →
  yields (for_up (Z.to_nat n) 0 (λ i '(out, s),
      '(x, s) ← rice_read_low inb (Z.to_nat (8 * Z.of_nat b)) 0 s;
      out ← _Rice_WriteWord out i f x;
      Ok (out, s)) (out, s)) (λ '(out, _), out = concat ws).
Proof.
  intros Hr Hout. destruct insize_words as (_ & Hb & _). eapply yields_mono.
  - apply (for_up_inv (λ i '(out, s), restored i out ∧
      rice_reads inb s (concat (to_bits (8 * b) <$> drop (Z.to_nat i) xs)))).
    + split; [done|]. unfold raw in Hr. unfold xs in Hr at 1. rewrite <- (length_fmap (word_code sg)), firstn_all in Hr. done.
    + intros i [o s'] Hi [Ho Hr']. assert (0 ≤ i < n) as Hin by (unfold n in *; lia).
      destruct (word_at i Hin) as (m & Hm & _ & _ & Hx).
      assert (xs !! Z.to_nat i = Some (word_code sg m)) as Hxi by (unfold xs; by rewrite list_lookup_fmap, Hm).
      rewrite (drop_S _ _ _ Hxi), fmap_cons in Hr'. cbn [concat] in Hr'.
      replace (Z.to_nat (8 * Z.of_nat b)) with (8 * b)%nat by lia. apply yields_bind.
      eapply yields_mono; [apply (rice_read_low_spec _ _ _ _ _ _ Hr'); [lia|]|].
      { rewrite Z.mul_1_l. apply Z.pow_le_mono_r; lia. }
      intros [x s2] [-> Hr2]. rewrite Z.mul_0_l, Z.add_0_l, Z.mod_small.
      2: { pose proof (word_code_bits f b sg Hf ws (Z.to_nat i) m Hws Hm). lia. }
      apply yields_bind. eapply yields_mono; [apply restored_write; [done | done | done | lia]|]. intros o' Ho'. cbn [yields].
      by replace (Z.to_nat (i + 1)) with (S (Z.to_nat i)) by lia.
  - intros [o s'] [Ho _]. apply restored_all. by rewrite Z.add_0_l, Z2Nat.id in Ho by (unfold n; lia).
Qed.

Lemma rice_uncompress_spec hist out size c :
  length hist = 16%nat → length out = length (concat ws) → rice_result size c →
  size ≤ insize ∨ arr_get c 0 = Ok 0 →
  yields (Rice_Uncompress hist (take (Z.to_nat size) c) out size insize f) (λ out', out' = concat ws).
Proof.
  intros Hh Hol (Hs & Hcl & k0 & Hk0 & Hget & Hraw & Hcoded) Hgood. destruct wordsize_spec as (Hwz & Hsh & Hdiv).
  destruct insize_words as (Hin & Hb & Hn1). unfold Rice_Uncompress. rewrite Hwz, Hsh, Hdiv.
  destruct (Z.eqb_spec n 0); [lia|]. cbn [_Rice_InitBitstream rice_NumBytes].
  assert (restored 0 out) as Hout.
  { exists out. split; [done|]. rewrite Hol. fold insize. lia. }
  set (inb := take (Z.to_nat size) c) in *.
  assert (∀ w, reads inb (bs 0) (to_bits 8 k0 ++ w) → arr_get inb 0 = Ok k0 ∧ rice_reads inb (RiceStream 8 size) w) as Hstart.
  { intros w Hr. destruct (first_byte_reads _ _ _ Hr ltac:(lia)) as [H0 Hr8]. split; [done|].
    assert (Z.of_nat (length inb) = size) by (unfold inb; rewrite length_take; lia).
    split_and!; cbn [rice_BitPos rice_NumBytes]; [lia | lia | unfold insize in *; lia | done]. }
  destruct (decide (k0 = 0)) as [-> | Hne].
  - destruct (Hstart _ (Hraw eq_refl)) as [-> Hr]. cbn [mbind outcome_bind]. change (0 =? 0) with true. cbn iota.
    apply yields_bind. eapply yields_mono; [by apply raw_decode_spec|]. by intros [o s] ->.
  - assert (size ≤ insize) as Hle by (destruct Hgood; [done | congruence]).
    destruct (Hstart _ (Hcoded ltac:(lia) Hle)) as [-> Hr]. cbn [mbind outcome_bind].
    destruct (Z.eqb_spec k0 0); [done|]. unfold n in Hr at 1. rewrite Nat2Z.id in Hr.
    apply yields_bind. eapply yields_mono; [by apply (rice_decode_loop_spec inb k0); [lia | ..]|]. by intros [[[k h] o] s] ->.
Qed.

End Coder.

(** C31: Rice coding round-trips.  For words of any of the six formats whose codes have
    at most 31 bits (all 8- and 16-bit words do), Rice_Compress stays inside an output
    buffer of one byte more than the data and returns a size within it; if that
    size is not more than the data, or the first byte says that the words were
    stored as they are, Rice_Uncompress gives the data back. *)
Theorem rice_round_trip (format : Z) (bytes : nat) (signed : bool) (ws : list (list Z)) (hist hist' out out' : list Z) :
  rice_format format bytes signed → rice_words bytes ws → Forall (λ m, word_code signed m < 2 ^ 31) ws →
  let data := concat ws in let n := Z.of_nat (length data) in
  1 ≤ n < 2 ^ 28 → length hist = 16%nat → length hist' = 16%nat →
  byte_list out → Z.of_nat (length out) = n + 1 → length out' = length data →
  ∃ size c, Rice_Compress hist data out n format = Ok (size, c) ∧ 0 < size ≤ n + 1 ∧
    (size ≤ n ∨ arr_get c 0 = Ok 0 → Rice_Uncompress hist' (take (Z.to_nat size) c) out' size n format = Ok data).
Proof.
  intros Hf Hws Hsmall data n Hn Hh Hh' Hout Hol Hol'.
  assert (1 ≤ length ws)%nat as Hw1 by (destruct ws; [unfold n, data in Hn; simpl in Hn; lia | simpl; lia]).
  pose proof (rice_compress_spec format bytes signed Hf ws Hws Hw1 Hsmall (proj2 Hn) hist out Hh Hout Hol) as Hc.
  unfold n, data. destruct (Rice_Compress _ _ _ _ _) as [[size c]|]; [|done]. exists size, c. split; [done|]. split; [apply Hc|].
  intros Hgood.
  pose proof (rice_uncompress_spec format bytes signed Hf ws Hws Hw1 Hsmall (proj2 Hn) hist' out' size c Hh' Hol' Hc Hgood) as Hu.
  destruct (Rice_Uncompress _ _ _ _ _ _); [by rewrite Hu | done].
Qed.

Lemma rice_round_trip_witness :
  ∃ size c, Rice_Compress (replicate 16 0) [1; 2; 255; 3; 4; 0; 0; 250] (replicate 9 0) 8 RICE_FMT_INT8 = Ok (size, c) ∧
    0 < size ≤ 8 + 1 ∧
    (size ≤ 8 ∨ arr_get c 0 = Ok 0 →
     Rice_Uncompress (replicate 16 7) (take (Z.to_nat size) c) (replicate 8 0) size 8 RICE_FMT_INT8 = Ok [1; 2; 255; 3; 4; 0; 0; 250]).
Proof.
  apply (rice_round_trip RICE_FMT_INT8 1 true [[1]; [2]; [255]; [3]; [4]; [0]; [0]; [250]] (replicate 16 0) (replicate 16 7) (replicate 9 0) (replicate 8 0)).
  - constructor.
  - repeat constructor; lia.
  - repeat constructor; vm_compute; reflexivity.
  - simpl. lia.
  - reflexivity.
  - reflexivity.
  - apply Forall_replicate. lia.
  - reflexivity.
  - reflexivity.
Defined.

(** The last word can be lost.  The coder tests for a full buffer before each
    word, not after the last one: the byte 255 compresses to two bytes, which are
    decoded as 254, although the buffer has the documented size. *)
Theorem rice_loses_last_word :
  Rice_Compress (replicate 16 0) [255] [0; 0] 1 RICE_FMT_UINT8 = Ok (2, [8; 127]) ∧
  Rice_Uncompress (replicate 16 0) [8; 127] [0] 2 1 RICE_FMT_UINT8 = Ok [254].
Proof. split; vm_compute; reflexivity. Qed.

(** 32-bit words have no round trip without the bound on their codes.  The
    smallest signed word comes back as 0, and a first word of 32 information
    bits is shifted by 32. *)
Theorem rice_32_bit_words :
  Rice_Compress (replicate 16 0) [128; 0; 0; 0; 0; 0; 0; 0; 0; 0; 0; 0] (replicate 13 0) 12 RICE_FMT_INT32 =
    Ok (12, [11; 255; 255; 255; 251; 255; 253; 255; 248; 0; 0; 0; 0]) ∧
  Rice_Uncompress (replicate 16 0) [11; 255; 255; 255; 251; 255; 253; 255; 248; 0; 0; 0] (replicate 12 0) 12 12 RICE_FMT_INT32 =
    Ok (replicate 12 0) ∧
  Rice_Compress (replicate 16 0) [128; 0; 0; 0] (replicate 5 0) 4 RICE_FMT_UINT32 = Fault BadShift.
Proof. split_and!; vm_compute; reflexivity. Qed.
