(* ===== verification/Rle.v ===== *)
(** * libbcl/rle.c: run-length coding

    [RLE_Compress] and [RLE_Uncompress] are the two functions of the file; their
    loops are [iter] and [for_up] of the prelude.  [rle_code m e d] is the
    format: the bytes [e] stand for the data [d] when [m] is the marker.  The
    compressor writes a code of its input, the decompressor writes what a code
    stands for; the round trip and the size bound follow. *)

From S2P Require Import Prelude Bits Bcl.

(** ** The compressor *)

Definition _RLE_WriteRep (o : buf) (marker symbol count : Z) : outcome buf :=
  if count <=? 3 then
    if symbol =? marker then
      o ← put o marker;
      put o (u32 (count - 1))
    else for_up (Z.to_nat count) 0 (λ _ o, put o symbol) o
  else
    o ← put o marker;
    let count := u32 (count - 1) in
    o ← (if 128 <=? count then put o (Z.lor (Z.shiftr count 8) 0x80) else Ok o);
    o ← put o (Z.land count 0xff);
    put o symbol.

Definition _RLE_WriteNonRep (o : buf) (marker symbol : Z) : outcome buf :=
  if symbol =? marker then
    o ← put o marker;
    put o 0
  else put o symbol.

(** The variables of the main loop. *)
Record rle_vars := RleVars {
  rle_byte1 : Z;
  rle_byte2 : Z;
  rle_inpos : Z;
  rle_count : Z;
  rle_out : buf;
}.

(** The inner [while]: read on while the byte repeats. *)
Definition rle_scan (inb : list Z) (insize byte1 : Z) (v : Z * Z * Z) :
    outcome (Z * Z * Z + Z * Z * Z) :=
  let '(byte2, inpos, count) := v in
  if (inpos <? insize) && (byte1 =? byte2) && (count <? 32768) then
    byte2 ← arr_get inb inpos;
    Ok (inl (byte2, u32 (inpos + 1), u32 (count + 1)))
  else Ok (inr v).

(** What one round of the main loop writes, and the variables after it. *)
Definition rle_round (inb : list Z) (insize marker : Z) (v : rle_vars) : outcome rle_vars :=
  let '(RleVars byte1 byte2 inpos count o) := v in
  if byte1 =? byte2 then
    '(byte2, inpos, count) ←
      iter (S (Z.to_nat insize)) (rle_scan inb insize byte1) (byte2, inpos, count);
    if byte1 =? byte2 then
      o ← _RLE_WriteRep o marker byte1 count;
      if inpos <? insize then
        byte1 ← arr_get inb inpos;
        Ok (RleVars byte1 byte2 (u32 (inpos + 1)) 1 o)
      else Ok (RleVars byte1 byte2 inpos 0 o)
    else
      o ← _RLE_WriteRep o marker byte1 (u32 (count - 1));
      Ok (RleVars byte2 byte2 inpos 1 o)
  else
    o ← _RLE_WriteNonRep o marker byte1;
    Ok (RleVars byte2 byte2 inpos 1 o).

Definition rle_step (inb : list Z) (insize marker : Z) (v : rle_vars) :
    outcome (rle_vars + rle_vars) :=
  '(RleVars byte1 byte2 inpos count o) ← rle_round inb insize marker v;
  v ← (if inpos <? insize then
         byte2 ← arr_get inb inpos;
         Ok (RleVars byte1 byte2 (u32 (inpos + 1)) 2 o)
       else Ok (RleVars byte1 byte2 inpos count o));
  Ok (if (rle_inpos v <? insize) || (2 <=? rle_count v) then inl v else inr v).

Definition RLE_Compress (inb out : list Z) (insize : Z) : outcome (Z * list Z) :=
  if insize <? 1 then Ok (0, out)
  else
    marker ← least_common inb insize;
    out ← arr_set out 0 marker;
    byte1 ← arr_get inb 0;
    v ← (if 2 <=? insize then
           byte2 ← arr_get inb 1;
           iter (S (Z.to_nat insize)) (rle_step inb insize marker)
             (RleVars byte1 byte2 2 2 (out, 1))
         else Ok (RleVars byte1 0 1 1 (out, 1)));
    o ← (if rle_count v =? 1 then _RLE_WriteNonRep (rle_out v) marker (rle_byte1 v)
         else Ok (rle_out v));
    Ok (i32 o.2, o.1).

(** ** The decompressor *)

(** One code: a literal, a few markers, or a run. *)
Definition rle_decode_one (inb : list Z) (marker : Z) (v : Z * buf) : outcome (Z * buf) :=
  let '(inpos, o) := v in
  symbol ← arr_get inb inpos;
  let inpos := u32 (inpos + 1) in
  if symbol =? marker then
    count ← arr_get inb inpos;
    let inpos := u32 (inpos + 1) in
    if count <=? 2 then
      o ← for_up (Z.to_nat (count + 1)) 0 (λ _ o, put o marker) o;
      Ok (inpos, o)
    else
      '(count, inpos) ←
        (if testz (Z.land count 0x80) then
           b ← arr_get inb inpos;
           Ok (Z.shiftl (Z.land count 0x7f) 8 + b, u32 (inpos + 1))
         else Ok (count, inpos));
      symbol ← arr_get inb inpos;
      o ← for_up (Z.to_nat (count + 1)) 0 (λ _ o, put o symbol) o;
      Ok (u32 (inpos + 1), o)
  else
    o ← put o symbol;
    Ok (inpos, o).

Definition RLE_Uncompress (inb out : list Z) (insize : Z) : outcome (list Z) :=
  if insize <? 1 then Ok out
  else
    marker ← arr_get inb 0;
    o ← decode_loop (rle_decode_one inb marker) (Z.to_nat insize) insize (1, (out, 0));
    Ok o.1.

(** ** The format *)

Inductive rle_code (m : Z) : list Z → list Z → Prop :=
| rle_nil : rle_code m [] []
| rle_literal s e d :
    in_u8 s → s ≠ m → rle_code m e d → rle_code m (s :: e) (s :: d)
| rle_markers n e d :
    0 ≤ n ≤ 2 → rle_code m e d →
    rle_code m (m :: n :: e) (replicate (Z.to_nat (n + 1)) m ++ d)
| rle_short n s e d :
    3 ≤ n < 128 → in_u8 s → rle_code m e d →
    rle_code m (m :: n :: s :: e) (replicate (Z.to_nat (n + 1)) s ++ d)
| rle_long hi lo s e d :
    0 ≤ hi < 128 → in_u8 lo → in_u8 s → rle_code m e d →
    rle_code m (m :: (128 + hi) :: lo :: s :: e)
      (replicate (Z.to_nat (256 * hi + lo + 1)) s ++ d).

Lemma rle_code_app m e1 d1 e2 d2 :
  rle_code m e1 d1 → rle_code m e2 d2 → rle_code m (e1 ++ e2) (d1 ++ d2).
Proof. induction 1; intros; simpl; rewrite <- ?app_assoc; try constructor; auto. Qed.

Lemma rle_code_bytes m e d : in_u8 m → rle_code m e d → byte_list e.
Proof. intros Hm. induction 1; repeat constructor; auto; lia. Qed.

(** ** The compressor writes a code *)

(** The chunk a call appends to the output: a code of [d], no longer than [d]
    except for the markers in it. *)
Definition rle_chunk (m : Z) (w d : list Z) (cap : Z) (o : buf) : Prop :=
  ∃ e, rle_code m e d ∧ Z.of_nat (length e) ≤ Z.of_nat (length d) + occ m d ∧
       wrote o (w ++ e) cap.

Lemma rle_code_literals m s n :
  in_u8 s → s ≠ m → rle_code m (replicate n s) (replicate n s).
Proof. intros. induction n; simpl; by constructor. Qed.

Lemma rle_chunk_intro m w d cap o e :
  wrote o (w ++ e) cap → rle_code m e d →
  Z.of_nat (length e) ≤ Z.of_nat (length d) + occ m d → rle_chunk m w d cap o.
Proof. intros. by exists e. Qed.

Section Write.
Context (o : buf) (w : list Z) (cap m s : Z).
Context (Hw : wrote o w cap) (Hcap : cap < 2 ^ 32) (Hm : in_u8 m) (Hs : in_u8 s).

Lemma write_nonrep_spec :
  Z.of_nat (length w) + 1 + occ m [s] ≤ cap →
  yields (_RLE_WriteNonRep o m s) (rle_chunk m w [s] cap).
Proof.
  rewrite occ_cons. change (occ m []) with 0. unfold _RLE_WriteNonRep.
  destruct (Z.eqb_spec s m) as [->|Hne]; simpl b2z; intros Hroom.
  - put_next o1 H1. put_next o2 H2.
    apply (rle_chunk_intro _ _ _ _ _ _ H2).
    + apply (rle_markers _ 0 [] []); [lia | constructor].
    + rewrite occ_cons, Z.eqb_refl. pose proof (occ_range m []). simpl in *. lia.
  - put_next o1 H1. apply (rle_chunk_intro _ _ _ _ _ _ H1).
    + constructor; auto; constructor.
    + pose proof (occ_range m [s]). simpl in *. lia.
Qed.

(** A repetition coded as [e]. *)
Lemma rle_run_chunk o' e n :
  wrote o' (w ++ e) cap → rle_code m (e ++ []) (replicate (Z.to_nat n) s ++ []) →
  Z.of_nat (length e) ≤ n → rle_chunk m w (replicate (Z.to_nat n) s) cap o'.
Proof.
  rewrite !app_nil_r. intros Ho He Hn. apply (rle_chunk_intro _ _ _ _ _ _ Ho He).
  rewrite length_replicate. pose proof (occ_range m (replicate (Z.to_nat n) s)). lia.
Qed.

Lemma write_rep_spec count :
  1 ≤ count ≤ 32768 →
  Z.of_nat (length w) + count + occ m (replicate (Z.to_nat count) s) ≤ cap →
  yields (_RLE_WriteRep o m s count) (rle_chunk m w (replicate (Z.to_nat count) s) cap).
Proof.
  intros Hc Hroom. unfold _RLE_WriteRep. rewrite !wrapu_small by lia.
  pose proof (occ_range m (replicate (Z.to_nat count) s)).
  destruct (Z.leb_spec count 3) as [H3|H3].
  - destruct (Z.eqb_spec s m) as [->|Hne].
    + rewrite occ_replicate, Z.eqb_refl in Hroom. put_next o1 H1. put_next o2 H2.
      apply (rle_chunk_intro _ _ _ _ _ _ H2).
      * pose proof (rle_markers m (count - 1) [] [] ltac:(lia) (rle_nil m)) as Hcode.
        rewrite app_nil_r in Hcode. by replace (count - 1 + 1) with count in Hcode by lia.
      * rewrite length_replicate, occ_replicate, Z.eqb_refl. simpl. lia.
    + eapply yields_mono; [apply (put_run o w cap s (Z.to_nat count)); auto; lia|].
      intros o1 H1. apply (rle_chunk_intro _ _ _ _ _ _ H1); [by apply rle_code_literals | lia].
  - put_next o1 H1. rewrite (land_mask _ 8) by done.
    pose proof (Z.mod_pos_bound (count - 1) (2 ^ 8) ltac:(lia)).
    destruct (Z.leb_spec 128 (count - 1)) as [H128|H128].
    + rewrite Z.shiftr_div_pow2 by lia. change (2 ^ 8) with 256 in *.
      assert (0 ≤ (count - 1) / 256 < 128) by dlia.
      change 128 with (2 ^ 7). rewrite lor_pow2 by lia. change (2 ^ 7) with 128.
      put_next o2 Hw2. put_next o3 Hw3. put_next o4 Hw4.
      eapply rle_run_chunk; [exact Hw4 | | simpl; lia].
      pose proof (rle_long m ((count - 1) / 256) ((count - 1) mod 256) s [] []
        ltac:(lia) ltac:(lia) Hs (rle_nil m)) as Hcode.
      by replace (256 * ((count - 1) / 256) + (count - 1) mod 256 + 1) with count in Hcode by dlia.
    + rewrite Z.mod_small by lia. cbn [mbind outcome_bind].
      put_next o3 H3'. put_next o4 H4.
      eapply rle_run_chunk; [exact H4 | | simpl; lia].
      pose proof (rle_short m (count - 1) s [] [] ltac:(lia) Hs (rle_nil m)) as Hcode.
      by replace (count - 1 + 1) with count in Hcode by lia.
Qed.

End Write.

Section Compress.
Context (data : list Z) (cap m : Z).
Let n := Z.of_nat (length data).
Context (Hdata : byte_list data) (Hm : in_u8 m) (Hrare : 256 * occ m data ≤ n).
Context (Hroom : n + n / 256 + 1 ≤ cap) (Hcap : cap < 2 ^ 31).

(** [rle_done k o]: the first [k] bytes are coded in [o], after the marker. *)
Definition rle_done (k : Z) (o : buf) : Prop :=
  0 ≤ k ≤ n ∧ rle_chunk m [m] (take (Z.to_nat k) data) cap o.

(** [rle_run k c s]: from position [k] on, [s] is repeated [c] times. *)
Definition rle_run (k c s : Z) : Prop :=
  0 ≤ k ∧ 0 ≤ c ∧ k + c ≤ n ∧
  take (Z.to_nat (k + c)) data = take (Z.to_nat k) data ++ replicate (Z.to_nat c) s.

Lemma rle_run_snoc k c s :
  rle_run k c s → data !! Z.to_nat (k + c) = Some s → rle_run k (c + 1) s.
Proof.
  intros (? & ? & ? & Ht) Hs. pose proof (lookup_lt_Some _ _ _ Hs).
  split_and!; try (unfold n; lia).
  replace (Z.to_nat (k + (c + 1))) with (S (Z.to_nat (k + c))) by lia.
  rewrite (take_S_r _ _ _ Hs), Ht. replace (Z.to_nat (c + 1)) with (Z.to_nat c + 1)%nat by lia.
  by rewrite replicate_add, app_assoc.
Qed.

Lemma rle_run_one k s : 0 ≤ k → data !! Z.to_nat k = Some s → rle_run k 1 s.
Proof.
  intros Hk Hs. pose proof (lookup_lt_Some _ _ _ Hs). apply (rle_run_snoc k 0).
  - split_and!; try (unfold n; lia). by rewrite Z.add_0_r, app_nil_r.
  - by rewrite Z.add_0_r.
Qed.

Lemma data_byte k s : data !! k = Some s → in_u8 s.
Proof. exact (Forall_lookup_1 _ _ _ _ Hdata). Qed.

(** A call that appends the code of a run moves on past the run. *)
Lemma rle_extend k c s o f :
  rle_done k o → rle_run k c s →
  (∀ w, wrote o w cap → Z.of_nat (length w) + c + occ m (replicate (Z.to_nat c) s) ≤ cap →
        yields f (rle_chunk m w (replicate (Z.to_nat c) s) cap)) →
  yields f (rle_done (k + c)).
Proof.
  intros [Hk (e & He & Hle & Ho)] (? & ? & Hkc & Ht) Hf.
  assert (k + c + occ m (take (Z.to_nat (k + c)) data) + 1 ≤ cap) as Hfit.
  { pose proof (occ_take_le m data (Z.to_nat (k + c))). dlia. }
  rewrite length_take in Hle. rewrite Ht, occ_app in Hfit.
  eapply yields_mono; [apply (Hf _ Ho); rewrite length_app; simpl length; unfold n in *; lia|].
  intros o' (e' & He' & Hle' & Ho'). split; [lia|].
  exists (e ++ e'). rewrite Ht. split_and!; [by apply rle_code_app | |].
  - rewrite !length_app, occ_app, length_take. unfold n in *. lia.
  - by rewrite app_assoc.
Qed.

Lemma rle_extend_rep k c s o :
  rle_done k o → rle_run k c s → 1 ≤ c ≤ 32768 → in_u8 s →
  yields (_RLE_WriteRep o m s c) (rle_done (k + c)).
Proof.
  intros Hd Hr Hc Hs. apply (rle_extend k c s o _ Hd Hr).
  intros w Hw Hfit. apply write_rep_spec; auto; lia.
Qed.

Lemma rle_extend_one k s o :
  rle_done k o → data !! Z.to_nat k = Some s →
  yields (_RLE_WriteNonRep o m s) (rle_done (k + 1)).
Proof.
  intros Hd Hs. assert (0 ≤ k) by apply Hd. apply (rle_extend k 1 s o _ Hd).
  - by apply rle_run_one.
  - intros w Hw Hfit. pose proof (data_byte _ _ Hs).
    apply write_nonrep_spec; auto; simpl in Hfit; lia.
Qed.

(** The scan stops after the last repetition, or one byte after it. *)
Definition rle_scanned (k byte1 : Z) (v : Z * Z * Z) : Prop :=
  let '(byte2, inpos, count) := v in
  2 ≤ count ≤ 32768 ∧ inpos = k + count ∧ inpos ≤ n ∧
  rle_run k (count - 1) byte1 ∧ data !! Z.to_nat (inpos - 1) = Some byte2.

Lemma rle_scan_spec k byte1 v :
  rle_scanned k byte1 v →
  yields (iter (S (Z.to_nat n)) (rle_scan data n byte1) v) (λ '(byte2, inpos, count),
    rle_scanned k byte1 (byte2, inpos, count) ∧
    (byte1 = byte2 → rle_run k count byte1)).
Proof.
  intros Hv. apply (iter_inv (rle_scanned k byte1) (λ '(_, inpos, _), Z.to_nat (n - inpos))); [done| |].
  - destruct v as [[b i] c]. unfold rle_scanned, rle_run in Hv. lia.
  - clear v Hv. intros [[byte2 inpos] count] (Hc & -> & Hi & Hr & Hb). unfold rle_scan.
    assert (byte1 = byte2 → rle_run k count byte1) as Hfull.
    { intros <-. replace count with (count - 1 + 1) by lia. apply rle_run_snoc; [done|].
      by replace (k + (count - 1)) with (k + count - 1) by lia. }
    destruct (Z.ltb_spec (k + count) n); [|by split].
    destruct (Z.eqb_spec byte1 byte2) as [Heq|]; [|by split].
    destruct (Z.ltb_spec count 32768); [|by split]. simpl.
    assert (0 ≤ k) by apply Hr.
    destruct (arr_get_in_range data (k + count)) as (b & -> & Hb2); [unfold n in *; lia|]. simpl.
    rewrite !wrapu_small by (unfold n in *; dlia).
    split; [|unfold n in *; lia]. split_and!; try lia.
    + replace (count + 1 - 1) with count by lia. auto.
    + by replace (k + count + 1 - 1) with (k + count) by lia.
Qed.

(** Before a round: two bytes are read, none of them coded. *)
Definition rle_ready (v : rle_vars) : Prop :=
  let '(RleVars byte1 byte2 inpos count o) := v in
  count = 2 ∧ 2 ≤ inpos ≤ n ∧ rle_done (inpos - 2) o ∧
  data !! Z.to_nat (inpos - 2) = Some byte1 ∧ data !! Z.to_nat (inpos - 1) = Some byte2.

(** After one: at most one byte is read and not coded. *)
Definition rle_left (v : rle_vars) : Prop :=
  let '(RleVars byte1 byte2 inpos count o) := v in
  0 ≤ count ≤ 1 ∧ rle_done (inpos - count) o ∧ inpos ≤ n ∧ (count = 0 → inpos = n) ∧
  (count = 1 → data !! Z.to_nat (inpos - 1) = Some byte1).

Lemma rle_round_spec v :
  rle_ready v →
  yields (rle_round data n m v) (λ v', rle_left v' ∧ rle_inpos v ≤ rle_inpos v').
Proof.
  destruct v as [byte1 byte2 inpos count o]. intros (-> & Hi & Hd & Hb1 & Hb2). unfold rle_round.
  assert (n < 2 ^ 31) as Hn by dlia.
  pose proof (data_byte _ _ Hb1) as Hbyte.
  destruct (Z.eqb_spec byte1 byte2) as [<-|Hne].
  - apply yields_bind. eapply yields_mono.
    { apply (rle_scan_spec (inpos - 2)). split_and!; try lia; [|done].
      by apply rle_run_one; [lia|]. }
    intros [[b2 i] c] [(Hc & -> & Hin & Hrun & Hlook) Hfull].
    destruct (Z.eqb_spec byte1 b2) as [<-|Hne].
    + apply yields_bind. eapply yields_mono; [eapply rle_extend_rep; eauto; lia|]. intros o' Hd'.
      case_cmp.
      * destruct (arr_get_in_range data (inpos - 2 + c)) as (b & -> & Hb); [unfold n in *; lia|]. simpl.
        rewrite wrapu_small by lia. split; [|lia].
        replace (inpos - 2 + c + 1 - 1) with (inpos - 2 + c) by lia. split_and!; auto; lia.
      * simpl. rewrite Z.sub_0_r. split; [|lia]. split_and!; auto; lia.
    + rewrite wrapu_small by lia. apply yields_bind.
      eapply yields_mono; [eapply rle_extend_rep; eauto; lia|]. intros o' Hd'. simpl.
      replace (inpos - 2 + (c - 1)) with (inpos - 2 + c - 1) in Hd' by lia.
      split; [|lia]. split_and!; auto; lia.
  - apply yields_bind. eapply yields_mono; [eapply rle_extend_one; eauto|]. intros o' Hd'. simpl.
    replace (inpos - 2 + 1) with (inpos - 1) in Hd' by lia. split; [|lia]. split_and!; auto; lia.
Qed.

Lemma rle_step_spec v :
  rle_ready v →
  yields (rle_step data n m v) (λ r,
    match r with
    | inl v' => rle_ready v' ∧ (Z.to_nat (n - rle_inpos v') < Z.to_nat (n - rle_inpos v))%nat
    | inr v' => rle_left v' ∧ rle_inpos v' = n
    end).
Proof.
  intros Hv. assert (n < 2 ^ 31) as Hn by dlia. unfold rle_step. apply yields_bind.
  eapply yields_mono; [by apply rle_round_spec|].
  intros [byte1 byte2 inpos count o] [(Hc & Hd & Hi & H0 & H1) Hle]. simpl in Hle.
  destruct (Z.ltb_spec inpos n) as [Hlt|Hge].
  - assert (count = 1) as -> by (destruct (decide (count = 0)); lia).
    assert (0 ≤ inpos - 1) by apply Hd.
    destruct (arr_get_in_range data inpos) as (b & -> & Hb); [unfold n in *; lia|]. simpl.
    rewrite wrapu_small by lia. rewrite orb_true_r. simpl.
    split; [|lia].
    replace (inpos + 1 - 2) with (inpos - 1) by lia. replace (inpos + 1 - 1) with inpos by lia.
    split_and!; auto; lia.
  - simpl. destruct (Z.ltb_spec inpos n); [lia|]. destruct (Z.leb_spec 2 count); [lia|]. simpl.
    split_and!; auto; lia.
Qed.

End Compress.

(** What the decompressor and the bound on the size rely on. *)
Definition rle_coded (d : list Z) (size : Z) (out : list Z) : Prop :=
  ∃ m e, in_u8 m ∧ rle_code m e d ∧ size = 1 + Z.of_nat (length e) ∧
         size ≤ Z.of_nat (length d) + Z.of_nat (length d) / 256 + 1 ∧
         ∃ r, out = (m :: e) ++ r.

Lemma rle_compress_spec data out :
  let n := Z.of_nat (length data) in
  byte_list data → 1 ≤ n → n + n / 256 + 1 ≤ Z.of_nat (length out) < 2 ^ 31 →
  yields (RLE_Compress data out n) (λ '(size, out'),
    rle_coded data size out' ∧ length out' = length out).
Proof.
  intros n Hdata Hn [Hroom Hcap]. assert (n < 2 ^ 31) as Hn31 by dlia.
  set (cap := Z.of_nat (length out)) in *. unfold RLE_Compress.
  destruct (Z.ltb_spec n 1); [lia|].
  apply yields_bind.
  eapply yields_mono; [rewrite <- (app_nil_r data) at 1; apply least_common_spec; [done | lia]|].
  intros m [Hm Hrare]. destruct out as [|c out]; [unfold cap in *; simpl in *; dlia|].
  change (c :: out) with ([] ++ c :: out) at 1. rewrite arr_set_app by done.
  cbn [mbind outcome_bind app].
  assert (rle_done data cap m 0 (m :: out, 1)) as Hd0.
  { split; [lia|]. exists []. split_and!; [constructor | done |]. by exists out. }
  destruct (arr_get_in_range data 0) as (byte1 & -> & Hb1); [lia|]. cbn [mbind outcome_bind].
  apply yields_bind, (yields_mono _ (λ v, rle_left data cap m v ∧ rle_inpos v = n)).
  { destruct (Z.leb_spec 2 n).
    - destruct (arr_get_in_range data 1) as (byte2 & -> & Hb2); [lia|]. cbn [mbind outcome_bind].
      apply (iter_inv (rle_ready data cap m) (λ v, Z.to_nat (n - rle_inpos v))).
      + split_and!; auto; lia.
      + simpl. lia.
      + intros v Hv. by apply rle_step_spec.
    - simpl. split_and!; auto; lia. }
  intros [byte1' byte2 inpos count o] [(Hc & Hd & _ & _ & Hlast) Hi]. simpl in Hi |- *. subst inpos.
  apply yields_bind, (yields_mono _ (rle_done data cap m n)).
  { destruct (Z.eqb_spec count 1) as [->|].
    - replace n with (n - 1 + 1) at 1 by lia. apply rle_extend_one; auto; lia.
    - replace count with 0 in Hd by lia. by rewrite Z.sub_0_r in Hd. }
  intros [out' pos] [_ (e & He & Hle & r & Hr & Hpos & Hlen)]. simpl in *.
  replace (Z.to_nat n) with (length data) in * by lia. rewrite firstn_all in *.
  assert (pos ≤ n + n / 256 + 1) by dlia.
  rewrite wraps_small by (change (32 - 1) with 31; lia).
  split; [|unfold cap in Hlen; simpl in *; lia].
  exists m, e. split_and!; auto; try lia. by exists r.
Qed.

(** ** The decompressor writes what a code stands for *)

Section Uncompress.
Context (m cap : Z) (inb d : list Z).
Context (Hm : in_u8 m) (Hin : Z.of_nat (length inb) < 2 ^ 31).
Context (Hd : Z.of_nat (length d) ≤ cap) (Hcap : cap < 2 ^ 31).

(** [e] is left to read, and what it stands for is left to write. *)
Definition rle_reading (v : Z * buf) (e : list Z) : Prop :=
  ∃ w rest d0 d', inb = w ++ e ++ rest ∧ v.1 = Z.of_nat (length w) ∧ rle_code m e d' ∧
                  d = d0 ++ d' ∧ wrote v.2 d0 cap.

(** After a code [e0], with [x] written. *)
Lemma rle_read_intro w rest e0 e d0 x d1 o pos v' :
  inb = w ++ (e0 ++ e) ++ rest → rle_code m e d1 → d = d0 ++ x ++ d1 →
  wrote v'.2 (d0 ++ x) cap → e0 ≠ [] → pos = Z.of_nat (length w) →
  v'.1 = pos + Z.of_nat (length e0) →
  read_one rle_reading (pos, o) (e0 ++ e) v'.
Proof.
  intros Hin' He Hd' Ho Hne -> Hv. exists e0, e. split_and!; auto.
  exists (w ++ e0), rest, (d0 ++ x), d1. rewrite Hin', Hd', length_app, <- !app_assoc.
  split_and!; auto. lia.
Qed.

(** Writing a run. *)
Lemma rle_put_run o d0 d1 x k (Q : Z * buf → Prop) f :
  wrote o d0 cap → d = d0 ++ replicate (Z.to_nat k) x ++ d1 → in_u8 x →
  (∀ o', wrote o' (d0 ++ replicate (Z.to_nat k) x) cap → yields (f o') Q) →
  yields (o' ← for_up (Z.to_nat k) 0 (λ _ o, put o x) o; f o') Q.
Proof.
  intros Ho Hd' Hx Hf. apply yields_bind.
  eapply yields_mono; [apply (put_run o d0 cap x _ Ho); auto; [|lia]|done].
  rewrite Hd', !length_app, length_replicate in Hd. lia.
Qed.

Lemma rle_decode_one_spec v e :
  e ≠ [] → rle_reading v e → yields (rle_decode_one inb m v) (read_one rle_reading v e).
Proof.
  destruct v as [inpos o]. intros Hne (w & rest & d0 & d' & Hw & Hpos & He & Hd' & Ho).
  simpl in Hpos, Ho. subst inpos.
  assert (∀ k x, arr_get (e ++ rest) k = Ok x → 0 ≤ k →
    arr_get inb (Z.of_nat (length w) + k) = Ok x) as Hget.
  { intros k x <- Hk. rewrite Hw. by apply arr_get_at. }
  unfold rle_decode_one. rewrite Hw, !length_app in Hin.
  rewrite <- (Z.add_0_r (Z.of_nat (length w))) at 1.
  inversion He as [|s e1 d1 Hs Hsm He1|k e1 d1 Hk He1|k s e1 d1 Hk Hs He1|hi lo s e1 d1 Hhi Hlo Hs He1];
    subst e d'; [done| | | |]; simpl length in Hin;
    rewrite (Hget 0 _ eq_refl) by lia; cbn [mbind outcome_bind];
    rewrite ?Z.eqb_refl, ?(wrapu_small 32 (Z.of_nat (length w) + 1)) by lia.
  - destruct (Z.eqb_spec s m); [done|].
    apply yields_bind. eapply yields_mono; [apply (put_wrote _ _ _ s Ho); [|lia|lia]|].
    { rewrite Hd', length_app in Hd. simpl in Hd. lia. }
    intros o' Ho'. by eapply (rle_read_intro w rest [s] e1 d0 [s] d1).
  - rewrite (Hget 1 _ eq_refl) by lia. cbn [mbind outcome_bind].
    destruct (Z.leb_spec k 2); [|lia]. eapply rle_put_run; [done..|]. intros o' Ho'.
    eapply (rle_read_intro w rest [m; k] e1 d0 _ d1); simpl; try done. rewrite wrapu_small; lia.
  - rewrite (Hget 1 _ eq_refl) by lia. cbn [mbind outcome_bind].
    destruct (Z.leb_spec k 2); [lia|]. change 128 with (2 ^ 7).
    rewrite land_bit_test, (testbit_above k 7), !wrapu_small by lia. cbn [mbind outcome_bind].
    replace (Z.of_nat (length w) + 1 + 1) with (Z.of_nat (length w) + 2) by lia.
    rewrite (Hget 2 _ eq_refl) by lia. cbn [mbind outcome_bind].
    eapply rle_put_run; [done..|]. intros o' Ho'.
    eapply (rle_read_intro w rest [m; k; s] e1 d0 _ d1); simpl; try done. rewrite ?wrapu_small; lia.
  - rewrite (Hget 1 _ eq_refl) by lia. cbn [mbind outcome_bind].
    destruct (Z.leb_spec (128 + hi) 2); [lia|]. change 128 with (2 ^ 7) at 2.
    rewrite land_bit_test, testbit_div, !(wrapu_small 32 (Z.of_nat (length w) + 1 + 1)) by lia.
    replace ((128 + hi) / 2 ^ 7) with 1 by (change (2 ^ 7) with 128; dlia). cbn [Z.modulo Z.div_eucl Z.pos_div_eucl].
    change (1 mod 2 =? 1) with true. cbn [mbind outcome_bind].
    replace (Z.of_nat (length w) + 1 + 1) with (Z.of_nat (length w) + 2) by lia.
    rewrite (Hget 2 _ eq_refl) by lia. cbn [mbind outcome_bind].
    rewrite (wrapu_small 32 (Z.of_nat (length w) + 2 + 1)) by lia.
    replace (Z.of_nat (length w) + 2 + 1) with (Z.of_nat (length w) + 3) by lia.
    rewrite (Hget 3 _ eq_refl) by lia. cbn [mbind outcome_bind].
    rewrite (land_mask _ 7) by done. replace ((128 + hi) mod 2 ^ 7) with hi by (change (2 ^ 7) with 128; dlia).
    rewrite Z.shiftl_mul_pow2 by lia. replace (hi * 2 ^ 8) with (256 * hi) by lia.
    eapply rle_put_run; [done..|]. intros o' Ho'.
    eapply (rle_read_intro w rest [m; 128 + hi; lo; s] e1 d0 _ d1); simpl; try done. rewrite ?wrapu_small; lia.
Qed.

Lemma rle_reading_end v : rle_reading v [] → wrote v.2 d cap.
Proof.
  intros (? & ? & d0 & d' & _ & _ & Hcode & Hd' & Ho).
  assert (d' = []) as E by (by inversion Hcode). by rewrite Hd', E, app_nil_r.
Qed.

End Uncompress.

Lemma rle_uncompress_spec d size coded out :
  rle_coded d size coded → d ≠ [] → Z.of_nat (length coded) < 2 ^ 31 →
  Z.of_nat (length d) ≤ Z.of_nat (length out) < 2 ^ 31 →
  yields (RLE_Uncompress coded out size) (λ out', take (length d) out' = d ∧ length out' = length out).
Proof.
  intros (m & e & Hm & He & Hsize & _ & r & Hr) Hne Hin Hout. unfold RLE_Uncompress.
  destruct (Z.ltb_spec size 1); [lia|]. subst coded. cbn [mbind outcome_bind arr_get].
  change (arr_get ((m :: e) ++ r) 0) with (Ok m). cbn [mbind outcome_bind].
  assert (e ≠ []) as Hne' by (intros ->; by inversion He; subst).
  apply yields_bind. eapply yields_mono.
  - eapply (decode_loop_spec _ (rle_reading m (Z.of_nat (length out)) ((m :: e) ++ r) d) _ e _ _
      (λ o, wrote o d (Z.of_nat (length out))));
      [intros; by apply rle_decode_one_spec; try lia | intros v Hv; exact (rle_reading_end _ _ _ _ v Hv) | exact Hne' | | simpl; lia | lia].
    exists [m], r, [], d. split_and!; try done. by exists out.
  - intros o Ho. split; [exact (wrote_prefix _ _ _ Ho)|]. destruct Ho as (? & _ & _ & Hl). lia.
Qed.

(** ** The claims *)

(** C27: RLE round trip.  For every non-empty input and every output buffer of the
    size that rle.c documents (an 0.4% larger one plus one byte, here
    [n + n/256 + 1]), [RLE_Compress] stays inside its buffers and returns a
    size within that bound, and [RLE_Uncompress] of the bytes it wrote, into any
    buffer that can hold the data, stays inside its buffers and restores the
    input. *)
Theorem rle_round_trip data out restored :
  let n := Z.of_nat (length data) in
  byte_list data → 1 ≤ n →
  n + n / 256 + 1 ≤ Z.of_nat (length out) < 2 ^ 31 →
  n ≤ Z.of_nat (length restored) < 2 ^ 31 →
  ∃ size coded restored',
    RLE_Compress data out n = Ok (size, coded) ∧
    1 < size ≤ n + n / 256 + 1 ∧
    RLE_Uncompress (take (Z.to_nat size) coded) restored size = Ok restored' ∧
    take (length data) restored' = data.
Proof.
  intros n Hdata Hn Hout Hrestored.
  destruct (proj1 (yields_Ok _ _) (rle_compress_spec data out Hdata Hn Hout)) as ([size coded] & Hc & Hcoded & _).
  exists size, coded. destruct Hcoded as (m & e & Hm & He & Hsize & Hbound & r & Hr).
  assert (data ≠ []) as Hne by (intros ->; simpl in *; lia).
  assert (e ≠ []) as Hne' by (intros ->; by inversion He; subst).
  assert (take (Z.to_nat size) coded = m :: e) as ->.
  { subst coded. replace (Z.to_nat size) with (length (m :: e)) by (simpl; lia). apply take_app_length. }
  assert (1 < size) by (destruct e; [done | simpl in *; lia]).
  assert (n < 2 ^ 31) by dlia.
  assert (rle_coded data size (m :: e)) as Hcoded'.
  { exists m, e. split_and!; try done; try lia. exists []. by rewrite app_nil_r. }
  destruct (proj1 (yields_Ok _ _) (rle_uncompress_spec data size (m :: e) restored Hcoded' Hne
    ltac:(simpl; unfold n in *; dlia) Hrestored)) as (restored' & Hu & Htake & _).
  by exists restored'.
Qed.

Definition rle_example : list Z := [7; 7; 7; 7; 7; 0; 0; 9; 5; 5; 5; 1].

Lemma rle_round_trip_witness :
  ∃ size coded restored',
    RLE_Compress rle_example (replicate 13 0) 12 = Ok (size, coded) ∧
    1 < size ≤ 13 ∧
    RLE_Uncompress (take (Z.to_nat size) coded) (replicate 12 0) size = Ok restored' ∧
    take 12 restored' = rle_example.
Proof.
  apply (rle_round_trip rle_example (replicate 13 0) (replicate 12 0)).
  - repeat constructor; lia.
  - vm_compute. congruence.
  - vm_compute. intuition congruence.
  - vm_compute. intuition congruence.
Defined.
