(* ===== verification/Prs.v ===== *)
(** * libbcl/prs.c

    The operations of the PRS compressor and the decompressor.  A pointer into the
    source or the destination is an index into it.  [prs_run] applies a sequence of
    the compressor's operations, as its clients do; prs.c itself does not search
    for matches. *)

From S2P Require Import Prelude Bits Bcl.

(** ** The compressor *)

Record PRS_COMPRESSOR := Prs {
  prs_bitpos : Z;
  prs_controlbyteptr : Z;
  prs_srcptr : Z;
  prs_dstptr : Z;
  prs_src : list Z;
  prs_dst : list Z;
}.

(** Shift the bit into the control byte from above. *)
Definition prs_put_control_bit_nosave (pc : PRS_COMPRESSOR) (bit : Z) : outcome PRS_COMPRESSOR :=
  let '(Prs bitpos ctl srcptr dstptr src dst) := pc in
  c ← arr_get dst ctl;
  dst ← arr_set dst ctl (u8 (Z.lor (Z.shiftr c 1) (Z.shiftl (b2z (testz bit)) 7)));
  Ok (Prs (u8 (bitpos + 1)) ctl srcptr dstptr src dst).

(** The next control byte, when this one is full. *)
Definition prs_put_control_save (pc : PRS_COMPRESSOR) : PRS_COMPRESSOR :=
  let '(Prs bitpos ctl srcptr dstptr src dst) := pc in
  if 8 <=? bitpos then Prs 0 dstptr srcptr (dstptr + 1) src dst else pc.

Definition prs_put_control_bit (pc : PRS_COMPRESSOR) (bit : Z) : outcome PRS_COMPRESSOR :=
  pc ← prs_put_control_bit_nosave pc bit;
  Ok (prs_put_control_save pc).

Definition prs_put_static_data (pc : PRS_COMPRESSOR) (data : Z) : outcome PRS_COMPRESSOR :=
  let '(Prs bitpos ctl srcptr dstptr src dst) := pc in
  dst ← arr_set dst dstptr (u8 data);
  Ok (Prs bitpos ctl srcptr (dstptr + 1) src dst).

Definition prs_get_static_data (pc : PRS_COMPRESSOR) : outcome (Z * PRS_COMPRESSOR) :=
  let '(Prs bitpos ctl srcptr dstptr src dst) := pc in
  data ← arr_get src srcptr;
  Ok (data, Prs bitpos ctl (srcptr + 1) dstptr src dst).

Definition prs_init (src dst : list Z) : PRS_COMPRESSOR := Prs 0 0 0 1 src dst.

Definition prs_finish (pc : PRS_COMPRESSOR) : outcome PRS_COMPRESSOR :=
  pc ← prs_put_control_bit pc 0;
  pc ← prs_put_control_bit pc 1;
  pc ← (if negb (prs_bitpos pc =? 0) then
          let '(Prs bitpos ctl srcptr dstptr src dst) := pc in
          c ← arr_get dst ctl;
          dst ← arr_set dst ctl (u8 (Z.shiftr (Z.shiftl c bitpos) 8));
          Ok (Prs bitpos ctl srcptr dstptr src dst)
        else Ok pc);
  pc ← prs_put_static_data pc 0;
  prs_put_static_data pc 0.

Definition prs_rawbyte (pc : PRS_COMPRESSOR) : outcome PRS_COMPRESSOR :=
  pc ← prs_put_control_bit_nosave pc 1;
  '(data, pc) ← prs_get_static_data pc;
  pc ← prs_put_static_data pc data;
  Ok (prs_put_control_save pc).

Definition prs_shortcopy (pc : PRS_COMPRESSOR) (offset size : Z) : outcome PRS_COMPRESSOR :=
  let size := u8 (size - 2) in
  pc ← prs_put_control_bit pc 0;
  pc ← prs_put_control_bit pc 0;
  pc ← prs_put_control_bit pc (Z.land (Z.shiftr size 1) 1);
  pc ← prs_put_control_bit_nosave pc (Z.land size 1);
  pc ← prs_put_static_data pc (Z.land offset 0xFF);
  Ok (prs_put_control_save pc).

Definition prs_longcopy (pc : PRS_COMPRESSOR) (offset size : Z) : outcome PRS_COMPRESSOR :=
  if size <=? 9 then
    pc ← prs_put_control_bit pc 0;
    pc ← prs_put_control_bit_nosave pc 1;
    pc ← prs_put_static_data pc (Z.lor (Z.land (Z.shiftl offset 3) 0xF8) (Z.land (size - 2) 0x07));
    pc ← prs_put_static_data pc (Z.land (Z.shiftr offset 5) 0xFF);
    Ok (prs_put_control_save pc)
  else
    pc ← prs_put_control_bit pc 0;
    pc ← prs_put_control_bit_nosave pc 1;
    pc ← prs_put_static_data pc (Z.land (Z.shiftl offset 3) 0xF8);
    pc ← prs_put_static_data pc (Z.land (Z.shiftr offset 5) 0xFF);
    pc ← prs_put_static_data pc (size - 1);
    Ok (prs_put_control_save pc).

Definition prs_copy (pc : PRS_COMPRESSOR) (offset size : Z) : outcome PRS_COMPRESSOR :=
  pc ← (if (-0x100 <? offset) && (size <=? 5) then prs_shortcopy pc offset size
        else prs_longcopy pc offset size);
  let '(Prs bitpos ctl srcptr dstptr src dst) := pc in
  Ok (Prs bitpos ctl (srcptr + size) dstptr src dst).

(** ** The decompressor *)

(** Its source pointer, current control byte and bit count. *)
Record prs_reader := PrsReader {
  prs_sourceptr : Z;
  prs_currentbyte : Z;
  prs_bitsleft : Z;
}.

Definition prs_next_bit (inb : list Z) (s : prs_reader) : outcome (bool * prs_reader) :=
  let '(PrsReader p c bitpos) := s in
  let bitpos := u32 (bitpos - 1) in
  '(PrsReader p c bitpos) ←
    (if bitpos =? 0 then
       c ← arr_get inb p;
       Ok (PrsReader (p + 1) c 8)
     else Ok (PrsReader p c bitpos));
  Ok (testz (Z.land c 1), PrsReader p (Z.shiftr c 1) bitpos).

(** A command of the stream: a byte to copy from the source, the end, or a copy of
    [r3] bytes from the offset (as a 32-bit word). *)
Inductive prs_cmd :=
| PrsByte (src : Z)
| PrsEnd
| PrsCopy (offset r3 : Z).

Definition prs_command (inb : list Z) (s : prs_reader) : outcome (prs_cmd * prs_reader) :=
  '(flag, s) ← prs_next_bit inb s;
  if flag : bool then
    let '(PrsReader p c bitpos) := s in
    Ok (PrsByte p, PrsReader (p + 1) c bitpos)
  else
    '(flag, s) ← prs_next_bit inb s;
    if flag : bool then
      let '(PrsReader p c bitpos) := s in
      b0 ← arr_get inb p;
      b1 ← arr_get inb (p + 1);
      let r3 := Z.land b0 0xFF in
      let offset := Z.lor (Z.shiftl (Z.land b1 0xFF) 8) r3 in
      if offset =? 0 then Ok (PrsEnd, PrsReader (p + 2) c bitpos)
      else
        let r3 := Z.land r3 0x00000007 in
        let r5 := Z.lor (Z.shiftr offset 3) 0xFFFFE000 in
        if r3 =? 0 then
          b2 ← arr_get inb (p + 2);
          Ok (PrsCopy r5 (Z.land b2 0xFF + 1), PrsReader (p + 3) c bitpos)
        else Ok (PrsCopy r5 (r3 + 2), PrsReader (p + 2) c bitpos)
    else
      '(r3, s) ← for_up 2 0 (λ _ '(r3, s),
        '(flag, s) ← prs_next_bit inb s;
        Ok (Z.lor (Z.shiftl r3 1) (b2z flag), s)) (0, s);
      let '(PrsReader p c bitpos) := s in
      b0 ← arr_get inb p;
      Ok (PrsCopy (Z.lor b0 0xFFFFFF00) (r3 + 2), PrsReader (p + 1) c bitpos).

(** The copy loop: [destptr], and [r5] as an index into the destination. *)
Definition prs_copy_loop (out : list Z) (dest r5 t : Z) : outcome (list Z * Z) :=
  '(out, _, dest) ← for_up (Z.to_nat t) 0 (λ _ '(out, r5, dest),
    x ← arr_get out r5;
    out ← arr_set out dest x;
    Ok (out, r5 + 1, dest + 1)) (out, r5, dest);
  Ok (out, dest).

Definition prs_start (inb : list Z) : outcome prs_reader :=
  c ← arr_get inb 0;
  Ok (PrsReader 1 c 9).

(** One turn of the loop over commands, with the destination [out] and the
    position [dest] in it. *)
Definition prs_decompress_step (inb : list Z) (st : prs_reader * list Z * Z) :
    outcome (prs_reader * list Z * Z + Z * list Z) :=
  let '(s, out, dest) := st in
  '(cmd, s) ← prs_command inb s;
  match cmd with
  | PrsByte p =>
      x ← arr_get inb p;
      out ← arr_set out dest x;
      Ok (inl (s, out, dest + 1))
  | PrsEnd => Ok (inr (u32 dest, out))
  | PrsCopy offset r3 =>
      if r3 =? 0 then Ok (inl (s, out, dest))
      else
        '(out, dest) ← prs_copy_loop out dest (dest + i32 offset) r3;
        Ok (inl (s, out, dest))
  end.

Definition prs_decompress (inb out : list Z) : outcome (Z * list Z) :=
  s ← prs_start inb;
  iter (S (8 * length inb)) (prs_decompress_step inb) (s, out, 0).

(** The same command, as [prs_decompress_size] reads it. *)
Definition prs_size_command (inb : list Z) (s : prs_reader) : outcome (prs_cmd * prs_reader) :=
  '(flag, s) ← prs_next_bit inb s;
  if flag : bool then
    let '(PrsReader p c bitpos) := s in
    Ok (PrsByte p, PrsReader (p + 1) c bitpos)
  else
    '(flag, s) ← prs_next_bit inb s;
    if flag : bool then
      let '(PrsReader p c bitpos) := s in
      r3 ← arr_get inb p;
      b1 ← arr_get inb (p + 1);
      let offset := Z.lor (Z.shiftl b1 8) r3 in
      if offset =? 0 then Ok (PrsEnd, PrsReader (p + 2) c bitpos)
      else
        let r3 := Z.land r3 0x00000007 in
        let r5 := Z.lor (Z.shiftr offset 3) 0xFFFFE000 in
        if r3 =? 0 then
          r3 ← arr_get inb (p + 2);
          Ok (PrsCopy r5 (r3 + 1), PrsReader (p + 3) c bitpos)
        else Ok (PrsCopy r5 (r3 + 2), PrsReader (p + 2) c bitpos)
    else
      '(r3, s) ← for_up 2 0 (λ _ '(r3, s),
        '(flag, s) ← prs_next_bit inb s;
        Ok (Z.lor (Z.shiftl r3 1) (b2z flag), s)) (0, s);
      let '(PrsReader p c bitpos) := s in
      b0 ← arr_get inb p;
      Ok (PrsCopy (Z.lor b0 0xFFFFFF00) (r3 + 2), PrsReader (p + 1) c bitpos).

Definition prs_decompress_size_step (inb : list Z) (st : prs_reader * Z) : outcome (prs_reader * Z + Z) :=
  let '(s, dest) := st in
  '(cmd, s) ← prs_size_command inb s;
  match cmd with
  | PrsByte _ => Ok (inl (s, dest + 1))
  | PrsEnd => Ok (inr (u32 dest))
  | PrsCopy _ r3 => if r3 =? 0 then Ok (inl (s, dest)) else Ok (inl (s, dest + r3))
  end.

Definition prs_decompress_size (inb : list Z) : outcome Z :=
  s ← prs_start inb;
  iter (S (8 * length inb)) (prs_decompress_size_step inb) (s, 0).

(** ** Sequences of operations *)

Inductive prs_op :=
| OpRaw
| OpCopy (offset size : Z).

Definition prs_apply (pc : PRS_COMPRESSOR) (op : prs_op) : outcome PRS_COMPRESSOR :=
  match op with
  | OpRaw => prs_rawbyte pc
  | OpCopy offset size => prs_copy pc offset size
  end.

Fixpoint prs_run (ops : list prs_op) (pc : PRS_COMPRESSOR) : outcome PRS_COMPRESSOR :=
  match ops with
  | [] => prs_finish pc
  | op :: ops => pc ← prs_apply pc op; prs_run ops pc
  end.
