(* ===== verification/PrsProof.v ===== *)
(** * libbcl/prs.c: the operations round-trip

    The compressor emits control bits and bytes ([prs_ev]); the control bits are
    collected in a control byte that is written when it is full, so what the
    buffer holds becomes readable only later.  [agrees F pc]: the final buffer [F]
    contains what was emitted so far.  [at_end F pc s]: in [F], the decompressor's
    reader [s] is where the compressor is.  [sent pc pc' evs]: the compressor went
    from [pc] to [pc'], and every final buffer that agrees with [pc'] makes the
    reader read [evs] on the way. *)

From S2P Require Import Prelude Bits Bcl Prs.

Inductive prs_ev :=
| EvBit (b : bool)
| EvByte (x : Z).

Definition advance (s : prs_reader) : prs_reader :=
  PrsReader (prs_sourceptr s + 1) (prs_currentbyte s) (prs_bitsleft s).

Fixpoint ev_run (F : list Z) (s : prs_reader) (evs : list prs_ev) (s' : prs_reader) : Prop :=
  match evs with
  | [] => s' = s
  | EvBit b :: evs => ∃ s1, prs_next_bit F s = Ok (b, s1) ∧ ev_run F s1 evs s'
  | EvByte x :: evs => arr_get F (prs_sourceptr s) = Ok x ∧ ev_run F (advance s) evs s'
  end.

Lemma ev_run_app F s e1 e2 s1 s2 : ev_run F s e1 s1 → ev_run F s1 e2 s2 → ev_run F s (e1 ++ e2) s2.
Proof.
  revert s. induction e1 as [|[b|x] e1 IH]; intros s H1 H2; simpl in *; [by subst | |].
  - destruct H1 as (s3 & Hb & H1). exists s3. split; [done | by apply IH].
  - destruct H1 as [Hx H1]. split; [done | by apply IH].
Qed.

(** ** The compressor's state *)

Record prs_inv (pc : PRS_COMPRESSOR) : Prop := {
  inv_bitpos : 0 ≤ prs_bitpos pc ≤ 8;
  inv_ptrs : 0 ≤ prs_controlbyteptr pc < prs_dstptr pc ∧ prs_dstptr pc ≤ Z.of_nat (length (prs_dst pc));
  inv_fresh : prs_bitpos pc = 0 →
    prs_dstptr pc = prs_controlbyteptr pc + 1 ∧ prs_dst pc !! Z.to_nat (prs_controlbyteptr pc) = Some 0;
  inv_bytes : byte_list (prs_dst pc);
  inv_zero i : prs_dstptr pc ≤ i < Z.of_nat (length (prs_dst pc)) → prs_dst pc !! Z.to_nat i = Some 0;
}.

Definition agrees (F : list Z) (pc : PRS_COMPRESSOR) : Prop :=
  (∀ i, 0 ≤ i < prs_dstptr pc → i ≠ prs_controlbyteptr pc → F !! Z.to_nat i = prs_dst pc !! Z.to_nat i) ∧
  ∃ v c, F !! Z.to_nat (prs_controlbyteptr pc) = Some v ∧ in_u8 v ∧
    prs_dst pc !! Z.to_nat (prs_controlbyteptr pc) = Some c ∧ v mod 2 ^ prs_bitpos pc = c / 2 ^ (8 - prs_bitpos pc).

Definition at_end (F : list Z) (pc : PRS_COMPRESSOR) (s : prs_reader) : Prop :=
  ∃ v, F !! Z.to_nat (prs_controlbyteptr pc) = Some v ∧
    if prs_bitpos pc =? 0 then
      (∃ c, s = PrsReader (prs_controlbyteptr pc) c 1) ∨ s = PrsReader (prs_controlbyteptr pc + 1) v 9
    else s = PrsReader (prs_dstptr pc) (v / 2 ^ prs_bitpos pc) (9 - prs_bitpos pc).

(** The data bytes among the events. *)
Fixpoint ev_bytes (evs : list prs_ev) : Z :=
  match evs with
  | [] => 0
  | EvBit _ :: evs => ev_bytes evs
  | EvByte _ :: evs => 1 + ev_bytes evs
  end.

Lemma ev_bytes_app e1 e2 : ev_bytes (e1 ++ e2) = ev_bytes e1 + ev_bytes e2.
Proof. induction e1 as [|[b|x] e1 IH]; simpl; lia. Qed.

Lemma ev_bytes_nonneg evs : 0 ≤ ev_bytes evs.
Proof. induction evs as [|[b|x] evs IH]; simpl; lia. Qed.

Record sent (pc pc' : PRS_COMPRESSOR) (evs : list prs_ev) (n : Z) : Prop := {
  sent_inv : prs_inv pc';
  sent_size : prs_dstptr pc + ev_bytes evs ≤ prs_dstptr pc' ≤ prs_dstptr pc + n;
  sent_src : prs_src pc' = prs_src pc ∧ prs_srcptr pc' = prs_srcptr pc;
  sent_length : length (prs_dst pc') = length (prs_dst pc);
  sent_agrees F : agrees F pc' → agrees F pc;
  sent_reads F s : agrees F pc' → at_end F pc s → ∃ s', ev_run F s evs s' ∧ at_end F pc' s';
}.

Lemma sent_trans pc pc1 pc2 e1 e2 n1 n2 :
  sent pc pc1 e1 n1 → sent pc1 pc2 e2 n2 → sent pc pc2 (e1 ++ e2) (n1 + n2).
Proof.
  intros [Hi1 Hs1 [Hr1 Hp1] Hl1 Ha1 Hd1] [Hi2 Hs2 [Hr2 Hp2] Hl2 Ha2 Hd2].
  split; [done | rewrite ev_bytes_app; lia | split; congruence | congruence | auto |].
  intros F s HF Hs. destruct (Hd1 F s (Ha2 F HF) Hs) as (s1 & He1 & Hs1'). destruct (Hd2 F s1 HF Hs1') as (s2 & He2 & Hs2').
  exists s2. split; [by eapply ev_run_app | done].
Qed.

(** ** Control bits *)

Lemma bit_value c t (b : bool) :
  in_u8 c → 0 ≤ t < 8 →
  let c' := u8 (Z.lor (Z.shiftr c 1) (Z.shiftl (b2z b) 7)) in
  in_u8 c' ∧ c' / 2 ^ (8 - (t + 1)) = c / 2 ^ (8 - t) + b2z b * 2 ^ t ∧ 0 ≤ c / 2 ^ (8 - t) < 2 ^ t.
Proof.
  intros Hc Ht c'. assert (c' = c / 2 + b2z b * 2 ^ 7) as ->.
  { unfold c'. rewrite Z.shiftr_div_pow2, Z.shiftl_mul_pow2, Z.lor_comm by lia. change (2 ^ 1) with 2.
    rewrite lor_add by dlia. rewrite wrapu_small by (destruct b; simpl b2z; dlia). lia. }
  assert (0 < 2 ^ (7 - t)) by (apply Z.pow_pos_nonneg; lia).
  assert (2 ^ t * 2 ^ (7 - t) = 2 ^ 7) as Hp by (rewrite <- Z.pow_add_r by lia; f_equal; lia).
  assert (2 ^ (8 - t) = 2 * 2 ^ (7 - t)) as Hp8 by (rewrite <- Z.pow_succ_r by lia; f_equal; lia).
  replace (8 - (t + 1)) with (7 - t) by lia. split_and!.
  - destruct b; simpl b2z; dlia.
  - destruct b; simpl b2z; dlia.
  - rewrite <- Hp, Z.mul_assoc, Z.div_add by lia. rewrite Z.div_div, <- Hp8 by lia. done.
  - apply Z.div_pos; lia.
  - apply Z.div_lt_upper_bound; [lia|]. nia.
Qed.

Lemma next_bit_spec F s v t (b : bool) p :
  0 ≤ t < 8 → v / 2 ^ t mod 2 = b2z b →
  (t = 0 → F !! Z.to_nat (p - 1) = Some v ∧ 1 ≤ p ∧ ((∃ c, s = PrsReader (p - 1) c 1) ∨ s = PrsReader p v 9)) →
  (t ≠ 0 → s = PrsReader p (v / 2 ^ t) (9 - t)) →
  prs_next_bit F s = Ok (b, PrsReader p (v / 2 ^ (t + 1)) (8 - t)).
Proof.
  intros Ht Hb H0 H1.
  assert (∀ x, testz (Z.land x 1) = (x mod 2 =? 1)) as Htest.
  { intros x. rewrite (land_mask _ 1) by lia. change (2 ^ 1) with 2. unfold testz. repeat case_cmp; try done; dlia. }
  assert (v / 2 ^ t / 2 = v / 2 ^ (t + 1)) as Hdiv by (rewrite Z.pow_add_r, Z.div_div by lia; done).
  destruct (decide (t = 0)) as [-> | Hne].
  - destruct (H0 eq_refl) as (HF & Hp & Hs). change (2 ^ 0) with 1 in *. rewrite Z.div_1_r in Hb.
    assert (prs_next_bit F s = Ok (testz (Z.land v 1), PrsReader p (Z.shiftr v 1) 8)) as ->.
    { destruct Hs as [[c ->] | ->]; unfold prs_next_bit.
      - change (u32 (1 - 1)) with 0. cbn [Z.eqb]. rewrite (proj2 (arr_get_Ok F (p - 1) v)) by (split; [lia | done]).
        cbn [mbind outcome_bind]. by replace (p - 1 + 1) with p by lia.
      - change (u32 (9 - 1)) with 8. done. }
    rewrite Htest, Z.shiftr_div_pow2, Hb by lia. do 2 f_equal. by destruct b.
  - rewrite (H1 Hne). unfold prs_next_bit. rewrite wrapu_small by lia. destruct (Z.eqb_spec (9 - t - 1) 0); [lia|].
    cbn [mbind outcome_bind]. rewrite Htest, Z.shiftr_div_pow2, Hb by lia. change (2 ^ 1) with 2. rewrite Hdiv.
    replace (9 - t - 1) with (8 - t) by lia. do 2 f_equal. by destruct b.
Qed.

Lemma put_bit_spec pc (b : bool) :
  prs_inv pc → prs_bitpos pc ≤ 7 →
  yields (prs_put_control_bit_nosave pc (b2z b)) (λ pc', sent pc pc' [EvBit b] 0 ∧ prs_bitpos pc' = prs_bitpos pc + 1).
Proof.
  intros [Hb [Hc Hl] Hf Hby Hz] H7. destruct pc as [t ctl sp dp src dst]. simpl in *.
  destruct (arr_get_in_range dst ctl) as (c & -> & Hlook); [lia|]. cbn [mbind outcome_bind].
  assert (in_u8 c) as Hc8 by exact (Forall_lookup_1 _ _ _ _ Hby Hlook).
  replace (b2z (testz (b2z b))) with (b2z b) by (by destruct b).
  pose proof (bit_value c t b Hc8 ltac:(lia)) as (Hc'8 & Hval & Hold). set (c' := u8 _) in *. clearbody c'.
  rewrite arr_set_in_range by lia. cbn [mbind outcome_bind yields]. rewrite wrapu_small by lia. split; [|done].
  assert (2 ^ (t + 1) = 2 * 2 ^ t) as Hp by (rewrite Z.pow_add_r by lia; lia).
  assert (0 < 2 ^ t) by (apply Z.pow_pos_nonneg; lia).
  assert (∀ F, agrees F (Prs (t + 1) ctl sp dp src (<[Z.to_nat ctl:=c']> dst)) →
    ∃ v, F !! Z.to_nat ctl = Some v ∧ in_u8 v ∧ v mod 2 ^ t = c / 2 ^ (8 - t) ∧ v / 2 ^ t mod 2 = b2z b) as HF.
  { intros F [_ (v & c2 & Hv & Hv8 & Hc2 & Hm)]. simpl in *. exists v. split_and!; [done | lia | lia | |];
      rewrite list_lookup_insert_eq in Hc2 by lia; injection Hc2 as <-; rewrite Hval, Hp, Z.mul_comm, Z.rem_mul_r in Hm by lia;
      (destruct (Z.div_mod_unique (2 ^ t) ((v / 2 ^ t) mod 2) (b2z b) (v mod 2 ^ t) (c / 2 ^ (8 - t))) as [? ?];
       [left; apply Z.mod_pos_bound; lia | left; lia | lia |]); done. }
  split; simpl; [|lia | done | by rewrite length_insert | |].
  - split; simpl; [lia | rewrite length_insert; lia | lia | by apply Forall_insert |].
    intros i Hi. rewrite length_insert in Hi. rewrite list_lookup_insert_ne by lia. by apply Hz.
  - intros F HFa. destruct (HF F HFa) as (v & Hv & Hv8 & Hm & _). destruct HFa as [Ho _]. simpl in *. split; simpl.
    + intros i Hi Hne. rewrite Ho by done. apply list_lookup_insert_ne. lia.
    + exists v, c. done.
  - intros F s HFa (v' & Hv' & Hs). destruct (HF F HFa) as (v & Hv & Hv8 & Hm & Hbit). simpl in *.
    rewrite Hv in Hv'. injection Hv' as <-.
    exists (PrsReader dp (v / 2 ^ (t + 1)) (8 - t)). split.
    + eexists. split; [|done]. apply (next_bit_spec F s v t b dp); [lia | done | |].
      * intros ->. destruct (Hf eq_refl) as [-> _]. simpl in Hs. replace (ctl + 1 - 1) with ctl by lia. split_and!; [done | lia | done].
      * intros Hne. destruct (Z.eqb_spec t 0); [done|]. done.
    + exists v. split; [done|]. simpl. destruct (Z.eqb_spec (t + 1) 0); [lia|]. f_equal. lia.
Qed.

(** ** Bytes and full control bytes *)

Lemma put_data_spec pc x :
  prs_inv pc → 1 ≤ prs_bitpos pc → prs_dstptr pc < Z.of_nat (length (prs_dst pc)) → in_u8 x →
  yields (prs_put_static_data pc x) (λ pc', sent pc pc' [EvByte x] 1 ∧ prs_bitpos pc' = prs_bitpos pc).
Proof.
  intros [Hb [Hc Hl] Hf Hby Hz] H1 Hroom Hx. destruct pc as [t ctl sp dp src dst]. simpl in *.
  rewrite wrapu_small by lia. rewrite arr_set_in_range by lia. cbn [mbind outcome_bind yields]. split; [|done].
  assert (∀ F, agrees F (Prs t ctl sp (dp + 1) src (<[Z.to_nat dp:=x]> dst)) →
    agrees F (Prs t ctl sp dp src dst) ∧ F !! Z.to_nat dp = Some x) as HF.
  { intros F [Ho (v & c & Hv & Hv8 & Hc2 & Hm)]. simpl in *. rewrite list_lookup_insert_ne in Hc2 by lia. split; [split|].
    - intros i Hi Hne. simpl in *. rewrite Ho by lia. apply list_lookup_insert_ne. lia.
    - by exists v, c.
    - rewrite Ho by lia. apply list_lookup_insert_eq. lia. }
  split; simpl; [|lia | done | by rewrite length_insert | intros F HFa; by apply HF |].
  - split; simpl; [lia | rewrite length_insert; lia | lia | by apply Forall_insert |].
    intros i Hi. rewrite length_insert in Hi. rewrite list_lookup_insert_ne by lia. apply Hz. lia.
  - intros F s HFa (v & Hv & Hs). destruct (HF F HFa) as [_ Hdp]. simpl in *.
    destruct (Z.eqb_spec t 0); [lia|]. subst s. eexists. split; [split; [|reflexivity]|].
    + simpl. apply arr_get_Ok. split; [lia | done].
    + exists v. split; [done|]. simpl. by destruct (Z.eqb_spec t 0).
Qed.

Lemma save_spec pc :
  prs_inv pc → prs_dstptr pc < Z.of_nat (length (prs_dst pc)) → 1 ≤ prs_bitpos pc →
  sent pc (prs_put_control_save pc) [] 1 ∧ prs_bitpos (prs_put_control_save pc) ≤ 7.
Proof.
  intros Hinv Hroom H1. pose proof Hinv as [Hb [Hc Hl] Hf Hby Hz]. destruct pc as [t ctl sp dp src dst]. simpl in *.
  destruct (Z.leb_spec 8 t); simpl.
  2: { split; [|lia]. split; simpl; [done | lia | done | done | done |]. intros F s _ Hs. by exists s. }
  assert (t = 8) as -> by lia. split; [|lia].
  assert (dst !! Z.to_nat dp = Some 0) as H0 by (apply Hz; lia).
  split; simpl; [|lia | done | done | |].
  - split; simpl; [lia | lia | split; [lia | done] | done |]. intros i Hi. apply Hz. lia.
  - intros F [Ho _]. simpl in *. split; simpl; [intros i Hi Hne; apply Ho; lia|].
    destruct (lookup_lt_is_Some_2 dst (Z.to_nat ctl)) as [c Hlook]; [lia|].
    assert (in_u8 c) as Hc8 by exact (Forall_lookup_1 _ _ _ _ Hby Hlook).
    exists c, c. rewrite Ho by lia. split_and!; [done | lia | lia | done |]. rewrite Z.div_1_r. apply Z.mod_small. lia.
  - intros F s [_ (v & c & Hv & _)] (v' & Hv' & Hs). simpl in *. subst s. eexists. split; [done|].
    exists v. simpl. split; [done|]. left. by eexists.
Qed.

Lemma put_bit_save_spec pc (b : bool) :
  prs_inv pc → prs_bitpos pc ≤ 7 → prs_dstptr pc < Z.of_nat (length (prs_dst pc)) →
  yields (prs_put_control_bit pc (b2z b)) (λ pc', sent pc pc' [EvBit b] 1 ∧ prs_bitpos pc' ≤ 7).
Proof.
  intros Hinv H7 Hroom. unfold prs_put_control_bit. apply yields_bind. eapply yields_mono; [by apply put_bit_spec|].
  intros pc1 [Hs1 Hb1]. cbn [yields]. pose proof Hs1 as [Hi1 Hsz _ Hl _ _]. pose proof (inv_bitpos _ Hinv).
  destruct (save_spec pc1 Hi1) as [Hs2 Hb2]; [lia | lia |]. split; [|done].
  pose proof (sent_trans _ _ _ _ _ _ _ Hs1 Hs2) as Hs. by rewrite app_nil_r in Hs.
Qed.

(** Steps in sequence: [steps pc o evs n] says that the compressor in state [pc]
    sends [evs] by [o]. *)
Definition steps (pc : PRS_COMPRESSOR) (evs : list prs_ev) (n : Z) (o : outcome PRS_COMPRESSOR) : Prop :=
  yields o (λ pc', sent pc pc' evs n ∧ prs_bitpos pc' ≤ 7).

Lemma steps_bit pc (b : bool) evs n f :
  prs_inv pc → prs_bitpos pc ≤ 7 → prs_dstptr pc + 1 + n ≤ Z.of_nat (length (prs_dst pc)) → 0 ≤ n →
  (∀ pc', prs_inv pc' → prs_bitpos pc' ≤ 7 → prs_dstptr pc' + n ≤ Z.of_nat (length (prs_dst pc')) →
     prs_src pc' = prs_src pc ∧ prs_srcptr pc' = prs_srcptr pc → steps pc' evs n (f pc')) →
  steps pc (EvBit b :: evs) (1 + n) (pc' ← prs_put_control_bit pc (b2z b); f pc').
Proof.
  intros Hinv H7 Hroom Hn Hf. unfold steps. apply yields_bind. eapply yields_mono; [apply put_bit_save_spec; [done | done | lia]|].
  intros pc1 [Hs1 Hb1]. pose proof Hs1 as [Hi1 Hsz Hsrc Hl _ _].
  eapply yields_mono; [apply (Hf pc1 Hi1 Hb1 ltac:(lia) Hsrc)|]. intros pc2 [Hs2 Hb2]. split; [|done].
  apply (sent_trans _ _ _ _ _ _ _ Hs1 Hs2).
Qed.

(** The bytes of an operation and its end. *)
Definition put_bytes (xs : list Z) : PRS_COMPRESSOR → outcome PRS_COMPRESSOR :=
  foldr (λ x k pc, pc ← prs_put_static_data pc x; k pc) (λ pc, Ok (prs_put_control_save pc)) xs.

Lemma put_bytes_spec xs pc :
  byte_list xs → prs_inv pc → 1 ≤ prs_bitpos pc →
  prs_dstptr pc + Z.of_nat (length xs) < Z.of_nat (length (prs_dst pc)) →
  steps pc (EvByte <$> xs) (Z.of_nat (length xs) + 1) (put_bytes xs pc).
Proof.
  intros Hxs. revert pc. induction Hxs as [|x xs Hx Hxs IH]; intros pc Hi Hb Hr; unfold steps, put_bytes; cbn [foldr].
  - cbn [yields]. simpl in Hr. destruct (save_spec pc Hi) as [Hs3 Hb3]; [lia | lia |]. by split.
  - simpl length in Hr. apply yields_bind. eapply yields_mono; [apply put_data_spec; [done | done | lia | done]|].
    intros pc2 [Hs2 Hb2]. pose proof Hs2 as [Hi2 Hsz2 _ Hl2 _ _].
    eapply yields_mono; [apply (IH pc2); [done | lia | lia]|]. intros pc3 [Hs3 Hb3]. split; [|lia].
    pose proof (sent_trans _ _ _ _ _ _ _ Hs2 Hs3) as Hs. simpl length.
    replace (Z.of_nat (S (length xs)) + 1) with (1 + (Z.of_nat (length xs) + 1)) by lia. exact Hs.
Qed.

(** The last control bit of an operation, its bytes, and the end. *)
Lemma steps_bytes pc (b : bool) xs :
  prs_inv pc → prs_bitpos pc ≤ 7 → byte_list xs →
  prs_dstptr pc + Z.of_nat (length xs) + 1 ≤ Z.of_nat (length (prs_dst pc)) →
  steps pc (EvBit b :: (EvByte <$> xs)) (Z.of_nat (length xs) + 1)
    (pc ← prs_put_control_bit_nosave pc (b2z b); put_bytes xs pc).
Proof.
  intros Hinv H7 Hxs Hroom. unfold steps. apply yields_bind. eapply yields_mono; [by apply put_bit_spec|].
  intros pc1 [Hs1 Hb1]. pose proof (inv_bitpos _ Hinv). pose proof Hs1 as [Hi1 Hsz1 _ Hl1 _ _].
  eapply yields_mono; [apply (put_bytes_spec xs pc1); [done | done | lia | lia]|]. intros pc2 [Hs2 Hb2]. split; [|done].
  pose proof (sent_trans _ _ _ _ _ _ _ Hs1 Hs2) as Hs. exact Hs.
Qed.

Ltac bytes_tac := auto using Forall_cons_2, Forall_nil_2.

(** ** Commands *)

Lemma command_byte F s x s' :
  ev_run F s [EvBit true; EvByte x] s' → ∃ p, prs_command F s = Ok (PrsByte p, s') ∧ arr_get F p = Ok x.
Proof.
  intros (s1 & H1 & Hx & ->). exists (prs_sourceptr s1). split; [|done]. unfold prs_command. rewrite H1.
  cbn [mbind outcome_bind]. by destruct s1.
Qed.

Lemma command_short F s (b1 b0 : bool) x s' :
  ev_run F s [EvBit false; EvBit false; EvBit b1; EvBit b0; EvByte x] s' →
  prs_command F s = Ok (PrsCopy (Z.lor x 0xFFFFFF00) (2 * b2z b1 + b2z b0 + 2), s').
Proof.
  intros (s1 & H1 & s2 & H2 & s3 & H3 & s4 & H4 & Hx & ->). unfold prs_command. rewrite H1. cbn [mbind outcome_bind].
  rewrite H2. cbn [mbind outcome_bind for_up]. rewrite H3. cbn [mbind outcome_bind]. rewrite H4. cbn [mbind outcome_bind].
  destruct s4 as [p c bp]. simpl in Hx. rewrite Hx. cbn [mbind outcome_bind]. do 2 f_equal. by destruct b1, b0.
Qed.

(** The two offset bytes of a long copy. *)
Definition long_word (lo hi : Z) : Z := 256 * hi + lo.

Lemma command_offset F s lo hi s' :
  ev_run F s [EvBit false; EvBit true; EvByte lo; EvByte hi] s' → in_u8 lo → in_u8 hi →
  prs_command F s =
    if long_word lo hi =? 0 then Ok (PrsEnd, s')
    else if lo mod 8 =? 0 then
      b2 ← arr_get F (prs_sourceptr s');
      Ok (PrsCopy (Z.lor (long_word lo hi / 8) 0xFFFFE000) (Z.land b2 0xFF + 1), advance s')
    else Ok (PrsCopy (Z.lor (long_word lo hi / 8) 0xFFFFE000) (lo mod 8 + 2), s').
Proof.
  intros (s1 & H1 & s2 & H2 & Hlo & Hhi & Hs) Hlo8 Hhi8. simpl in Hs. subst s'. unfold prs_command. rewrite H1. cbn [mbind outcome_bind].
  rewrite H2. cbn [mbind outcome_bind]. destruct s2 as [p c bp]. simpl in Hlo, Hhi. rewrite Hlo. cbn [mbind outcome_bind].
  rewrite Hhi. cbn [mbind outcome_bind].
  assert (∀ x, in_u8 x → Z.land x 0xFF = x) as Hff by (intros x Hx; rewrite (land_mask _ 8) by lia; apply Z.mod_small; lia).
  rewrite !(Hff lo), !(Hff hi) by done. rewrite Z.shiftl_mul_pow2, lor_add by lia.
  replace (hi * 2 ^ 8 + lo) with (long_word lo hi) by (unfold long_word; lia).
  rewrite (land_mask _ 3), Z.shiftr_div_pow2 by lia. change (2 ^ 3) with 8. unfold advance. simpl.
  replace (p + 1 + 1) with (p + 2) by lia. replace (p + 2 + 1) with (p + 3) by lia. done.
Qed.

(** ** Offsets *)

Lemma i32_minus off : - 2 ^ 31 ≤ off < 0 → i32 (off + 2 ^ 32) = off.
Proof.
  intros Hoff. unfold wraps. change (32 - 1) with 31. replace (off + 2 ^ 32 + 2 ^ 31) with (off + 2 ^ 31 + 1 * 2 ^ 32) by lia.
  rewrite Z_mod_plus_full, Z.mod_small; lia.
Qed.

Lemma short_offset off : -0x100 < off < 0 → in_u8 (Z.land off 0xFF) ∧ i32 (Z.lor (Z.land off 0xFF) 0xFFFFFF00) = off.
Proof.
  intros Hoff. rewrite (land_mask _ 8) by lia. assert (off mod 2 ^ 8 = off + 256) as -> by (symmetry; apply (Z.mod_unique_pos _ _ (-1)); lia).
  split; [lia|]. rewrite Z.lor_comm. change 0xFFFFFF00 with (0xFFFFFF * 2 ^ 8). rewrite lor_add by lia.
  replace (0xFFFFFF * 2 ^ 8 + (off + 256)) with (off + 2 ^ 32) by lia. apply i32_minus. lia.
Qed.

Lemma long_offset off z :
  -0x2000 < off < 0 → 0 ≤ z < 8 →
  let lo := Z.lor (Z.land (Z.shiftl off 3) 0xF8) z in let hi := Z.land (Z.shiftr off 5) 0xFF in
  in_u8 lo ∧ in_u8 hi ∧ lo mod 8 = z ∧ long_word lo hi ≠ 0 ∧ i32 (Z.lor (long_word lo hi / 8) 0xFFFFE000) = off.
Proof.
  intros Hoff Hz lo hi.
  assert (lo = (off mod 32) * 8 + z) as ->.
  { unfold lo. change 0xF8 with (Z.shiftl 31 3). rewrite land_shiftl, Z.shiftr_shiftl_l by lia. change (3 - 3) with 0.
    rewrite Z.shiftl_0_r, (land_mask _ 5), Z.shiftl_mul_pow2 by lia. rewrite lor_add by lia. done. }
  assert (hi = off / 32 mod 256) as -> by (unfold hi; rewrite (land_mask _ 8), Z.shiftr_div_pow2 by lia; done).
  assert (long_word (off mod 32 * 8 + z) (off / 32 mod 256) = 8 * (off + 8192) + z) as Hw by (unfold long_word; dlia).
  rewrite Hw. split_and!; [dlia..|].
  replace ((8 * (off + 8192) + z) / 8) with (off + 8192) by dlia. rewrite Z.lor_comm.
  change 0xFFFFE000 with (0x7FFFF * 2 ^ 13). rewrite lor_add by lia.
  replace (0x7FFFF * 2 ^ 13 + (off + 8192)) with (off + 2 ^ 32) by lia. apply i32_minus. lia.
Qed.

(** ** Operations *)

Definition copy_ok (off size : Z) : Prop :=
  -0x2000 < off < 0 ∧ 2 ≤ size ≤ 255 ∧ (size = 2 → -0x100 < off).

Lemma shortcopy_spec pc off size :
  prs_inv pc → prs_bitpos pc ≤ 7 → prs_dstptr pc + 6 ≤ Z.of_nat (length (prs_dst pc)) →
  -0x100 < off < 0 → 2 ≤ size ≤ 5 →
  ∃ evs, steps pc evs 5 (prs_shortcopy pc off size) ∧ 0 < ev_bytes evs ∧
    ∀ F s s', ev_run F s evs s' → ∃ o, prs_command F s = Ok (PrsCopy o size, s') ∧ i32 o = off.
Proof.
  intros Hinv H7 Hroom Hoff Hsize. destruct (short_offset off Hoff) as [Ho8 Ho].
  set (b1 := 4 <=? size). set (b0 := Z.odd size).
  exists [EvBit false; EvBit false; EvBit b1; EvBit b0; EvByte (Z.land off 0xFF)]. split_and!; [|done|].
  - unfold prs_shortcopy. rewrite wrapu_small by lia.
    assert (Z.land (Z.shiftr (size - 2) 1) 1 = b2z b1 ∧ Z.land (size - 2) 1 = b2z b0) as [-> ->].
    { assert (size = 2 ∨ size = 3 ∨ size = 4 ∨ size = 5) as [-> | [-> | [-> | ->]]] by lia; done. }
    apply (steps_bit pc false _ 4); [done | done | lia | lia |]. intros pc1 Hi1 Hb1 Hr1 _.
    apply (steps_bit pc1 false _ 3); [done | done | lia | lia |]. intros pc2 Hi2 Hb2 Hr2 _.
    apply (steps_bit pc2 b1 _ 2); [done | done | lia | lia |]. intros pc3 Hi3 Hb3 Hr3 _.
    apply (steps_bytes pc3 b0 [Z.land off 0xFF]); [done | done | by constructor | simpl; lia].
  - intros F s s' Hr. apply command_short in Hr. eexists. split; [|exact Ho]. rewrite Hr. do 3 f_equal.
    assert (size = 2 ∨ size = 3 ∨ size = 4 ∨ size = 5) as [-> | [-> | [-> | ->]]] by lia; done.
Qed.

Lemma longcopy_spec pc off size :
  prs_inv pc → prs_bitpos pc ≤ 7 → prs_dstptr pc + 6 ≤ Z.of_nat (length (prs_dst pc)) →
  -0x2000 < off < 0 → 3 ≤ size ≤ 255 →
  ∃ evs, steps pc evs 5 (prs_longcopy pc off size) ∧ 0 < ev_bytes evs ∧
    ∀ F s s', ev_run F s evs s' → ∃ o, prs_command F s = Ok (PrsCopy o size, s') ∧ i32 o = off.
Proof.
  intros Hinv H7 Hroom Hoff Hsize. unfold prs_longcopy. case_cmp.
  - rewrite (land_mask (size - 2) 3) by lia. rewrite (Z.mod_small (size - 2)) by lia.
    destruct (long_offset off (size - 2) Hoff ltac:(lia)) as (Hlo & Hhi & Hz & Hne & Ho).
    set (lo := Z.lor _ _) in *. set (hi := Z.land (Z.shiftr _ _) _) in *.
    exists [EvBit false; EvBit true; EvByte lo; EvByte hi]. split_and!; [|done|].
    + eapply yields_mono; [apply (steps_bit pc false [EvBit true; EvByte lo; EvByte hi] 3); [done | done | lia | lia |]|].
      * intros pc1 Hi1 Hb1 Hr1 _. apply (steps_bytes pc1 true [lo; hi]); [done | done | bytes_tac | simpl; lia].
      * intros pc' [[? ? ? ? ? ?] ?]. split; [|done]. split; auto. lia.
    + intros F s s' Hr. rewrite (command_offset _ _ _ _ _ Hr Hlo Hhi), Hz. case_cmp; [done|].
      case_cmp; [lia|]. eexists. split; [|exact Ho]. do 3 f_equal. lia.
  - destruct (long_offset off 0 Hoff ltac:(lia)) as (Hlo & Hhi & Hz & Hne & Ho). rewrite Z.lor_0_r in *.
    set (lo := Z.land (Z.shiftl _ _) _) in *. set (hi := Z.land (Z.shiftr _ _) _) in *.
    exists [EvBit false; EvBit true; EvByte lo; EvByte hi; EvByte (size - 1)]. split_and!; [|done|].
    + apply (steps_bit pc false _ 4); [done | done | lia | lia |]. intros pc1 Hi1 Hb1 Hr1 _.
      apply (steps_bytes pc1 true [lo; hi; size - 1]); [done | done | | simpl; lia].
      assert (in_u8 (size - 1)) by lia. bytes_tac.
    + intros F s s' (s1 & H1 & s2 & H2 & Hlo' & Hhi' & Hsz & Hs). simpl in Hs. subst s'.
      assert (ev_run F s [EvBit false; EvBit true; EvByte lo; EvByte hi] (advance (advance s2))) as Hr by (exists s1; split; [done|]; by exists s2).
      rewrite (command_offset _ _ _ _ _ Hr Hlo Hhi), Hz. destruct (Z.eqb_spec (long_word lo hi) 0); [done|]. change (0 =? 0) with true. cbv iota.
      rewrite Hsz. cbn [mbind outcome_bind]. eexists. split; [|exact Ho]. do 3 f_equal. rewrite (land_mask _ 8) by lia.
      rewrite Z.mod_small; lia.
Qed.

(** ** The operations, as the decompressor reads them *)

Definition with_srcptr (pc : PRS_COMPRESSOR) (p : Z) : PRS_COMPRESSOR :=
  Prs (prs_bitpos pc) (prs_controlbyteptr pc) p (prs_dstptr pc) (prs_src pc) (prs_dst pc).

(** An operation moves the source pointer by [n] bytes and writes at most six;
    [P F s s'] is what the decompressor does with them. *)
Record op_sent (pc : PRS_COMPRESSOR) (n : Z) (P : list Z → prs_reader → prs_reader → Prop) (pc' : PRS_COMPRESSOR) : Prop := {
  op_inv : prs_inv pc' ∧ prs_bitpos pc' ≤ 7;
  op_size : prs_dstptr pc < prs_dstptr pc' ≤ prs_dstptr pc + 6;
  op_src : prs_src pc' = prs_src pc ∧ prs_srcptr pc' = prs_srcptr pc + n;
  op_length : length (prs_dst pc') = length (prs_dst pc);
  op_agrees F : agrees F pc' → agrees F pc;
  op_reads F s : agrees F pc' → at_end F pc s → ∃ s', P F s s' ∧ at_end F pc' s';
}.

Lemma copy_spec pc off size :
  prs_inv pc → prs_bitpos pc ≤ 7 → prs_dstptr pc + 6 ≤ Z.of_nat (length (prs_dst pc)) → copy_ok off size →
  yields (prs_copy pc off size)
    (op_sent pc size (λ F s s', ∃ o, prs_command F s = Ok (PrsCopy o size, s') ∧ i32 o = off)).
Proof.
  intros Hinv H7 Hroom (Hoff & Hsize & H2). unfold prs_copy. apply yields_bind.
  assert (∃ evs, steps pc evs 5 (if (-0x100 <? off) && (size <=? 5) then prs_shortcopy pc off size else prs_longcopy pc off size) ∧ 0 < ev_bytes evs ∧
    ∀ F s s', ev_run F s evs s' → ∃ o, prs_command F s = Ok (PrsCopy o size, s') ∧ i32 o = off) as (evs & Hst & Hne & Hcmd).
  { case_cmp; [case_cmp|]; simpl; [apply shortcopy_spec | apply longcopy_spec | apply longcopy_spec]; lia || done. }
  eapply yields_mono; [exact Hst|]. intros [t ctl sp dp src dst] [[Hi Hsz [Hs Hp] Hl Ha Hr] Hb]. simpl in *.
  split; simpl; [split; [by destruct Hi | done] | lia | split; [done | lia] | done | done |].
  intros F s HF Hs'. destruct (Hr F s HF Hs') as (s' & He & Hend). exists s'. split; [by apply Hcmd | done].
Qed.

Lemma rawbyte_spec pc x :
  prs_inv pc → prs_bitpos pc ≤ 7 → prs_dstptr pc + 6 ≤ Z.of_nat (length (prs_dst pc)) →
  arr_get (prs_src pc) (prs_srcptr pc) = Ok x → in_u8 x →
  yields (prs_rawbyte pc)
    (op_sent pc 1 (λ F s s', ∃ p, prs_command F s = Ok (PrsByte p, s') ∧ arr_get F p = Ok x)).
Proof.
  intros Hinv H7 Hroom Hx Hx8. unfold prs_rawbyte. apply yields_bind. eapply yields_mono; [by apply (put_bit_spec pc true)|].
  intros pc1 [Hs1 Hb1]. pose proof Hs1 as [Hi1 Hsz1 [Hsrc1 Hsp1] Hl1 Ha1 Hr1].
  assert (prs_get_static_data pc1 = Ok (x, with_srcptr pc1 (prs_srcptr pc + 1))) as ->.
  { destruct pc1 as [t ctl sp dp src dst]. simpl in Hsrc1, Hsp1. subst sp src. unfold prs_get_static_data. by rewrite Hx. }
  cbn [mbind outcome_bind]. set (pc2 := with_srcptr _ _). pose proof (inv_bitpos _ Hinv).
  assert (prs_inv pc2) as Hi2 by (destruct Hi1; by split).
  eapply yields_mono; [apply (put_bytes_spec [x] pc2); [bytes_tac | done | simpl; lia | simpl; lia]|].
  intros pc3 [Hs2 Hb3]. pose proof Hs2 as [Hi3 Hsz3 [Hsrc3 Hsp3] Hl3 Ha3 Hr3]. simpl in *.
  split; [done | lia | split; [congruence | done] | congruence | intros F HF; apply Ha1, (Ha3 F HF) |].
  intros F s HF Hs. destruct (Hr1 F s (Ha3 F HF) Hs) as (s1 & (s2 & He1 & He2) & Hend1).
  destruct (Hr3 F s1 HF Hend1) as (s3 & He3 & Hend3). exists s3. split; [|done]. apply command_byte.
  simpl in He2. subst s2. exists s1. by split.
Qed.

(** The shift of the last control byte, which puts the bits it has in place. *)
Lemma last_control_byte pc :
  prs_inv pc → prs_bitpos pc ≤ 7 →
  ∃ c v, prs_dst pc !! Z.to_nat (prs_controlbyteptr pc) = Some c ∧ in_u8 v ∧
    v mod 2 ^ prs_bitpos pc = c / 2 ^ (8 - prs_bitpos pc) ∧ (prs_bitpos pc = 0 → v = 0) ∧
    (if negb (prs_bitpos pc =? 0) then
       let '(Prs bitpos ctl srcptr dstptr src dst) := pc in
       c ← arr_get dst ctl;
       dst ← arr_set dst ctl (u8 (Z.shiftr (Z.shiftl c bitpos) 8));
       Ok (Prs bitpos ctl srcptr dstptr src dst)
     else Ok pc) =
    Ok (Prs (prs_bitpos pc) (prs_controlbyteptr pc) (prs_srcptr pc) (prs_dstptr pc) (prs_src pc)
          (<[Z.to_nat (prs_controlbyteptr pc):=v]> (prs_dst pc))).
Proof.
  intros [Hb [Hc Hl] Hf Hby _] H7. destruct pc as [t ctl sp dp src dst]. simpl in *.
  destruct (lookup_lt_is_Some_2 dst (Z.to_nat ctl)) as [c Hlook]; [lia|].
  assert (in_u8 c) as Hc8 by exact (Forall_lookup_1 _ _ _ _ Hby Hlook).
  exists c, (c / 2 ^ (8 - t)).
  assert (2 ^ t * 2 ^ (8 - t) = 256) as Hp by (rewrite <- Z.pow_add_r by lia; by replace (t + (8 - t)) with 8 by lia).
  assert (0 < 2 ^ t ∧ 0 < 2 ^ (8 - t)) as [? ?] by (split; apply Z.pow_pos_nonneg; lia).
  assert (0 ≤ c / 2 ^ (8 - t) < 2 ^ t) as Hv by (split; [apply Z.div_pos; lia | apply Z.div_lt_upper_bound; nia]).
  split_and!; [done | lia | nia | by apply Z.mod_small | |].
  { intros ->. destruct (Hf eq_refl) as [_ Hz0]. rewrite Hz0 in Hlook. by injection Hlook as <-. }
  destruct (Z.eqb_spec t 0) as [-> | Hne]; simpl.
  - destruct (Hf eq_refl) as [_ Hz0]. rewrite Hz0 in Hlook. injection Hlook as <-. by rewrite list_insert_id.
  - rewrite (proj2 (arr_get_Ok dst ctl c)) by (split; [lia | done]). cbn [mbind outcome_bind].
    rewrite arr_set_in_range by lia. cbn [mbind outcome_bind]. do 3 f_equal.
    rewrite Z.shiftr_div_pow2, Z.shiftl_mul_pow2 by lia. change (2 ^ 8) with 256. rewrite <- Hp.
    rewrite (Z.mul_comm c), Z.div_mul_cancel_l by lia. apply wrapu_small. nia.
Qed.

(** The end of the data: whatever follows the bytes written, they are read as
    the end command. *)
Lemma finish_spec pc :
  prs_inv pc → prs_bitpos pc ≤ 7 → prs_dstptr pc + 4 ≤ Z.of_nat (length (prs_dst pc)) →
  yields (prs_finish pc) (λ pc', prs_dstptr pc < prs_dstptr pc' ≤ Z.of_nat (length (prs_dst pc')) ∧
    ∀ F, (∀ i, 0 ≤ i < prs_dstptr pc' → F !! Z.to_nat i = prs_dst pc' !! Z.to_nat i) →
      agrees F pc ∧ ∀ s, at_end F pc s → ∃ s', prs_command F s = Ok (PrsEnd, s')).
Proof.
  intros Hinv H7 Hroom. unfold prs_finish.
  apply yields_bind. eapply yields_mono; [apply (put_bit_save_spec pc false); [done | done | lia]|].
  intros pc1 [Hs1 Hb1]. pose proof Hs1 as [Hi1 Hsz1 _ Hl1 _ _]. simpl in Hsz1.
  apply yields_bind. eapply yields_mono; [apply (put_bit_save_spec pc1 true); [done | done | lia]|].
  intros pc2 [Hs2 Hb2]. pose proof Hs2 as [Hi2 Hsz2 _ Hl2 _ _]. simpl in Hsz2.
  pose proof (sent_trans _ _ _ _ _ _ _ Hs1 Hs2) as [_ _ _ _ Hagr Hread]. cbn [app] in Hread.
  destruct (last_control_byte pc2 Hi2 Hb2) as (c & v & Hlook & Hv8 & Hvm & Hv0 & ->). cbn [mbind outcome_bind].
  destruct Hi2 as [Hb [Hc Hl] Hf Hby _]. destruct pc2 as [t ctl sp dp src dst]. cbn in Hb2, Hsz2, Hl2, Hlook, Hvm, Hv0, Hb, Hc, Hl, Hf.
  cbn [prs_bitpos prs_controlbyteptr prs_srcptr prs_dstptr prs_src prs_dst]. unfold prs_put_static_data.
  rewrite arr_set_in_range by (rewrite length_insert; lia). cbn [mbind outcome_bind].
  rewrite arr_set_in_range by (rewrite !length_insert; lia). cbn [mbind outcome_bind yields].
  cbn [prs_dstptr prs_dst]. rewrite !length_insert. split; [lia|]. intros F HF.
  assert (F !! Z.to_nat (dp + 1) = Some 0 ∧ F !! Z.to_nat dp = Some 0 ∧ F !! Z.to_nat ctl = Some v) as (HF1 & HF0 & HFc).
  { rewrite !HF by lia. split_and!.
    - apply list_lookup_insert_eq. rewrite !length_insert. lia.
    - rewrite list_lookup_insert_ne by lia. apply list_lookup_insert_eq. rewrite !length_insert. lia.
    - rewrite !list_lookup_insert_ne by lia. apply list_lookup_insert_eq. lia. }
  assert (agrees F (Prs t ctl sp dp src dst)) as HFa.
  { split; simpl; [|by exists v, c]. intros i Hi Hne. rewrite HF by lia. by rewrite !list_lookup_insert_ne by lia. }
  split; [by apply Hagr|]. intros s Hs. destruct (Hread F s HFa Hs) as (s' & He & (v' & Hv' & Hs')). simpl in Hv', Hs'.
  assert (F !! Z.to_nat (prs_sourceptr s') = Some 0 ∧ F !! Z.to_nat (prs_sourceptr s' + 1) = Some 0 ∧ 0 ≤ prs_sourceptr s') as (Hb0 & Hb1' & Hpos).
  { destruct (Z.eqb_spec t 0) as [-> | Hne]; [|subst s'; simpl; split_and!; done || lia].
    destruct (Hf eq_refl) as [-> _]. rewrite (Hv0 eq_refl) in HFc. destruct Hs' as [[c' ->] | ->]; simpl; split_and!; done || lia. }
  assert (ev_run F s [EvBit false; EvBit true; EvByte 0; EvByte 0] (advance (advance s'))) as Hcmd.
  { apply (ev_run_app _ _ [EvBit false; EvBit true] [EvByte 0; EvByte 0] _ _ He).
    split; [|split; [|done]]; simpl; apply arr_get_Ok; (split; [lia | done]). }
  apply command_offset in Hcmd; [|done..]. simpl in Hcmd. by eexists.
Qed.

(** ** Whole compressions *)

(** The operations [ops] reproduce [data] from position [i] on: every copy is in
    range and repeats the bytes it refers to. *)
Fixpoint ops_ok (data : list Z) (i : Z) (ops : list prs_op) : Prop :=
  match ops with
  | [] => i = Z.of_nat (length data)
  | OpRaw :: ops => i < Z.of_nat (length data) ∧ ops_ok data (i + 1) ops
  | OpCopy off size :: ops =>
      (copy_ok off size ∧ 0 ≤ i + off ∧ i + size ≤ Z.of_nat (length data) ∧
       ∀ j, 0 ≤ j < size → data !! Z.to_nat (i + j) = data !! Z.to_nat (i + off + j)) ∧
      ops_ok data (i + size) ops
  end.

(** The commands the decompressor gets from state [s]. *)
Fixpoint cmds (F data : list Z) (s : prs_reader) (i : Z) (ops : list prs_op) : Prop :=
  match ops with
  | [] => ∃ s', prs_command F s = Ok (PrsEnd, s')
  | OpRaw :: ops =>
      ∃ p x s', prs_command F s = Ok (PrsByte p, s') ∧ arr_get F p = Ok x ∧ data !! Z.to_nat i = Some x ∧
        cmds F data s' (i + 1) ops
  | OpCopy off size :: ops =>
      ∃ o s', prs_command F s = Ok (PrsCopy o size, s') ∧ i32 o = off ∧ cmds F data s' (i + size) ops
  end.

Lemma run_spec data ops pc :
  byte_list data → prs_src pc = data → 0 ≤ prs_srcptr pc → ops_ok data (prs_srcptr pc) ops →
  prs_inv pc → prs_bitpos pc ≤ 7 → prs_dstptr pc + 6 * Z.of_nat (length ops) + 4 ≤ Z.of_nat (length (prs_dst pc)) →
  yields (prs_run ops pc) (λ pc', prs_dstptr pc + Z.of_nat (length ops) < prs_dstptr pc' ≤ Z.of_nat (length (prs_dst pc')) ∧
    ∀ F, (∀ i, 0 ≤ i < prs_dstptr pc' → F !! Z.to_nat i = prs_dst pc' !! Z.to_nat i) →
      agrees F pc ∧ ∀ s, at_end F pc s → cmds F data s (prs_srcptr pc) ops).
Proof.
  intros Hdata. revert pc. induction ops as [|op ops IH]; intros pc Hsrc Hsp Hops Hinv H7 Hroom; cbn [prs_run length].
  - eapply yields_mono; [apply finish_spec; [done | done | simpl in Hroom; lia]|]. intros pc' [Hd HF]. split; [lia|]. exact HF.
  - simpl length in Hroom. apply yields_bind.
    set (n := match op with OpRaw => 1 | OpCopy _ size => size end).
    set (P := λ (F : list Z) s s', ∀ ops, cmds F data s' (prs_srcptr pc + n) ops → cmds F data s (prs_srcptr pc) (op :: ops)).
    assert (yields (prs_apply pc op) (op_sent pc n P) ∧ 0 ≤ n ∧ ops_ok data (prs_srcptr pc + n) ops) as (Hop & Hn & Hrest).
    { destruct op as [|off size]; simpl in Hops, n; destruct Hops as [Hok Hrest]; (split; [|split; [|done]]).
      - destruct (arr_get_in_range data (prs_srcptr pc)) as (x & Hx & Hl); [lia|].
        eapply yields_mono; [apply (rawbyte_spec pc x); [done | done | lia | by rewrite Hsrc | exact (Forall_lookup_1 _ _ _ _ Hdata Hl)]|].
        intros pc1 [H1 H2 H3 H4 H5 H6]. split; auto. intros F s HF Hs. destruct (H6 F s HF Hs) as (s' & (p & Hp & HFp) & He).
        exists s'. split; [|done]. intros ops' Hc. by exists p, x, s'.
      - done.
      - destruct Hok as (Hok & _). eapply yields_mono; [apply copy_spec; [done | done | lia | done]|].
        intros pc1 [H1 H2 H3 H4 H5 H6]. split; auto. intros F s HF Hs. destruct (H6 F s HF Hs) as (s' & (o & Hp & Ho) & He).
        exists s'. split; [|done]. intros ops' Hc. by exists o, s'.
      - destruct Hok as ((_ & ? & _) & _). lia. }
    eapply yields_mono; [exact Hop|]. intros pc1 [[Hi1 Hb1] Hsz [Hsrc1 Hsp1] Hl1 Ha Hr].
    eapply yields_mono; [apply IH; [congruence | lia | by rewrite Hsp1 | done | done | lia]|].
    intros pc' [Hd HF]. split; [lia|]. intros F HFd. destruct (HF F HFd) as [Ha1 Hc]. split; [by apply Ha|].
    intros s Hs. destruct (Hr F s Ha1 Hs) as (s' & HP & He). apply HP. rewrite <- Hsp1. by apply Hc.
Qed.

(** *** The decompressor on those commands *)

Definition holds (out data : list Z) (n : Z) : Prop :=
  ∀ j, 0 ≤ j < n → out !! Z.to_nat j = data !! Z.to_nat j.

Lemma copy_loop_spec data out i off size :
  holds out data i → 0 ≤ i + off < i → 0 ≤ size → i + size ≤ Z.of_nat (length data) ≤ Z.of_nat (length out) →
  (∀ j, 0 ≤ j < size → data !! Z.to_nat (i + j) = data !! Z.to_nat (i + off + j)) →
  yields (prs_copy_loop out i (i + off) size) (λ '(out', dest), dest = i + size ∧ length out' = length out ∧ holds out' data (i + size)).
Proof.
  intros Hh Hoff Hsize Hlen Hrep. unfold prs_copy_loop. apply yields_bind.
  eapply yields_mono; [apply (for_up_inv (λ j '(o, r5, dest), r5 = i + off + j ∧ dest = i + j ∧ length o = length out ∧ holds o data (i + j)))|].
  - simpl. split_and!; [lia | lia | done | by rewrite Z.add_0_r].
  - intros j [[o r5] dest] Hj (-> & -> & Ho & Hd).
    destruct (arr_get_in_range o (i + off + j)) as (x & -> & Hx); [lia|]. cbn [mbind outcome_bind].
    rewrite arr_set_in_range by lia. cbn [mbind outcome_bind yields]. split_and!; [lia | lia | by rewrite length_insert |].
    intros k Hk. destruct (decide (k = i + j)) as [-> | Hne].
    + rewrite list_lookup_insert_eq by lia. rewrite Hrep by lia. rewrite <- Hx. apply Hd. lia.
    + rewrite list_lookup_insert_ne by lia. apply Hd. lia.
  - intros [[o r5] dest] (_ & -> & Ho & Hd). cbn [yields]. rewrite Z.add_0_l, Z2Nat.id in * by lia. done.
Qed.

Lemma decompress_cmds F data ops fuel s out i :
  cmds F data s i ops → ops_ok data i ops → 0 ≤ i → holds out data i →
  Z.of_nat (length data) ≤ Z.of_nat (length out) → (length ops < fuel)%nat →
  yields (iter fuel (prs_decompress_step F) (s, out, i))
    (λ '(n, out'), n = u32 (Z.of_nat (length data)) ∧ length out' = length out ∧ holds out' data (Z.of_nat (length data))).
Proof.
  revert fuel s out i. induction ops as [|op ops IH]; intros [|fuel] s out i Hc Hok Hi Hh Hlen Hfuel;
    [simpl in Hfuel; lia | | simpl in Hfuel; lia |]; cbn [iter]; apply yields_bind; unfold prs_decompress_step at 1.
  - destruct Hc as (s' & ->). simpl in Hok. subst i. done.
  - simpl in Hfuel. destruct op as [|off size]; simpl in Hok.
    + destruct Hc as (p & x & s' & -> & Hp & Hx & Hc). cbn [mbind outcome_bind]. rewrite Hp. cbn [mbind outcome_bind].
      rewrite arr_set_in_range by lia. cbn [mbind outcome_bind yields].
      eapply yields_mono; [apply (IH fuel s' (<[Z.to_nat i:=x]> out) (i + 1)); [done | by apply Hok | lia | | rewrite length_insert; lia | lia]|].
      * intros j Hj. destruct (decide (j = i)) as [-> | Hne]; [rewrite list_lookup_insert_eq by lia; congruence|].
        rewrite list_lookup_insert_ne by lia. apply Hh. lia.
      * intros [n out'] (Hn & Hl & Hd). by rewrite length_insert in Hl.
    + destruct Hc as (o & s' & -> & Ho & Hc). destruct Hok as [((Hoff & Hsz & _) & Hlo & Hhi & Hrep) Hok].
      cbn [mbind outcome_bind]. destruct (Z.eqb_spec size 0); [lia|]. rewrite Ho. apply yields_bind.
      eapply yields_mono; [apply (copy_loop_spec data); [done | lia | lia | lia | done]|].
      intros [out1 dest] (-> & Hl1 & Hh1). cbn [yields].
      eapply yields_mono; [apply (IH fuel s' out1 (i + size)); [done | done | lia | done | lia | lia]|].
      intros [n1 out'] (Hn & Hl & Hd). by rewrite <- Hl1.
Qed.

(** ** The results *)

Lemma init_inv data dst :
  dst ≠ [] → Forall (λ x, x = 0) dst → prs_inv (prs_init data dst) ∧
  ∀ F, agrees F (prs_init data dst) → yields (prs_start F) (λ s, at_end F (prs_init data dst) s).
Proof.
  intros Hne Hz. assert (∀ i, 0 ≤ i < Z.of_nat (length dst) → dst !! Z.to_nat i = Some 0) as Hlook.
  { intros i Hi. destruct (lookup_lt_is_Some_2 dst (Z.to_nat i)) as [x Hx]; [lia|]. rewrite Hx.
    by rewrite (Forall_lookup_1 _ _ _ _ Hz Hx). }
  assert (0 < Z.of_nat (length dst)) by (destruct dst; simpl; [done | lia]). split.
  - split; simpl; [lia | lia | intros _; split; [done | by apply Hlook] | | intros i Hi; apply Hlook; lia].
    eapply Forall_impl; [exact Hz|]. simpl. lia.
  - intros F [_ (v & c & Hv & _)]. simpl in Hv. unfold prs_start. rewrite (proj2 (arr_get_Ok F 0 v)) by (split; [lia | done]).
    cbn [mbind outcome_bind yields]. exists v. split; [done|]. simpl. by right.
Qed.

Lemma holds_take (out data : list Z) : (length data ≤ length out)%nat → holds out data (Z.of_nat (length data)) → take (length data) out = data.
Proof.
  intros Hl Hh. apply list_eq. intros i. destruct (decide (i < length data)%nat) as [Hi | Hi].
  - rewrite lookup_take_lt by done. specialize (Hh (Z.of_nat i) ltac:(lia)). by rewrite Nat2Z.id in Hh.
  - rewrite lookup_take_ge by lia. symmetry. apply lookup_ge_None_2. lia.
Qed.

(** C23: compressing [data] into a zeroed buffer with any sequence of raw bytes
    and copies that reproduces it, and decompressing the bytes written (with
    anything after them), gives back [data] and its length, without an access
    out of bounds. *)
Theorem prs_round_trip (data : list Z) (ops : list prs_op) (dst rest out : list Z) :
  byte_list data → Z.of_nat (length data) < 2 ^ 32 → ops_ok data 0 ops →
  Forall (λ x, x = 0) dst → 6 * Z.of_nat (length ops) + 5 ≤ Z.of_nat (length dst) → (length data ≤ length out)%nat →
  yields (prs_run ops (prs_init data dst)) (λ pc,
    yields (prs_decompress (take (Z.to_nat (prs_dstptr pc)) (prs_dst pc) ++ rest) out) (λ '(n, out'),
      n = Z.of_nat (length data) ∧ length out' = length out ∧ take (length data) out' = data)).
Proof.
  intros Hdata H32 Hops Hz Hcap Hout. destruct (init_inv data dst) as [Hinv Hstart]; [intros ->; simpl in Hcap; lia | done |].
  eapply yields_mono; [apply (run_spec data ops (prs_init data dst)); [done | done | done | done | done | done | simpl; lia]|].
  intros pc' [Hsz HF]. simpl in Hsz, HF. set (F := _ ++ rest). unfold prs_decompress.
  assert (length ops < length F)%nat as Hfuel by (unfold F; rewrite length_app, length_take; lia).
  destruct (HF F) as [Ha Hc].
  { intros i Hi. unfold F. rewrite lookup_app_l by (rewrite length_take; lia). apply lookup_take_lt. lia. }
  apply yields_bind. eapply yields_mono; [by apply Hstart|]. intros s Hs.
  eapply yields_mono; [apply (decompress_cmds F data ops); [by apply Hc | done | done | intros j Hj; lia | lia | lia]|].
  intros [n out'] (-> & Hl & Hd). rewrite wrapu_small by lia. split_and!; [done | done |]. apply holds_take; [lia | done].
Qed.

Definition prs_example : list Z := [1; 2; 1; 2; 1; 2; 1; 2; 1; 2; 1; 2; 1; 9; 7; 7; 7].
Definition prs_example_ops : list prs_op := [OpRaw; OpRaw; OpCopy (-2) 11; OpRaw; OpRaw; OpCopy (-1) 2].

Lemma prs_round_trip_witness :
  yields (prs_run prs_example_ops (prs_init prs_example (replicate 41 0))) (λ pc,
    yields (prs_decompress (take (Z.to_nat (prs_dstptr pc)) (prs_dst pc) ++ [5; 5]) (replicate 17 0)) (λ '(n, out'),
      n = 17 ∧ length out' = 17%nat ∧ take 17 out' = prs_example)).
Proof.
  apply (prs_round_trip prs_example prs_example_ops (replicate 41 0) [5; 5] (replicate 17 0)).
  - repeat (apply Forall_cons; split; [lia|]). apply Forall_nil_2.
  - done.
  - unfold prs_example_ops, ops_ok, copy_ok. split_and!; try (vm_compute; congruence).
    + intros j Hj. assert (j = 0 ∨ j = 1 ∨ j = 2 ∨ j = 3 ∨ j = 4 ∨ j = 5 ∨ j = 6 ∨ j = 7 ∨ j = 8 ∨ j = 9 ∨ j = 10) as Hc by lia.
      repeat (destruct Hc as [-> | Hc]; [done|]). by subst j.
    + intros j Hj. assert (j = 0 ∨ j = 1) as [-> | ->] by lia; done.
  - by apply Forall_replicate.
  - done.
  - simpl. lia.
Defined.

(** *** The size without the data *)

Lemma copy_loop_dest out dest r5 t out' dest' :
  0 ≤ t → prs_copy_loop out dest r5 t = Ok (out', dest') → dest' = dest + t.
Proof.
  intros Ht. unfold prs_copy_loop.
  assert (∀ n i (st st' : list Z * Z * Z), for_up n i (λ _ '(out, r5, dest),
    x ← arr_get out r5; out ← arr_set out dest x; Ok (out, r5 + 1, dest + 1)) st = Ok st' → st'.2 = st.2 + Z.of_nat n) as Hloop.
  { induction n as [|n IH]; intros i [[o r] d] st' Hrun; cbn [for_up] in Hrun.
    - injection Hrun as <-. simpl. lia.
    - destruct (arr_get o r) as [x|]; [|done]. cbn [mbind outcome_bind] in Hrun.
      destruct (arr_set o d x) as [o'|]; [|done]. cbn [mbind outcome_bind] in Hrun. apply IH in Hrun. simpl in *. lia. }
  destruct (for_up _ _ _ _) as [[[o r] d]|] eqn:Hrun; [|done]. cbn [mbind outcome_bind]. intros [= <- <-].
  apply Hloop in Hrun. simpl in Hrun. lia.
Qed.

Lemma command_size F s o r3 s' : prs_command F s = Ok (PrsCopy o r3, s') → 0 ≤ r3.
Proof.
  unfold prs_command. destruct (prs_next_bit F s) as [[[] [p c t]]|]; [done | | done]. cbn [mbind outcome_bind].
  destruct (prs_next_bit F _) as [[[] [p1 c1 t1]]|]; [| | done]; cbn [mbind outcome_bind].
  - destruct (arr_get F p1) as [b0|]; [|done]. cbn [mbind outcome_bind].
    destruct (arr_get F (p1 + 1)) as [b1|]; [|done]. cbn [mbind outcome_bind]. destruct (_ =? 0); [done|].
    assert (∀ x m, 0 ≤ m → 0 ≤ Z.land x m) as Hland by (intros x m Hm; apply Z.land_nonneg; by right).
    destruct (_ =? 0).
    + destruct (arr_get F (p1 + 2)) as [b2|]; [|done]. cbn [mbind outcome_bind]. intros [= _ <- _].
      pose proof (Hland b2 255). lia.
    + intros [= _ <- _]. pose proof (Hland (Z.land b0 255) 7). lia.
  - cbn [for_up]. destruct (prs_next_bit F _) as [[f1 s1]|]; [|done]. cbn [mbind outcome_bind].
    destruct (prs_next_bit F s1) as [[f2 [p2 c2 t2]]|]; [|done]. cbn [mbind outcome_bind].
    destruct (arr_get F p2) as [b0|]; [|done]. cbn [mbind outcome_bind]. intros [= _ <- _]. by destruct f1, f2.
Qed.

Lemma size_command F s : byte_list F → prs_size_command F s = prs_command F s.
Proof.
  intros HF. unfold prs_size_command, prs_command. destruct (prs_next_bit F s) as [[[] [p c t]]|]; [done | | done]. cbn [mbind outcome_bind].
  destruct (prs_next_bit F _) as [[[] [p1 c1 t1]]|]; [| done..]; cbn [mbind outcome_bind].
  assert (∀ i x, arr_get F i = Ok x → Z.land x 255 = x) as Hff.
  { intros i x [_ Hx]%arr_get_Ok. assert (in_u8 x) as H8 by exact (Forall_lookup_1 _ _ _ _ HF Hx).
    rewrite (land_mask _ 8) by lia. apply Z.mod_small. lia. }
  destruct (arr_get F p1) as [b0|] eqn:H0; [|done]. cbn [mbind outcome_bind].
  destruct (arr_get F (p1 + 1)) as [b1|] eqn:H1; [|done]. cbn [mbind outcome_bind].
  rewrite (Hff _ _ H0), (Hff _ _ H1). destruct (_ =? 0); [done|]. destruct (_ =? 0); [|done].
  destruct (arr_get F (p1 + 2)) as [b2|] eqn:H2; [|done]. cbn [mbind outcome_bind]. by rewrite (Hff _ _ H2).
Qed.

Lemma size_step F s out dest r :
  byte_list F → prs_decompress_step F (s, out, dest) = Ok r →
  prs_decompress_size_step F (s, dest) =
    Ok (match r with inl (s', _, dest') => inl (s', dest') | inr (n, _) => inr n end).
Proof.
  intros HF. unfold prs_decompress_step, prs_decompress_size_step. rewrite size_command by done.
  destruct (prs_command F s) as [[cmd s1]|] eqn:Hcmd; [|done]. cbn [mbind outcome_bind].
  destruct cmd as [p | | o r3].
  - destruct (arr_get F p) as [x|]; [|done]. cbn [mbind outcome_bind].
    destruct (arr_set out dest x) as [out1|]; [|done]. cbn [mbind outcome_bind]. by intros [= <-].
  - by intros [= <-].
  - apply command_size in Hcmd. destruct (r3 =? 0); [by intros [= <-]|].
    destruct (prs_copy_loop _ _ _ _) as [[out1 dest1]|] eqn:Hloop; [|done]. cbn [mbind outcome_bind].
    apply copy_loop_dest in Hloop as ->; [|done]. by intros [= <-].
Qed.

Lemma size_loop F fuel s out dest n out' :
  byte_list F → iter fuel (prs_decompress_step F) (s, out, dest) = Ok (n, out') →
  iter fuel (prs_decompress_size_step F) (s, dest) = Ok n.
Proof.
  intros HF. revert s out dest. induction fuel as [|fuel IH]; intros s out dest; [done|]. cbn [iter].
  destruct (prs_decompress_step F (s, out, dest)) as [r|] eqn:Hr; [|done]. rewrite (size_step _ _ _ _ _ HF Hr). cbn [mbind outcome_bind].
  destruct r as [[[s1 out1] d1] | [n1 out1]]; [apply IH | by intros [= <- _]].
Qed.

(** On any input that [prs_decompress] decompresses into some buffer,
    [prs_decompress_size] returns the size it returns. *)
Theorem prs_decompress_size_agrees (inb out : list Z) (n : Z) (out' : list Z) :
  byte_list inb → prs_decompress inb out = Ok (n, out') → prs_decompress_size inb = Ok n.
Proof.
  intros HF. unfold prs_decompress, prs_decompress_size. destruct (prs_start inb) as [s|]; [|done]. cbn [mbind outcome_bind].
  by apply size_loop.
Qed.

Lemma prs_decompress_size_agrees_witness : prs_decompress_size [59; 1; 2; 240; 255; 10; 9; 7; 8; 255; 0; 0] = Ok 17.
Proof.
  apply (prs_decompress_size_agrees [59; 1; 2; 240; 255; 10; 9; 7; 8; 255; 0; 0] (replicate 17 0) 17 prs_example).
  - repeat (apply Forall_cons; split; [lia|]). apply Forall_nil_2.
  - vm_compute. reflexivity.
Defined.

(** When the end marker completes a control byte, [prs_finish] allocates the
    next control byte and never writes it, although the decompressor reads it as
    the first byte of the end marker.  Six raw bytes compressed into a buffer of
    0xFF bytes cannot be decompressed; compressed into a zeroed buffer they can. *)
Theorem prs_finish_unwritten_byte :
  (∃ pc, prs_run (replicate 6 OpRaw) (prs_init [1; 2; 3; 1; 2; 3] (replicate 10 255)) = Ok pc ∧
    prs_dstptr pc = 10 ∧ prs_dst pc = [191; 1; 2; 3; 1; 2; 3; 255; 0; 0] ∧
    prs_decompress (prs_dst pc) (replicate 6 0) = Fault OutOfBounds) ∧
  (∃ pc, prs_run (replicate 6 OpRaw) (prs_init [1; 2; 3; 1; 2; 3] (replicate 10 0)) = Ok pc ∧
    prs_dstptr pc = 10 ∧ prs_decompress (prs_dst pc) (replicate 6 0) = Ok (6, [1; 2; 3; 1; 2; 3])).
Proof.
  split.
  - exists (Prs 0 7 6 10 [1; 2; 3; 1; 2; 3] [191; 1; 2; 3; 1; 2; 3; 255; 0; 0]). split_and!; vm_compute; reflexivity.
  - exists (Prs 0 7 6 10 [1; 2; 3; 1; 2; 3] [191; 1; 2; 3; 1; 2; 3; 0; 0; 0]). split_and!; vm_compute; reflexivity.
Qed.
