(* ===== verification/Lz.v ===== *)
(** * libbcl/lz.c: LZ77 coding

    The brute-force compressor [LZ_Compress], the compressor with a jump table
    [LZ_CompressFast] and the decompressor [LZ_Uncompress].  A pointer into the
    input is its index.  [lz_code m h e d] is the format: after the history [h],
    the bytes [e] stand for the data [d]. *)

From S2P Require Import Prelude Bits Bcl.

Definition LZ_MAX_OFFSET : Z := 100000.

(** ** Variable-length integers *)

(** The number of bytes [_LZ_WriteVarSize] needs. *)
Definition lz_num_bytes (x : Z) : outcome Z :=
  iter 5 (λ '(y, num_bytes),
    if 2 <=? num_bytes then
      if testz (Z.land y 0xfe000000) then Ok (inr num_bytes)
      else Ok (inl (u32 (Z.shiftl y 7), num_bytes - 1))
    else Ok (inr num_bytes)) (Z.shiftr x 3, 5).

Definition _LZ_WriteVarSize (x : Z) (o : buf) : outcome (Z * list Z) :=
  num_bytes ← lz_num_bytes x;
  o ← for_down (Z.to_nat num_bytes) (λ i o,
    let b := Z.land (Z.shiftr x (i * 7)) 0x7f in
    let b := if 0 <? i then Z.lor b 0x80 else b in
    put o b) o;
  Ok (num_bytes, o.1).

(** Returns the number of bytes read and the value. *)
Definition _LZ_ReadVarSize (inb : list Z) (pos : Z) : outcome (Z * Z) :=
  iter (S (length inb)) (λ '(y, num_bytes),
    b ← arr_get inb (pos + num_bytes);
    let y := u32 (Z.lor (Z.shiftl y 7) (Z.land b 0x7f)) in
    let num_bytes := u32 (num_bytes + 1) in
    if testz (Z.land b 0x80) then Ok (inl (y, num_bytes))
    else Ok (inr (num_bytes, y))) (0, 0).

(** ** The compressors *)

Definition _LZ_StringCompare (inb : list Z) (str1 str2 minlen maxlen : Z) : outcome Z :=
  iter (S (Z.to_nat (maxlen - minlen))) (λ len,
    if len <? maxlen then
      a ← arr_get inb (str1 + len);
      b ← arr_get inb (str2 + len);
      if a =? b then Ok (inl (u32 (len + 1))) else Ok (inr len)
    else Ok (inr len)) minlen.

(** One candidate of the search of [LZ_Compress]: the best length and offset
    after it. *)
Definition lz_try (inb : list Z) (inpos bytesleft offset : Z) (best : Z * Z) : outcome (Z * Z) :=
  let '(bestlength, bestoffset) := best in
  a ← arr_get inb inpos;
  b ← arr_get inb (inpos - offset);
  candidate ←
    (if a =? b then
       a ← arr_get inb (inpos + bestlength);
       b ← arr_get inb (inpos - offset + bestlength);
       Ok (a =? b)
     else Ok false);
  if candidate : bool then
    let maxlength := if bytesleft <? offset then bytesleft else offset in
    length ← _LZ_StringCompare inb inpos (inpos - offset) 0 maxlength;
    Ok (if bestlength <? length then (length, offset) else (bestlength, bestoffset))
  else Ok (bestlength, bestoffset).

Definition lz_search (inb : list Z) (inpos bytesleft : Z) : outcome (Z * Z) :=
  let maxoffset := if LZ_MAX_OFFSET <? inpos then LZ_MAX_OFFSET else inpos in
  for_up (Z.to_nat (maxoffset - 2)) 3 (lz_try inb inpos bytesleft) (3, 0).

Definition lz_good_match (bestlength bestoffset : Z) : bool :=
  (8 <=? bestlength)
  || ((bestlength =? 4) && (bestoffset <=? 0x0000007f))
  || ((bestlength =? 5) && (bestoffset <=? 0x00003fff))
  || ((bestlength =? 6) && (bestoffset <=? 0x001fffff))
  || ((bestlength =? 7) && (bestoffset <=? 0x0fffffff)).

(** The variables of the main loop. *)
Record lz_vars := LzVars {
  lz_inpos : Z;
  lz_bytesleft : Z;
  lz_out : buf;
}.

(** The code for the match found, or for the next byte. *)
Definition lz_emit (inb : list Z) (marker : Z) (v : lz_vars) (bestlength bestoffset : Z) :
    outcome lz_vars :=
  let '(LzVars inpos bytesleft o) := v in
  if lz_good_match bestlength bestoffset then
    o ← put o marker;
    '(k, out) ← _LZ_WriteVarSize bestlength o;
    let o := (out, u32 (o.2 + k)) in
    '(k, out) ← _LZ_WriteVarSize bestoffset o;
    let o := (out, u32 (o.2 + k)) in
    Ok (LzVars (u32 (inpos + bestlength)) (u32 (bytesleft - bestlength)) o)
  else
    symbol ← arr_get inb inpos;
    o ← put o symbol;
    o ← (if symbol =? marker then put o 0 else Ok o);
    Ok (LzVars (u32 (inpos + 1)) (u32 (bytesleft - 1)) o).

(** A compressor with the given search: the marker, the main loop, and the
    bytes it leaves. *)
Definition lz_compress (search : Z → Z → outcome (Z * Z)) (inb out : list Z) (insize : Z) :
    outcome (Z * list Z) :=
  marker ← least_common inb insize;
  out ← arr_set out 0 marker;
  v ← iter (Z.to_nat insize) (λ v,
        '(bestlength, bestoffset) ← search (lz_inpos v) (lz_bytesleft v);
        v ← lz_emit inb marker v bestlength bestoffset;
        Ok (if 3 <? lz_bytesleft v then inl v else inr v)) (LzVars 0 insize (out, 1));
  '(_, o) ← iter (S (Z.to_nat insize)) (λ '(inpos, o),
        if inpos <? insize then
          symbol ← arr_get inb inpos;
          o ← (if symbol =? marker then
                 o ← put o marker;
                 put o 0
               else put o symbol);
          Ok (inl (u32 (inpos + 1), o))
        else Ok (inr (inpos, o))) (lz_inpos v, lz_out v);
  Ok (i32 o.2, o.1).

Definition LZ_Compress (inb out : list Z) (insize : Z) : outcome (Z * list Z) :=
  if insize <? 1 then Ok (0, out)
  else lz_compress (lz_search inb) inb out insize.

(** The working area of [LZ_CompressFast]: [wsize] words, by index. *)
Abbreviation words := (gmap Z Z).

Definition work_get (wsize : Z) (work : words) (i : Z) : outcome Z :=
  if (0 <=? i) && (i <? wsize) then Ok (default 0 (work !! i)) else Fault OutOfBounds.

Definition work_set (wsize : Z) (work : words) (i x : Z) : outcome words :=
  if (0 <=? i) && (i <? wsize) then Ok (<[i := x]> work) else Fault OutOfBounds.

(** [lastindex] is [work], [jumptable] is [&work[65536]]. *)
Definition lz_jumptable (inb : list Z) (insize wsize : Z) (work : words) : outcome words :=
  work ← for_up (Z.to_nat 65536) 0 (λ i work, work_set wsize work i 0xffffffff) work;
  work ← for_up (Z.to_nat (insize - 1)) 0 (λ i work,
    a ← arr_get inb i;
    b ← arr_get inb (i + 1);
    let symbols := Z.lor (Z.shiftl a 8) b in
    index ← work_get wsize work symbols;
    work ← work_set wsize work symbols i;
    work_set wsize work (65536 + i) index) work;
  work_set wsize work (65536 + (insize - 1)) 0xffffffff.

(** One candidate of its search. *)
Definition lz_try_fast (inb : list Z) (inpos bytesleft index : Z) (best : Z * Z) : outcome (Z * Z) :=
  let '(bestlength, bestoffset) := best in
  b ← arr_get inb (index + bestlength);
  a ← arr_get inb (inpos + bestlength);
  if b =? a then
    let offset := u32 (inpos - index) in
    let maxlength := if bytesleft <? offset then bytesleft else offset in
    length ← _LZ_StringCompare inb inpos index 2 maxlength;
    Ok (if bestlength <? length then (length, offset) else (bestlength, bestoffset))
  else Ok (bestlength, bestoffset).

Definition lz_search_fast (inb : list Z) (wsize : Z) (work : words) (inpos bytesleft : Z) :
    outcome (Z * Z) :=
  index ← work_get wsize work (65536 + inpos);
  iter (S (Z.to_nat inpos)) (λ '(index, best),
    if negb (index =? 0xffffffff) && (u32 (inpos - index) <? LZ_MAX_OFFSET) then
      best ← lz_try_fast inb inpos bytesleft index best;
      index ← work_get wsize work (65536 + index);
      Ok (inl (index, best))
    else Ok (inr best)) (index, (3, 0)).

Definition LZ_CompressFast (inb out : list Z) (insize wsize : Z) (work : words) :
    outcome (Z * list Z) :=
  if insize <? 1 then Ok (0, out)
  else
    work ← lz_jumptable inb insize wsize work;
    lz_compress (lz_search_fast inb wsize work) inb out insize.

(** ** The decompressor *)

Definition lz_copy (length offset : Z) (o : buf) : outcome buf :=
  for_up (Z.to_nat length) 0 (λ _ '(out, outpos),
    x ← arr_get out (u32 (outpos - offset));
    put (out, outpos) x) o.

Definition lz_decode_one (inb : list Z) (marker : Z) (v : Z * buf) : outcome (Z * buf) :=
  let '(inpos, o) := v in
  symbol ← arr_get inb inpos;
  let inpos := u32 (inpos + 1) in
  if symbol =? marker then
    next ← arr_get inb inpos;
    if next =? 0 then
      o ← put o marker;
      Ok (u32 (inpos + 1), o)
    else
      '(k, length) ← _LZ_ReadVarSize inb inpos;
      let inpos := u32 (inpos + k) in
      '(k, offset) ← _LZ_ReadVarSize inb inpos;
      let inpos := u32 (inpos + k) in
      o ← lz_copy length offset o;
      Ok (inpos, o)
  else
    o ← put o symbol;
    Ok (inpos, o).

Definition LZ_Uncompress (inb out : list Z) (insize : Z) : outcome (list Z) :=
  if insize <? 1 then Ok out
  else
    marker ← arr_get inb 0;
    o ← decode_loop (lz_decode_one inb marker) (Z.to_nat insize) insize (1, (out, 0));
    Ok o.1.

(** ** Variable-length integers are read back *)

(** [n] groups of seven bits, the most significant first, all but the last
    marked. *)
Fixpoint vbytes (n : nat) (x : Z) : list Z :=
  match n with
  | O => []
  | S k => (x / 2 ^ (7 * Z.of_nat k)) mod 128 + (if (0 <? Z.of_nat k) then 128 else 0) :: vbytes k x
  end.

Lemma length_vbytes n x : length (vbytes n x) = n.
Proof. induction n; simpl; congruence. Qed.

(** The number of bytes is the least that holds the value. *)
Definition lz_fits (x k : Z) : Prop :=
  1 ≤ k ≤ 5 ∧ x < 2 ^ (7 * k) ∧ (k = 1 ∨ 2 ^ (7 * (k - 1)) ≤ x).

Lemma high_bits_test y : in_u32 y → testz (Z.land y 0xfe000000) = (2 ^ 25 <=? y).
Proof.
  intros Hy. pose proof (land_high_mask y 7 Hy ltac:(lia)) as Hm.
  change (Z.shiftl (Z.ones 7) (32 - 7)) with 0xfe000000 in Hm. change (32 - 7) with 25 in Hm.
  case_cmp; [apply testz_true | apply testz_false]; lia.
Qed.

Lemma lz_num_bytes_spec x : in_u32 x → yields (lz_num_bytes x) (lz_fits x).
Proof.
  intros Hx. unfold lz_num_bytes.
  apply (iter_inv (λ '(y, k), 1 ≤ k ≤ 5 ∧ y = x / 8 * 2 ^ (7 * (5 - k)) ∧ in_u32 y ∧ x < 2 ^ (7 * k))
           (λ '(_, k), Z.to_nat (k - 1))).
  - rewrite Z.shiftr_div_pow2 by lia. change (2 ^ 3) with 8. split_and!; simpl; dlia.
  - simpl. lia.
  - intros [y k] (Hk & Hy & Hyr & Hxk). simpl. case_cmp.
    + rewrite high_bits_test by done.
      assert (k = 2 ∨ k = 3 ∨ k = 4 ∨ k = 5) as Hcases by lia.
      case_cmp; simpl.
      * split_and!; [lia..|]. right. clear Hyr Hx Hxk.
        destruct Hcases as [->|[->|[->| ->]]]; simpl in *; dlia.
      * rewrite Z.shiftl_mul_pow2, wrapu_small by lia.
        split; [|lia]. split_and!; [lia..| | lia | lia |].
        -- rewrite Hy, <- Z.mul_assoc, <- Z.pow_add_r by lia. do 2 f_equal. lia.
        -- clear Hyr. destruct Hcases as [->|[->|[->| ->]]]; simpl in *; dlia.
    + simpl. split_and!; lia.
Qed.

Lemma write_var_size_spec o w cap x (Q : Z * list Z → Prop) :
  wrote o w cap → in_u32 x → cap < 2 ^ 31 →
  (∀ k, lz_fits x k → Z.of_nat (length w) + k ≤ cap) →
  (∀ k out, lz_fits x k → wrote (out, u32 (o.2 + k)) (w ++ vbytes (Z.to_nat k) x) cap → Q (k, out)) →
  yields (_LZ_WriteVarSize x o) Q.
Proof.
  intros Ho Hx Hcap Hroom HQ. unfold _LZ_WriteVarSize. apply yields_bind.
  eapply yields_mono; [by apply lz_num_bytes_spec|]. intros k Hk.
  specialize (Hroom k Hk). assert (1 ≤ k ≤ 5) by apply Hk. apply yields_bind.
  eapply yields_mono.
  - apply (for_down_inv (λ j o, ∃ z, wrote o (w ++ z) cap ∧ Z.of_nat (length z) + j = k ∧
      vbytes (Z.to_nat k) x = z ++ vbytes (Z.to_nat j) x)).
    + exists []. rewrite Z2Nat.id, app_nil_r by lia. by split_and!.
    + intros j b Hj (z & Hb & Hz & Hv). rewrite (land_mask _ 7) by done.
      rewrite Z.shiftr_div_pow2 by lia. rewrite (Z.mul_comm j 7). change (2 ^ 7) with 128.
      set (y := (x / 2 ^ (7 * j)) mod 128). assert (0 ≤ y < 128) by (apply Z.mod_pos_bound; lia).
      assert ((if 0 <? j then Z.lor y 128 else y) = y + (if 0 <? j then 128 else 0)) as ->.
      { case_cmp; [|lia]. change 128 with (2 ^ 7) at 1. rewrite lor_pow2; lia. }
      set (b' := y + (if 0 <? j then 128 else 0)). assert (in_u8 b') by (unfold b'; case_cmp; lia).
      eapply yields_mono; [apply (put_wrote _ _ _ b' Hb); rewrite ?length_app; lia|].
      intros o' Ho'. exists (z ++ [b']). rewrite app_assoc, length_app. simpl. split_and!; [done|lia|].
      rewrite Hv, <- app_assoc. f_equal. replace (Z.to_nat (j + 1)) with (S (Z.to_nat j)) by lia.
      simpl. rewrite Z2Nat.id by lia. done.
  - intros [out pos] (z & Hz & Hlen & Hv). simpl in Hv |- *. rewrite app_nil_r in Hv. apply HQ; [done|].
    rewrite Hv. destruct Hz as (r & Hr & Hpos & Hc). exists r. split_and!; [done| |done]. simpl in *.
    destruct Ho as (_ & _ & -> & _). rewrite length_app in *. rewrite wrapu_small; lia.
Qed.

Lemma vbytes_head x k : 0 < x → (0 < k)%nat →
  lz_fits x (Z.of_nat k) → ∃ b l, vbytes k x = b :: l ∧ b ≠ 0.
Proof.
  intros Hx Hk (Hk5 & Hlt & Hge). destruct k as [|k]; [lia|]. simpl. eexists _, _. split; [done|].
  destruct k as [|k].
  - simpl. rewrite Z.div_1_r. destruct (decide (x < 128)); [rewrite Z.mod_small; lia|]. simpl in Hlt. lia.
  - destruct (Z.ltb_spec 0 (Z.of_nat (S k))); [|lia]. pose proof (Z.mod_pos_bound (x / 2 ^ (7 * Z.of_nat (S k))) 128). lia.
Qed.

Lemma read_var_size_spec inb w rest x k :
  in_u32 x → lz_fits x k → inb = w ++ vbytes (Z.to_nat k) x ++ rest →
  yields (_LZ_ReadVarSize inb (Z.of_nat (length w))) (λ '(n, y), n = k ∧ y = x).
Proof.
  intros Hx (Hk & Hlt & _) Hin. unfold _LZ_ReadVarSize.
  apply (iter_inv (λ '(y, n), 0 ≤ n < k ∧ y = x / 2 ^ (7 * (k - n)) ∧
           ∃ z, Z.of_nat (length z) = n ∧ vbytes (Z.to_nat k) x = z ++ vbytes (Z.to_nat (k - n)) x)
           (λ '(_, n), Z.to_nat (k - n) - 1)%nat).
  - split_and!; [lia..| |].
    + rewrite Z.sub_0_r. symmetry. apply Z.div_small. lia.
    + exists []. by rewrite Z.sub_0_r.
  - rewrite Hin, !length_app, length_vbytes. lia.
  - intros [y n] (Hn & Hy & z & Hz & Hv).
    replace (Z.to_nat (k - n)) with (S (Z.to_nat (k - n - 1))) in Hv by lia. simpl in Hv.
    rewrite Z2Nat.id in Hv by lia. set (j := k - n - 1) in *.
    set (c := (x / 2 ^ (7 * j)) mod 128) in *. assert (0 ≤ c < 128) by (apply Z.mod_pos_bound; lia).
    set (b := c + (if 0 <? j then 128 else 0)) in *.
    assert (arr_get inb (Z.of_nat (length w) + n) = Ok b) as ->.
    { rewrite Hin, Hv, <- app_assoc. simpl. rewrite app_assoc.
      apply arr_get_app. rewrite length_app. lia. }
    cbn [mbind outcome_bind].
    assert (u32 (Z.lor (Z.shiftl y 7) (Z.land b 127)) = x / 2 ^ (7 * j)) as ->.
    { rewrite (land_mask _ 7), Z.shiftl_mul_pow2 by done. change (2 ^ 7) with 128.
      assert (b mod 128 = c) as -> by (unfold b; case_cmp; dlia).
      change 128 with (2 ^ 7). rewrite lor_add by lia.
      assert (y = x / 2 ^ (7 * j) / 128) as ->.
      { rewrite Hy, Z.div_div by lia. f_equal. change 128 with (2 ^ 7). rewrite <- Z.pow_add_r by lia. f_equal. lia. }
      assert (in_u32 (x / 2 ^ (7 * j))).
      { split; [apply Z.div_pos; lia|]. apply Z.div_lt_upper_bound; [lia|].
        assert (1 ≤ 2 ^ (7 * j)) by (apply (Z.pow_le_mono_r 2 0); lia). nia. }
      rewrite wrapu_small; unfold c; dlia. }
    rewrite wrapu_small by lia. change 128 with (2 ^ 7) at 1. rewrite land_bit_test, testbit_div by lia.
    change (2 ^ 7) with 128. destruct (Z.ltb_spec 0 j).
    + replace (b / 128) with 1 by (unfold b; dlia). change (1 mod 2 =? 1) with true. simpl.
      split; [|lia]. split_and!; [lia..| |].
      * do 3 f_equal. lia.
      * exists (z ++ [b]). rewrite length_app. split; [simpl; lia|]. rewrite Hv, <- app_assoc.
        by replace (k - (n + 1)) with j by lia.
    + replace (b / 128) with 0 by (unfold b; dlia). change (0 mod 2 =? 1) with false. simpl.
      replace j with 0 by lia. split; [lia|]. apply Z.div_1_r.
Qed.

(** ** The format *)

(** The [l] bytes that start [off] bytes before the end of [h]. *)
Definition lz_slice (h : list Z) (l off : Z) : list Z :=
  take (Z.to_nat l) (drop (length h - Z.to_nat off) h).

Inductive lz_code (m : Z) : list Z → list Z → list Z → Prop :=
| lz_nil h : lz_code m h [] []
| lz_literal h s e d :
    in_u8 s → s ≠ m → lz_code m (h ++ [s]) e d → lz_code m h (s :: e) (s :: d)
| lz_marker h e d :
    lz_code m (h ++ [m]) e d → lz_code m h (m :: 0 :: e) (m :: d)
| lz_match h l off k1 k2 e d :
    4 ≤ l ≤ off → off ≤ Z.of_nat (length h) → off < 2 ^ 31 →
    lz_fits l k1 → lz_fits off k2 →
    lz_code m (h ++ lz_slice h l off) e d →
    lz_code m h (m :: vbytes (Z.to_nat k1) l ++ vbytes (Z.to_nat k2) off ++ e)
      (lz_slice h l off ++ d).

Lemma lz_code_app m h e1 d1 e2 d2 :
  lz_code m h e1 d1 → lz_code m (h ++ d1) e2 d2 → lz_code m h (e1 ++ e2) (d1 ++ d2).
Proof.
  induction 1 as [h|h s e d ? ? ? IH|h e d ? IH|h l off k1 k2 e d ? ? ? ? ? ? IH]; intros He2; simpl.
  - by rewrite app_nil_r in He2.
  - apply lz_literal; [done..|]. apply IH. by rewrite <- app_assoc.
  - apply lz_marker. apply IH. by rewrite <- app_assoc.
  - rewrite <- !app_assoc in *. eapply lz_match; eauto.
Qed.

Lemma lookup_lz_slice h l off j :
  0 ≤ j < l → l ≤ off → off ≤ Z.of_nat (length h) →
  lz_slice h l off !! Z.to_nat j = h !! Z.to_nat (Z.of_nat (length h) - off + j).
Proof.
  intros. unfold lz_slice. rewrite lookup_take_lt, lookup_drop by lia. f_equal. lia.
Qed.

Lemma length_lz_slice h l off :
  0 ≤ l ≤ off → off ≤ Z.of_nat (length h) → length (lz_slice h l off) = Z.to_nat l.
Proof. intros. unfold lz_slice. rewrite length_take, length_drop. lia. Qed.

(** ** The decompressor writes what a code stands for *)

Lemma lz_copy_spec h cap l off o :
  wrote o h cap → byte_list h → 0 ≤ l ≤ off → off ≤ Z.of_nat (length h) →
  Z.of_nat (length h) + l ≤ cap → cap < 2 ^ 31 →
  yields (lz_copy l off o) (λ o', wrote o' (h ++ lz_slice h l off) cap).
Proof.
  intros Ho Hh Hl Hoff Hroom Hcap. unfold lz_copy.
  pose proof (length_lz_slice h l off Hl Hoff) as Hlen.
  eapply yields_mono.
  - apply (for_up_inv (λ j o, wrote o (h ++ take (Z.to_nat j) (lz_slice h l off)) cap)).
    + by rewrite app_nil_r.
    + intros j [out pos] Hj Hb. rewrite Z2Nat.id in Hj by lia.
      destruct (lookup_lt_is_Some_2 (lz_slice h l off) (Z.to_nat j)) as [x Hx]; [lia|].
      pose proof Hx as Hhx. rewrite lookup_lz_slice in Hhx by lia.
      pose proof Hb as (r & Hr & Hpos & _). simpl in Hr, Hpos.
      rewrite length_app, length_take in Hpos.
      rewrite wrapu_small by lia.
      assert (arr_get out (pos - off) = Ok x) as ->.
      { rewrite Hr, <- app_assoc. apply arr_get_pref; [|lia]. rewrite <- Hhx. f_equal. lia. }
      cbn [mbind outcome_bind]. pose proof (Forall_lookup_1 _ _ _ _ Hh Hhx). cbv beta in *.
      eapply yields_mono; [apply (put_wrote _ _ _ x Hb); rewrite ?length_app, ?length_take; lia|].
      intros o' Ho'. replace (Z.to_nat (j + 1)) with (S (Z.to_nat j)) by lia.
      by rewrite (take_S_r _ _ _ Hx), app_assoc.
  - intros o'. by rewrite Z2Nat.id, firstn_all2 by lia.
Qed.

Section Uncompress.
Context (m cap : Z) (inb d : list Z).
Context (Hm : in_u8 m) (Hin : Z.of_nat (length inb) < 2 ^ 31) (Hdata : byte_list d).
Context (Hd : Z.of_nat (length d) ≤ cap) (Hcap : cap < 2 ^ 31).

(** [e] is left to read, and what it stands for is left to write. *)
Definition lz_reading (v : Z * buf) (e : list Z) : Prop :=
  ∃ w rest h d', inb = w ++ e ++ rest ∧ v.1 = Z.of_nat (length w) ∧ lz_code m h e d' ∧
                 d = h ++ d' ∧ wrote v.2 h cap.

(** After a code [e0], with [x] written. *)
Lemma lz_read_intro w rest e0 e h x d1 o pos v' :
  inb = w ++ (e0 ++ e) ++ rest → lz_code m (h ++ x) e d1 → d = h ++ x ++ d1 →
  wrote v'.2 (h ++ x) cap → e0 ≠ [] → pos = Z.of_nat (length w) →
  v'.1 = pos + Z.of_nat (length e0) →
  read_one lz_reading (pos, o) (e0 ++ e) v'.
Proof.
  intros Hin' He Hd' Ho Hne -> Hv. exists e0, e. split_and!; auto.
  exists (w ++ e0), rest, (h ++ x), d1. rewrite Hin', Hd', length_app, <- !app_assoc.
  split_and!; auto. lia.
Qed.

Lemma lz_decode_one_spec v e :
  e ≠ [] → lz_reading v e → yields (lz_decode_one inb m v) (read_one lz_reading v e).
Proof.
  destruct v as [inpos o]. intros Hne (w & rest & h & d' & Hw & Hpos & He & Hd' & Ho).
  simpl in Hpos, Ho. subst inpos.
  assert (∀ k x, arr_get (e ++ rest) k = Ok x → 0 ≤ k →
    arr_get inb (Z.of_nat (length w) + k) = Ok x) as Hget.
  { intros k x <- Hk. rewrite Hw. by apply arr_get_at. }
  unfold lz_decode_one. pose proof Hin as Hin'. rewrite Hw, !length_app in Hin'.
  assert (Z.of_nat (length h) + Z.of_nat (length d') ≤ cap) as Hfit by (rewrite Hd', length_app in Hd; lia).
  rewrite <- (Z.add_0_r (Z.of_nat (length w))) at 1.
  inversion He as [|? s e1 d1 Hs Hsm He1|? e1 d1 He1|? l off k1 k2 e1 d1 Hl Hoff Hoff31 Hk1 Hk2 He1];
    subst e d'; [done| | |]; subst; simpl length in *;
    rewrite (Hget 0 _ eq_refl) by lia; cbn [mbind outcome_bind];
    rewrite ?Z.eqb_refl, ?(wrapu_small 32 (Z.of_nat (length w) + 1)) by lia.
  - destruct (Z.eqb_spec s m); [done|].
    apply yields_bind. eapply yields_mono; [apply (put_wrote _ _ _ s Ho); lia|].
    intros o' Ho'. by eapply (lz_read_intro w rest [s] e1 h [s] d1).
  - rewrite (Hget 1 _ eq_refl) by lia. cbn [mbind outcome_bind].
    change (0 =? 0) with true. cbv iota.
    apply yields_bind. eapply yields_mono; [apply (put_wrote _ _ _ m Ho); lia|].
    intros o' Ho'. eapply (lz_read_intro w rest [m; 0] e1 h [m] d1); try done. simpl. rewrite wrapu_small; lia.
  - assert (1 ≤ k1 ≤ 5) by apply Hk1. assert (1 ≤ k2 ≤ 5) by apply Hk2.
    rewrite !length_app, !length_vbytes in Hin'.
    rewrite length_app, length_lz_slice in Hfit by lia.
    destruct (vbytes_head l (Z.to_nat k1)) as (b & vb & Hb & Hb0); [lia | lia | by rewrite Z2Nat.id by lia |].
    assert (arr_get inb (Z.of_nat (length w) + 1) = Ok b) as ->.
    { apply Hget; [|lia]. by rewrite Hb. }
    cbn [mbind outcome_bind]. destruct (Z.eqb_spec b 0); [done|].
    assert (inb = (w ++ [m]) ++ vbytes (Z.to_nat k1) l ++ vbytes (Z.to_nat k2) off ++ e1 ++ rest) as Hin1
      by (rewrite Hw, <- !app_assoc; simpl; by rewrite <- !app_assoc).
    apply yields_bind. eapply yields_mono.
    { replace (Z.of_nat (length w) + 1) with (Z.of_nat (length (w ++ [m]))) by room.
      eapply (read_var_size_spec _ _ _ l k1); [lia | exact Hk1 | exact Hin1]. }
    intros [n1 x1] [-> ->]. rewrite wrapu_small by lia.
    assert (inb = ((w ++ [m]) ++ vbytes (Z.to_nat k1) l) ++ vbytes (Z.to_nat k2) off ++ e1 ++ rest) as Hin2
      by (rewrite Hin1; by rewrite <- !app_assoc).
    apply yields_bind. eapply yields_mono.
    { replace (Z.of_nat (length w) + 1 + k1) with (Z.of_nat (length ((w ++ [m]) ++ vbytes (Z.to_nat k1) l)))
        by (rewrite !length_app, length_vbytes; simpl; lia).
      eapply (read_var_size_spec _ _ _ off k2); [lia | exact Hk2 | exact Hin2]. }
    intros [n2 x2] [-> ->]. rewrite wrapu_small by lia.
    apply yields_bind. eapply yields_mono.
    { apply (lz_copy_spec h cap); auto; try lia. rewrite Hd' in Hdata. by apply Forall_app in Hdata as [? _]. }
    intros o' Ho'. rewrite app_assoc, app_comm_cons.
    eapply (lz_read_intro w rest _ e1 h (lz_slice h l off) d1); try done.
    + rewrite Hw. simpl. by rewrite <- !app_assoc.
    + simpl. rewrite !length_app, !length_vbytes. lia.
Qed.

Lemma lz_reading_end v : lz_reading v [] → wrote v.2 d cap.
Proof.
  intros (? & ? & h & d' & _ & _ & Hcode & Hd' & Ho).
  assert (d' = []) as E by (by inversion Hcode). by rewrite Hd', E, app_nil_r.
Qed.

End Uncompress.
