(* ===== verification/LzMatch.v ===== *)
(** * libbcl/lz.c: the two match searches

    [best] is what a search for the longest match computes, offset by offset.
    The brute-force search computes it directly; the search along the jump
    table leaves out offsets that cannot matter.  Both are proved against it, so
    that they agree ([lz_search_spec], [lz_search_fast_spec]). *)

From S2P Require Import Prelude Bits Bcl Lz.

(** ** Common prefixes *)

Fixpoint lcp (a b : list Z) : nat :=
  match a, b with
  | x :: a, y :: b => if x =? y then S (lcp a b) else O
  | _, _ => O
  end.

Lemma lcp_lookup a b i : (i < lcp a b)%nat → ∃ x, a !! i = Some x ∧ b !! i = Some x.
Proof.
  revert b i. induction a as [|x a IH]; intros [|y b] i; simpl; try lia.
  destruct (Z.eqb_spec x y) as [->|]; [|lia]. intros Hi.
  destruct i as [|i]; [by exists y|]. simpl. apply IH. lia.
Qed.

Lemma lcp_stop a b i x y : a !! i = Some x → b !! i = Some y → x ≠ y → (lcp a b ≤ i)%nat.
Proof.
  intros Ha Hb Hne. destruct (decide (i < lcp a b)%nat) as [Hlt|]; [|lia].
  destruct (lcp_lookup _ _ _ Hlt) as (z & Ha' & Hb'). congruence.
Qed.

Lemma lcp_end a b x y : a !! lcp a b = Some x → b !! lcp a b = Some y → x ≠ y.
Proof.
  revert b. induction a as [|z a IH]; intros [|w b]; simpl; try done.
  destruct (Z.eqb_spec z w) as [->|]; simpl; [apply IH | by intros [= ->] [= ->]].
Qed.

(** ** Pairs of bytes *)

Lemma data_total data k :
  byte_list data → 0 ≤ k < Z.of_nat (length data) →
  data !! Z.to_nat k = Some (data !!! Z.to_nat k) ∧ in_u8 (data !!! Z.to_nat k).
Proof.
  intros Hdata Hk. destruct (lookup_lt_is_Some_2 data (Z.to_nat k)) as [x Hx]; [lia|].
  rewrite (list_lookup_total_correct _ _ _ Hx). split; [done|]. by apply (Forall_lookup_1 _ _ _ _ Hdata Hx).
Qed.

(** The pair of bytes at a position. *)
Definition sym (data : list Z) (k : Z) : Z := 256 * (data !!! Z.to_nat k) + data !!! Z.to_nat (k + 1).

Section Match.
Context (data slack : list Z) (inpos : Z).
Let inb := data ++ slack.
Let n := Z.of_nat (length data).
Let bytesleft := n - inpos.
Context (Hslack : slack ≠ []) (Hn : n < 2 ^ 31) (Hpos : 0 ≤ inpos) (Hleft : inpos = 0 ∨ 4 ≤ n - inpos).

(** The longest match at an offset. *)
Definition match_length (offset : Z) : Z :=
  Z.min (Z.of_nat (lcp (drop (Z.to_nat inpos) inb) (drop (Z.to_nat (inpos - offset)) inb)))
        (Z.min bytesleft offset).

(** The best match among the offsets up to [k]; the nearest of the longest. *)
Definition better (offset : Z) (b : Z * Z) : Z * Z :=
  if b.1 <? match_length offset then (match_length offset, offset) else b.

Fixpoint best (k : nat) : Z * Z :=
  match k with
  | O => (3, 0)
  | S k => better (Z.of_nat (S k)) (best k)
  end.

(** A match that may be coded. *)
Definition lz_valid (b : Z * Z) : Prop :=
  b = (3, 0) ∨
  (4 ≤ b.1 ≤ b.2 ∧ b.1 ≤ bytesleft ∧ b.2 ≤ inpos ∧
   ∀ i, 0 ≤ i < b.1 → data !! Z.to_nat (inpos + i) = data !! Z.to_nat (inpos - b.2 + i)).

Lemma best_valid k : Z.of_nat k ≤ inpos → lz_valid (best k) ∧ (best k).2 ≤ Z.of_nat k.
Proof.
  induction k as [|k IH]; intros Hk; [split; [by left | done]|].
  destruct IH as [Hv Hle]; [lia|]. simpl. set (off := Z.of_nat (S k)) in *. unfold better.
  destruct (Z.ltb_spec (best k).1 (match_length off)) as [Hlt|]; [|split; [done | lia]].
  split; [|simpl; lia]. right. simpl. unfold match_length in *. fold bytesleft.
  assert (3 ≤ (best k).1) by (destruct Hv as [-> | Hv]; simpl; lia).
  split_and!; [lia..|]. intros i Hi.
  destruct (lcp_lookup (drop (Z.to_nat inpos) inb) (drop (Z.to_nat (inpos - off)) inb) (Z.to_nat i)) as (x & Ha & Hb); [lia|].
  rewrite !lookup_drop in *.
  unfold inb in Ha, Hb. rewrite lookup_app_l in Ha, Hb by (unfold bytesleft, n in *; lia).
  replace (Z.to_nat (inpos + i)) with (Z.to_nat inpos + Z.to_nat i)%nat by lia.
  replace (Z.to_nat (inpos - off + i)) with (Z.to_nat (inpos - off) + Z.to_nat i)%nat by lia. congruence.
Qed.

Lemma best_length k : Z.of_nat k ≤ inpos → 3 ≤ (best k).1 ≤ Z.max 3 bytesleft.
Proof. intros Hk. destruct (best_valid k Hk) as [[-> | Hv] _]; simpl; lia. Qed.

(** Offsets that do not improve on a match of length 3. *)
Lemma best_skip a b :
  (a ≤ b)%nat → Z.of_nat b ≤ inpos →
  (∀ k, (a < k ≤ b)%nat → match_length (Z.of_nat k) ≤ 3) → best b = best a.
Proof.
  intros Hab. induction Hab as [|b Hab IH]; intros Hb Hskip; [done|]. simpl.
  rewrite IH by (try lia; intros; apply Hskip; lia). unfold better.
  pose proof (Hskip (S b) ltac:(lia)). pose proof (best_length a ltac:(lia)).
  case_cmp; [lia | done].
Qed.

(** The bytes at the two ends of a possible match. *)
Lemma inb_get i : 0 ≤ i ≤ n → ∃ x, arr_get inb i = Ok x ∧ inb !! Z.to_nat i = Some x.
Proof.
  intros Hi. apply arr_get_in_range. unfold inb. rewrite length_app.
  destruct slack; [done|]. simpl. unfold n in *. lia.
Qed.

Lemma string_compare_spec index minlen maxlen :
  0 ≤ index ≤ inpos → 0 ≤ minlen → inpos + maxlen ≤ n →
  let l := Z.of_nat (lcp (drop (Z.to_nat inpos) inb) (drop (Z.to_nat index) inb)) in
  minlen ≤ l →
  _LZ_StringCompare inb inpos index minlen maxlen = Ok (Z.max minlen (Z.min l maxlen)).
Proof.
  intros Hi Hmin Hmax l Hl.
  assert (yields (_LZ_StringCompare inb inpos index minlen maxlen)
            (λ r, r = Z.max minlen (Z.min l maxlen))) as Hy.
  { apply (iter_inv (λ len, minlen ≤ len ≤ l ∧ len ≤ Z.max minlen maxlen)
             (λ len, Z.to_nat (maxlen - len))); [lia..|].
    intros len Hlen. destruct (Z.ltb_spec len maxlen); [|simpl; lia].
    destruct (inb_get (inpos + len)) as (x & -> & Hx); [lia|].
    destruct (inb_get (index + len)) as (y & -> & Hy); [lia|]. simpl.
    rewrite Z2Nat.inj_add in Hx, Hy by lia. rewrite <- lookup_drop in Hx, Hy.
    destruct (Z.eqb_spec x y) as [<-|Hne]; simpl.
    - rewrite wrapu_small by lia. split; [|lia]. destruct (decide (len = l)) as [Heq|]; [|lia].
      subst len. unfold l in Hx, Hy. rewrite Nat2Z.id in Hx, Hy. by destruct (lcp_end _ _ _ _ Hx Hy).
    - pose proof (lcp_stop _ _ _ _ _ Hx Hy Hne). unfold l in *. lia. }
  apply yields_Ok in Hy as (r & -> & ->). done.
Qed.

(** ** The brute-force search *)

Lemma drop_head i : 0 ≤ i → drop (Z.to_nat i) inb !! 0%nat = inb !! Z.to_nat i.
Proof. intros. rewrite lookup_drop. f_equal. lia. Qed.

Lemma drop_at i k : 0 ≤ i → 0 ≤ k → drop (Z.to_nat i) inb !! Z.to_nat k = inb !! Z.to_nat (i + k).
Proof. intros. rewrite lookup_drop. f_equal. lia. Qed.

Lemma lz_try_spec k :
  inpos < n → Z.of_nat (S k) ≤ inpos →
  lz_try inb inpos bytesleft (Z.of_nat (S k)) (best k) = Ok (best (S k)).
Proof.
  intros Hlt Hk. pose proof (best_length k ltac:(lia)) as Hbl. simpl best.
  destruct (best k) as [bl bo]. simpl in Hbl. set (off := Z.of_nat (S k)) in *.
  assert (4 ≤ bytesleft) by (unfold bytesleft; lia).
  unfold lz_try, better. cbn [fst].
  destruct (inb_get inpos) as (a & -> & Ha); [lia|].
  destruct (inb_get (inpos - off)) as (b & -> & Hb); [lia|]. cbn [mbind outcome_bind].
  rewrite <- drop_head in Ha, Hb by lia.
  destruct (Z.eqb_spec a b) as [<-|Hne]; cbn [mbind outcome_bind].
  2: { pose proof (lcp_stop _ _ _ _ _ Ha Hb Hne). case_cmp; [unfold match_length in *; lia | done]. }
  destruct (inb_get (inpos + bl)) as (c & -> & Hc); [unfold bytesleft in *; lia|].
  destruct (inb_get (inpos - off + bl)) as (d & -> & Hd); [unfold bytesleft in *; lia|]. cbn [mbind outcome_bind].
  rewrite <- drop_at in Hc, Hd by lia.
  destruct (Z.eqb_spec c d) as [<-|Hne]; cbn [mbind outcome_bind].
  2: { pose proof (lcp_stop _ _ _ _ _ Hc Hd Hne). case_cmp; [unfold match_length in *; lia | done]. }
  assert ((if bytesleft <? off then bytesleft else off) = Z.min bytesleft off) as -> by (case_cmp; lia).
  rewrite string_compare_spec by (unfold bytesleft; lia). cbn [mbind outcome_bind].
  by rewrite Z.max_r by lia.
Qed.

Lemma best_small k : Z.of_nat k ≤ inpos → (k ≤ 2)%nat → best k = (3, 0).
Proof.
  intros Hk Hk2. rewrite (best_skip 0 k); [done | lia.. |]. intros j Hj. unfold match_length. lia.
Qed.

Lemma lz_search_spec :
  inpos < n → lz_search inb inpos bytesleft = Ok (best (Z.to_nat (Z.min inpos LZ_MAX_OFFSET))).
Proof.
  intros Hlt. unfold lz_search.
  assert ((if LZ_MAX_OFFSET <? inpos then LZ_MAX_OFFSET else inpos) = Z.min inpos LZ_MAX_OFFSET)
    as -> by (case_cmp; lia).
  set (mo := Z.min inpos LZ_MAX_OFFSET). assert (0 ≤ mo ≤ inpos) as Hmo by (unfold mo, LZ_MAX_OFFSET; lia).
  assert (yields (for_up (Z.to_nat (mo - 2)) 3 (lz_try inb inpos bytesleft) (3, 0))
    (λ r, r = best (Z.to_nat (Z.min (3 + Z.of_nat (Z.to_nat (mo - 2)) - 1) mo)))) as Hy.
  { apply (for_up_inv (λ off b, b = best (Z.to_nat (Z.min (off - 1) mo)))).
    - symmetry. apply best_small; lia.
    - intros off b Hoff ->. rewrite !Z.min_l by lia.
      replace off with (Z.of_nat (S (Z.to_nat (off - 1)))) at 1 by lia.
      rewrite lz_try_spec by lia. cbn [yields]. f_equal. lia. }
  apply yields_Ok in Hy as (r & -> & ->). do 2 f_equal. lia.
Qed.

(** ** The search along the jump table *)

Context (Hdata : byte_list data).

Lemma inb_total k : 0 ≤ k < n → inb !! Z.to_nat k = Some (data !!! Z.to_nat k).
Proof. intros Hk. unfold inb. by apply lookup_app_l_Some, data_total. Qed.

Lemma sym_differs k :
  0 ≤ k → k < inpos → inpos + 1 < n → sym data k ≠ sym data inpos → match_length (inpos - k) ≤ 1.
Proof.
  intros Hk Hlt Hnext Hne. unfold match_length. replace (inpos - (inpos - k)) with k by lia.
  pose proof (inb_total inpos ltac:(lia)) as H0. pose proof (inb_total k ltac:(lia)) as H0'.
  pose proof (inb_total (inpos + 1) ltac:(lia)) as H1. pose proof (inb_total (k + 1) ltac:(lia)) as H1'.
  rewrite <- drop_at in H1, H1' by lia. rewrite <- drop_head in H0, H0' by lia.
  pose proof (lcp_stop _ _ _ _ _ H0 H0') as S0. pose proof (lcp_stop _ _ _ _ _ H1 H1') as S1.
  unfold sym in Hne. set (x0 := data !!! Z.to_nat inpos) in *. set (x1 := data !!! Z.to_nat (inpos + 1)) in *.
  destruct (decide (x0 = data !!! Z.to_nat k)) as [Heq|Hne0].
  - assert (x1 ≠ data !!! Z.to_nat (k + 1)) as Hne1 by (intros E; apply Hne; lia). specialize (S1 Hne1). lia.
  - specialize (S0 Hne0). lia.
Qed.

Lemma sym_same k :
  0 ≤ k → k < inpos → inpos + 1 < n → sym data k = sym data inpos →
  (2 ≤ lcp (drop (Z.to_nat inpos) inb) (drop (Z.to_nat k) inb))%nat.
Proof.
  intros Hk Hlt Hnext Heq. unfold sym in Heq.
  destruct (data_total data inpos Hdata ltac:(lia)) as [_ B0]. destruct (data_total data k Hdata ltac:(lia)) as [_ B0'].
  destruct (data_total data (inpos + 1) Hdata ltac:(lia)) as [_ B1]. destruct (data_total data (k + 1) Hdata ltac:(lia)) as [_ B1'].
  assert (∀ i, 0 ≤ i → i + 1 < n → ∃ l, drop (Z.to_nat i) inb = data !!! Z.to_nat i :: data !!! Z.to_nat (i + 1) :: l) as Hdrop.
  { intros i Hi Hin. pose proof (inb_total i ltac:(lia)) as G0. pose proof (inb_total (i + 1) ltac:(lia)) as G1.
    rewrite Z2Nat.inj_add in * by lia. rewrite (drop_S _ _ _ G0). rewrite Nat.add_comm in G1. simpl in G1.
    rewrite (drop_S _ _ _ G1). rewrite Nat.add_comm. simpl. by eexists. }
  destruct (Hdrop inpos) as [l ->]; [lia..|]. destruct (Hdrop k) as [l' ->]; [lia..|]. simpl.
  repeat case_cmp; try lia.
Qed.

Lemma lz_try_fast_spec index b :
  0 ≤ index < inpos → inpos + 1 < n → sym data index = sym data inpos → 3 ≤ b.1 ≤ bytesleft →
  lz_try_fast inb inpos bytesleft index b = Ok (better (inpos - index) b).
Proof.
  intros Hi Hnext Hsym Hb. destruct b as [bl bo]. simpl in Hb. unfold lz_try_fast, better. cbn [fst].
  destruct (inb_get (inpos + bl)) as (c & -> & Hc); [unfold bytesleft in *; lia|].
  destruct (inb_get (index + bl)) as (d & -> & Hd); [unfold bytesleft in *; lia|]. cbn [mbind outcome_bind].
  rewrite <- drop_at in Hc, Hd by lia.
  assert (match_length (inpos - index) =
    Z.min (Z.of_nat (lcp (drop (Z.to_nat inpos) inb) (drop (Z.to_nat index) inb))) (Z.min bytesleft (inpos - index))) as Hml.
  { unfold match_length. by replace (inpos - (inpos - index)) with index by lia. }
  destruct (Z.eqb_spec d c) as [<-|Hne].
  2: { pose proof (lcp_stop _ _ _ _ _ Hc Hd ltac:(congruence)). case_cmp; [lia | done]. }
  rewrite wrapu_small by lia.
  assert ((if bytesleft <? inpos - index then bytesleft else inpos - index) = Z.min bytesleft (inpos - index))
    as -> by (case_cmp; lia).
  pose proof (sym_same index ltac:(lia) ltac:(lia) Hnext Hsym).
  rewrite string_compare_spec by (unfold bytesleft; lia). cbn [mbind outcome_bind].
  rewrite Hml. repeat case_cmp; try lia; [|done]. by rewrite Z.max_r by lia.
Qed.

End Match.

(** ** The jump table *)

Definition none : Z := 0xffffffff.

Definition word_at (work : words) (i : Z) : Z := default 0 (work !! i).

Lemma work_get_in wsize work i : 0 ≤ i < wsize → work_get wsize work i = Ok (word_at work i).
Proof. intros Hi. unfold work_get. repeat case_cmp; try lia. done. Qed.

Lemma work_set_in wsize work i x : 0 ≤ i < wsize → work_set wsize work i x = Ok (<[i := x]> work).
Proof. intros Hi. unfold work_set. repeat case_cmp; try lia. done. Qed.

Lemma word_at_insert work i j x :
  word_at (<[i := x]> work) j = if i =? j then x else word_at work j.
Proof.
  unfold word_at. case_cmp; [subst; by rewrite lookup_insert_eq | by rewrite lookup_insert_ne].
Qed.

Section Table.
Context (data slack : list Z) (wsize : Z).
Let inb := data ++ slack.
Let n := Z.of_nat (length data).
Context (Hdata : byte_list data) (Hn : 1 ≤ n < 2 ^ 31) (Hw : 65536 + n ≤ wsize).

(** [j] is the last position before [i] of the pair [c]. *)
Definition is_last (c i j : Z) : Prop :=
  (j = none ∧ ∀ k, 0 ≤ k < i → sym data k ≠ c) ∨
  (0 ≤ j < i ∧ sym data j = c ∧ ∀ k, j < k < i → sym data k ≠ c).

Lemma is_last_next c i j : 0 ≤ i → sym data i ≠ c → is_last c i j → is_last c (i + 1) j.
Proof.
  intros Hi Hne [[-> Hno]|(Hj & Hs & Hno)]; [left|right]; split_and!; try done; try lia;
    intros k Hk; (destruct (decide (k = i)) as [->|]; [done|]; apply Hno; lia).
Qed.

(** What the table holds. *)
Definition jumps (work : words) : Prop :=
  word_at work (65536 + (n - 1)) = none ∧
  ∀ i, 0 ≤ i < n - 1 → is_last (sym data i) i (word_at work (65536 + i)).

Definition table_upto (i : Z) (work : words) : Prop :=
  (∀ c, 0 ≤ c < 65536 → is_last c i (word_at work c)) ∧
  (∀ k, 0 ≤ k < i → is_last (sym data k) k (word_at work (65536 + k))).

Lemma sym_range i : 0 ≤ i → i + 1 < n → 0 ≤ sym data i < 65536.
Proof.
  intros Hi Hin. unfold sym.
  destruct (data_total data i Hdata) as [_ ?]; [unfold n in *; lia|].
  destruct (data_total data (i + 1) Hdata) as [_ ?]; [unfold n in *; lia|]. lia.
Qed.

Lemma table_step i work :
  0 ≤ i < n - 1 → table_upto i work →
  table_upto (i + 1) (<[65536 + i := word_at work (sym data i)]> (<[sym data i := i]> work)).
Proof.
  intros Hi [Hlast Hjt]. pose proof (sym_range i ltac:(lia) ltac:(lia)) as Hs.
  split; intros c Hc; rewrite !word_at_insert.
  - destruct (Z.eqb_spec (65536 + i) c); [lia|].
    destruct (Z.eqb_spec (sym data i) c) as [<-|Hne].
    + right. split_and!; [lia..|done|lia].
    + apply is_last_next; auto; lia.
  - destruct (Z.eqb_spec (65536 + i) (65536 + c)) as [Heq|Hne].
    + replace c with i by lia. by apply Hlast.
    + destruct (Z.eqb_spec (sym data i) (65536 + c)); [lia|]. apply Hjt. lia.
Qed.

Lemma lz_jumptable_spec work : yields (lz_jumptable inb n wsize work) jumps.
Proof.
  unfold lz_jumptable. apply yields_bind.
  eapply yields_mono.
  { apply (for_up_inv (λ i work, ∀ c, 0 ≤ c < i → word_at work c = none)); [lia|].
    intros i w Hi Hall. rewrite work_set_in by lia. simpl. intros c Hc. rewrite word_at_insert.
    case_cmp; [done|]. apply Hall. lia. }
  intros w Hall. simpl in Hall. apply yields_bind.
  eapply yields_mono.
  { apply (for_up_inv table_upto).
    - split; [|lia]. intros c Hc. left. rewrite Hall by lia. split; [done | lia].
    - intros i w' Hi Hup.
      destruct (data_total data i Hdata) as [Ha Ba]; [unfold n in *; lia|].
      destruct (data_total data (i + 1) Hdata) as [Hb Bb]; [unfold n in *; lia|].
      unfold inb. rewrite (arr_get_pref _ _ _ _ Ha), (arr_get_pref _ _ _ _ Hb) by lia. cbn [mbind outcome_bind].
      rewrite Z.shiftl_mul_pow2, lor_add by lia. change (2 ^ 8) with 256.
      replace (data !!! Z.to_nat i * 256 + data !!! Z.to_nat (i + 1)) with (sym data i) by (unfold sym; lia).
      pose proof (sym_range i ltac:(lia) ltac:(lia)).
      rewrite work_get_in by lia. cbn [mbind outcome_bind].
      rewrite work_set_in by lia. cbn [mbind outcome_bind].
      rewrite work_set_in by lia. cbn [yields]. apply table_step; [lia | done]. }
  intros w' [_ Hjt]. rewrite work_set_in by lia. simpl. split.
  - by rewrite word_at_insert, Z.eqb_refl.
  - intros i Hi. rewrite word_at_insert. case_cmp; [lia|]. apply Hjt. lia.
Qed.

End Table.

(** ** The search along the table computes the best match *)

Section Fast.
Context (data slack : list Z) (wsize : Z) (work : words) (inpos : Z).
Let inb := data ++ slack.
Let n := Z.of_nat (length data).
Context (Hdata : byte_list data) (Hslack : slack ≠ []) (Hn : 1 ≤ n < 2 ^ 31) (Hw : 65536 + n ≤ wsize).
Context (Hjumps : jumps data work).
Context (Hpos : 0 ≤ inpos < n) (Hleft : inpos = 0 ∨ 4 ≤ n - inpos).

Abbreviation best_at := (best data slack inpos).

Lemma best_skip_pairs p q :
  0 ≤ q ≤ p → p ≤ inpos →
  (∀ k, q ≤ k < p → sym data k ≠ sym data inpos) →
  best_at (Z.to_nat (inpos - q)) = best_at (Z.to_nat (inpos - p)).
Proof.
  intros Hq Hp Hno. destruct (decide (q = p)) as [->|]; [done|].
  apply best_skip; try lia. intros k Hk.
  replace (Z.of_nat k) with (inpos - (inpos - Z.of_nat k)) by lia.
  transitivity 1; [|lia]. apply sym_differs; auto; try (unfold n in *; lia). apply Hno. lia.
Qed.

(** The match found is the best among the offsets up to some [k]; within the
    window, among all of them. *)
Lemma lz_search_fast_spec :
  yields (lz_search_fast inb wsize work inpos (n - inpos)) (λ b, ∃ k,
    b = best_at k ∧ Z.of_nat k ≤ inpos ∧ Z.of_nat k < LZ_MAX_OFFSET ∧
    (inpos < LZ_MAX_OFFSET → b = best_at (Z.to_nat inpos))).
Proof.
  unfold lz_search_fast. rewrite work_get_in by lia. cbn [mbind outcome_bind].
  apply (iter_inv (λ '(index, b), ∃ p, 0 ≤ p ≤ inpos ∧ inpos - p < LZ_MAX_OFFSET ∧
      is_last data (sym data inpos) p index ∧ b = best_at (Z.to_nat (inpos - p)))
    (λ '(index, _), if index =? none then O else S (Z.to_nat index))).
  - exists inpos. split_and!; [lia|lia|unfold LZ_MAX_OFFSET; lia| |by rewrite Z.sub_diag].
    destruct Hjumps as [Hend Hall]. destruct (decide (inpos < n - 1)); [apply Hall; unfold n in *; lia|].
    assert (inpos = 0) as E by lia. left. split; [|lia]. rewrite <- Hend. do 2 f_equal. fold n. lia.
  - case_cmp; [lia|]. destruct Hjumps as [Hend Hall]. destruct (decide (inpos < n - 1)) as [Hi|].
    + destruct (Hall inpos ltac:(unfold n in *; lia)) as [[Hno _]|[? _]]; [done | lia].
    + assert (inpos = n - 1) as E by lia. unfold n in E. by rewrite <- E in Hend.
  - intros [index b] (p & Hp & Hwin & Hlast & ->). change 4294967295 with none.
    destruct (Z.eqb_spec index none) as [->|Hne]; simpl.
    { exists (Z.to_nat (inpos - p)). split_and!; [done|lia..|]. intros _. symmetry.
      replace (Z.to_nat inpos) with (Z.to_nat (inpos - 0)) by lia. apply best_skip_pairs; try lia.
      destruct Hlast as [[_ Hno]|[? _]]; [intros; apply Hno; lia|unfold none in *; lia]. }
    destruct Hlast as [[? _]|(Hi & Hs & Hno)]; [done|].
    rewrite (wrapu_small 32 (inpos - index)) by lia.
    destruct (Z.ltb_spec (inpos - index) LZ_MAX_OFFSET) as [Hin|Hout]; simpl.
    2: { exists (Z.to_nat (inpos - p)). split_and!; [done|lia..|]. intros. lia. }
    assert (4 ≤ n - inpos) by lia.
    rewrite <- (best_skip_pairs p (index + 1)) by (try lia; intros; apply Hno; lia).
    unfold inb, n. rewrite lz_try_fast_spec; auto; try (unfold n in *; lia).
    2: { pose proof (best_length data slack inpos ltac:(lia) Hleft (Z.to_nat (inpos - (index + 1))) ltac:(lia)). unfold n in *. lia. }
    fold n. cbn [mbind outcome_bind]. rewrite work_get_in by lia. cbn [mbind outcome_bind yields].
    pose proof (proj2 Hjumps index ltac:(unfold n in *; lia)) as Hj. rewrite Hs in Hj.
    split.
    + exists index. split_and!; [lia..|done|].
      replace (Z.to_nat (inpos - index)) with (S (Z.to_nat (inpos - (index + 1)))) by lia. simpl.
      f_equal. lia.
    + case_cmp; [lia|]. destruct Hj as [[? _]|[? _]]; [done|lia].
Qed.

End Fast.
