(* ===== verification/LzProof.v ===== *)
(** * libbcl/lz.c: the compressors write codes of their input

    [lz_compress_spec] is about a compressor with any search that finds valid
    matches; [LZ_Compress] and [LZ_CompressFast] are its two instances. *)

From S2P Require Import Prelude Bits Bcl Lz LzMatch.

Section Compress.
Context (data slack : list Z) (cap m : Z).
Let inb := data ++ slack.
Let n := Z.of_nat (length data).
Context (Hdata : byte_list data) (Hm : in_u8 m) (Hrare : 256 * occ m data ≤ n).
Context (Hroom : n + n / 256 + 1 ≤ cap) (Hcap : cap < 2 ^ 31) (Hn1 : 1 ≤ n).

(** [lz_done k o]: the first [k] bytes are coded in [o], after the marker. *)
Definition lz_done (k : Z) (o : buf) : Prop :=
  0 ≤ k ≤ n ∧ ∃ e, lz_code m [] e (take (Z.to_nat k) data) ∧
    Z.of_nat (length e) ≤ k + occ m (take (Z.to_nat k) data) ∧ wrote o (m :: e) cap.

Lemma n_small : n < 2 ^ 31.
Proof. dlia. Qed.

(** A call that appends the code [c] of the next bytes [d]. *)
Lemma lz_extend k d o (c : list Z) o' :
  lz_done k o → 0 ≤ k → k + Z.of_nat (length d) ≤ n →
  take (Z.to_nat (k + Z.of_nat (length d))) data = take (Z.to_nat k) data ++ d →
  lz_code m (take (Z.to_nat k) data) c d →
  Z.of_nat (length c) ≤ Z.of_nat (length d) + occ m d →
  (∀ w, wrote o w cap → wrote o' (w ++ c) cap) → lz_done (k + Z.of_nat (length d)) o'.
Proof.
  intros [Hk (e & He & Hle & Ho)] Hk0 Hkd Ht Hc Hlc Hw. split; [lia|].
  exists (e ++ c). rewrite Ht. split_and!.
  - by apply (lz_code_app m []).
  - rewrite occ_app, length_app. lia.
  - rewrite app_comm_cons. auto.
Qed.

(** Room for the code of the next [d]. *)
Lemma lz_fit k d o w :
  lz_done k o → k + Z.of_nat (length d) ≤ n →
  take (Z.to_nat (k + Z.of_nat (length d))) data = take (Z.to_nat k) data ++ d →
  wrote o w cap → Z.of_nat (length w) + Z.of_nat (length d) + occ m d ≤ cap.
Proof.
  intros [Hk (e & _ & Hle & Ho)] Hkd Ht Hw.
  pose proof (occ_take_le m data (Z.to_nat (k + Z.of_nat (length d)))) as Hocc. rewrite Ht, occ_app in Hocc.
  assert (length w = length (m :: e)) as ->.
  { destruct Hw as (_ & _ & E1 & _), Ho as (_ & _ & E2 & _). lia. }
  simpl. dlia.
Qed.

Lemma take_next k s : 0 ≤ k → data !! Z.to_nat k = Some s →
  k + 1 ≤ n ∧ take (Z.to_nat (k + 1)) data = take (Z.to_nat k) data ++ [s].
Proof.
  intros Hk Hs. pose proof (lookup_lt_Some _ _ _ Hs). split; [unfold n; lia|].
  replace (Z.to_nat (k + 1)) with (S (Z.to_nat k)) by lia. by apply take_S_r.
Qed.

(** One byte. *)
Lemma lz_extend_byte k s o o' :
  lz_done k o → data !! Z.to_nat k = Some s →
  (∀ w, wrote o w cap → wrote o' (w ++ if s =? m then [m; 0] else [s]) cap) →
  lz_done (k + 1) o'.
Proof.
  intros Hd Hs Hw. assert (0 ≤ k) by apply Hd.
  destruct (take_next k s) as [Hk Ht]; [done..|].
  apply (lz_extend k [s] o (if s =? m then [m; 0] else [s])); auto.
  - destruct (Z.eqb_spec s m) as [->|].
    + apply lz_marker, lz_nil.
    + apply lz_literal; [|done|apply lz_nil]. exact (Forall_lookup_1 _ _ _ _ Hdata Hs).
  - rewrite occ_cons. pose proof (occ_range m []). case_cmp; simpl in *; lia.
Qed.

Lemma lz_byte_room k s o w :
  lz_done k o → data !! Z.to_nat k = Some s → wrote o w cap →
  Z.of_nat (length w) + 1 + b2z (s =? m) ≤ cap.
Proof.
  intros Hd Hs Hw. assert (0 ≤ k) by apply Hd.
  destruct (take_next k s) as [Hk Ht]; [done..|].
  pose proof (lz_fit k [s] o w Hd Hk Ht Hw) as Hf. rewrite occ_cons in Hf.
  pose proof (occ_range m []). simpl length in *. lia.
Qed.

(** A match. *)
Lemma lz_match_slice k l off :
  0 ≤ k → 4 ≤ l ≤ off → off ≤ k → k + l ≤ n →
  (∀ i, 0 ≤ i < l → data !! Z.to_nat (k + i) = data !! Z.to_nat (k - off + i)) →
  take (Z.to_nat (k + l)) data = take (Z.to_nat k) data ++ lz_slice (take (Z.to_nat k) data) l off.
Proof.
  intros Hk Hl Hoff Hkl Heq.
  assert (length (take (Z.to_nat k) data) = Z.to_nat k) as Hlen by (rewrite length_take; unfold n in *; lia).
  apply list_eq. intros i.
  destruct (decide (i < Z.to_nat k)%nat).
  - rewrite lookup_app_l, !lookup_take_lt by lia. done.
  - rewrite lookup_app_r, Hlen by lia. destruct (decide (i < Z.to_nat (k + l))%nat).
    + rewrite lookup_take_lt by lia.
      replace (i - Z.to_nat k)%nat with (Z.to_nat (Z.of_nat i - k)) by lia.
      rewrite lookup_lz_slice, Hlen, lookup_take_lt by lia.
      replace i with (Z.to_nat (k + (Z.of_nat i - k))) at 1 by lia. rewrite Heq by lia.
      f_equal. lia.
    + rewrite lookup_take_ge by lia. symmetry. apply lookup_ge_None_2.
      rewrite length_lz_slice by lia. lia.
Qed.

Lemma lz_fits_le x k j : lz_fits x k → 1 ≤ j → x < 2 ^ (7 * j) → k ≤ j.
Proof.
  intros (Hk & _ & H2) Hj Hx. destruct (decide (k ≤ j)); [done|].
  pose proof (Z.pow_le_mono_r 2 (7 * j) (7 * (k - 1))). lia.
Qed.

Lemma lz_code_short l off k1 k2 :
  lz_good_match l off = true → 4 ≤ l ≤ off → off ≤ LZ_MAX_OFFSET → l < 2 ^ 31 →
  lz_fits l k1 → lz_fits off k2 → 1 + k1 + k2 ≤ l.
Proof.
  unfold lz_good_match, LZ_MAX_OFFSET. intros Hg Hl Hoff Hl31 Hk1 Hk2.
  rewrite !orb_true_iff, !andb_true_iff, !Z.leb_le, !Z.eqb_eq in Hg.
  pose proof (lz_fits_le l k1 1 Hk1) as A1. pose proof (lz_fits_le off k2 1 Hk2) as B1.
  pose proof (lz_fits_le off k2 2 Hk2) as B2. pose proof (lz_fits_le off k2 3 Hk2) as B3.
  simpl in A1, B1, B2, B3. destruct Hk1 as [? _], Hk2 as [? _]. lia.
Qed.

(** The code emitted in a round. *)
Definition lz_at (v : lz_vars) : Prop :=
  lz_done (lz_inpos v) (lz_out v) ∧ lz_bytesleft v = n - lz_inpos v.

Lemma lz_emit_match k o l off :
  lz_done k o → lz_good_match l off = true → lz_valid data k (l, off) → off ≤ LZ_MAX_OFFSET →
  yields (lz_emit inb m (LzVars k (n - k) o) l off) (λ v, lz_at v ∧ lz_inpos v = k + l).
Proof.
  intros Hd Hg Hv Hmax. assert (0 ≤ k) as Hk by apply Hd. pose proof n_small as Hn.
  destruct Hv as [[= -> ->]|(Hl & Hleft & Hoff & Heq)]; [done|]. simpl in Hl, Hleft, Hoff, Heq.
  fold n in Hleft.
  pose proof (lz_match_slice k l off Hk Hl Hoff ltac:(lia) Heq) as Ht.
  set (h := take (Z.to_nat k) data) in *. set (d := lz_slice h l off) in *.
  assert (length h = Z.to_nat k) as Hlh by (unfold h; rewrite length_take; unfold n in *; lia).
  assert (Z.of_nat (length d) = l) as Hld by (unfold d; rewrite length_lz_slice by lia; lia).
  rewrite <- Hld in Ht at 1.
  destruct Hd as [Hk' (e & He & Hle & Ho)] eqn:Hdone. clear Hdone.
  pose proof (lz_fit k d o (m :: e) (conj Hk' (ex_intro _ e (conj He (conj Hle Ho)))) ltac:(lia) Ht Ho) as Hfit.
  pose proof (occ_range m d).
  assert (∀ k1 k2, lz_fits l k1 → lz_fits off k2 → 1 + k1 + k2 ≤ l) as Hshort
    by (intros; apply (lz_code_short l off); auto; lia).
  assert (∃ k1, lz_fits l k1) as (k1' & Hk1') by
    (destruct (proj1 (yields_Ok _ _) (lz_num_bytes_spec l ltac:(lia))) as (? & _ & ?); eauto).
  assert (∃ k2, lz_fits off k2) as (k2' & Hk2') by
    (destruct (proj1 (yields_Ok _ _) (lz_num_bytes_spec off ltac:(unfold LZ_MAX_OFFSET in *; lia))) as (? & _ & ?); eauto).
  unfold lz_emit. rewrite Hg. apply yields_bind.
  eapply yields_mono; [apply (put_wrote _ _ _ m Ho); lia|]. intros o1 Ho1.
  apply yields_bind. eapply write_var_size_spec; [exact Ho1 | lia | lia | |].
  { intros k1 Hk1. specialize (Hshort k1 k2' Hk1 Hk2'). destruct Hk2' as [? _]. rewrite length_app. simpl length in *. lia. }
  intros k1 out1 Hk1 Hw1.
  apply yields_bind. eapply write_var_size_spec; [exact Hw1 | unfold LZ_MAX_OFFSET in *; lia | lia | |].
  { intros k2 Hk2. specialize (Hshort k1 k2 Hk1 Hk2). assert (1 ≤ k1) by apply Hk1.
    rewrite !length_app, length_vbytes. simpl length in *. lia. }
  intros k2 out2 Hk2 Hw2. simpl. rewrite !(wrapu_small 32 (k + l)), !(wrapu_small 32 (n - k - l)) by lia.
  split; [|done]. split; simpl; [|lia].
  specialize (Hshort k1 k2 Hk1 Hk2). assert (1 ≤ k1) by apply Hk1. assert (1 ≤ k2) by apply Hk2.
  split; [lia|]. exists (e ++ m :: vbytes (Z.to_nat k1) l ++ vbytes (Z.to_nat k2) off ++ []).
  rewrite Hld in Ht. rewrite Ht. split_and!.
  - apply (lz_code_app m [] _ _ _ _ He). cbn [app]. fold h. rewrite <- (app_nil_r d). apply lz_match; auto; try (unfold LZ_MAX_OFFSET in *; lia). apply lz_nil.
  - fold h in Hle. rewrite occ_app, !length_app. simpl. rewrite !length_app, !length_vbytes. simpl. lia.
  - rewrite app_nil_r. revert Hw2. by rewrite <- !app_assoc.
Qed.

(** The next byte: as it is, or as the marker and a zero. *)
Lemma write_symbol_spec k s o :
  lz_done k o → data !! Z.to_nat k = Some s →
  yields (if s =? m then o ← put o m; put o 0 else put o s) (lz_done (k + 1)).
Proof.
  intros Hd Hs. pose proof n_small as Hn. pose proof (Forall_lookup_1 _ _ _ _ Hdata Hs) as Hb. cbv beta in Hb.
  pose proof Hd as [_ (e & _ & _ & Ho)]. pose proof (lz_byte_room k s o _ Hd Hs Ho) as Hfit. simpl length in Hfit.
  assert (∀ w, wrote o w cap → w = m :: e) as Huniq.
  { intros w (r & Hr & Hp & _). destruct Ho as (r' & Hr' & Hp' & _). rewrite Hr in Hr'.
    apply app_inj_1 in Hr' as [? _]; [done | simpl in *; lia]. }
  destruct (Z.eqb_spec s m) as [->|Hne]; simpl b2z in Hfit.
  - put_next o1 Ho1. put_next o2 Ho2. apply (lz_extend_byte k m o); auto.
    intros w Hw. rewrite (Huniq w Hw), Z.eqb_refl. simpl in Ho2 |- *. by rewrite <- ?app_assoc in Ho2.
  - put_next o1 Ho1. apply (lz_extend_byte k s o); auto.
    intros w Hw. rewrite (Huniq w Hw). by destruct (Z.eqb_spec s m).
Qed.

Lemma put_symbol k s o (f : buf → outcome lz_vars) (Q : lz_vars → Prop) :
  lz_done k o → data !! Z.to_nat k = Some s →
  (∀ o', lz_done (k + 1) o' → yields (f o') Q) →
  yields (o ← put o s; o ← (if s =? m then put o 0 else Ok o); f o) Q.
Proof.
  intros Hd Hs Hf. pose proof (write_symbol_spec k s o Hd Hs) as Hy.
  destruct (Z.eqb_spec s m) as [->|]; destruct (put o _) as [o1|]; simpl in *; try done; [|auto].
  destruct (put o1 0) as [o2|]; simpl in *; auto.
Qed.

Lemma lz_emit_spec k o b :
  lz_done k o → k < n → lz_valid data k b → b.2 ≤ LZ_MAX_OFFSET →
  yields (lz_emit inb m (LzVars k (n - k) o) b.1 b.2) (λ v, lz_at v ∧ k < lz_inpos v ≤ n).
Proof.
  destruct b as [l off]. intros Hd Hk Hv Hmax. cbn [fst snd]. destruct (lz_good_match l off) eqn:Hg.
  - eapply yields_mono; [by apply lz_emit_match|]. intros v [Hat Hpos]. split; [done|].
    destruct Hv as [[= -> ->]|(Hl & _)]; [done|]. simpl in Hl.
    assert (lz_inpos v ≤ n) by apply Hat. lia.
  - unfold lz_emit. rewrite Hg. assert (0 ≤ k) by apply Hd. pose proof n_small.
    destruct (lookup_lt_is_Some_2 data (Z.to_nat k)) as [s Hs]; [unfold n in *; lia|].
    unfold inb. rewrite (arr_get_pref _ _ _ _ Hs) by done. cbn [mbind outcome_bind].
    eapply put_symbol; [exact Hd | exact Hs|]. intros o' Hd'. simpl.
    rewrite !wrapu_small by lia. split; [|lia]. split; [done|]. simpl. lia.
Qed.

End Compress.

(** ** The compressors *)

Definition lz_coded (d : list Z) (size : Z) (out : list Z) : Prop :=
  ∃ m e, in_u8 m ∧ lz_code m [] e d ∧ size = 1 + Z.of_nat (length e) ∧
         size ≤ Z.of_nat (length d) + Z.of_nat (length d) / 256 + 1 ∧
         ∃ r, out = (m :: e) ++ r.

Section Top.
Context (data slack out : list Z).
Let inb := data ++ slack.
Let n := Z.of_nat (length data).
Context (Hdata : byte_list data) (Hn1 : 1 ≤ n).
Context (Hout : n + n / 256 + 1 ≤ Z.of_nat (length out) < 2 ^ 31).

(** A search that finds matches that may be coded. *)
Definition finds (search : Z → Z → outcome (Z * Z)) : Prop :=
  ∀ inpos, 0 ≤ inpos < n → inpos = 0 ∨ 4 ≤ n - inpos →
    yields (search inpos (n - inpos)) (λ b, lz_valid data inpos b ∧ b.2 ≤ LZ_MAX_OFFSET).

(** One round of the main loop. *)
Definition lz_round (search : Z → Z → outcome (Z * Z)) (m : Z) (v : lz_vars) : outcome (lz_vars + lz_vars) :=
  '(bestlength, bestoffset) ← search (lz_inpos v) (lz_bytesleft v);
  v ← lz_emit inb m v bestlength bestoffset;
  Ok (if 3 <? lz_bytesleft v then inl v else inr v).

Definition lz_head (cap m : Z) (v : lz_vars) : Prop :=
  lz_at data cap m v ∧ lz_inpos v < n ∧ (lz_inpos v = 0 ∨ 4 ≤ n - lz_inpos v).

Lemma lz_round_spec search cap m v :
  finds search → in_u8 m → 256 * occ m data ≤ n → n + n / 256 + 1 ≤ cap < 2 ^ 31 → lz_head cap m v →
  yields (lz_round search m v) (λ r,
    match r with
    | inl v' => lz_head cap m v' ∧ lz_inpos v < lz_inpos v'
    | inr v' => lz_done data cap m (lz_inpos v') (lz_out v')
    end).
Proof.
  intros Hfinds Hm Hrare Hcap. destruct v as [k left o]. intros ([Hd Hleft] & Hk & Hcase).
  simpl in Hd, Hleft, Hk, Hcase. unfold lz_round. cbn [lz_inpos lz_bytesleft]. subst left. fold n.
  assert (0 ≤ k) by apply Hd.
  apply yields_bind. eapply yields_mono; [apply Hfinds; lia|]. intros [l off] [Hv Hmax].
  apply yields_bind. eapply yields_mono.
  { apply (lz_emit_spec data slack cap m) with (b := (l, off)); auto; unfold n in *; lia. }
  intros v [[Hd' Hleft'] Hpos]. simpl. case_cmp; [|done].
  split; [split_and!; [split; [done | unfold n in *; lia] | unfold n in *; lia | unfold n in *; lia] | lia].
Qed.

Lemma lz_compress_spec search :
  finds search →
  yields (lz_compress search inb out n) (λ '(size, out'),
    lz_coded data size out' ∧ length out' = length out).
Proof.
  intros Hfinds. assert (n < 2 ^ 31) as Hn31 by dlia.
  set (cap := Z.of_nat (length out)) in *. unfold lz_compress.
  apply yields_bind. eapply yields_mono; [apply least_common_spec; [done | unfold n in *; lia]|].
  intros m [Hm Hrare]. destruct out as [|c out0] eqn:Eout; [unfold cap in *; simpl in *; dlia|].
  change (c :: out0) with ([] ++ c :: out0) at 1. rewrite arr_set_app by done.
  cbn [mbind outcome_bind app].
  assert (lz_done data cap m 0 (m :: out0, 1)) as Hd0.
  { split; [lia|]. exists []. split_and!; [constructor | done |]. by exists out0. }
  apply yields_bind, (yields_mono _ (λ v, lz_done data cap m (lz_inpos v) (lz_out v))).
  { apply (iter_inv (lz_head cap m) (λ v, Z.to_nat (n - lz_inpos v) - 1)%nat).
    - split_and!; [split; [done | simpl; unfold n; lia] | simpl; lia | by left].
    - simpl. lia.
    - intros v Hv. eapply yields_mono; [by apply (lz_round_spec search cap m)|].
      intros [v'|v'] Hv'; [|done]. destruct Hv' as [Hh Hlt]. split; [done|].
      assert (lz_inpos v' < n) by apply Hh. assert (0 ≤ lz_inpos v) by apply Hv. lia. }
  intros v Hd. apply yields_bind.
  eapply (yields_mono _ (λ '(_, o), lz_done data cap m n o)).
  { apply (iter_inv (λ '(inpos, o), lz_done data cap m inpos o) (λ '(inpos, _), Z.to_nat (n - inpos))); [done|assert (0 ≤ lz_inpos v) by apply Hd; lia|].
    intros [k o] Hdk. assert (0 ≤ k ≤ n) by apply Hdk.
    destruct (Z.ltb_spec k n); [|simpl; by replace n with k by lia].
    destruct (lookup_lt_is_Some_2 data (Z.to_nat k)) as [s Hs]; [unfold n in *; lia|].
    unfold inb. rewrite (arr_get_pref _ _ _ _ Hs) by lia. cbn [mbind outcome_bind].
    apply yields_bind. eapply yields_mono; [apply (write_symbol_spec data cap m) with (k := k); auto; unfold n in *; lia|].
    intros o' Hd'. simpl. rewrite wrapu_small by lia. split; [done | lia]. }
  intros [_ [out' pos]] [_ (e & He & Hle & r & Hr & Hpos & Hlen)]. simpl in *.
  replace (Z.to_nat n) with (length data) in * by (unfold n; lia). rewrite firstn_all in *.
  assert (pos ≤ n + n / 256 + 1) by dlia.
  rewrite wraps_small by (change (32 - 1) with 31; lia).
  split; [|unfold cap in Hlen; simpl in *; lia].
  exists m, e. split_and!; auto; try lia. by exists r.
Qed.

(** Two searches that agree give the same result. *)
Lemma lz_compress_agree search search' :
  finds search →
  (∀ inpos, 0 ≤ inpos < n → inpos = 0 ∨ 4 ≤ n - inpos → search' inpos (n - inpos) = search inpos (n - inpos)) →
  lz_compress search' inb out n = lz_compress search inb out n.
Proof.
  intros Hfinds Hagree. assert (n < 2 ^ 31) as Hn31 by dlia. unfold lz_compress.
  destruct (proj1 (yields_Ok _ _) (least_common_spec data slack Hdata ltac:(unfold n in *; lia)))
    as (m & Hmk & Hm & Hrare).
  unfold inb, n. rewrite Hmk. cbn [mbind outcome_bind].
  destruct out as [|c out0] eqn:Eout; [simpl in *; dlia|].
  change (c :: out0) with ([] ++ c :: out0). rewrite arr_set_app by done. cbn [mbind outcome_bind app].
  fold n inb. f_equal. apply (iter_agree (lz_head (Z.of_nat (length (c :: out0))) m)).
  - split_and!; [split; [|simpl; unfold n; lia] | simpl; lia | by left].
    split; [simpl; unfold n in *; lia|]. exists []. split_and!; [constructor | done |]. exists out0. simpl. split_and!; reflexivity.
  - intros v Hv. split.
    + destruct Hv as ([Hd Hleft] & Hk & Hcase). fold n in Hleft. rewrite Hleft. rewrite Hagree; [done|..|done].
      split; [apply Hd | done].
    + intros v' Hv'. pose proof (lz_round_spec search _ m v Hfinds Hm Hrare Hout Hv) as Hy.
      apply yields_Ok in Hy as (r & Hr & Hspec). unfold lz_round in Hr. fold n inb in Hv'. rewrite Hv' in Hr.
      injection Hr as <-. apply Hspec.
Qed.

(** The two searches. *)
Context (Hslack : slack ≠ []).

Lemma lz_search_finds : finds (lz_search inb).
Proof.
  intros inpos Hpos Hcase. assert (n < 2 ^ 31) by dlia.
  unfold inb, n. rewrite lz_search_spec by (auto; unfold n in *; lia). cbn [yields].
  destruct (best_valid data slack inpos (proj1 Hpos) Hcase (Z.to_nat (Z.min inpos LZ_MAX_OFFSET))) as [Hv Hle];
    [unfold LZ_MAX_OFFSET; lia|]. split; [done|]. unfold LZ_MAX_OFFSET in *. lia.
Qed.

Context (wsize : Z) (Hw : 65536 + n ≤ wsize).

Lemma lz_search_fast_finds work : jumps data work → finds (lz_search_fast inb wsize work).
Proof.
  intros Hj inpos Hpos Hcase. assert (n < 2 ^ 31) by dlia.
  eapply yields_mono; [apply lz_search_fast_spec; auto; unfold n in *; lia|].
  intros b (k & -> & Hk & Hmax & _).
  destruct (best_valid data slack inpos (proj1 Hpos) Hcase k Hk) as [Hv Hle]. split; [done|]. lia.
Qed.

(** Within the window, the two searches agree at every position of the loop. *)
Lemma lz_searches_agree work inpos :
  jumps data work → n ≤ LZ_MAX_OFFSET → 0 ≤ inpos < n → inpos = 0 ∨ 4 ≤ n - inpos →
  lz_search_fast inb wsize work inpos (n - inpos) = lz_search inb inpos (n - inpos).
Proof.
  intros Hj Hwin Hpos Hcase. assert (n < 2 ^ 31) by dlia.
  unfold inb, n. rewrite lz_search_spec by (auto; unfold n in *; lia).
  assert (yields (lz_search_fast (data ++ slack) wsize work inpos (Z.of_nat (length data) - inpos))
    (λ b, ∃ k, b = best data slack inpos k ∧ Z.of_nat k ≤ inpos ∧ Z.of_nat k < LZ_MAX_OFFSET ∧
      (inpos < LZ_MAX_OFFSET → b = best data slack inpos (Z.to_nat inpos)))) as Hy
    by (apply lz_search_fast_spec; auto; unfold n in *; lia).
  apply yields_Ok in Hy as (b & -> & k & _ & _ & _ & Hb). rewrite Hb by lia. by rewrite Z.min_l by lia.
Qed.

End Top.

Lemma lz_uncompress_spec d size coded out :
  lz_coded d size coded → byte_list d → d ≠ [] → Z.of_nat (length coded) < 2 ^ 31 →
  Z.of_nat (length d) ≤ Z.of_nat (length out) < 2 ^ 31 →
  yields (LZ_Uncompress coded out size) (λ out', take (length d) out' = d).
Proof.
  intros (m & e & Hm & He & Hsize & _ & r & Hr) Hd Hne Hin Hout. unfold LZ_Uncompress.
  destruct (Z.ltb_spec size 1); [lia|]. subst coded.
  change (arr_get ((m :: e) ++ r) 0) with (Ok m). cbn [mbind outcome_bind].
  assert (e ≠ []) as Hne' by (intros ->; by inversion He; subst).
  apply yields_bind. eapply yields_mono.
  - eapply (decode_loop_spec _ (lz_reading m (Z.of_nat (length out)) ((m :: e) ++ r) d) _ e _ _
      (λ o, wrote o d (Z.of_nat (length out))));
      [intros; apply lz_decode_one_spec; try done; lia | intros v Hv; exact (lz_reading_end _ _ _ _ v Hv)
      | exact Hne' | | simpl; lia | lia].
    exists [m], r, [], d. split_and!; try done. by exists out.
  - intros o Ho. exact (wrote_prefix _ _ _ Ho).
Qed.

(** What a compressor wrote is decompressed to its input. *)
Lemma lz_restores (data out restored : list Z) c :
  let n := Z.of_nat (length data) in
  byte_list data → 1 ≤ n → n + n / 256 + 1 ≤ Z.of_nat (length out) < 2 ^ 31 →
  n ≤ Z.of_nat (length restored) < 2 ^ 31 →
  yields c (λ '(size, out'), lz_coded data size out' ∧ length out' = length out) →
  ∃ size coded restored',
    c = Ok (size, coded) ∧ 1 < size ≤ n + n / 256 + 1 ∧
    LZ_Uncompress (take (Z.to_nat size) coded) restored size = Ok restored' ∧
    take (length data) restored' = data.
Proof.
  intros n Hdata Hn Hout Hrestored Hc.
  destruct (proj1 (yields_Ok _ _) Hc) as ([size coded] & -> & Hcoded & _).
  exists size, coded. destruct Hcoded as (m & e & Hm & He & Hsize & Hbound & r & Hr).
  assert (data ≠ []) as Hne by (intros ->; simpl in *; lia).
  assert (e ≠ []) as Hne' by (intros ->; by inversion He; subst).
  assert (take (Z.to_nat size) coded = m :: e) as ->.
  { subst coded. replace (Z.to_nat size) with (length (m :: e)) by (simpl; lia). apply take_app_length. }
  assert (1 < size) by (destruct e; [done | simpl in *; lia]).
  assert (lz_coded data size (m :: e)) as Hcoded'.
  { exists m, e. split_and!; try done; try lia. exists []. by rewrite app_nil_r. }
  destruct (proj1 (yields_Ok _ _) (lz_uncompress_spec data size (m :: e) restored Hcoded' Hdata Hne
    ltac:(simpl; unfold n in *; dlia) Hrestored)) as (restored' & Hu & Htake).
  by exists restored'.
Qed.

(** ** The claims *)

(** C22: LZ77 round trip.  For every non-empty input, followed in memory by at least
    one more readable byte, and every output buffer of the documented size
    [n + n/256 + 1], [LZ_Compress] stays inside its buffers and returns a size
    within that bound, and [LZ_Uncompress] of the bytes it wrote restores the
    input, inside its buffers. *)
Theorem lz_round_trip data slack out restored :
  let n := Z.of_nat (length data) in
  byte_list data → 1 ≤ n → slack ≠ [] →
  n + n / 256 + 1 ≤ Z.of_nat (length out) < 2 ^ 31 →
  n ≤ Z.of_nat (length restored) < 2 ^ 31 →
  ∃ size coded restored',
    LZ_Compress (data ++ slack) out n = Ok (size, coded) ∧
    1 < size ≤ n + n / 256 + 1 ∧
    LZ_Uncompress (take (Z.to_nat size) coded) restored size = Ok restored' ∧
    take (length data) restored' = data.
Proof.
  intros n Hdata Hn Hslack Hout Hrestored. apply (lz_restores data out); auto.
  unfold LZ_Compress. destruct (Z.ltb_spec n 1); [lia|].
  apply lz_compress_spec; auto. by apply (lz_search_finds data slack out).
Qed.

(** LZ77 round trip of the compressor with the jump table, with a working area
    of [n + 65536] words of any contents, as documented. *)
Theorem lz_fast_round_trip data slack out restored wsize work :
  let n := Z.of_nat (length data) in
  byte_list data → 1 ≤ n → slack ≠ [] → 65536 + n ≤ wsize →
  n + n / 256 + 1 ≤ Z.of_nat (length out) < 2 ^ 31 →
  n ≤ Z.of_nat (length restored) < 2 ^ 31 →
  ∃ size coded restored',
    LZ_CompressFast (data ++ slack) out n wsize work = Ok (size, coded) ∧
    1 < size ≤ n + n / 256 + 1 ∧
    LZ_Uncompress (take (Z.to_nat size) coded) restored size = Ok restored' ∧
    take (length data) restored' = data.
Proof.
  intros n Hdata Hn Hslack Hw Hout Hrestored. apply (lz_restores data out); auto.
  unfold LZ_CompressFast. destruct (Z.ltb_spec n 1); [lia|]. assert (n < 2 ^ 31) by dlia.
  apply yields_bind. eapply yields_mono; [by apply lz_jumptable_spec|]. intros work' Hj.
  apply lz_compress_spec; auto. by apply (lz_search_fast_finds data slack out).
Qed.

(** C20: the compressor with the jump table is the brute-force compressor: on inputs
    no longer than the window it writes the same bytes and returns the same size. *)
Theorem lz_fast_equals_brute_force data slack out wsize work :
  let n := Z.of_nat (length data) in
  byte_list data → 1 ≤ n ≤ LZ_MAX_OFFSET → slack ≠ [] → 65536 + n ≤ wsize →
  n + n / 256 + 1 ≤ Z.of_nat (length out) < 2 ^ 31 →
  LZ_CompressFast (data ++ slack) out n wsize work = LZ_Compress (data ++ slack) out n.
Proof.
  intros n Hdata Hn Hslack Hw Hout. unfold LZ_CompressFast, LZ_Compress.
  destruct (Z.ltb_spec n 1); [lia|]. assert (n < 2 ^ 31) by dlia.
  destruct (proj1 (yields_Ok _ _) (lz_jumptable_spec data slack wsize Hdata ltac:(unfold n in *; lia) Hw work))
    as (work' & Hwork & Hj). unfold n. rewrite Hwork. cbn [mbind outcome_bind].
  apply lz_compress_agree; auto; try (unfold n in *; lia).
  - apply (lz_search_finds data slack out); auto.
  - intros inpos Hpos Hcase. apply (lz_searches_agree data slack out); auto; unfold n in *; lia.
Qed.

(** The compressor reads one byte past its input.  On these 12 bytes, in a buffer
    of exactly 12 bytes, a match reaches the end of the input and the next
    candidate is compared at the byte after it. *)
Theorem lz_compress_reads_past_input :
  LZ_Compress [1; 2; 3; 4; 1; 2; 3; 4; 1; 2; 3; 4] (replicate 20 0) 12 = Fault OutOfBounds.
Proof. vm_compute. reflexivity. Qed.

Definition lz_example : list Z := [1; 2; 3; 4; 1; 2; 3; 4; 1; 2; 3; 4; 0; 5; 5; 5; 5; 5; 5; 5; 9].

Lemma lz_round_trip_witness :
  ∃ size coded restored',
    LZ_Compress (lz_example ++ [0]) (replicate 22 0) 21 = Ok (size, coded) ∧
    1 < size ≤ 22 ∧
    LZ_Uncompress (take (Z.to_nat size) coded) (replicate 21 0) size = Ok restored' ∧
    take 21 restored' = lz_example.
Proof.
  apply (lz_round_trip lz_example [0] (replicate 22 0) (replicate 21 0)).
  - repeat constructor; lia.
  - vm_compute. congruence.
  - done.
  - vm_compute. intuition congruence.
  - vm_compute. intuition congruence.
Defined.

Lemma lz_fast_round_trip_witness :
  ∃ size coded restored',
    LZ_CompressFast (lz_example ++ [0]) (replicate 22 0) 21 65557 ∅ = Ok (size, coded) ∧
    1 < size ≤ 22 ∧
    LZ_Uncompress (take (Z.to_nat size) coded) (replicate 21 0) size = Ok restored' ∧
    take 21 restored' = lz_example.
Proof.
  apply (lz_fast_round_trip lz_example [0] (replicate 22 0) (replicate 21 0)).
  - repeat constructor; lia.
  - vm_compute. congruence.
  - done.
  - vm_compute. congruence.
  - vm_compute. intuition congruence.
  - vm_compute. intuition congruence.
Defined.

Lemma lz_fast_equals_brute_force_witness :
  LZ_CompressFast (lz_example ++ [0]) (replicate 22 0) 21 65557 ∅ =
  LZ_Compress (lz_example ++ [0]) (replicate 22 0) 21.
Proof.
  apply (lz_fast_equals_brute_force lz_example [0] (replicate 22 0)).
  - repeat constructor; lia.
  - vm_compute. intuition congruence.
  - done.
  - vm_compute. congruence.
  - vm_compute. intuition congruence.
Defined.
