(* ===== verification/CallbackList.v ===== *)
(** * Callback lists (kernel/sys/callback-list.c)

    A callback list is an array of slots, each with a handler and the argument
    to call it with; a slot with the default handler is free.  The file holds
    the operations on lists, the registry they implement (a finite map from
    callback ids to handlers), and the proof that every sequence of operations
    gives the results and makes the calls that the registry prescribes. *)

From S2P Require Import Prelude.

(** ** Data *)

(** A function pointer: null, the static [_default_handler], which does nothing
    and which no other file can name, or a function of a client. *)
Inductive callback_handler :=
| NullHandler
| _default_handler
| UserHandler (entry : Z).

#[global] Instance callback_handler_eq_dec : EqDecision callback_handler.
Proof. solve_decision. Defined.

Record callback_t := Callback {
  handler : callback_handler;
  work : Z;
}.

(** [callbacks] is [None] for a null pointer. *)
Record callback_list_t := CallbackList {
  callbacks : option (list callback_t);
  count : Z;
}.

Definition not_null {A} (p : option A) : outcome A :=
  match p with Some a => Ok a | None => Fault NullPointer end.

Definition require (b : bool) : outcome unit :=
  if b then Ok tt else Fault AssertFailed.

(** ** Operations *)

Definition callback_init : callback_t := Callback _default_handler 0.

Definition callback_set (h : callback_handler) (w : Z) : callback_t :=
  Callback (match h with NullHandler => _default_handler | _ => h end) w.

Definition callback_list_init (cbs : option (list callback_t)) (n : Z) : outcome callback_list_t :=
  _ ← require (bool_decide (is_Some cbs));
  _ ← require (0 <? n);
  Ok (CallbackList cbs n).

Definition callback_list_clear (cl : callback_list_t) : outcome callback_list_t :=
  _ ← require (bool_decide (is_Some (callbacks cl)));
  _ ← require (0 <? count cl);
  cbs ← not_null (callbacks cl);
  cbs ← for_up (Z.to_nat (count cl)) 0 (λ i cbs, arr_set cbs i callback_init) cbs;
  Ok (CallbackList (Some cbs) (count cl)).

(** The two results of [_internal_malloc]: whether the list got memory, and the
    array of slots with what the memory holds. *)
Definition callback_list_alloc (list_ok : bool) (fresh : option (list callback_t)) (n : Z) : outcome callback_list_t :=
  _ ← require (0 <? n);
  _ ← require list_ok;
  _ ← require (bool_decide (is_Some fresh));
  cl ← callback_list_init fresh n;
  callback_list_clear cl.

Definition callback_list_free (cl : callback_list_t) : outcome callback_list_t :=
  _ ← require (bool_decide (is_Some (callbacks cl)));
  Ok (CallbackList (callbacks cl) 0).

(** The ids are [uint8_t], and so is the -1 of a full list. *)
Definition callback_list_callback_add (cl : callback_list_t) (h : callback_handler) (w : Z) : outcome (Z * callback_list_t) :=
  iter 256 (λ id,
    if id <? count cl then
      cbs ← not_null (callbacks cl);
      cb ← arr_get cbs id;
      if bool_decide (handler cb ≠ _default_handler) then Ok (inl (u8 (id + 1)))
      else
        cbs ← arr_set cbs id (callback_set h w);
        Ok (inr (id, CallbackList (Some cbs) (count cl)))
    else Ok (inr (u8 (-1), cl))) 0.

Definition callback_list_callback_remove (cl : callback_list_t) (id : Z) : outcome callback_list_t :=
  cbs ← not_null (callbacks cl);
  cbs ← arr_set cbs id (Callback _default_handler 0);
  Ok (CallbackList (Some cbs) (count cl)).

(** *** Calls

    [call f w] is what the function [f] of a client does with its argument [w]
    to the state [W]. *)
Section Calls.
Context {W : Type} (call : Z → Z → W → outcome W).

Definition call_handler (h : callback_handler) (w : Z) (st : W) : outcome W :=
  match h with
  | NullHandler => Fault NullPointer
  | _default_handler => Ok st
  | UserHandler f => call f w st
  end.

Definition callback_call (cb : callback_t) (st : W) : outcome W :=
  _ ← require (bool_decide (handler cb ≠ NullHandler));
  call_handler (handler cb) (work cb) st.

End Calls.

(** The functions that are called may change the slots. *)
Definition callback_list_process {W} (call : Z → Z → list callback_t * W → outcome (list callback_t * W))
    (cl : callback_list_t) (clear : bool) (world : W) : outcome (callback_list_t * W) :=
  _ ← require (bool_decide (is_Some (callbacks cl)));
  _ ← require (0 <? count cl);
  cbs ← not_null (callbacks cl);
  '(cbs, world) ← for_up (Z.to_nat (count cl)) 0 (λ id '(cbs, world),
    cb ← arr_get cbs id;
    let h := handler cb in
    let w := work cb in
    cbs ← (if clear then arr_set cbs id callback_init else Ok cbs);
    call_handler call h w (cbs, world)) (cbs, world);
  Ok (CallbackList (Some cbs) (count cl), world).

(** ** The registry *)

(** Callback ids to the functions and arguments registered under them. *)
Abbreviation registry := (gmap Z (Z * Z)).

(** The least free id. *)
Definition free_id (n : Z) (m : registry) : option Z :=
  head (filter (λ id, m !! id = None) (seqZ 0 n)).

Inductive cb_op :=
| CbAdd (h : option Z) (w : Z)
| CbRemove (id : Z)
| CbClear
| CbProcess (clear : bool).

(** The calls so far, the newest last. *)
Abbreviation calls := (list (Z * Z)).

Definition reg_step (n : Z) (op : cb_op) (st : registry * calls) : Z * (registry * calls) :=
  let '(m, tr) := st in
  match op with
  | CbAdd h w =>
      match free_id n m with
      | None => (255, (m, tr))
      | Some id => (id, (match h with Some f => <[id:=(f, w)]> m | None => m end, tr))
      end
  | CbRemove id => (0, (delete id m, tr))
  | CbClear => (0, (∅, tr))
  | CbProcess clear => (0, (if clear then ∅ else m, tr ++ omap (λ id, m !! id) (seqZ 0 n)))
  end.

(** The operations of the code, with functions that record their calls. *)
Definition record_call (f w : Z) (st : list callback_t * calls) : outcome (list callback_t * calls) :=
  Ok (st.1, st.2 ++ [(f, w)]).

Definition cb_step (op : cb_op) (st : callback_list_t * calls) : outcome (Z * (callback_list_t * calls)) :=
  let '(cl, tr) := st in
  match op with
  | CbAdd h w =>
      '(id, cl) ← callback_list_callback_add cl (match h with Some f => UserHandler f | None => NullHandler end) w;
      Ok (id, (cl, tr))
  | CbRemove id => cl ← callback_list_callback_remove cl id; Ok (0, (cl, tr))
  | CbClear => cl ← callback_list_clear cl; Ok (0, (cl, tr))
  | CbProcess clear => '(cl, tr) ← callback_list_process record_call cl clear tr; Ok (0, (cl, tr))
  end.

Fixpoint cb_run (ops : list cb_op) (st : callback_list_t * calls) : outcome (list Z * (callback_list_t * calls)) :=
  match ops with
  | [] => Ok ([], st)
  | op :: ops => '(r, st) ← cb_step op st; '(rs, st) ← cb_run ops st; Ok (r :: rs, st)
  end.

Fixpoint reg_run (n : Z) (ops : list cb_op) (st : registry * calls) : list Z * (registry * calls) :=
  match ops with
  | [] => ([], st)
  | op :: ops => let '(r, st) := reg_step n op st in let '(rs, st) := reg_run n ops st in (r :: rs, st)
  end.

(** Only ids of the list may be removed. *)
Definition cb_op_ok (n : Z) (op : cb_op) : Prop :=
  match op with CbRemove id => 0 ≤ id < n | _ => True end.

(** ** Refinement *)

Definition slot (cb : callback_t) : option (Z * Z) :=
  match handler cb with UserHandler f => Some (f, work cb) | _ => None end.

(** The list [cl] has [n] slots, none with a null handler, and holds [m]. *)
Record represents (n : Z) (m : registry) (cbs : list callback_t) : Prop := {
  rep_length : Z.of_nat (length cbs) = n;
  rep_handlers : Forall (λ cb, handler cb ≠ NullHandler) cbs;
  rep_lookup id : 0 ≤ id → m !! id = cbs !! Z.to_nat id ≫= slot;
  rep_negative id : id < 0 → m !! id = None;
}.

Definition list_refines (n : Z) (m : registry) (cl : callback_list_t) : Prop :=
  0 < n ≤ 255 ∧ ∃ cbs, cl = CallbackList (Some cbs) n ∧ represents n m cbs.

Lemma rep_outside n m cbs id : represents n m cbs → ¬ (0 ≤ id < n) → m !! id = None.
Proof.
  intros [Hl _ Hm Hneg] Hid. destruct (decide (id < 0)); [by apply Hneg|]. rewrite Hm by lia.
  by rewrite lookup_ge_None_2 by lia.
Qed.

Lemma seqZ_split n id : 0 ≤ id < n → seqZ 0 n = seqZ 0 id ++ id :: seqZ (id + 1) (n - id - 1).
Proof.
  intros Hid. replace n with (id + (n - id)) at 1 by lia. rewrite seqZ_app by lia. f_equal.
  rewrite seqZ_cons by lia. f_equal; f_equal; lia.
Qed.

Lemma filter_taken (m : registry) id : (∀ j, 0 ≤ j < id → m !! j ≠ None) → filter (λ j, m !! j = None) (seqZ 0 id) = [].
Proof.
  intros Hm. destruct (filter _ _) as [|x l] eqn:E; [done|]. exfalso.
  assert (x ∈ filter (λ j, m !! j = None) (seqZ 0 id)) as [Hx Hin]%list_elem_of_filter by (rewrite E; left).
  apply elem_of_seqZ in Hin. apply (Hm x); [lia | done].
Qed.

Lemma free_id_found n (m : registry) id :
  0 ≤ id < n → m !! id = None → (∀ j, 0 ≤ j < id → m !! j ≠ None) → free_id n m = Some id.
Proof.
  intros Hid Hfree Hm. unfold free_id. rewrite (seqZ_split n id), filter_app, filter_taken by done.
  rewrite filter_cons_True by done. done.
Qed.

Lemma free_id_none n (m : registry) : (∀ j, 0 ≤ j < n → m !! j ≠ None) → free_id n m = None.
Proof. intros Hm. unfold free_id. by rewrite filter_taken. Qed.

(** Writing a slot. *)
Lemma rep_insert n m cbs id cb :
  represents n m cbs → 0 ≤ id < n → handler cb ≠ NullHandler →
  represents n (match slot cb with Some x => <[id:=x]> m | None => delete id m end) (<[Z.to_nat id:=cb]> cbs).
Proof.
  intros [Hl Hh Hm Hneg] Hid Hcb. split.
  - by rewrite length_insert.
  - by apply Forall_insert.
  - intros j Hj. destruct (decide (j = id)) as [-> | Hne].
    + rewrite list_lookup_insert_eq by lia. simpl. destruct (slot cb); [apply lookup_insert_eq | apply lookup_delete_eq].
    + rewrite list_lookup_insert_ne by lia. rewrite <- Hm by done.
      destruct (slot cb); [by apply lookup_insert_ne | by apply lookup_delete_ne].
  - intros j Hj. rewrite <- (Hneg j Hj). destruct (slot cb); [apply lookup_insert_ne; lia | apply lookup_delete_ne; lia].
Qed.

Lemma add_spec n m cl (h : option Z) w :
  list_refines n m cl →
  yields (callback_list_callback_add cl (match h with Some f => UserHandler f | None => NullHandler end) w) (λ '(id, cl'),
    let '(r, (m', _)) := reg_step n (CbAdd h w) (m, []) in id = r ∧ list_refines n m' cl').
Proof.
  intros [Hn (cbs & -> & Hrep)]. unfold callback_list_callback_add. simpl count. simpl callbacks.
  pose proof Hrep as [Hl Hh Hm Hneg].
  apply (iter_inv (λ id, 0 ≤ id ≤ n ∧ ∀ j, 0 ≤ j < id → m !! j ≠ None) (λ id, Z.to_nat (n - id))); [split; [lia | intros; lia] | lia |].
  intros id [Hid Htaken]. case_cmp.
  - cbn [not_null mbind outcome_bind]. destruct (arr_get_in_range cbs id) as (cb & -> & Hcb); [lia|]. cbn [mbind outcome_bind].
    pose proof (Forall_lookup_1 _ _ _ _ Hh Hcb) as Hnn. simpl in Hnn.
    assert (m !! id = slot cb) as Hs by (rewrite Hm by lia; by rewrite Hcb).
    case_bool_decide as Hdef; cbn [yields].
    + rewrite wrapu_small by lia. split; [|lia]. split; [lia|]. intros j Hj. destruct (decide (j = id)) as [-> | Hne]; [|apply Htaken; lia].
      rewrite Hs. unfold slot. by destruct (handler cb).
    + assert (handler cb = _default_handler) as Hd by (destruct (decide (handler cb = _default_handler)); [done | by exfalso; auto]).
      assert (m !! id = None) as Hfree by (rewrite Hs; unfold slot; by rewrite Hd).
      rewrite arr_set_in_range by lia. cbn [mbind outcome_bind yields reg_step].
      rewrite (free_id_found n m id) by (lia || done). split; [done|]. split; [done|]. eexists. split; [done|].
      pose proof (rep_insert n m cbs id (callback_set (match h with Some f => UserHandler f | None => NullHandler end) w) Hrep ltac:(lia)) as Hi.
      destruct h as [f|]; simpl in Hi; [by apply Hi|]. rewrite delete_id in Hi by done. by apply Hi.
  - cbn [yields reg_step]. rewrite free_id_none by (intros j Hj; apply Htaken; lia). split; [done|]. split; [done|]. by exists cbs.
Qed.

Lemma clear_spec n cbs :
  0 < n ≤ 255 → Z.of_nat (length cbs) = n → yields (callback_list_clear (CallbackList (Some cbs) n)) (list_refines n ∅).
Proof.
  intros Hn Hl. unfold callback_list_clear. simpl callbacks. simpl count.
  rewrite bool_decide_true by done. destruct (Z.ltb_spec 0 n); [|lia]. cbn [require not_null mbind outcome_bind].
  apply yields_bind. eapply yields_mono; [apply (for_up_inv (λ i l, length l = length cbs ∧ ∀ j, 0 ≤ j < i → l !! Z.to_nat j = Some callback_init))|].
  - split; [done | intros; lia].
  - intros i l Hi [Hll Hj]. rewrite arr_set_in_range by lia. cbn [yields]. split; [by rewrite length_insert|].
    intros j Hj'. destruct (decide (j = i)) as [-> | Hne]; [apply list_lookup_insert_eq; lia|].
    rewrite list_lookup_insert_ne by lia. apply Hj. lia.
  - intros l [Hll Hj]. cbn [yields]. split; [done|]. exists l. split; [done|].
    assert (∀ i cb, l !! i = Some cb → cb = callback_init) as Hall.
    { intros i cb Hcb. pose proof (lookup_lt_Some _ _ _ Hcb). specialize (Hj (Z.of_nat i) ltac:(lia)).
      rewrite Nat2Z.id, Hcb in Hj. by injection Hj. }
    split; [lia | | | by intros; apply lookup_empty].
    + apply Forall_lookup. intros i cb Hcb. by rewrite (Hall i cb Hcb).
    + intros id Hid. rewrite lookup_empty. destruct (l !! Z.to_nat id) as [cb|] eqn:E; [|done]. by rewrite (Hall _ _ E).
Qed.

Lemma remove_spec n m cl id :
  list_refines n m cl → 0 ≤ id < n → yields (callback_list_callback_remove cl id) (list_refines n (delete id m)).
Proof.
  intros [Hn (cbs & -> & Hrep)] Hid. unfold callback_list_callback_remove. cbn [callbacks not_null mbind outcome_bind].
  pose proof (rep_length _ _ _ Hrep). rewrite arr_set_in_range by lia. cbn [mbind outcome_bind yields]. split; [done|].
  eexists. split; [done|]. by apply (rep_insert n m cbs id (Callback _default_handler 0) Hrep).
Qed.

Lemma process_spec n m cl clear tr :
  list_refines n m cl →
  yields (callback_list_process record_call cl clear tr) (λ '(cl', tr'),
    tr' = tr ++ omap (λ id, m !! id) (seqZ 0 n) ∧ list_refines n (if clear then ∅ else m) cl').
Proof.
  intros [Hn (cbs & -> & Hrep)]. unfold callback_list_process. cbn [callbacks count].
  rewrite bool_decide_true by done. destruct (Z.ltb_spec 0 n); [|lia]. cbn [require not_null mbind outcome_bind].
  apply yields_bind. eapply yields_mono; [apply (for_up_inv (λ id '(l, t), ∃ m', represents n m' l ∧
    t = tr ++ omap (λ j, m !! j) (seqZ 0 id) ∧ ∀ j, m' !! j = if clear && (j <? id) then None else m !! j))|].
  - exists m. split_and!; [done | by rewrite app_nil_r |]. intros j. destruct clear; simpl; [|done].
    case_cmp; [|done]. apply (rep_outside n m cbs); [done | lia].
  - intros id [l t] Hid (m' & Hr & -> & Hm'). pose proof Hr as [Hl Hh Hlk _].
    destruct (arr_get_in_range l id) as (cb & -> & Hcb); [lia|]. cbn [mbind outcome_bind].
    pose proof (Forall_lookup_1 _ _ _ _ Hh Hcb) as Hnn. simpl in Hnn.
    assert (m !! id = slot cb) as Hs.
    { transitivity (m' !! id); [|rewrite Hlk by lia; by rewrite Hcb]. rewrite Hm'. destruct (Z.ltb_spec id id); [lia|]. by rewrite andb_false_r. }
    assert (tr ++ omap (λ j, m !! j) (seqZ 0 (id + 1)) = (tr ++ omap (λ j, m !! j) (seqZ 0 id)) ++ match slot cb with Some x => [x] | None => [] end) as Htr.
    { rewrite seqZ_app, omap_app by lia. rewrite <- app_assoc. do 2 f_equal. rewrite seqZ_cons by lia. rewrite Z.add_0_l. simpl. rewrite Hs. by destruct (slot cb). }
    assert (∀ l' m2, represents n m2 l' → (∀ j, m2 !! j = if clear && (j <? id + 1) then None else m !! j) →
      yields (call_handler record_call (handler cb) (work cb) (l', tr ++ omap (λ j, m !! j) (seqZ 0 id)))
        (λ '(l0, t0), ∃ m2, represents n m2 l0 ∧ t0 = tr ++ omap (λ j, m !! j) (seqZ 0 (id + 1)) ∧
           ∀ j, m2 !! j = if clear && (j <? id + 1) then None else m !! j)) as Hcall.
    { intros l' m2 Hr2 Hm2. rewrite Htr. unfold slot, call_handler. destruct (handler cb) as [| |f]; [done | |]; cbn [yields record_call fst snd];
        exists m2; (split_and!; [done | by rewrite ?app_nil_r | done]). }
    destruct clear; simpl andb in *.
    + rewrite arr_set_in_range by lia. cbn [mbind outcome_bind].
      apply (Hcall _ (delete id m')); [apply (rep_insert n m' l id callback_init Hr); [lia | done]|].
      intros j. destruct (decide (j = id)) as [-> | Hne]; [rewrite lookup_delete_eq; by destruct (Z.ltb_spec id (id + 1)); [|lia]|].
      rewrite lookup_delete_ne, Hm' by done. repeat case_cmp; lia || done.
    + cbn [mbind outcome_bind]. by apply (Hcall _ m').
  - rewrite Z.add_0_l, Z2Nat.id by lia. intros [l t] (m' & Hr & -> & Hm'). cbn [yields]. split; [done|]. split; [done|].
    exists l. split; [done|]. assert (m' = if clear then ∅ else m) as <-; [|done]. apply map_eq. intros j. rewrite Hm'.
    destruct clear; simpl; [|done]. rewrite lookup_empty. case_cmp; [done|]. apply (rep_outside n m cbs); [done | lia].
Qed.

Lemma step_spec n m cl tr op :
  list_refines n m cl → cb_op_ok n op →
  yields (cb_step op (cl, tr)) (λ '(r, (cl', tr')),
    let '(r0, (m', tr0)) := reg_step n op (m, tr) in r = r0 ∧ tr' = tr0 ∧ list_refines n m' cl').
Proof.
  intros Hr Hok. destruct op as [h w | id | | clear]; cbn [cb_step]; apply yields_bind.
  - eapply yields_mono; [by apply (add_spec n m)|]. intros [id cl']. cbn [yields reg_step].
    destruct (free_id n m); intros [-> Hr']; done.
  - eapply yields_mono; [by apply (remove_spec n m)|]. intros cl' Hr'. done.
  - destruct Hr as [Hn (cbs & -> & [Hl _ _ _])]. eapply yields_mono; [by apply (clear_spec n)|]. intros cl' Hr'. done.
  - eapply yields_mono; [by apply (process_spec n m)|]. intros [cl' tr'] [-> Hr']. done.
Qed.

Lemma cb_run_spec n ops m cl tr :
  list_refines n m cl → Forall (cb_op_ok n) ops →
  yields (cb_run ops (cl, tr)) (λ '(rs, (cl', tr')),
    let '(rs0, (m', tr0)) := reg_run n ops (m, tr) in rs = rs0 ∧ tr' = tr0 ∧ list_refines n m' cl').
Proof.
  revert m cl tr. induction ops as [|op ops IH]; intros m cl tr Hr Hok; cbn [cb_run reg_run]; [by cbn [yields]|].
  apply Forall_cons in Hok as [Hop Hok]. apply yields_bind. eapply yields_mono; [by apply (step_spec n m)|].
  intros [r [cl1 tr1]]. destruct (reg_step n op (m, tr)) as [r0 [m1 tr0]]. intros (-> & -> & Hr1).
  apply yields_bind. eapply yields_mono; [by apply (IH m1)|]. intros [rs [cl2 tr2]].
  destruct (reg_run n ops (m1, tr0)) as [rs0 [m2 tr3]]. intros (-> & -> & Hr2). cbn [yields]. done.
Qed.

Lemma alloc_spec fresh n :
  0 < n ≤ 255 → Z.of_nat (length fresh) = n →
  yields (callback_list_alloc true (Some fresh) n) (list_refines n ∅).
Proof.
  intros Hn Hl. unfold callback_list_alloc, callback_list_init. rewrite bool_decide_true by done.
  destruct (Z.ltb_spec 0 n); [|lia]. cbn [require mbind outcome_bind]. by apply clear_spec.
Qed.


