(* ===== verification/ScuDma.v ===== *)
(** * SCU-DMA (scu/scu_dma.c, scu/dma.h, scu/ic.h, cpu/intc.h)

    The three DMA levels of the SCU: programming their registers, starting and
    stopping them, waiting for them, and the interrupts at the end of a
    transfer.  The hardware and the functions of the BIOS are parameters. *)

From S2P Require Import Prelude Bits CallbackList.

(** ** Hardware and BIOS

    [dsta n] is what the [n]th read of the register DSTA gives, and [level_end n]
    the level, if any, whose end-of-transfer interrupt is taken before that read.
    The BIOS keeps the interrupt mask of the SCU and the table of interrupt
    handlers. *)
Inductive ihr :=
| NullIhr
| scu_dma_level_ihr (level : Z)
| dma_illegal_ihr.

Class Machine := {
  dsta : nat → Z;
  level_end : nat → option Z;
  bios : Type;
  bios_mask_get : bios → Z;
  bios_mask_set : Z → bios → bios;
  bios_mask_chg : Z → Z → bios → bios;
  bios_ihr_set : Z → ihr → bios → bios;
}.

(** ** Constants *)

Definition D0EN : Z := 0x0010.
Definition SCU (x : Z) : Z := 0x25FE0000 + x.
Definition SCU_DMA_LEVEL_COUNT : Z := 3.
Definition CPU_CACHE_THROUGH : Z := 0x20000000.
Definition CPU_SR_I_BITS_MASK : Z := 0x000000F0.
Definition SCU_DMA_MODE_DIRECT : Z := 0x00.
Definition SCU_DMA_MODE_INDIRECT : Z := 0x01.
Definition SCU_DMA_START_FACTOR_ENABLE : Z := 0x07.
Definition SCU_IC_INTERRUPT_LEVEL_2_DMA_END : Z := 0x49.
Definition SCU_IC_INTERRUPT_LEVEL_1_DMA_END : Z := 0x4A.
Definition SCU_IC_INTERRUPT_LEVEL_0_DMA_END : Z := 0x4B.
Definition SCU_IC_INTERRUPT_DMA_ILLEGAL : Z := 0x4C.
Definition SCU_IC_MASK_NONE : Z := 0x00000000.
Definition SCU_IC_MASK_LEVEL_2_DMA_END : Z := 0x00000200.
Definition SCU_IC_MASK_LEVEL_1_DMA_END : Z := 0x00000400.
Definition SCU_IC_MASK_LEVEL_0_DMA_END : Z := 0x00000800.
Definition SCU_IC_MASK_DMA_ILLEGAL : Z := 0x00001000.
Definition SCU_IC_MASK_ALL : Z := 0x0000BFFF.
Definition LEVEL_STATE_IDLING : Z := 0x00.
Definition LEVEL_STATE_WORKING : Z := 0x01.

(** [REGISTER_BLOCK_OFFSET] *)
Definition REGISTER_BLOCK_OFFSET (level : Z) : Z := Z.shiftl (Z.land level SCU_DMA_LEVEL_COUNT) 5.

(** ** Data *)

Record scu_dma_handle_t := Handle { dnr : Z; dnw : Z; dnc : Z; dnad : Z; dnmd : Z }.

(** The union [scu_dma_xfer_type]: its member [indirect] is the first word. *)
Record scu_dma_xfer_t := Xfer { xfer_len : Z; xfer_dst : Z; xfer_src : Z }.
Definition xfer_indirect (x : scu_dma_xfer_t) : Z := xfer_len x.

Record scu_dma_level_cfg_t := Cfg { mode : Z; stride : Z; update : Z; xfer : scu_dma_xfer_t }.

Record level_state := LevelState { flags : Z; level_callback : callback_t }.

(** What the program does that can be seen from outside: writes to I/O
    registers, calls of functions of a client, calls of such functions by an
    interrupt, and the purge of the CPU cache. *)
Inductive io_event :=
| IoWrite (address value : Z)
| IoCall (entry : Z) (args : list Z)
| IoIsrCall (entry work : Z)
| IoCachePurge.

#[global] Instance io_event_eq_dec : EqDecision io_event.
Proof. solve_decision. Defined.

Section Scu.
Context `{Machine}.

Record scu_t := Scu {
  _level_state : list level_state;
  reg_sr : Z;
  scu_bios : bios;
  polls : nat;
  io : list io_event;
}.

Definition set_level_state ls (s : scu_t) : scu_t := Scu ls (reg_sr s) (scu_bios s) (polls s) (io s).
Definition set_reg_sr sr (s : scu_t) : scu_t := Scu (_level_state s) sr (scu_bios s) (polls s) (io s).
Definition set_bios b (s : scu_t) : scu_t := Scu (_level_state s) (reg_sr s) b (polls s) (io s).
Definition set_polls n (s : scu_t) : scu_t := Scu (_level_state s) (reg_sr s) (scu_bios s) n (io s).
Definition emit (e : io_event) (s : scu_t) : scu_t := Scu (_level_state s) (reg_sr s) (scu_bios s) (polls s) (io s ++ [e]).

Definition memory_write (address value : Z) : M scu_t unit := modify (emit (IoWrite address value)).

(** ** Interrupt masks *)

Definition cpu_intc_mask_get : M scu_t Z :=
  gets (λ s, Z.shiftr (Z.land (reg_sr s) CPU_SR_I_BITS_MASK) 4).

Definition cpu_intc_mask_set (mask : Z) : M scu_t unit :=
  modify (λ s, set_reg_sr (Z.lor (Z.land (reg_sr s) (Z.lxor CPU_SR_I_BITS_MASK 0xFFFFFFFF))
    (Z.land (Z.shiftl (u8 mask) 4) CPU_SR_I_BITS_MASK)) s).

Definition scu_ic_mask_get : M scu_t Z := gets (λ s, bios_mask_get (scu_bios s)).
Definition scu_ic_mask_set (mask : Z) : M scu_t unit := modify (λ s, set_bios (bios_mask_set mask (scu_bios s)) s).
Definition scu_ic_mask_chg (and_mask or_mask : Z) : M scu_t unit :=
  modify (λ s, set_bios (bios_mask_chg and_mask or_mask (scu_bios s)) s).
Definition scu_ic_ihr_set (vector : Z) (h : ihr) : M scu_t unit :=
  modify (λ s, set_bios (bios_ihr_set vector h (scu_bios s)) s).
Definition scu_dma_illegal_set (h : ihr) : M scu_t unit := scu_ic_ihr_set SCU_IC_INTERRUPT_DMA_ILLEGAL h.

(** ** Levels *)

Definition get_level (level : Z) : M scu_t level_state :=
  ls ← gets _level_state;
  lift (arr_get ls level).

Definition set_flags (level f : Z) : M scu_t unit :=
  ls ← gets _level_state;
  l ← lift (arr_get ls level);
  ls ← lift (arr_set ls level (LevelState f (level_callback l)));
  modify (set_level_state ls).

(** [_scu_dma_level0_handler], [_scu_dma_level1_handler] and
    [_scu_dma_level2_handler] *)
Definition _scu_dma_level_handler (level : Z) : M scu_t unit :=
  _ ← set_flags level LEVEL_STATE_IDLING;
  l ← get_level level;
  s ← gets id;
  s ← lift (callback_call (λ f w s, Ok (emit (IoIsrCall f w) s)) (level_callback l) s);
  modify (λ _, s).

(** A read of DSTA, before which an interrupt may be taken. *)
Definition scu_dma_status_get : M scu_t Z :=
  n ← gets polls;
  _ ← match level_end n with Some level => _scu_dma_level_handler level | None => mret tt end;
  _ ← modify (set_polls (S n));
  mret (dsta n).

Definition scu_dma_level0_busy : M scu_t Z := v ← scu_dma_status_get; mret (Z.land v 0x00010030).
Definition scu_dma_level1_busy : M scu_t Z := v ← scu_dma_status_get; mret (Z.land v 0x00020300).
Definition scu_dma_level2_busy : M scu_t Z := v ← scu_dma_status_get; mret (Z.land v 0x00003000).

Definition scu_dma_level_busy (level : Z) : M scu_t Z :=
  match Z.land level SCU_DMA_LEVEL_COUNT with
  | 1 => scu_dma_level1_busy
  | 2 => scu_dma_level2_busy
  | _ => scu_dma_level0_busy
  end.

Definition scu_dma_level_fast_start (level : Z) : M scu_t unit :=
  memory_write (SCU (Z.lor D0EN (REGISTER_BLOCK_OFFSET level))) 0x00000101.

Definition scu_dma_level_stop (level : Z) : M scu_t unit :=
  _ ← memory_write (SCU (Z.lor D0EN (REGISTER_BLOCK_OFFSET level))) 0x00000000;
  set_flags level LEVEL_STATE_IDLING.

Definition scu_dma_stop : M scu_t unit :=
  _ ← scu_dma_level_stop 0;
  _ ← scu_dma_level_stop 1;
  scu_dma_level_stop 2.

(** The loop of [scu_dma_level_wait], with [fuel] rounds at most. *)
Fixpoint scu_dma_level_wait (fuel : nat) (level : Z) : M scu_t unit :=
  match fuel with
  | O => raise OutOfFuel
  | S fuel =>
      l ← get_level level;
      if negb (flags l =? LEVEL_STATE_WORKING) then mret tt
      else
        busy ← scu_dma_level_busy level;
        if busy =? 0x00000000 then mret tt else scu_dma_level_wait fuel level
  end.

Definition scu_dma_level_start (fuel : nat) (level : Z) : M scu_t unit :=
  _ ← when (level =? 2) (scu_dma_level_wait fuel 1);
  _ ← scu_dma_level_wait fuel level;
  scu_dma_level_fast_start level.

Definition scu_dma_level_end_set (level : Z) (callback : callback_handler) (work : Z) : M scu_t unit :=
  ls ← gets _level_state;
  l ← lift (arr_get ls level);
  ls ← lift (arr_set ls level (LevelState (flags l) (callback_set callback work)));
  modify (set_level_state ls).

Definition scu_dma_level_unused_get : M scu_t Z :=
  b ← scu_dma_level_busy 0;
  if negb (b =? 0x00) then mret 0
  else
    b ← scu_dma_level_busy 1;
    if negb (b =? 0x00) then mret 1
    else
      b ← scu_dma_level_busy 2;
      if negb (b =? 0x00) then mret 2 else mret (-1).

(** ** Configuration *)

Definition scu_dma_config_buffer (handle : scu_dma_handle_t) (cfg : scu_dma_level_cfg_t) : outcome scu_dma_handle_t :=
  let md := Z.land (dnmd handle) (Z.lxor 0x01010107 0xFFFFFFFF) in
  let x := xfer cfg in
  h ← (if Z.land (mode cfg) 0x01 =? SCU_DMA_MODE_DIRECT then
         _ ← require (negb (xfer_len x =? 0x00000000));
         _ ← require (negb (xfer_dst x =? 0x00000000));
         _ ← require (negb (xfer_src x =? 0x00000000));
         Ok (Handle (Z.lor CPU_CACHE_THROUGH (xfer_src x)) (Z.lor CPU_CACHE_THROUGH (xfer_dst x)) (xfer_len x) (dnad handle) md)
       else
         _ ← require (negb (xfer_indirect x =? 0));
         Ok (Handle 0x00000000 (Z.lor CPU_CACHE_THROUGH (xfer_indirect x)) 0x00000000 (dnad handle) (Z.lor md 0x01000000)));
  Ok (Handle (dnr h) (dnw h) (dnc h) (Z.lor 0x00000100 (Z.land (stride cfg) 0x07))
        (Z.lor (dnmd h) (Z.land (update cfg) 0x00010100))).

Definition scu_dma_config_set (fuel : nat) (level start_factor : Z) (handle : scu_dma_handle_t) : M scu_t unit :=
  _ ← assert_ (level <=? 2);
  _ ← assert_ (start_factor <=? 7);
  _ ← when (level =? 2) (scu_dma_level_wait fuel 1);
  _ ← scu_dma_level_wait fuel level;
  _ ← scu_dma_level_stop level;
  _ ← set_flags level LEVEL_STATE_WORKING;
  let reg_ptr := SCU (REGISTER_BLOCK_OFFSET level) in
  _ ← memory_write reg_ptr (dnr handle);
  _ ← memory_write (reg_ptr + 4) (dnw handle);
  _ ← memory_write (reg_ptr + 8) (dnc handle);
  _ ← memory_write (reg_ptr + 12) (dnad handle);
  let reg_dxen := reg_ptr + 16 in
  _ ← memory_write (reg_ptr + 20) (Z.lor (dnmd handle) start_factor);
  when (negb (start_factor =? SCU_DMA_START_FACTOR_ENABLE)) (memory_write reg_dxen 0x00000100).

Definition _internal_scu_dma_init : M scu_t unit :=
  _ ← scu_dma_stop;
  let scu_mask := Z.lor (Z.lor (Z.lor SCU_IC_MASK_LEVEL_0_DMA_END SCU_IC_MASK_LEVEL_1_DMA_END)
                    SCU_IC_MASK_LEVEL_2_DMA_END) SCU_IC_MASK_DMA_ILLEGAL in
  _ ← scu_ic_mask_chg SCU_IC_MASK_ALL scu_mask;
  _ ← scu_ic_ihr_set SCU_IC_INTERRUPT_LEVEL_0_DMA_END (scu_dma_level_ihr 0);
  _ ← scu_ic_ihr_set SCU_IC_INTERRUPT_LEVEL_1_DMA_END (scu_dma_level_ihr 1);
  _ ← scu_ic_ihr_set SCU_IC_INTERRUPT_LEVEL_2_DMA_END (scu_dma_level_ihr 2);
  _ ← scu_dma_illegal_set NullIhr;
  ls ← gets _level_state;
  ls ← lift (for_up 3 0 (λ level ls, arr_set ls level (LevelState LEVEL_STATE_IDLING callback_init)) ls);
  _ ← modify (set_level_state ls);
  scu_ic_mask_chg (Z.lxor scu_mask 0xFFFFFFFF) SCU_IC_MASK_NONE.

End Scu.
