(* ===== verification/ScuDmaProof.v ===== *)
(** * SCU-DMA: waiting, programming and starting a level

    What the operations of ScuDma.v do from any well-formed state and with any
    hardware whose transfers end. *)

From Stdlib Require Import Btauto.
From S2P Require Import Prelude Bits CallbackList ScuDma.

Section ScuProof.
Context `{Machine}.

(** ** States *)

Record scu_wf (s : scu_t) : Prop := {
  wf_levels : length (_level_state s) = 3%nat;
  wf_callbacks : Forall (λ l, handler (level_callback l) ≠ NullHandler) (_level_state s);
}.

(** Interrupts come from the three levels. *)
Definition level_ends_ok : Prop := ∀ n level, level_end n = Some level → 0 ≤ level ≤ 2.

(** The busy bits of a level in DSTA. *)
Definition busy_mask (level : Z) : Z :=
  if level =? 1 then 0x00020300 else if level =? 2 then 0x00003000 else 0x00010030.

Definition idle_at (n : nat) (level : Z) : Prop := Z.land (dsta n) (busy_mask level) = 0.

(** Every level is seen idle within [B] reads of DSTA, whenever they begin. *)
Definition idle_within (B : nat) : Prop := ∀ n level, 0 ≤ level ≤ 2 → ∃ k, (k < B)%nat ∧ idle_at (n + k) level.

(** No transfer of the level is under way: it was not started since the last
    one ended, or the last read of DSTA says so. *)
Definition level_idle (s : scu_t) (level : Z) : Prop :=
  (∃ l, arr_get (_level_state s) level = Ok l ∧ flags l ≠ LEVEL_STATE_WORKING) ∨
  (∃ n, polls s = S n ∧ idle_at n level).

Definition is_isr (e : io_event) : Prop := match e with IoIsrCall _ _ => True | _ => False end.
#[global] Instance is_isr_dec e : Decision (is_isr e).
Proof. destruct e; simpl; apply _. Defined.

(** The events that are not calls from interrupts. *)
Definition visible (s : scu_t) : list io_event := filter (λ e, ¬ is_isr e) (io s).

(** What waiting changes at most: level flags that interrupts cleared. *)
Record quiet (s s' : scu_t) : Prop := {
  quiet_wf : scu_wf s';
  quiet_callbacks : level_callback <$> _level_state s' = level_callback <$> _level_state s;
  quiet_sr : reg_sr s' = reg_sr s;
  quiet_bios : scu_bios s' = scu_bios s;
  quiet_visible : visible s' = visible s;
  quiet_polls : (polls s ≤ polls s')%nat;
}.

Lemma quiet_refl s : scu_wf s → quiet s s.
Proof. intros Hwf. by split. Qed.

Lemma quiet_trans s1 s2 s3 : quiet s1 s2 → quiet s2 s3 → quiet s1 s3.
Proof. intros [] []. split; [done | congruence.. | lia]. Qed.

Lemma visible_emit e s : visible (emit e s) = visible s ++ (if decide (is_isr e) then [] else [e]).
Proof.
  unfold visible. simpl io. rewrite filter_app. f_equal. destruct (decide (is_isr e)) as [Hd | Hd].
  - by rewrite filter_cons_False by (by intros ?).
  - by rewrite filter_cons_True by done.
Qed.

Lemma get_level_spec level s :
  scu_wf s → 0 ≤ level ≤ 2 → ∃ l, arr_get (_level_state s) level = Ok l ∧ handler (level_callback l) ≠ NullHandler.
Proof.
  intros [Hl Hc] Hlv. destruct (arr_get_in_range (_level_state s) level) as (l & Hg & Hlk); [lia|].
  exists l. split; [done|]. apply (Forall_lookup_1 _ _ _ _ Hc Hlk).
Qed.

(** [set_flags] changes the flags of the level and nothing else. *)
Lemma wp_set_flags level f s Q :
  scu_wf s → 0 ≤ level ≤ 2 →
  (∀ s', quiet s s' → polls s' = polls s → (∃ l, arr_get (_level_state s') level = Ok l ∧ flags l = f) → Q tt s') →
  wp (set_flags level f) s Q.
Proof.
  intros Hwf Hlv HQ. unfold set_flags. apply wp_bind, wp_gets. apply wp_bind.
  destruct (arr_get_in_range (_level_state s) level) as (l & Hg & Hlk); [rewrite (wf_levels _ Hwf); lia|].
  eapply wp_lift; [exact Hg|]. cbv beta. apply wp_bind. eapply wp_lift; [apply arr_set_in_range; rewrite (wf_levels _ Hwf); lia|].
  cbv beta. apply wp_modify. destruct Hwf as [Hlen Hcb]. apply HQ.
  - split; [split| |done..]; simpl.
    + by rewrite length_insert.
    + apply Forall_insert; [done|]. simpl. apply (Forall_lookup_1 _ _ _ _ Hcb Hlk).
    + rewrite list_fmap_insert. simpl. apply list_insert_id. by rewrite list_lookup_fmap, Hlk.
  - done.
  - simpl. eexists. split; [apply arr_get_Ok; split; [lia|]; apply list_lookup_insert_eq; lia|done].
Qed.

Lemma wp_level_handler level s Q :
  scu_wf s → 0 ≤ level ≤ 2 →
  (∀ s', quiet s s' → polls s' = polls s → Q tt s') → wp (_scu_dma_level_handler level) s Q.
Proof.
  intros Hwf Hlv HQ. unfold _scu_dma_level_handler. apply wp_bind. apply wp_set_flags; [done | done |].
  intros s1 Hq Hp _. destruct (get_level_spec level s1) as (l & Hl & Hnn); [by destruct Hq | done |].
  apply wp_bind. unfold get_level. apply wp_bind, wp_gets. eapply wp_lift; [exact Hl|]. cbv beta. apply wp_bind, wp_gets.
  apply wp_bind. unfold callback_call. rewrite bool_decide_true by done. cbn [require mbind outcome_bind].
  destruct (handler (level_callback l)) as [| |f] eqn:Hh; [done | |]; (eapply wp_lift; [reflexivity|]); cbv beta; apply wp_modify.
  - by apply HQ.
  - apply HQ; [|done]. destruct Hq as [Hw Hc Hr Hb Hv Hpo].
    split; [by destruct Hw; split | done | done | done | | done]. rewrite visible_emit. simpl. by rewrite app_nil_r.
Qed.

Lemma wp_status s Q :
  scu_wf s → level_ends_ok →
  (∀ s', quiet s s' → polls s' = S (polls s) → Q (dsta (polls s)) s') → wp scu_dma_status_get s Q.
Proof.
  intros Hwf Hok HQ. unfold scu_dma_status_get. apply wp_bind, wp_gets. apply wp_bind.
  assert (∀ s1, quiet s s1 → wp (_ ← modify (set_polls (S (polls s))); mret (dsta (polls s))) s1 Q) as Hk.
  { intros s1 [Hw Hc Hr Hb Hv Hpo]. apply wp_bind, wp_modify, wp_ret. apply HQ; [|done].
    split; [by destruct Hw; split | done | done | done | done | simpl; lia]. }
  destruct (level_end (polls s)) as [level|] eqn:He.
  - apply wp_level_handler; [done | by apply (Hok (polls s)) |]. intros s1 Hq _. by apply Hk.
  - apply wp_ret. by apply Hk, quiet_refl.
Qed.

Lemma wp_busy level s Q :
  scu_wf s → level_ends_ok → 0 ≤ level ≤ 2 →
  (∀ s', quiet s s' → polls s' = S (polls s) → Q (Z.land (dsta (polls s)) (busy_mask level)) s') →
  wp (scu_dma_level_busy level) s Q.
Proof.
  intros Hwf Hok Hlv HQ. unfold scu_dma_level_busy.
  assert (level = 0 ∨ level = 1 ∨ level = 2) as [-> | [-> | ->]] by lia; simpl;
    unfold scu_dma_level0_busy, scu_dma_level1_busy, scu_dma_level2_busy; apply wp_bind;
    (apply wp_status; [done | done |]); intros s' Hq Hp; apply wp_ret; by apply HQ.
Qed.

Lemma wp_wait k level s Q :
  scu_wf s → level_ends_ok → 0 ≤ level ≤ 2 → idle_at (polls s + k) level →
  (∀ s', quiet s s' → (polls s' ≤ S (polls s + k))%nat → level_idle s' level → Q tt s') →
  ∀ fuel, (k < fuel)%nat → wp (scu_dma_level_wait fuel level) s Q.
Proof.
  revert s. induction k as [|k IH]; intros s Hwf Hok Hlv Hidle HQ [|fuel] Hf; try lia; cbn [scu_dma_level_wait];
    apply wp_bind; unfold get_level; apply wp_bind, wp_gets;
    destruct (get_level_spec level s Hwf Hlv) as (l & Hl & _); (eapply wp_lift; [exact Hl|]); cbv beta;
    destruct (Z.eqb_spec (flags l) LEVEL_STATE_WORKING) as [Hw | Hw]; simpl negb; cbv iota;
    try (apply wp_ret, HQ; [by apply quiet_refl | lia | left; by exists l]);
    apply wp_bind; (apply wp_busy; [done..|]); intros s1 Hq1 Hp1.
  - rewrite Nat.add_0_r in Hidle. rewrite Hidle. simpl. apply wp_ret, HQ; [done | lia |]. right. by exists (polls s).
  - destruct (Z.eqb_spec (Z.land (dsta (polls s)) (busy_mask level)) 0) as [H0 | H0].
    + apply wp_ret, HQ; [done | lia |]. right. by exists (polls s).
    + apply IH; [by destruct Hq1 | done | done | by rewrite Hp1, Nat.add_succ_comm | | lia].
      intros s' Hq' Hp' Hi. apply HQ; [by apply (quiet_trans s s1) | lia | done].
Qed.

(** ** Programming and starting *)

(** The operation kept what [quiet] says and did [evs]. *)
Record emits (evs : list io_event) (s s' : scu_t) : Prop := {
  emits_wf : scu_wf s';
  emits_callbacks : level_callback <$> _level_state s' = level_callback <$> _level_state s;
  emits_sr : reg_sr s' = reg_sr s;
  emits_bios : scu_bios s' = scu_bios s;
  emits_visible : visible s' = visible s ++ evs;
}.

Lemma emits_quiet s s' : quiet s s' → emits [] s s'.
Proof. intros []. split; [done..|]. by rewrite app_nil_r. Qed.

Lemma emits_trans e1 e2 s1 s2 s3 : emits e1 s1 s2 → emits e2 s2 s3 → emits (e1 ++ e2) s1 s3.
Proof. intros [_ ? ? ? Hv1] [? ? ? ? Hv2]. split; [done | congruence.. |]. by rewrite Hv2, Hv1, app_assoc. Qed.

Lemma emits_emit e s : scu_wf s → ¬ is_isr e → emits [e] s (emit e s).
Proof.
  intros [] He. split; [by split | done | done | done |]. rewrite visible_emit. by destruct (decide (is_isr e)).
Qed.

Lemma wp_write a v s Q : scu_wf s → (∀ s', emits [IoWrite a v] s s' → _level_state s' = _level_state s → Q tt s') → wp (memory_write a v) s Q.
Proof. intros Hwf HQ. apply wp_modify, HQ; [|done]. apply emits_emit; [done | by intros ?]. Qed.

Lemma wp_stop level s Q :
  scu_wf s → 0 ≤ level ≤ 2 →
  (∀ s', emits [IoWrite (SCU (Z.lor D0EN (REGISTER_BLOCK_OFFSET level))) 0] s s' → Q tt s') →
  wp (scu_dma_level_stop level) s Q.
Proof.
  intros Hwf Hlv HQ. unfold scu_dma_level_stop. apply wp_bind. apply wp_write; [done|]. intros s1 He1 _.
  apply wp_set_flags; [by destruct He1 | done |]. intros s2 Hq2 _ _. apply HQ.
  pose proof (emits_trans _ _ _ _ _ He1 (emits_quiet _ _ Hq2)) as He. exact He.
Qed.

(** The registers of a level, and the writes that program a transfer. *)
Definition level_register (level offset : Z) : Z := 0x25FE0000 + 0x20 * level + offset.

Definition config_writes (level start_factor : Z) (h : scu_dma_handle_t) : list io_event :=
  [IoWrite (level_register level 0x10) 0; IoWrite (level_register level 0x00) (dnr h); IoWrite (level_register level 0x04) (dnw h);
   IoWrite (level_register level 0x08) (dnc h); IoWrite (level_register level 0x0C) (dnad h);
   IoWrite (level_register level 0x14) (Z.lor (dnmd h) start_factor)] ++
  (if start_factor =? 7 then [] else [IoWrite (level_register level 0x10) 0x100]).

Lemma register_address level offset :
  0 ≤ level ≤ 2 → SCU (Z.lor D0EN (REGISTER_BLOCK_OFFSET level)) = level_register level 0x10 ∧
  SCU (REGISTER_BLOCK_OFFSET level) + offset = level_register level offset.
Proof.
  intros Hlv. unfold level_register, SCU.
  assert (REGISTER_BLOCK_OFFSET level = 0x20 * level ∧ Z.lor D0EN (REGISTER_BLOCK_OFFSET level) = 0x20 * level + 0x10) as [-> ->].
  { assert (level = 0 ∨ level = 1 ∨ level = 2) as [-> | [-> | ->]] by lia; done. }
  lia.
Qed.

(** The events of [scu_dma_config_set] are those of [config_writes]. *)
Ltac config_tac :=
  match goal with
  | Hlv : 0 ≤ ?level ≤ 2, Hsf : negb (?sf =? SCU_DMA_START_FACTOR_ENABLE) = _ |- _ =>
      unfold config_writes; change SCU_DMA_START_FACTOR_ENABLE with 7 in Hsf;
      destruct (sf =? 7); try discriminate Hsf; rewrite <- ?app_assoc; simpl app;
      rewrite (proj1 (register_address level 0 Hlv)), <- ?Z.add_assoc; simpl Z.add;
      rewrite !(proj2 (register_address level _ Hlv)); reflexivity
  end.

Section Fair.
Context (B fuel : nat) (Hok : level_ends_ok) (Hidle : idle_within B) (Hfuel : (B ≤ fuel)%nat).

Lemma wp_wait_idle level s Q :
  scu_wf s → 0 ≤ level ≤ 2 → (∀ s', quiet s s' → level_idle s' level → Q tt s') → wp (scu_dma_level_wait fuel level) s Q.
Proof.
  intros Hwf Hlv HQ. destruct (Hidle (polls s) level Hlv) as (k & Hk & Hi).
  apply (wp_wait k); [done | done | done | done | | lia]. intros s' Hq _ Hid. by apply HQ.
Qed.

Lemma wp_wait_level2 level s Q :
  scu_wf s → (∀ s', quiet s s' → Q tt s') → wp (when (level =? 2) (scu_dma_level_wait fuel 1)) s Q.
Proof.
  intros Hwf HQ. apply wp_when; intros _; [|by apply HQ, quiet_refl]. apply wp_wait_idle; [done | lia |].
  intros s' Hq _. by apply HQ.
Qed.

Lemma wp_config_set level start_factor h s Q :
  scu_wf s → 0 ≤ level ≤ 2 → start_factor ≤ 7 →
  (∀ s', emits (config_writes level start_factor h) s s' →
     (∃ l, arr_get (_level_state s') level = Ok l ∧ flags l = LEVEL_STATE_WORKING) → Q tt s') →
  wp (scu_dma_config_set fuel level start_factor h) s Q.
Proof.
  intros Hwf Hlv Hsf HQ. unfold scu_dma_config_set.
  apply wp_bind, wp_assert; [by apply Z.leb_le; lia|]. apply wp_bind, wp_assert; [by apply Z.leb_le; lia|].
  apply wp_bind, wp_wait_level2; [done|]. intros s1 Hq1. apply wp_bind, wp_wait_idle; [by destruct Hq1 | done |]. intros s2 Hq2 _.
  apply wp_bind, wp_stop; [by destruct Hq2 | done |]. intros s3 He3.
  apply wp_bind, wp_set_flags; [by destruct He3 | done |]. intros s4 Hq4 _ Hw.
  pose proof (emits_trans _ _ _ _ _ (emits_trans _ _ _ _ _ (emits_quiet _ _ (quiet_trans _ _ _ Hq1 Hq2)) He3) (emits_quiet _ _ Hq4)) as He.
  cbv zeta. rewrite <- (Z.add_0_r (SCU (REGISTER_BLOCK_OFFSET level))).
  do 5 (apply wp_bind, wp_write; [by destruct He|]; let s' := fresh "s" in let He' := fresh "He'" in let Hl := fresh "Hl" in
    intros s' He' Hl; pose proof (emits_trans _ _ _ _ _ He He') as He''; clear He He'; rename He'' into He; rewrite <- Hl in Hw; clear Hl).
  assert (∀ s' evs, emits evs s s' → evs = config_writes level start_factor h → emits (config_writes level start_factor h) s s') as Hwr by (by intros s' evs Hev <-).
  apply wp_when; intros Hsf7.
  - apply wp_write; [by destruct He|]. intros s' He' Hl. rewrite <- Hl in Hw. apply HQ; [|done].
    eapply Hwr; [exact (emits_trans _ _ _ _ _ He He')|]. config_tac.
  - apply HQ; [|done]. eapply Hwr; [exact He|]. config_tac.
Qed.

Lemma wp_level_start level s Q :
  scu_wf s → 0 ≤ level ≤ 2 →
  (∀ s', emits [IoWrite (level_register level 0x10) 0x101] s s' → Q tt s') → wp (scu_dma_level_start fuel level) s Q.
Proof.
  intros Hwf Hlv HQ. unfold scu_dma_level_start. apply wp_bind, wp_wait_level2; [done|]. intros s1 Hq1.
  apply wp_bind, wp_wait_idle; [by destruct Hq1 | done |]. intros s2 Hq2 _.
  apply wp_write; [by destruct Hq2|]. intros s3 He3 _. apply HQ. rewrite (proj1 (register_address level 0 Hlv)) in He3.
  exact (emits_trans _ _ _ _ _ (emits_quiet _ _ (quiet_trans _ _ _ Hq1 Hq2)) He3).
Qed.
End Fair.
End ScuProof.

(** ** The bits of the mode register *)

(** Bit [i] of DnMD for a configuration and a start factor: the start factor in
    bits 0 to 2, the update bits 8 and 16, the mode in bit 24, and the rest of
    the old value. *)
Definition mode_bit (old : Z) (cfg : scu_dma_level_cfg_t) (start_factor i : Z) : bool :=
  if i <? 3 then Z.testbit start_factor i
  else if (i =? 8) || (i =? 16) then Z.testbit (update cfg) i
  else if i =? 24 then Z.testbit (mode cfg) 0
  else Z.testbit old i.

Lemma mode_bits h cfg h' start_factor i :
  scu_dma_config_buffer h cfg = Ok h' → 0 ≤ start_factor ≤ 7 → 0 ≤ i < 32 →
  Z.testbit (Z.lor (dnmd h') start_factor) i = mode_bit (dnmd h) cfg start_factor i.
Proof.
  intros Hcfg Hsf Hi.
  assert (dnmd h' = Z.lor (Z.lor (Z.land (dnmd h) 0xFEFEFEF8) (if Z.testbit (mode cfg) 0 then 0x01000000 else 0)) (Z.land (update cfg) 0x00010100)) as ->.
  { unfold scu_dma_config_buffer in Hcfg. rewrite (land_mask (mode cfg) 1) in Hcfg by lia.
    rewrite Z.bit0_odd. rewrite Zmod_odd in Hcfg. destruct (Z.odd (mode cfg)); simpl Z.eqb in Hcfg; cbv iota in Hcfg.
    - destruct (require _); cbn [mbind outcome_bind] in Hcfg; [|done]. by injection Hcfg as <-.
    - destruct (xfer_len (xfer cfg) =? 0), (xfer_dst (xfer cfg) =? 0), (xfer_src (xfer cfg) =? 0); try discriminate Hcfg. injection Hcfg as <-. simpl. by rewrite Z.lor_0_r. }
  rewrite !Z.lor_spec, !Z.land_spec. unfold mode_bit.
  assert (3 ≤ i → Z.testbit start_factor i = false) as Hhigh.
  { intros Hi3. apply (testbit_above _ 3); [change (2 ^ 3) with 8; lia | lia]. }
  assert (∃ k, i = Z.of_nat k ∧ (k < 32)%nat) as (k & -> & Hk) by (exists (Z.to_nat i); lia).
  destruct (Z.testbit (mode cfg) 0);
    (do 32 (destruct k as [|k]; [simpl Z.of_nat; rewrite ?Hhigh by lia; simpl; btauto|])); lia.
Qed.

Lemma config_buffer_fields h cfg h' :
  scu_dma_config_buffer h cfg = Ok h' →
  dnr h' = (if Z.odd (mode cfg) then 0 else Z.lor 0x20000000 (xfer_src (xfer cfg))) ∧
  dnw h' = Z.lor 0x20000000 (if Z.odd (mode cfg) then xfer_indirect (xfer cfg) else xfer_dst (xfer cfg)) ∧
  dnc h' = (if Z.odd (mode cfg) then 0 else xfer_len (xfer cfg)) ∧ dnad h' = 0x100 + stride cfg mod 8.
Proof.
  intros Hcfg. unfold scu_dma_config_buffer in Hcfg. rewrite (land_mask (mode cfg) 1), Zmod_odd in Hcfg by lia.
  assert (Z.lor 256 (Z.land (stride cfg) 7) = 256 + stride cfg mod 8) as Hst.
  { rewrite (land_mask _ 3) by lia. change (2 ^ 3) with 8. pose proof (Z.mod_pos_bound (stride cfg) 8 ltac:(lia)).
    change 256 with (32 * 2 ^ 3). apply lor_add; [lia | change (2 ^ 3) with 8; lia]. }
  rewrite Hst in Hcfg. destruct (Z.odd (mode cfg)); simpl Z.eqb in Hcfg; cbv iota in Hcfg.
  - destruct (xfer_indirect (xfer cfg) =? 0); [done|]. by injection Hcfg as <-.
  - destruct (xfer_len (xfer cfg) =? 0), (xfer_dst (xfer cfg) =? 0), (xfer_src (xfer cfg) =? 0); try discriminate Hcfg. by injection Hcfg as <-.
Qed.

(** ** The results *)

(** [scu_dma_level_wait] returns: if the [k]th read of DSTA from now finds
    the level idle, [k + 1] rounds of its loop are enough, whatever interrupts
    come; it returns with no transfer of the level under way and has changed no
    register, mask or callback. *)
Theorem scu_dma_level_wait_returns (m : Machine) (k fuel : nat) (level : Z) (s : scu_t) :
  scu_wf s → level_ends_ok → 0 ≤ level ≤ 2 → idle_at (polls s + k) level → (k < fuel)%nat →
  wp (scu_dma_level_wait fuel level) s (λ _ s',
    level_idle s' level ∧ (polls s' ≤ S (polls s + k))%nat ∧ quiet s s').
Proof. intros Hwf Hok Hlv Hidle Hf. by apply (wp_wait k). Qed.

(** Hardware that is busy with level 0 at all but every third read, and whose
    interrupts come after the tenth. *)
Definition demo_dsta (n : nat) : Z := if (n mod 3 =? 2)%nat then 0x3000 else 0x10030.

Definition demo_machine : Machine := {|
  dsta := demo_dsta;
  level_end n := if (10 <? n)%nat then Some 0 else None;
  bios := list (Z * ihr) * Z;
  bios_mask_get b := b.2;
  bios_mask_set mask b := (b.1, mask);
  bios_mask_chg and_mask or_mask b := (b.1, Z.lor (Z.land b.2 and_mask) or_mask);
  bios_ihr_set vector h b := ((vector, h) :: b.1, b.2);
|}.

Definition demo_scu : @scu_t demo_machine :=
  @Scu demo_machine (replicate 3 (LevelState LEVEL_STATE_WORKING callback_init)) 0xF0 ([], 0) 0 [].

Lemma demo_level_ends : @level_ends_ok demo_machine.
Proof. intros n level. simpl. destruct (_ <? _)%nat; [|done]. intros [= <-]. lia. Qed.

Lemma demo_scu_wf : @scu_wf demo_machine demo_scu.
Proof. split; [done|]. repeat (apply Forall_cons; split; [done|]). apply Forall_nil_2. Qed.

Lemma scu_dma_level_wait_returns_witness :
  @wp scu_t unit (@scu_dma_level_wait demo_machine 3 0) demo_scu (λ _ s',
    @level_idle demo_machine s' 0 ∧ (polls s' ≤ 3)%nat ∧ @quiet demo_machine demo_scu s').
Proof.
  apply (scu_dma_level_wait_returns demo_machine 2 3 0 demo_scu); [apply demo_scu_wf | apply demo_level_ends | lia | reflexivity | lia].
Defined.

(** Programming a configuration and starting the level writes its registers
    and nothing else, in order: the enable register is cleared, then source,
    destination, length and stride are set, the mode register gets the start
    factor, the update bits and the transfer mode and keeps its other bits, and
    the enable register is written last; and all this returns. *)
Theorem scu_dma_transfer (m : Machine) (B fuel : nat) (level start_factor : Z)
    (h h' : scu_dma_handle_t) (cfg : scu_dma_level_cfg_t) (s : scu_t) :
  level_ends_ok → idle_within B → (B ≤ fuel)%nat → scu_wf s → 0 ≤ level ≤ 2 → 0 ≤ start_factor ≤ 7 →
  scu_dma_config_buffer h cfg = Ok h' →
  ∃ md, (∀ i, 0 ≤ i < 32 → Z.testbit md i = mode_bit (dnmd h) cfg start_factor i) ∧
  wp (_ ← scu_dma_config_set fuel level start_factor h'; scu_dma_level_start fuel level) s (λ _ s',
    visible s' = visible s ++
      [IoWrite (level_register level 0x10) 0;
       IoWrite (level_register level 0x00) (if Z.odd (mode cfg) then 0 else Z.lor 0x20000000 (xfer_src (xfer cfg)));
       IoWrite (level_register level 0x04) (Z.lor 0x20000000 (if Z.odd (mode cfg) then xfer_indirect (xfer cfg) else xfer_dst (xfer cfg)));
       IoWrite (level_register level 0x08) (if Z.odd (mode cfg) then 0 else xfer_len (xfer cfg));
       IoWrite (level_register level 0x0C) (0x100 + stride cfg mod 8);
       IoWrite (level_register level 0x14) md] ++
      (if start_factor =? 7 then [] else [IoWrite (level_register level 0x10) 0x100]) ++
      [IoWrite (level_register level 0x10) 0x101]).
Proof.
  intros Hok Hidle Hfuel Hwf Hlv Hsf Hcfg. exists (Z.lor (dnmd h') start_factor).
  split; [by intros i Hi; apply mode_bits|].
  apply wp_bind. eapply wp_config_set; [done | done | done | done | done | lia |]. intros s1 He1 _.
  eapply wp_level_start; [done | done | done | by destruct He1 | done |]. intros s2 He2.
  destruct (emits_trans _ _ _ _ _ He1 He2) as [_ _ _ _ ->]. f_equal. unfold config_writes.
  destruct (config_buffer_fields h cfg h' Hcfg) as (-> & -> & -> & ->). by rewrite <- app_assoc.
Qed.

Lemma demo_idle : @idle_within demo_machine 3.
Proof.
  intros n level Hlv. unfold idle_at. change (@dsta demo_machine) with demo_dsta. unfold demo_dsta. pose proof (Nat.mod_upper_bound n 3 ltac:(lia)) as Hn.
  destruct (decide (level = 0)) as [-> | Hl0].
  - exists (2 - n mod 3)%nat. split; [lia|].
    assert ((n + (2 - n mod 3)) mod 3 = 2)%nat as ->; [|done].
    symmetry. apply (Nat.mod_unique _ _ (n / 3)%nat); [lia|]. pose proof (Nat.div_mod_eq n 3). lia.
  - destruct (decide (n mod 3 = 2)%nat) as [Hm | Hm].
    + exists 1%nat. split; [lia|]. assert ((n + 1) mod 3 = 0)%nat as ->.
      { symmetry. apply (Nat.mod_unique _ _ (n / 3 + 1)%nat); [lia|]. pose proof (Nat.div_mod_eq n 3). lia. }
      assert (level = 1 ∨ level = 2) as [-> | ->] by lia; done.
    + exists 0%nat. split; [lia|]. rewrite Nat.add_0_r. destruct (Nat.eqb_spec (n mod 3) 2); [done|].
      assert (level = 1 ∨ level = 2) as [-> | ->] by lia; done.
Qed.

Lemma scu_dma_transfer_witness :
  let cfg := Cfg 0 2 0x00000100 (Xfer 0x800 0x05E00000 0x06040000) in
  ∃ md, (∀ i, 0 ≤ i < 32 → Z.testbit md i = mode_bit 0 cfg 7 i) ∧
  @wp scu_t unit (_ ← @scu_dma_config_set demo_machine 3 0 7 (Handle 0x26040000 0x25E00000 0x800 0x102 0x100);
    @scu_dma_level_start demo_machine 3 0) demo_scu (λ _ s',
    @visible demo_machine s' = @visible demo_machine demo_scu ++
      [IoWrite (level_register 0 0x10) 0; IoWrite (level_register 0 0x00) (Z.lor 0x20000000 0x06040000);
       IoWrite (level_register 0 0x04) (Z.lor 0x20000000 0x05E00000); IoWrite (level_register 0 0x08) 0x800;
       IoWrite (level_register 0 0x0C) (0x100 + 2 mod 8); IoWrite (level_register 0 0x14) md] ++ [] ++
      [IoWrite (level_register 0 0x10) 0x101]).
Proof.
  intros cfg.
  apply (scu_dma_transfer demo_machine 3 3 0 7 (Handle 0 0 0 0 0) (Handle 0x26040000 0x25E00000 0x800 0x102 0x100) cfg demo_scu);
    [apply demo_level_ends | apply demo_idle | lia | apply demo_scu_wf | lia | lia | reflexivity].
Defined.

(** [scu_dma_level_unused_get] returns the first level that is busy, where
    the first unused one is documented: level 0 while level 0 is transferring,
    and -1 when all are idle. *)
Theorem scu_dma_level_unused_get_busy (m : Machine) (s : scu_t) :
  level_ends_ok → scu_wf s →
  wp scu_dma_level_unused_get s (λ level _,
    (level = 0 → ¬ idle_at (polls s) 0) ∧
    ((∀ n, (polls s ≤ n)%nat → dsta n = 0) → level = -1)).
Proof.
  intros Hok Hwf. unfold scu_dma_level_unused_get. apply wp_bind, wp_busy; [done..|]. intros s1 Hq1 Hp1.
  destruct (Z.eqb_spec (Z.land (dsta (polls s)) (busy_mask 0)) 0) as [H0 | H0]; simpl negb; cbv iota.
  2: { apply wp_ret. split; [done|]. intros Hz. by rewrite (Hz (polls s)) in H0. }
  apply wp_bind, wp_busy; [by destruct Hq1 | done | lia |]. intros s2 Hq2 Hp2.
  destruct (Z.eqb_spec (Z.land (dsta (polls s1)) (busy_mask 1)) 0) as [H1 | H1]; simpl negb; cbv iota.
  2: { apply wp_ret. split; [done|]. intros Hz. rewrite (Hz (polls s1)) in H1; [done | lia]. }
  apply wp_bind, wp_busy; [by destruct Hq2 | done | lia |]. intros s3 Hq3 Hp3.
  destruct (Z.eqb_spec (Z.land (dsta (polls s2)) (busy_mask 2)) 0) as [H2 | H2]; simpl negb; cbv iota; apply wp_ret.
  - by split.
  - split; [done|]. intros Hz. rewrite (Hz (polls s2)) in H2; [done | lia].
Qed.

Lemma scu_dma_level_unused_get_busy_witness :
  @wp scu_t Z (@scu_dma_level_unused_get demo_machine) demo_scu (λ level _,
    (level = 0 → ¬ @idle_at demo_machine 0 0) ∧
    ((∀ n, (0 ≤ n)%nat → @dsta demo_machine n = 0) → level = -1)).
Proof. apply (scu_dma_level_unused_get_busy demo_machine demo_scu); [apply demo_level_ends | apply demo_scu_wf]. Defined.
