(* ===== verification/DmaQueue.v ===== *)
(** * DMA queues (kernel/sys/dma-queue.c)

    Three queues of DMA requests, one per tag, each a ring of 32 requests with
    [int8_t] counters, flushed one request after the other through level 0 of the
    SCU-DMA. *)

From S2P Require Import Prelude Bits CallbackList ScuDma.

(** ** Constants *)

Definition DMA_QUEUE_SCU_DMA_LEVEL : Z := 0.
Definition DMA_QUEUE_SCU_DMA_MASK : Z := SCU_IC_MASK_LEVEL_0_DMA_END.
Definition DMA_QUEUE_REQUESTS_MAX_COUNT : Z := 32.
Definition DMA_QUEUE_REQUESTS_MASK : Z := DMA_QUEUE_REQUESTS_MAX_COUNT - 1.
Definition DMA_QUEUE_TAG_INVALID : Z := 255.
Definition DMA_QUEUE_TAG_COUNT : Z := 3.
Definition DMA_QUEUE_STATUS_UNKNOWN : Z := 0x00.
Definition DMA_QUEUE_STATUS_UNPROCESSED : Z := 0x01.
Definition DMA_QUEUE_STATUS_PROCESSING : Z := 0x02.
Definition DMA_QUEUE_STATUS_CANCELED : Z := 0x04.
Definition DMA_QUEUE_STATUS_COMPLETE : Z := 0x08.
Definition CPU_INTC_PRIORITY_LEVEL_2_DMA : Z := 6.
Definition CPU_INTC_PRIORITY_SPRITE_END : Z := 2.

(** ** Data *)

Record dma_queue_transfer_t := Transfer { status : Z; transfer_work : Z }.

Record dma_queue_request := Request {
  request_handle : scu_dma_handle_t;
  request_handler : callback_handler;
  transfer : dma_queue_transfer_t;
}.

(** [requests] is the pool of the tag of the queue. *)
Record dma_queue := DmaQueue {
  requests : list dma_queue_request;
  head : Z;
  tail : Z;
  flush_tail : Z;
}.

Definition set_status (st : Z) (r : dma_queue_request) : dma_queue_request :=
  Request (request_handle r) (request_handler r) (Transfer st (transfer_work (transfer r))).

(** ** The ring *)

Definition _queue_init (q : dma_queue) : outcome dma_queue :=
  rs ← for_up (Z.to_nat DMA_QUEUE_REQUESTS_MAX_COUNT) 0 (λ i rs,
    r ← arr_get rs i;
    arr_set rs i (Request (request_handle r) _default_handler (Transfer DMA_QUEUE_STATUS_UNKNOWN 0))) (requests q);
  Ok (DmaQueue rs (-1) (-1) (-1)).

Definition _queue_size (q : dma_queue) : Z := u32 (tail q - head q).
Definition _queue_full (q : dma_queue) : bool := _queue_size q =? DMA_QUEUE_REQUESTS_MAX_COUNT.
Definition _queue_empty (q : dma_queue) : bool := head q =? tail q.
Definition _queue_flush_empty (q : dma_queue) : bool := head q =? flush_tail q.

(** Requests are returned by their index. *)
Definition _queue_top (q : dma_queue) : Z := Z.land (head q) DMA_QUEUE_REQUESTS_MASK.

Definition _queue_enqueue (q : dma_queue) : outcome (Z * dma_queue) :=
  _ ← require (negb (_queue_full q));
  let next_tail := i8 (Z.land (tail q + 1) DMA_QUEUE_REQUESTS_MASK) in
  r ← arr_get (requests q) next_tail;
  rs ← arr_set (requests q) next_tail (set_status DMA_QUEUE_STATUS_UNPROCESSED r);
  Ok (next_tail, DmaQueue rs (head q) (i8 (tail q + 1)) (flush_tail q)).

Definition _queue_dequeue (q : dma_queue) : outcome (Z * dma_queue) :=
  _ ← require (negb (_queue_empty q));
  let next_head := i8 (Z.land (head q + 1) DMA_QUEUE_REQUESTS_MASK) in
  let idx := Z.land next_head DMA_QUEUE_REQUESTS_MASK in
  r ← arr_get (requests q) idx;
  let st := Z.land (status (transfer r)) (Z.lxor DMA_QUEUE_STATUS_UNPROCESSED 0xFF) in
  let st := Z.lor st DMA_QUEUE_STATUS_PROCESSING in
  rs ← arr_set (requests q) idx (set_status st r);
  Ok (idx, DmaQueue rs (i8 (head q + 1)) (tail q) (flush_tail q)).

Section DmaQueues.
Context `{Machine}.

(** ** The state: the machine, the queues, and the static variables *)

Record dq_t := Dq {
  dq_scu : scu_t;
  current_tag : Z;
  dma_queues : list dma_queue;
  simple_handle : scu_dma_handle_t;
}.

Definition set_current_tag tag (d : dq_t) : dq_t := Dq (dq_scu d) tag (dma_queues d) (simple_handle d).
Definition set_dma_queues qs (d : dq_t) : dq_t := Dq (dq_scu d) (current_tag d) qs (simple_handle d).
Definition set_simple_handle h (d : dq_t) : dq_t := Dq (dq_scu d) (current_tag d) (dma_queues d) h.

(** An operation on the machine. *)
Definition on_scu {A} (c : M scu_t A) : M dq_t A := λ d,
  match c (dq_scu d) with
  | Ok (a, s) => Ok (a, Dq s (current_tag d) (dma_queues d) (simple_handle d))
  | Fault e => Fault e
  end.

(** An operation on the queue of a tag. *)
Definition on_queue {A} (tag : Z) (f : dma_queue → outcome (A * dma_queue)) : M dq_t A :=
  qs ← gets dma_queues;
  q ← lift (arr_get qs tag);
  '(a, q) ← lift (f q);
  qs ← lift (arr_set qs tag q);
  _ ← modify (set_dma_queues qs);
  mret a.

Definition read_queue {A} (tag : Z) (f : dma_queue → A) : M dq_t A :=
  qs ← gets dma_queues;
  q ← lift (arr_get qs tag);
  mret (f q).

Definition get_request (tag idx : Z) : M dq_t dma_queue_request :=
  rs ← read_queue tag requests;
  lift (arr_get rs idx).

Definition change_request (tag idx : Z) (f : dma_queue_request → dma_queue_request) : M dq_t unit :=
  on_queue tag (λ q,
    r ← arr_get (requests q) idx;
    rs ← arr_set (requests q) idx (f r);
    Ok (tt, DmaQueue rs (head q) (tail q) (flush_tail q))).

(** [request->handler(&request->transfer)] *)
Definition call_request (tag idx : Z) : M dq_t unit :=
  r ← get_request tag idx;
  on_scu (s ← gets id;
          s ← lift (call_handler (λ f _ s, Ok (emit (IoCall f [status (transfer r); transfer_work (transfer r)]) s)) (request_handler r) 0 s);
          modify (λ _, s)).

(** [fuel] bounds the loops that wait for the hardware. *)
Definition _queue_request_start (fuel : nat) (r : dma_queue_request) : M scu_t unit :=
  _ ← scu_dma_config_set fuel DMA_QUEUE_SCU_DMA_LEVEL SCU_DMA_START_FACTOR_ENABLE (request_handle r);
  _ ← modify (emit IoCachePurge);
  scu_dma_level_start fuel DMA_QUEUE_SCU_DMA_LEVEL.

(** ** Operations *)

Definition _internal_dma_queue_init (fuel : nat) : M dq_t unit :=
  _ ← on_scu (scu_dma_level_wait fuel DMA_QUEUE_SCU_DMA_LEVEL);
  _ ← on_scu (scu_dma_level_stop DMA_QUEUE_SCU_DMA_LEVEL);
  _ ← on_scu (scu_dma_illegal_set dma_illegal_ihr);
  _ ← on_scu (scu_dma_level_end_set 0 NullHandler 0);
  _ ← modify (set_current_tag DMA_QUEUE_TAG_INVALID);
  qs ← gets dma_queues;
  qs ← lift (for_up (Z.to_nat DMA_QUEUE_TAG_COUNT) 0 (λ tag qs, q ← arr_get qs tag; q ← _queue_init q; arr_set qs tag q) qs);
  modify (set_dma_queues qs).

Definition dma_queue_enqueue (handle : scu_dma_handle_t) (tag : Z) (h : callback_handler) (work : Z) : M dq_t Z :=
  _ ← assert_ (tag <? DMA_QUEUE_TAG_COUNT);
  intc_mask ← on_scu cpu_intc_mask_get;
  _ ← on_scu (cpu_intc_mask_set 15);
  full ← read_queue tag _queue_full;
  st ← (if full : bool then mret (-1)
        else
          idx ← on_queue tag _queue_enqueue;
          _ ← change_request tag idx (λ r,
                Request handle (match h with NullHandler => _default_handler | _ => h end)
                  (Transfer (status (transfer r)) work));
          mret 0);
  _ ← on_scu (cpu_intc_mask_set intc_mask);
  mret st.

Definition dma_queue_simple_enqueue (tag dst src len : Z) : M dq_t Z :=
  _ ← modify (λ d, set_simple_handle (Handle src dst len (dnad (simple_handle d)) (dnmd (simple_handle d))) d);
  h ← gets simple_handle;
  dma_queue_enqueue h tag NullHandler 0.

(** The loop of [dma_queue_flush_wait]: [rounds] rounds at most. *)
Fixpoint dma_queue_flush_loop (rounds fuel : nat) : M dq_t unit :=
  match rounds with
  | O => raise OutOfFuel
  | S rounds =>
      tag ← gets current_tag;
      if tag =? DMA_QUEUE_TAG_INVALID then mret tt
      else
        _ ← on_scu (scu_dma_level_wait fuel 0);
        top ← read_queue tag _queue_top;
        _ ← change_request tag top (λ r,
              set_status (Z.lor (Z.land (status (transfer r)) (Z.lxor DMA_QUEUE_STATUS_PROCESSING 0xFF)) DMA_QUEUE_STATUS_COMPLETE) r);
        _ ← call_request tag top;
        done ← read_queue tag _queue_flush_empty;
        if done : bool then modify (set_current_tag DMA_QUEUE_TAG_INVALID)
        else
          idx ← on_queue tag _queue_dequeue;
          intc_mask ← on_scu cpu_intc_mask_get;
          let intc_mask := if CPU_INTC_PRIORITY_LEVEL_2_DMA <=? intc_mask then CPU_INTC_PRIORITY_SPRITE_END - 1 else intc_mask in
          scu_mask ← on_scu scu_ic_mask_get;
          let scu_mask := Z.land scu_mask (Z.lxor DMA_QUEUE_SCU_DMA_MASK 0xFFFFFFFF) in
          _ ← on_scu (cpu_intc_mask_set intc_mask);
          _ ← on_scu (scu_ic_mask_set scu_mask);
          next_request ← get_request tag idx;
          _ ← on_scu (_queue_request_start fuel next_request);
          dma_queue_flush_loop rounds fuel
  end.

(** The counters are equal after at most 255 steps of [head]. *)
Definition dma_queue_flush_wait (fuel : nat) : M dq_t unit := dma_queue_flush_loop 256 fuel.

Definition dma_queue_flush (fuel : nat) (tag : Z) : M dq_t Z :=
  _ ← assert_ (tag <? DMA_QUEUE_TAG_COUNT);
  _ ← dma_queue_flush_wait fuel;
  intc_mask ← on_scu cpu_intc_mask_get;
  _ ← on_scu (cpu_intc_mask_set 15);
  scu_mask ← on_scu scu_ic_mask_get;
  empty ← read_queue tag _queue_empty;
  '(st, intc_mask, scu_mask) ←
    (if empty : bool then mret (-1, intc_mask, scu_mask)
     else
       _ ← on_queue tag (λ q, Ok (tt, DmaQueue (requests q) (head q) (tail q) (tail q)));
       _ ← modify (set_current_tag tag);
       idx ← on_queue tag _queue_dequeue;
       _ ← call_request tag idx;
       request ← get_request tag idx;
       _ ← on_scu (_queue_request_start fuel request);
       mret (0, if CPU_INTC_PRIORITY_LEVEL_2_DMA <=? intc_mask then CPU_INTC_PRIORITY_SPRITE_END - 1 else intc_mask,
             Z.land scu_mask (Z.lxor DMA_QUEUE_SCU_DMA_MASK 0xFFFFFFFF)));
  _ ← on_scu (cpu_intc_mask_set intc_mask);
  _ ← on_scu (scu_ic_mask_set scu_mask);
  mret (u32 st).

(** The loop of [dma_queue_tag_clear]. *)
Fixpoint dma_queue_cancel_loop (rounds : nat) (tag : Z) : M dq_t unit :=
  match rounds with
  | O => raise OutOfFuel
  | S rounds =>
      empty ← read_queue tag _queue_empty;
      if empty : bool then mret tt
      else
        idx ← on_queue tag _queue_dequeue;
        _ ← change_request tag idx (λ r, set_status (Z.lor (status (transfer r)) DMA_QUEUE_STATUS_CANCELED) r);
        _ ← call_request tag idx;
        dma_queue_cancel_loop rounds tag
  end.

Definition dma_queue_tag_clear (fuel : nat) (tag : Z) : M dq_t unit :=
  _ ← assert_ (tag <? DMA_QUEUE_TAG_COUNT);
  _ ← dma_queue_flush_wait fuel;
  intc_mask ← on_scu cpu_intc_mask_get;
  _ ← on_scu (cpu_intc_mask_set 15);
  _ ← dma_queue_cancel_loop 256 tag;
  on_scu (cpu_intc_mask_set intc_mask).

Definition dma_queue_clear (fuel : nat) : M dq_t unit :=
  intc_mask ← on_scu cpu_intc_mask_get;
  _ ← on_scu (cpu_intc_mask_set 15);
  _ ← dma_queue_tag_clear fuel 0;
  _ ← dma_queue_tag_clear fuel 1;
  _ ← dma_queue_tag_clear fuel 2;
  on_scu (cpu_intc_mask_set intc_mask).

Definition dma_queue_count_get (tag : Z) : M dq_t Z :=
  _ ← assert_ (tag <? DMA_QUEUE_TAG_COUNT);
  intc_mask ← on_scu cpu_intc_mask_get;
  _ ← on_scu (cpu_intc_mask_set 15);
  size ← read_queue tag _queue_size;
  _ ← on_scu (cpu_intc_mask_set intc_mask);
  mret size.

Definition dma_queue_capacity_get : Z := DMA_QUEUE_REQUESTS_MAX_COUNT.

End DmaQueues.
