(* ===== verification/DmaQueueSpec.v ===== *)
(** * DMA queues: the contract

    Three unbounded-looking FIFO queues of requests and at most one flush under
    way: what each operation returns and does to the outside, without rings,
    counters or statuses.  DmaQueueProof.v shows that the code implements it. *)

From S2P Require Import Prelude CallbackList ScuDma ScuDmaProof DmaQueue.

(** A request as its client made it; the handler is not null. *)
Record req := Req { q_handle : scu_dma_handle_t; q_handler : callback_handler; q_work : Z }.

(** The pending requests of each tag, and the flush under way: its tag, the
    request that is being transferred, and how many are to follow. *)
Record queues := Queues {
  pending : list (list req);
  flight : option (Z * req * nat);
}.

Definition queue_of (a : queues) (tag : Z) : list req := default [] (pending a !! Z.to_nat tag).
Definition set_queue (tag : Z) (l : list req) (a : queues) : queues := Queues (<[Z.to_nat tag:=l]> (pending a)) (flight a).

(** A call of the handler with a status, and the start of the transfer. *)
Definition call_events (r : req) (st : Z) : list io_event :=
  match q_handler r with UserHandler f => [IoCall f [st; q_work r]] | _ => [] end.

Definition start_events (r : req) : list io_event :=
  config_writes 0 7 (q_handle r) ++ [IoCachePurge; IoWrite (level_register 0 0x10) 0x101].

(** The end of the flush: the transfer under way completes, and the others
    follow, one after the other. *)
Definition spec_wait (a : queues) : list io_event * queues :=
  match flight a with
  | None => ([], a)
  | Some (tag, r, k) =>
      let q := queue_of a tag in
      (call_events r 8 ++ flat_map (λ r, start_events r ++ call_events r 8) (take k q),
       Queues (<[Z.to_nat tag:=drop k q]> (pending a)) None)
  end.

Definition spec_tag_clear (tag : Z) (a : queues) : list io_event * queues :=
  let '(evs, a) := spec_wait a in
  (evs ++ flat_map (λ r, call_events r 6) (queue_of a tag), set_queue tag [] a).

Inductive dq_op :=
| DqEnqueue (tag : Z) (handle : scu_dma_handle_t) (h : callback_handler) (work : Z)
| DqSimple (tag dst src len : Z)
| DqFlush (tag : Z)
| DqWait
| DqTagClear (tag : Z)
| DqClear.

Definition spec_enqueue (tag : Z) (r : req) (a : queues) : Z * list io_event * queues :=
  (0, [], set_queue tag (queue_of a tag ++ [r]) a).

(** The result, what is done, and the new state. *)
Definition spec_step (op : dq_op) (a : queues) : Z * list io_event * queues :=
  match op with
  | DqEnqueue tag handle h work =>
      spec_enqueue tag (Req handle (match h with NullHandler => _default_handler | _ => h end) work) a
  | DqSimple tag dst src len => spec_enqueue tag (Req (Handle src dst len 0x00000101 0x00010100) _default_handler 0) a
  | DqFlush tag =>
      let '(evs, a) := spec_wait a in
      match queue_of a tag with
      | [] => (0xFFFFFFFF, evs, a)
      | r :: l =>
          (0, evs ++ call_events r 2 ++ start_events r,
           Queues (<[Z.to_nat tag:=l]> (pending a)) (Some (tag, r, length l)))
      end
  | DqWait => let '(evs, a) := spec_wait a in (0, evs, a)
  | DqTagClear tag => let '(evs, a) := spec_tag_clear tag a in (0, evs, a)
  | DqClear =>
      let '(evs0, a) := spec_tag_clear 0 a in
      let '(evs1, a) := spec_tag_clear 1 a in
      let '(evs2, a) := spec_tag_clear 2 a in
      (0, evs0 ++ evs1 ++ evs2, a)
  end.

(** When an operation may be used: an enqueue needs room.  A flush under way on
    the tag takes one of the 32 places. *)
Definition room (a : queues) (tag : Z) : Prop :=
  0 ≤ tag < 3 ∧
  (length (queue_of a tag) < match flight a with Some (t, _, _) => if decide (t = tag) then 31 else 32 | None => 32 end)%nat.

Definition spec_ok (op : dq_op) (a : queues) : Prop :=
  match op with
  | DqEnqueue tag _ _ _ | DqSimple tag _ _ _ => room a tag
  | DqFlush tag | DqTagClear tag => 0 ≤ tag < 3
  | DqWait | DqClear => True
  end.

Fixpoint spec_run (ops : list dq_op) (a : queues) : list Z * list io_event * queues :=
  match ops with
  | [] => ([], [], a)
  | op :: ops =>
      let '(r, evs, a) := spec_step op a in
      let '(rs, evs', a) := spec_run ops a in
      (r :: rs, evs ++ evs', a)
  end.

Fixpoint spec_run_ok (ops : list dq_op) (a : queues) : Prop :=
  match ops with
  | [] => True
  | op :: ops => spec_ok op a ∧ spec_run_ok ops (spec_step op a).2
  end.

Definition no_requests : queues := Queues [[]; []; []] None.

(** The same operations of the code. *)
Section Code.
Context `{Machine} (fuel : nat).

Definition dq_step (op : dq_op) : M dq_t Z :=
  match op with
  | DqEnqueue tag handle h work => dma_queue_enqueue handle tag h work
  | DqSimple tag dst src len => dma_queue_simple_enqueue tag dst src len
  | DqFlush tag => dma_queue_flush fuel tag
  | DqWait => _ ← dma_queue_flush_wait fuel; mret 0
  | DqTagClear tag => _ ← dma_queue_tag_clear fuel tag; mret 0
  | DqClear => _ ← dma_queue_clear fuel; mret 0
  end.

Fixpoint dq_run (ops : list dq_op) : M dq_t (list Z) :=
  match ops with
  | [] => mret []
  | op :: ops => r ← dq_step op; rs ← dq_run ops; mret (r :: rs)
  end.

End Code.
