(* ===== verification/DmaQueueProof.v ===== *)
(** * DMA queues: the code implements the contract

    The ring of a tag holds its pending requests in order ([ring]), the three
    rings and the static variables hold the abstract queues ([sim]), and every
    operation simulates its specification. *)

From S2P Require Import Prelude Bits CallbackList ScuDma ScuDmaProof DmaQueue DmaQueueSpec.

(** ** Counters modulo 256 *)

Abbreviation in_i8 x := (-128 ≤ x < 128).

Lemma i8_eq x : ∃ k, i8 x = x + 256 * k ∧ in_i8 (i8 x).
Proof.
  exists (- ((x + 128) / 256)). unfold wraps. change (2 ^ (8 - 1)) with 128. change (2 ^ 8) with 256.
  pose proof (Z.div_mod (x + 128) 256 ltac:(lia)). pose proof (Z.mod_pos_bound (x + 128) 256 ltac:(lia)). lia.
Qed.

Lemma i8_mod x n : (i8 x + n) mod 256 = (x + n) mod 256 ∧ (n - i8 x) mod 256 = (n - x) mod 256 ∧ (i8 x + n) mod 32 = (x + n) mod 32.
Proof.
  destruct (i8_eq x) as (k & -> & _). split_and!.
  - replace (x + 256 * k + n) with (x + n + k * 256) by lia. apply Z_mod_plus_full.
  - replace (n - (x + 256 * k)) with (n - x + (- k) * 256) by lia. apply Z_mod_plus_full.
  - replace (x + 256 * k + n) with (x + n + (8 * k) * 32) by lia. apply Z_mod_plus_full.
Qed.

(** Two counters are equal when their difference is 0 modulo 256. *)
Lemma i8_same x y : in_i8 x → in_i8 y → (y - x) mod 256 = 0 → x = y.
Proof. intros Hx Hy Hm. dlia. Qed.

Lemma ring_index x : Z.land x DMA_QUEUE_REQUESTS_MASK = x mod 32.
Proof. change DMA_QUEUE_REQUESTS_MASK with (Z.ones 5). by apply Z.land_ones. Qed.

(** Places of the ring at different distances are different. *)
Lemma ring_places h i j : 0 ≤ i < 32 → 0 ≤ j < 32 → i ≠ j → Z.to_nat ((h + i) mod 32) ≠ Z.to_nat ((h + j) mod 32).
Proof. intros Hi Hj Hne Heq. dlia. Qed.

(** ** The ring *)

Definition req_at (r : req) (st : Z) : dma_queue_request :=
  Request (q_handle r) (q_handler r) (Transfer st (q_work r)).

Definition req_ok (r : req) : Prop := q_handler r ≠ NullHandler.

Record ring_wf (q : dma_queue) : Prop := {
  ring_length : length (requests q) = 32%nat;
  ring_head : in_i8 (head q);
  ring_tail : in_i8 (tail q);
  ring_flush : in_i8 (flush_tail q);
}.

(** The pending requests [l], in the places after [head]. *)
Record ring (q : dma_queue) (l : list req) : Prop := {
  ring_ok : ring_wf q;
  ring_count : (tail q - head q) mod 256 = Z.of_nat (length l);
  ring_bound : (length l ≤ 32)%nat;
  ring_reqs : Forall req_ok l;
  ring_content i r : l !! i = Some r → requests q !! Z.to_nat ((head q + 1 + Z.of_nat i) mod 32) = Some (req_at r 1);
}.

(** The request [r] that is being transferred, in the place of [head], with [k]
    to follow. *)
Record flying (q : dma_queue) (l : list req) (r : req) (k : nat) : Prop := {
  fly_place : requests q !! Z.to_nat (head q mod 32) = Some (req_at r 2);
  fly_flush : (flush_tail q - head q) mod 256 = Z.of_nat k;
  fly_follow : (k ≤ length l)%nat;
  fly_bound : (length l ≤ 31)%nat;
  fly_req : req_ok r;
}.

Lemma ring_slot q i : ring_wf q → (Z.to_nat (i mod 32) < length (requests q))%nat.
Proof. intros [-> _ _ _]. pose proof (Z.mod_pos_bound i 32 ltac:(lia)). lia. Qed.

Lemma ring_get q i : ring_wf q → ∃ r, arr_get (requests q) (i mod 32) = Ok r ∧ requests q !! Z.to_nat (i mod 32) = Some r.
Proof.
  intros [Hl _ _ _]. apply arr_get_in_range. rewrite Hl. pose proof (Z.mod_pos_bound i 32 ltac:(lia)). lia.
Qed.

Lemma ring_set q i r : ring_wf q → arr_set (requests q) (i mod 32) r = Ok (<[Z.to_nat (i mod 32):=r]> (requests q)).
Proof.
  intros [Hl _ _ _]. apply arr_set_in_range. rewrite Hl. pose proof (Z.mod_pos_bound i 32 ltac:(lia)). lia.
Qed.

Lemma ring_empty q l : ring q l → _queue_empty q = bool_decide (l = []).
Proof.
  intros [[_ Hh Ht _] Hc Hb _ _]. unfold _queue_empty. destruct l as [|r l].
  - rewrite bool_decide_true by done. apply Z.eqb_eq, i8_same; done.
  - rewrite bool_decide_false by done. apply Z.eqb_neq. intros Heq. rewrite Heq, Z.sub_diag, Zmod_0_l in Hc. simpl length in Hc. lia.
Qed.

(** A queue with room is not taken for full, wherever its counters are. *)
Lemma ring_not_full q l : ring q l → (length l < 32)%nat → _queue_full q = false.
Proof.
  intros [[_ Hh Ht _] Hc Hb _ _] Hlen. unfold _queue_full, _queue_size. apply Z.eqb_neq. unfold wrapu.
  change (2 ^ 32) with 4294967296. change DMA_QUEUE_REQUESTS_MAX_COUNT with 32. dlia.
Qed.

Lemma next_index x : i8 ((x + 1) mod 32) = (x + 1) mod 32.
Proof. pose proof (Z.mod_pos_bound (x + 1) 32 ltac:(lia)). apply wraps_small; [lia|]. change (2 ^ (8 - 1)) with 128. lia. Qed.

Lemma ring_enqueue q l r old :
  ring q l → (length l < 32)%nat → req_ok r →
  let idx := (tail q + 1) mod 32 in
  requests q !! Z.to_nat idx = Some old →
  _queue_enqueue q = Ok (idx, DmaQueue (<[Z.to_nat idx:=set_status 1 old]> (requests q)) (head q) (i8 (tail q + 1)) (flush_tail q)) ∧
  ring (DmaQueue (<[Z.to_nat idx:=req_at r 1]> (requests q)) (head q) (i8 (tail q + 1)) (flush_tail q)) (l ++ [r]) ∧
  (∀ r0 k, flying q l r0 k → (length l < 31)%nat →
     flying (DmaQueue (<[Z.to_nat idx:=req_at r 1]> (requests q)) (head q) (i8 (tail q + 1)) (flush_tail q)) (l ++ [r]) r0 k).
Proof.
  intros Hring Hlen Hr idx Hold. pose proof Hring as [Hwf Hc Hb Hreqs Hcont]. pose proof Hwf as [Hl Hh Ht Hf].
  assert (∃ m, tail q = head q + Z.of_nat (length l) + 256 * m) as [m Hm].
  { exists ((tail q - head q) / 256). pose proof (Z.div_mod (tail q - head q) 256 ltac:(lia)). lia. }
  assert (idx = (head q + 1 + Z.of_nat (length l)) mod 32) as Hidx.
  { unfold idx. rewrite Hm. replace (head q + Z.of_nat (length l) + 256 * m + 1) with (head q + 1 + Z.of_nat (length l) + (8 * m) * 32) by lia.
    apply Z_mod_plus_full. }
  split_and!.
  - unfold _queue_enqueue. rewrite (ring_not_full q l) by done. cbn [require negb mbind outcome_bind]. rewrite ring_index, next_index.
    fold idx. rewrite (proj2 (arr_get_Ok _ idx old)) by (split; [unfold idx; apply Z.mod_pos_bound; lia | done]).
    cbn [mbind outcome_bind]. unfold idx. by rewrite ring_set.
  - split; cbn [requests head tail flush_tail].
    + split; simpl; [by rewrite length_insert | done | by destruct (i8_eq (tail q + 1)) as (? & _ & ?) | done].
    + destruct (i8_mod (tail q + 1) (- head q)) as (Hm1 & _ & _). rewrite <- Z.add_opp_r, Hm1, length_app. simpl. dlia.
    + rewrite length_app. simpl. lia.
    + apply Forall_app. split; [done|]. by apply Forall_singleton.
    + intros i x Hx. destruct (decide (i = length l)) as [-> | Hne].
      * rewrite lookup_app_r, Nat.sub_diag in Hx by lia. injection Hx as <-. rewrite Hidx.
        apply list_lookup_insert_eq. by apply ring_slot.
      * pose proof (lookup_lt_Some _ _ _ Hx) as Hi. rewrite length_app in Hi. simpl in Hi. rewrite lookup_app_l in Hx by lia.
        rewrite <- (Hcont i x Hx). apply list_lookup_insert_ne. rewrite Hidx. apply ring_places; lia.
  - intros r0 k [Hp Hft Hk Hb' Hro] Hlen'. split; cbn [requests head tail flush_tail].
    + rewrite <- Hp. apply list_lookup_insert_ne. rewrite Hidx, <- Z.add_assoc. rewrite <- (Z.add_0_r (head q)) at 2. apply ring_places; lia.
    + done.
    + rewrite length_app. lia.
    + rewrite length_app. simpl. lia.
    + done.
Qed.

Lemma ring_dequeue q r l :
  ring q (r :: l) →
  let idx := (head q + 1) mod 32 in
  let q' := DmaQueue (<[Z.to_nat idx:=req_at r 2]> (requests q)) (i8 (head q + 1)) (tail q) (flush_tail q) in
  _queue_dequeue q = Ok (idx, q') ∧ ring q' l ∧ requests q' !! Z.to_nat idx = Some (req_at r 2) ∧
  idx = head q' mod 32 ∧ (length l ≤ 31)%nat ∧ req_ok r.
Proof.
  intros Hring idx q'. pose proof Hring as [Hwf Hc Hb Hreqs Hcont]. pose proof Hwf as [Hl Hh Ht Hf].
  simpl length in Hc, Hb. apply Forall_cons in Hreqs as [Hr Hreqs].
  assert (requests q !! Z.to_nat idx = Some (req_at r 1)) as Hat.
  { unfold idx. rewrite <- (Hcont 0%nat r eq_refl). by rewrite Z.add_0_r. }
  assert (0 ≤ idx < 32) as Hidx by (apply Z.mod_pos_bound; lia). split_and!.
  - unfold _queue_dequeue. rewrite (ring_empty q (r :: l)), bool_decide_false by done. cbn [require negb mbind outcome_bind].
    rewrite !ring_index, next_index. fold idx. rewrite (Z.mod_small idx 32) by lia.
    rewrite (proj2 (arr_get_Ok _ idx (req_at r 1))) by (split; [lia | done]). cbn [mbind outcome_bind].
    rewrite arr_set_in_range by lia. done.
  - split; cbn [requests head tail flush_tail q'].
    + split; simpl; [by rewrite length_insert | by destruct (i8_eq (head q + 1)) as (? & _ & ?) | done | done].
    + destruct (i8_mod (head q + 1) (tail q)) as (_ & -> & _). dlia.
    + lia.
    + done.
    + intros i x Hx. pose proof (lookup_lt_Some _ _ _ Hx). rewrite <- Z.add_assoc.
      rewrite (proj2 (proj2 (i8_mod (head q + 1) (1 + Z.of_nat i)))).
      rewrite list_lookup_insert_ne.
      * rewrite <- (Hcont (S i) x Hx). do 3 f_equal. lia.
      * unfold idx. rewrite <- (Z.add_0_r (head q + 1)) at 1. apply ring_places; lia.
  - simpl. apply list_lookup_insert_eq. lia.
  - simpl. unfold idx. symmetry. rewrite <- (Z.add_0_r (i8 (head q + 1))). rewrite (proj2 (proj2 (i8_mod (head q + 1) 0))). by rewrite Z.add_0_r.
  - lia.
  - done.
Qed.

(** A change of the place of [head] changes no pending request. *)
Lemma ring_change_top q l r :
  ring q l → (length l ≤ 31)%nat →
  ring (DmaQueue (<[Z.to_nat (head q mod 32):=r]> (requests q)) (head q) (tail q) (flush_tail q)) l.
Proof.
  intros [[Hl Hh Ht Hf] Hc Hb Hreqs Hcont] Hlen. split; simpl; [split; simpl; [by rewrite length_insert | done..] | done | done | done |].
  intros i x Hx. pose proof (lookup_lt_Some _ _ _ Hx). rewrite <- (Hcont i x Hx). apply list_lookup_insert_ne.
  rewrite <- Z.add_assoc. rewrite <- (Z.add_0_r (head q)) at 1. apply ring_places; lia.
Qed.

(** ** The queues of all tags *)

Definition flight_of (fl : option (Z * req * nat)) (tag : Z) : option (req * nat) :=
  match fl with Some (t, r, k) => if decide (t = tag) then Some (r, k) else None | None => None end.

Definition ring_flight (q : dma_queue) (l : list req) (fl : option (req * nat)) : Prop :=
  ring q l ∧ match fl with Some (r, k) => flying q l r k | None => True end.

Record rings (qs : list dma_queue) (ls : list (list req)) (fl : option (Z * req * nat)) : Prop := {
  rings_length : length qs = 3%nat ∧ length ls = 3%nat;
  rings_at tag q l : 0 ≤ tag < 3 → qs !! Z.to_nat tag = Some q → ls !! Z.to_nat tag = Some l → ring_flight q l (flight_of fl tag);
}.

Lemma rings_get qs ls fl tag :
  rings qs ls fl → 0 ≤ tag < 3 →
  ∃ q l, arr_get qs tag = Ok q ∧ ls !! Z.to_nat tag = Some l ∧ ring_flight q l (flight_of fl tag).
Proof.
  intros [[Hl1 Hl2] Hat] Htag. destruct (arr_get_in_range qs tag) as (q & Hq & Hlk); [lia|].
  destruct (lookup_lt_is_Some_2 ls (Z.to_nat tag)) as [l Hl]; [lia|]. exists q, l. split_and!; [done | done |]. by apply (Hat tag).
Qed.

(** Writing one queue, with its flight. *)
Lemma rings_set qs ls fl fl' tag q l :
  rings qs ls fl → 0 ≤ tag < 3 → ring_flight q l (flight_of fl' tag) → (∀ t, t ≠ tag → flight_of fl' t = flight_of fl t) →
  rings (<[Z.to_nat tag:=q]> qs) (<[Z.to_nat tag:=l]> ls) fl'.
Proof.
  intros [[Hl1 Hl2] Hat] Htag Hq Hfl. split; [by rewrite !length_insert|]. intros t q0 l0 Ht Hq0 Hl0.
  destruct (decide (t = tag)) as [-> | Hne].
  - rewrite list_lookup_insert_eq in Hq0 by lia. rewrite list_lookup_insert_eq in Hl0 by lia. by simplify_eq.
  - rewrite list_lookup_insert_ne in Hq0 by lia. rewrite list_lookup_insert_ne in Hl0 by lia. rewrite Hfl by done. by apply (Hat t).
Qed.

(** ** Steps of the monad *)

Section DmaProof.
Context `{Machine}.

Lemma wp_on_scu {A} (c : M scu_t A) d Q :
  wp c (dq_scu d) (λ a s, Q a (Dq s (current_tag d) (dma_queues d) (simple_handle d))) → wp (on_scu c) d Q.
Proof. unfold wp, on_scu. by destruct (c (dq_scu d)) as [[a s]|]. Qed.

Lemma wp_read_queue {A} tag (f : dma_queue → A) d q Q :
  arr_get (dma_queues d) tag = Ok q → Q (f q) d → wp (read_queue tag f) d Q.
Proof. intros Hq HQ. unfold read_queue. apply wp_bind, wp_gets, wp_bind. by eapply wp_lift. Qed.

Lemma wp_on_queue {A} tag (f : dma_queue → outcome (A * dma_queue)) d q a q' Q :
  arr_get (dma_queues d) tag = Ok q → f q = Ok (a, q') →
  Q a (set_dma_queues (<[Z.to_nat tag:=q']> (dma_queues d)) d) → wp (on_queue tag f) d Q.
Proof.
  intros Hq Hf HQ. unfold on_queue. apply wp_bind, wp_gets, wp_bind. eapply wp_lift; [exact Hq|]. cbv beta. apply wp_bind.
  eapply wp_lift; [exact Hf|]. cbv beta iota. apply wp_bind. apply arr_get_Ok in Hq as [H0 Hlk].
  eapply wp_lift; [apply arr_set_in_range; apply lookup_lt_Some in Hlk; lia|]. cbv beta. by apply wp_bind, wp_modify, wp_ret.
Qed.

Lemma wp_change_request tag idx f d q r Q :
  arr_get (dma_queues d) tag = Ok q → arr_get (requests q) idx = Ok r →
  Q tt (set_dma_queues (<[Z.to_nat tag:=DmaQueue (<[Z.to_nat idx:=f r]> (requests q)) (head q) (tail q) (flush_tail q)]> (dma_queues d)) d) →
  wp (change_request tag idx f) d Q.
Proof.
  intros Hq Hr HQ. eapply wp_on_queue; [exact Hq | | exact HQ]. rewrite Hr. cbn [mbind outcome_bind].
  apply arr_get_Ok in Hr as [H0 Hlk]. rewrite arr_set_in_range; [done|]. apply lookup_lt_Some in Hlk. lia.
Qed.

Lemma wp_get_request tag idx d q r Q :
  arr_get (dma_queues d) tag = Ok q → arr_get (requests q) idx = Ok r → Q r d → wp (get_request tag idx) d Q.
Proof.
  intros Hq Hr HQ. unfold get_request. apply wp_bind. eapply wp_read_queue; [exact Hq|]. by eapply wp_lift.
Qed.

(** What an operation does to the machine, as far as the queues are concerned. *)
Definition does (evs : list io_event) (s s' : scu_t) : Prop := scu_wf s' ∧ visible s' = visible s ++ evs.

Lemma does_refl s : scu_wf s → does [] s s.
Proof. intros Hwf. split; [done|]. by rewrite app_nil_r. Qed.

Lemma does_trans e1 e2 s1 s2 s3 : does e1 s1 s2 → does e2 s2 s3 → does (e1 ++ e2) s1 s3.
Proof. intros [_ H1] [? H2]. split; [done|]. by rewrite H2, H1, app_assoc. Qed.

Lemma emits_does evs s s' : emits evs s s' → does evs s s'.
Proof. intros []. by split. Qed.

(** The masks have no part in it. *)
Lemma wp_mask_get d Q : (∀ m, Q m d) → wp (on_scu cpu_intc_mask_get) d Q.
Proof. intros HQ. apply wp_on_scu, wp_gets. destruct d. apply HQ. Qed.

Lemma wp_scu_mask_get d Q : (∀ m, Q m d) → wp (on_scu scu_ic_mask_get) d Q.
Proof. intros HQ. apply wp_on_scu, wp_gets. destruct d. apply HQ. Qed.

(** A step that is done to the machine only. *)
Definition machine_step (evs : list io_event) (d d' : dq_t) : Prop :=
  does evs (dq_scu d) (dq_scu d') ∧ current_tag d' = current_tag d ∧ dma_queues d' = dma_queues d ∧ simple_handle d' = simple_handle d.

Lemma wp_mask_set m d Q :
  scu_wf (dq_scu d) → (∀ d', machine_step [] d d' → Q tt d') → wp (on_scu (cpu_intc_mask_set m)) d Q.
Proof.
  intros [Hl Hc] HQ. apply wp_on_scu, wp_modify, HQ. split_and!; [|done..]. split; [by split|]. by rewrite app_nil_r.
Qed.

Lemma wp_scu_mask_set m d Q :
  scu_wf (dq_scu d) → (∀ d', machine_step [] d d' → Q tt d') → wp (on_scu (scu_ic_mask_set m)) d Q.
Proof.
  intros [Hl Hc] HQ. apply wp_on_scu, wp_modify, HQ. split_and!; [|done..]. split; [by split|]. by rewrite app_nil_r.
Qed.

Lemma wp_call_request tag idx d q r st Q :
  scu_wf (dq_scu d) → arr_get (dma_queues d) tag = Ok q → requests q !! Z.to_nat idx = Some (req_at r st) → 0 ≤ idx → req_ok r →
  (∀ d', machine_step (call_events r st) d d' → Q tt d') → wp (call_request tag idx) d Q.
Proof.
  intros Hwf Hq Hr Hidx Hok HQ. unfold call_request. apply wp_bind.
  eapply wp_get_request; [exact Hq | apply arr_get_Ok; by split|]. apply wp_on_scu, wp_bind, wp_gets, wp_bind.
  unfold req_ok in Hok. unfold call_events in HQ. simpl request_handler.
  destruct (q_handler r) as [| |f]; [done | |]; (eapply wp_lift; [reflexivity|]); cbv beta; apply wp_modify, HQ; (split_and!; [|done..]).
  - by apply does_refl.
  - apply emits_does, emits_emit; [done | by intros ?].
Qed.

Section FairQueue.
Context (B fuel : nat) (Hok : level_ends_ok) (Hidle : idle_within B) (Hfuel : (B ≤ fuel)%nat).

Lemma wp_request_start r st d Q :
  scu_wf (dq_scu d) → (∀ d', machine_step (start_events r) d d' → Q tt d') → wp (on_scu (_queue_request_start fuel (req_at r st))) d Q.
Proof.
  intros Hwf HQ. apply wp_on_scu. unfold _queue_request_start. apply wp_bind.
  eapply wp_config_set; [done | done | done | done | done | done |]. intros s1 He1 _. apply wp_bind, wp_modify.
  eapply wp_level_start; [done | done | done | by destruct He1 as [[] _ _ _ _]; split | done |]. intros s2 He2. apply HQ. split_and!; [|done..].
  assert (emits [IoCachePurge] s1 (emit IoCachePurge s1)) as He by (apply emits_emit; [by destruct He1 | by intros ?]).
  apply emits_does. exact (emits_trans _ _ _ _ _ He1 (emits_trans _ _ _ _ _ He He2)).
Qed.

Lemma wp_wait_level0 d Q :
  scu_wf (dq_scu d) → (∀ d', machine_step [] d d' → Q tt d') → wp (on_scu (scu_dma_level_wait fuel 0)) d Q.
Proof.
  intros Hwf HQ. apply wp_on_scu. eapply wp_wait_idle; [done | done | done | done | lia |]. intros s' Hq _.
  apply HQ. split_and!; [|done..]. by apply emits_does, emits_quiet.
Qed.

(** ** Simulation *)

Record sim (a : queues) (d : dq_t) : Prop := {
  sim_scu : scu_wf (dq_scu d);
  sim_rings : rings (dma_queues d) (pending a) (flight a);
  sim_tag : current_tag d = match flight a with Some (t, _, _) => t | None => DMA_QUEUE_TAG_INVALID end;
  sim_flight : match flight a with Some (t, _, _) => 0 ≤ t < 3 | None => True end;
  sim_simple : dnad (simple_handle d) = 0x101 ∧ dnmd (simple_handle d) = 0x10100;
}.

Lemma sim_machine evs a d d' : sim a d → machine_step evs d d' → sim a d'.
Proof. intros [? ? ? ? ?] ([? _] & Ht & Hq & Hs). split; [done | by rewrite Hq | by rewrite Ht | done | by rewrite Hs]. Qed.

(** The result of an operation that does [evs] and ends in [a']. *)
Definition simulates (d : dq_t) (evs : list io_event) (a' : queues) (d' : dq_t) : Prop :=
  sim a' d' ∧ does evs (dq_scu d) (dq_scu d').

Lemma simulates_after e1 e2 d d1 a' d' :
  does e1 (dq_scu d) (dq_scu d1) → simulates d1 e2 a' d' → simulates d (e1 ++ e2) a' d'.
Proof. intros He [Hs He']. split; [done|]. by apply (does_trans e1 e2 _ (dq_scu d1)). Qed.

Lemma spec_wait_next a tag r k r' l :
  flight a = Some (tag, r, S k) → queue_of a tag = r' :: l → (Z.to_nat tag < length (pending a))%nat →
  let a' := Queues (<[Z.to_nat tag:=l]> (pending a)) (Some (tag, r', k)) in
  spec_wait a = (call_events r 8 ++ start_events r' ++ (spec_wait a').1, (spec_wait a').2).
Proof.
  intros Hfl Hq Hlen a'. unfold spec_wait. rewrite Hfl, Hq. simpl flight. cbv iota.
  assert (queue_of a' tag = l) as -> by (unfold queue_of; simpl; by rewrite list_lookup_insert_eq).
  cbn [take drop flat_map fst snd pending a']. by rewrite list_insert_insert_eq, <- app_assoc.
Qed.

Lemma queue_of_lookup a tag l : pending a !! Z.to_nat tag = Some l → queue_of a tag = l.
Proof. intros Hl. unfold queue_of. by rewrite Hl. Qed.

(** The request under way completes. *)
Lemma wp_complete {A} (rest : M dq_t A) a d tag r k Q :
  sim a d → flight a = Some (tag, r, k) →
  (∀ d' q l, sim (Queues (pending a) None) (set_current_tag 255 d') → current_tag d' = tag →
     does (call_events r 8) (dq_scu d) (dq_scu d') →
     arr_get (dma_queues d') tag = Ok q → pending a !! Z.to_nat tag = Some l → ring q l →
     (flush_tail q - head q) mod 256 = Z.of_nat k → (k ≤ length l)%nat → wp rest d' Q) →
  wp (_ ← on_scu (scu_dma_level_wait fuel 0);
      top ← read_queue tag _queue_top;
      _ ← change_request tag top (λ r,
            set_status (Z.lor (Z.land (status (transfer r)) (Z.lxor DMA_QUEUE_STATUS_PROCESSING 0xFF)) DMA_QUEUE_STATUS_COMPLETE) r);
      _ ← call_request tag top; rest) d Q.
Proof.
  intros Hsim Hfl HQ. pose proof Hsim as [Hwf Hrings Htag Hflight Hsimple]. rewrite Hfl in Htag, Hflight, Hrings.
  apply wp_bind, wp_wait_level0; [done|]. intros d1 ([Hwf1 Hv1] & Ht1 & Hq1 & Hs1).
  destruct (rings_get _ _ _ tag Hrings Hflight) as (q & l & Hq & Hl & [Hring Hfly]). rewrite <- Hq1 in Hq.
  simpl in Hfly. rewrite decide_True in Hfly by done. destruct Hfly as [Hplace Hft Hk Hlen Hr].
  apply wp_bind. eapply wp_read_queue; [exact Hq|]. unfold _queue_top. rewrite ring_index.
  assert (0 ≤ head q mod 32) as Hpos by (apply Z.mod_pos_bound; lia).
  apply wp_bind. eapply wp_change_request; [exact Hq | apply arr_get_Ok; by split|].
  set (q' := DmaQueue _ (head q) (tail q) (flush_tail q)). set (d2 := set_dma_queues _ d1).
  assert (arr_get (dma_queues d2) tag = Ok q') as Hq2.
  { apply arr_get_Ok. split; [lia|]. apply list_lookup_insert_eq. apply arr_get_Ok in Hq as [_ Hlk]. by apply lookup_lt_Some in Hlk. }
  pose proof (ring_change_top q l (req_at r 8) Hring Hlen) as Hring'.
  apply wp_bind. eapply wp_call_request; [done | exact Hq2 | apply list_lookup_insert_eq, ring_slot; by destruct Hring | done | done |].
  intros d3 (Hd3 & Ht3 & Hq3 & Hs3).
  eapply (HQ d3 q' l); [| by rewrite Ht3, <- Htag, <- Ht1 | | by rewrite Hq3 | done | done | done | done].
  - split; simpl; [by destruct Hd3 | | done | done | by rewrite Hs3; simpl; rewrite Hs1].
    rewrite Hq3. simpl. rewrite <- (list_insert_id (pending a) (Z.to_nat tag) l) by done. rewrite Hq1.
    eapply rings_set; [exact Hrings | done | by split |]. intros t Hne. simpl. by rewrite decide_False by congruence.
  - destruct Hd3 as [Hw3 Hv3]. split; [done|]. rewrite Hv3. simpl. by rewrite Hv1, app_nil_r.
Qed.

(** The next request of the flush is started. *)
Lemma wp_next a d q tag r k l Q :
  sim (Queues (pending a) None) (set_current_tag 255 d) → current_tag d = tag → 0 ≤ tag < 3 →
  arr_get (dma_queues d) tag = Ok q → pending a !! Z.to_nat tag = Some (r :: l) → ring q (r :: l) →
  (flush_tail q - head q) mod 256 = Z.of_nat (S k) → (S k ≤ length (r :: l))%nat →
  (∀ idx d1 q', arr_get (dma_queues d1) tag = Ok q' → requests q' !! Z.to_nat idx = Some (req_at r 2) → 0 ≤ idx → req_ok r →
     sim (Queues (<[Z.to_nat tag:=l]> (pending a)) (Some (tag, r, k))) d1 → dq_scu d1 = dq_scu d → Q idx d1) →
  wp (on_queue tag _queue_dequeue) d Q.
Proof.
  intros Hsim Htag Htag3 Hq Hl Hring Hft Hk HQ. pose proof Hsim as [Hwf Hrings _ _ Hsimple]. simpl in Hwf, Hrings, Hsimple.
  destruct (ring_dequeue q r l Hring) as (Hdeq & Hring' & Hat & Hidx & Hlen & Hr). set (q' := DmaQueue _ _ _ _) in *.
  eapply wp_on_queue; [exact Hq | exact Hdeq |]. eapply HQ; [| exact Hat | apply Z.mod_pos_bound; lia | done | | done].
  - apply arr_get_Ok. split; [lia|]. apply list_lookup_insert_eq. apply arr_get_Ok in Hq as [_ Hlk]. by apply lookup_lt_Some in Hlk.
  - split; simpl; [done | | done | done | done].
    eapply rings_set; [exact Hrings | done | |].
    + simpl. rewrite decide_True by done. split; [done|]. split; [| | by simpl in Hk; lia | done | done].
      * rewrite <- Hidx. exact Hat.
      * simpl. destruct (i8_mod (head q + 1) (flush_tail q)) as (_ & -> & _). simpl in Hk. dlia.
    + intros t Hne. simpl. by rewrite decide_False by congruence.
Qed.

Lemma wp_flush_loop k rounds a d tag r :
  (k < rounds)%nat → sim a d → flight a = Some (tag, r, k) →
  wp (dma_queue_flush_loop rounds fuel) d (λ _ d', simulates d (spec_wait a).1 (spec_wait a).2 d').
Proof.
  revert rounds a d r. induction k as [|k IH]; intros [|rounds] a d r Hrd Hsim Hfl; [lia | | lia |];
    cbn [dma_queue_flush_loop]; apply wp_bind, wp_gets;
    pose proof (sim_tag _ _ Hsim) as Htag; pose proof (sim_flight _ _ Hsim) as Htag3; rewrite Hfl in Htag, Htag3; rewrite Htag;
    (destruct (Z.eqb_spec tag DMA_QUEUE_TAG_INVALID) as [Hinv | _]; [unfold DMA_QUEUE_TAG_INVALID in Hinv; lia|]);
    (eapply wp_complete; [exact Hsim | exact Hfl |]); intros d1 q l Hs1 Ht1 Hd1 Hq1 Hl1 Hring1 Hft1 Hk1;
    apply wp_bind; (eapply wp_read_queue; [exact Hq1|]); unfold _queue_flush_empty;
    destruct (ring_ok _ _ Hring1) as [_ Hh _ Hf].
  - rewrite (i8_same (head q) (flush_tail q)), Z.eqb_refl by done. apply wp_modify.
    unfold spec_wait. rewrite Hfl. cbn [take flat_map drop fst snd]. rewrite app_nil_r.
    rewrite (queue_of_lookup _ _ _ Hl1), list_insert_id by done. by split.
  - destruct (Z.eqb_spec (head q) (flush_tail q)) as [He | _]; [rewrite He, Z.sub_diag, Zmod_0_l in Hft1; lia|].
    destruct l as [|r' l]; [simpl in Hk1; lia|].
    apply wp_bind. eapply wp_next; [exact Hs1 | done | done | exact Hq1 | exact Hl1 | done | exact Hft1 | done |].
    intros idx d2 q2 Hq2 Hat Hidx Hr' Hs2 Hscu2.
    apply wp_bind, wp_mask_get. intros m1. apply wp_bind, wp_scu_mask_get. intros m2.
    apply wp_bind, wp_mask_set; [by destruct Hs2|]. intros d3 Hd3. pose proof (sim_machine _ _ _ _ Hs2 Hd3) as Hs3.
    apply wp_bind, wp_scu_mask_set; [by destruct Hs3|]. intros d4 Hd4. pose proof (sim_machine _ _ _ _ Hs3 Hd4) as Hs4.
    apply wp_bind. eapply wp_get_request.
    { destruct Hd3 as (_ & _ & Hq3 & _), Hd4 as (_ & _ & Hq4 & _). rewrite Hq4, Hq3. exact Hq2. }
    { apply arr_get_Ok. split; [done | exact Hat]. }
    apply wp_bind, wp_request_start; [by destruct Hs4|]. intros d5 Hd5. pose proof (sim_machine _ _ _ _ Hs4 Hd5) as Hs5.
    eapply wp_mono; [eapply (IH rounds _ d5 r'); [lia | exact Hs5 | done]|]. cbv beta. intros u d' Hend.
    rewrite (spec_wait_next a tag r k r' l Hfl (queue_of_lookup _ _ _ Hl1)) by (by apply lookup_lt_Some in Hl1). cbn [fst snd].
    destruct Hd3 as (Hd3 & _), Hd4 as (Hd4 & _), Hd5 as (Hd5 & _). rewrite Hscu2 in Hd3.
    eapply simulates_after; [exact Hd1|]. eapply simulates_after; [|exact Hend].
    pose proof (does_trans _ _ _ _ _ Hd3 (does_trans _ _ _ _ _ Hd4 Hd5)) as Hd. exact Hd.
Qed.

Lemma tag_ok tag : 0 ≤ tag < 3 → (tag <? DMA_QUEUE_TAG_COUNT) = true.
Proof. intros Htag. apply Z.ltb_lt. unfold DMA_QUEUE_TAG_COUNT. lia. Qed.

(** *** Waiting *)

Lemma spec_wait_flight a : flight (spec_wait a).2 = None.
Proof. unfold spec_wait. by destruct (flight a) as [[[tag r] k]|] eqn:E. Qed.

Lemma sim_follow a d tag r k : sim a d → flight a = Some (tag, r, k) → (k ≤ 31)%nat.
Proof.
  intros [_ Hrings _ Hfl _] Ha. rewrite Ha in Hrings, Hfl. destruct (rings_get _ _ _ tag Hrings Hfl) as (q & l & _ & _ & [_ Hfly]).
  simpl in Hfly. rewrite decide_True in Hfly by done. destruct Hfly. lia.
Qed.

Lemma simulates_refl a d : sim a d → simulates d [] a d.
Proof. intros Hs. split; [done|]. by apply does_refl; destruct Hs. Qed.

Lemma wp_wait_loop rounds a d :
  (31 < rounds)%nat → sim a d →
  wp (dma_queue_flush_loop rounds fuel) d (λ _ d', simulates d (spec_wait a).1 (spec_wait a).2 d').
Proof.
  intros Hrd Hsim. destruct (flight a) as [[[tag r] k]|] eqn:Hfl.
  - pose proof (sim_follow _ _ _ _ _ Hsim Hfl). apply (wp_flush_loop k rounds a d tag r); [lia | done | done].
  - destruct rounds as [|rounds]; [lia|]. cbn [dma_queue_flush_loop]. apply wp_bind, wp_gets.
    rewrite (sim_tag _ _ Hsim), Hfl. change (DMA_QUEUE_TAG_INVALID =? DMA_QUEUE_TAG_INVALID) with true. cbv iota. apply wp_ret.
    unfold spec_wait. rewrite Hfl. by apply simulates_refl.
Qed.

Lemma wp_flush_wait a d :
  sim a d → wp (dma_queue_flush_wait fuel) d (λ _ d', simulates d (spec_wait a).1 (spec_wait a).2 d').
Proof. intros Hsim. unfold dma_queue_flush_wait. apply wp_wait_loop; [lia | done]. Qed.

(** *** Enqueueing *)

Lemma does_nil e s s1 s2 : does [] s s1 → does e s1 s2 → does e s s2.
Proof. apply (does_trans [] e). Qed.

Lemma wp_enqueue a d handle tag h work :
  sim a d → room a tag →
  let r := Req handle (match h with NullHandler => _default_handler | _ => h end) work in
  wp (dma_queue_enqueue handle tag h work) d (λ st d',
    st = 0 ∧ simulates d [] (set_queue tag (queue_of a tag ++ [r]) a) d').
Proof.
  intros Hsim [Htag Hroom] r. unfold dma_queue_enqueue. apply wp_bind, wp_assert; [by apply tag_ok|].
  apply wp_bind, wp_mask_get. intros m. apply wp_bind, wp_mask_set; [by destruct Hsim|]. intros d1 Hd1.
  pose proof (sim_machine _ _ _ _ Hsim Hd1) as Hs1. pose proof Hs1 as [Hwf1 Hrings Htag1 Hfl1 Hsi1].
  destruct (rings_get _ _ _ tag Hrings Htag) as (q & l & Hq & Hl & [Hring Hfly]). rewrite (queue_of_lookup _ _ _ Hl) in *.
  assert (length l < 32)%nat as Hlen by (destruct (flight a) as [[[t r0] k]|]; [destruct (decide (t = tag))|]; lia).
  apply wp_bind. eapply wp_read_queue; [exact Hq|]. rewrite (ring_not_full q l) by done.
  destruct (ring_get q (tail q + 1)) as (old & _ & Hold); [by destruct Hring|].
  assert (req_ok r) as Hr by (unfold req_ok, r; simpl; by destruct h).
  destruct (ring_enqueue q l r old Hring Hlen Hr Hold) as (Henq & Hring' & Hfly'). set (idx := (tail q + 1) mod 32) in *.
  assert (0 ≤ idx) by (apply Z.mod_pos_bound; lia).
  assert (Z.to_nat idx < length (requests q))%nat as Hin by (apply ring_slot; by destruct Hring).
  assert (Z.to_nat tag < length (dma_queues d1))%nat as Hin' by (apply arr_get_Ok in Hq as [_ Hlk]; by apply lookup_lt_Some in Hlk).
  apply wp_bind, wp_bind. eapply wp_on_queue; [exact Hq | exact Henq |]. apply wp_bind.
  eapply wp_change_request; [apply arr_get_Ok; split; [lia | by apply list_lookup_insert_eq] |
    apply arr_get_Ok; split; [done | simpl; by apply list_lookup_insert_eq] |]. apply wp_ret.
  cbn [requests head tail flush_tail set_status transfer status]. rewrite list_insert_insert_eq. simpl dma_queues. rewrite list_insert_insert_eq.
  set (d2 := set_dma_queues _ (set_dma_queues _ d1)).
  assert (sim (set_queue tag (l ++ [r]) a) d2) as Hs2.
  { split; simpl; [done | | done | done | done]. eapply rings_set; [exact Hrings | done | | done]. split; [exact Hring'|].
    destruct (flight_of (flight a) tag) as [[r0 k]|] eqn:Hf; [|done]. apply Hfly'; [done|].
    unfold flight_of in Hf. destruct (flight a) as [[[t r1] k1]|]; [|done]. destruct (decide (t = tag)); [lia | done]. }
  apply wp_bind, wp_mask_set; [by destruct Hs2|]. intros d3 Hd3. apply wp_ret. split; [done|].
  split; [by apply (sim_machine [] _ d2)|]. destruct Hd1 as (Hd1 & _), Hd3 as (Hd3 & _). exact (does_nil _ _ _ _ Hd1 Hd3).
Qed.

(** *** Flushing *)

(** The first request of a queue is taken and started. *)
Lemma wp_flush_start {A} (rest : M dq_t A) a d tag r l Q :
  sim a d → flight a = None → 0 ≤ tag < 3 → pending a !! Z.to_nat tag = Some (r :: l) →
  (∀ d', simulates d (call_events r 2 ++ start_events r) (Queues (<[Z.to_nat tag:=l]> (pending a)) (Some (tag, r, length l))) d' →
     wp rest d' Q) →
  wp (_ ← on_queue tag (λ q, Ok (tt, DmaQueue (requests q) (head q) (tail q) (tail q)));
      _ ← modify (set_current_tag tag);
      idx ← on_queue tag _queue_dequeue;
      _ ← call_request tag idx;
      request ← get_request tag idx;
      _ ← on_scu (_queue_request_start fuel request);
      rest) d Q.
Proof.
  intros Hsim Hfl Htag Hl HQ. pose proof Hsim as [Hwf Hrings Ht _ Hsi]. rewrite Hfl in Hrings, Ht.
  destruct (rings_get _ _ _ tag Hrings Htag) as (q & l' & Hq & Hl' & [Hring _]). rewrite Hl in Hl'. injection Hl' as <-.
  apply wp_bind. eapply wp_on_queue; [exact Hq | reflexivity |]. apply wp_bind, wp_modify.
  set (q1 := DmaQueue (requests q) (head q) (tail q) (tail q)). set (d1 := set_current_tag tag _).
  assert (ring q1 (r :: l)) as Hring1 by (destruct Hring as [[] ? ? ? ?]; by split; [split|..]).
  assert (arr_get (dma_queues d1) tag = Ok q1) as Hq1.
  { apply arr_get_Ok. split; [lia|]. apply list_lookup_insert_eq. apply arr_get_Ok in Hq as [_ Hlk]. by apply lookup_lt_Some in Hlk. }
  apply wp_bind. eapply (wp_next a d1 q1 tag r (length l) l); [| done | done | exact Hq1 | done | done | by destruct Hring1 | simpl; lia |].
  { split; simpl; [done | | done | done | done]. rewrite <- (list_insert_id (pending a) (Z.to_nat tag) (r :: l)) by done.
    eapply rings_set; [exact Hrings | done | by split | done]. }
  intros idx d2 q2 Hq2 Hat Hidx Hr Hs2 Hscu2.
  apply wp_bind. eapply wp_call_request; [by destruct Hs2 | exact Hq2 | exact Hat | done | done |]. intros d3 Hd3.
  pose proof (sim_machine _ _ _ _ Hs2 Hd3) as Hs3. apply wp_bind.
  eapply wp_get_request; [destruct Hd3 as (_ & _ & -> & _); exact Hq2 | apply arr_get_Ok; split; [done | exact Hat] |].
  apply wp_bind, wp_request_start; [by destruct Hs3|]. intros d4 Hd4. apply HQ. split; [by apply (sim_machine _ _ _ _ Hs3 Hd4)|].
  destruct Hd3 as (Hd3 & _), Hd4 as (Hd4 & _). rewrite Hscu2 in Hd3. exact (does_trans _ _ _ _ _ Hd3 Hd4).
Qed.

Lemma wp_restore_masks a d d' evs m1 m2 (st : Z) Q :
  simulates d evs a d' → (∀ d'', simulates d evs a d'' → Q (u32 st) d'') →
  wp (_ ← on_scu (cpu_intc_mask_set m1); _ ← on_scu (scu_ic_mask_set m2); mret (u32 st)) d' Q.
Proof.
  intros [Hs Hd] HQ. apply wp_bind, wp_mask_set; [by destruct Hs|]. intros d1 Hd1. pose proof (sim_machine _ _ _ _ Hs Hd1) as Hs1.
  apply wp_bind, wp_scu_mask_set; [by destruct Hs1|]. intros d2 Hd2. apply wp_ret, HQ. split; [by apply (sim_machine _ _ _ _ Hs1 Hd2)|].
  destruct Hd1 as (Hd1 & _), Hd2 as (Hd2 & _). rewrite <- (app_nil_r evs). exact (does_trans _ _ _ _ _ Hd (does_nil _ _ _ _ Hd1 Hd2)).
Qed.

Lemma wp_flush a d tag :
  sim a d → 0 ≤ tag < 3 →
  wp (dma_queue_flush fuel tag) d (λ r d', let '(r0, evs, a') := spec_step (DqFlush tag) a in r = r0 ∧ simulates d evs a' d').
Proof.
  intros Hsim Htag. unfold dma_queue_flush. apply wp_bind, wp_assert; [by apply tag_ok|].
  apply wp_bind. eapply wp_mono; [by apply wp_flush_wait|]. intros _ d1 [Hs1 Hd1]. cbn [spec_step].
  pose proof (spec_wait_flight a) as Hfl1. destruct (spec_wait a) as [evs a1]. simpl in Hs1, Hd1, Hfl1.
  apply wp_bind, wp_mask_get. intros m. apply wp_bind, wp_mask_set; [by destruct Hs1|]. intros d2 Hd2.
  pose proof (sim_machine _ _ _ _ Hs1 Hd2) as Hs2. apply wp_bind, wp_scu_mask_get. intros sm.
  assert (does evs (dq_scu d) (dq_scu d2)) as Hd12 by (destruct Hd2 as (Hd2 & _); rewrite <- (app_nil_r evs); exact (does_trans _ _ _ _ _ Hd1 Hd2)).
  destruct (rings_get _ _ _ tag (sim_rings _ _ Hs2) Htag) as (q & l & Hq & Hl & [Hring _]). rewrite (queue_of_lookup _ _ _ Hl).
  apply wp_bind. eapply wp_read_queue; [exact Hq|]. rewrite (ring_empty q l) by done. apply wp_bind. destruct l as [|r l].
  - rewrite bool_decide_true by done. apply wp_ret. eapply wp_restore_masks; [split; [exact Hs2 | exact Hd12]|]. done.
  - rewrite bool_decide_false by done. eapply wp_flush_start; [exact Hs2 | done | done | done |]. intros d3 Hd3. apply wp_ret.
    eapply wp_restore_masks; [eapply simulates_after; [exact Hd12 | exact Hd3]|]. done.
Qed.

(** *** Clearing *)

Lemma wp_cancel_loop l : ∀ rounds a d tag,
  (length l < rounds)%nat → sim a d → flight a = None → 0 ≤ tag < 3 → pending a !! Z.to_nat tag = Some l →
  wp (dma_queue_cancel_loop rounds tag) d (λ _ d', simulates d (flat_map (λ r, call_events r 6) l) (set_queue tag [] a) d').
Proof.
  induction l as [|r l IH]; intros [|rounds] a d tag Hrd Hsim Hfl Htag Hl; simpl in Hrd; [lia | | lia |]; cbn [dma_queue_cancel_loop];
    pose proof Hsim as [Hwf Hrings Ht Hf3 Hsi]; destruct (rings_get _ _ _ tag Hrings Htag) as (q & l' & Hq & Hl' & [Hring _]);
    rewrite Hl in Hl'; injection Hl' as <-; apply wp_bind; (eapply wp_read_queue; [exact Hq|]); rewrite (ring_empty q _) by done.
  - rewrite bool_decide_true by done. apply wp_ret. unfold set_queue. rewrite list_insert_id by done. destruct a. by apply simulates_refl.
  - rewrite bool_decide_false by done. destruct (ring_dequeue q r l Hring) as (Hdeq & Hring1 & Hat & Hidx & Hlen & Hr).
    set (idx := (head q + 1) mod 32) in *. set (q1 := DmaQueue _ _ _ _) in *. assert (0 ≤ idx) by (apply Z.mod_pos_bound; lia).
    assert (Z.to_nat tag < length (dma_queues d))%nat as Hin by (apply arr_get_Ok in Hq as [_ Hlk]; by apply lookup_lt_Some in Hlk).
    apply wp_bind. eapply wp_on_queue; [exact Hq | exact Hdeq |]. apply wp_bind.
    eapply wp_change_request; [apply arr_get_Ok; split; [lia | by apply list_lookup_insert_eq] | apply arr_get_Ok; split; [done | exact Hat] |].
    simpl dma_queues. rewrite list_insert_insert_eq. set (q2 := DmaQueue (<[_:=_]> (requests q1)) _ _ _). set (d1 := set_dma_queues _ (set_dma_queues _ d)).
    assert (ring q2 l) as Hring2 by (unfold q2; rewrite Hidx; by apply ring_change_top).
    assert (sim (set_queue tag l a) d1) as Hs1.
    { split; simpl; [done | | done | done | done]. eapply rings_set; [exact Hrings | done | split; [exact Hring2 | by rewrite Hfl] | done]. }
    apply wp_bind. eapply (wp_call_request tag idx d1 q2 r 6); [done | apply arr_get_Ok; split; [lia | by apply list_lookup_insert_eq] | | done | done |].
    { unfold q2. simpl. apply list_lookup_insert_eq. by apply lookup_lt_Some in Hat. }
    intros d2 Hd2. pose proof (sim_machine _ _ _ _ Hs1 Hd2) as Hs2.
    eapply wp_mono; [apply (IH rounds (set_queue tag l a) d2 tag); [lia | done | done | done | apply list_lookup_insert_eq; by apply lookup_lt_Some in Hl]|].
    cbv beta. intros u d' Hend. cbn [flat_map]. destruct Hd2 as (Hd2 & _). eapply simulates_after; [exact Hd2|].
    unfold set_queue in Hend. cbn [pending flight] in Hend. rewrite list_insert_insert_eq in Hend. exact Hend.
Qed.

Lemma spec_tag_clear_flight tag a : flight (spec_tag_clear tag a).2 = None.
Proof. unfold spec_tag_clear. pose proof (spec_wait_flight a) as Hfl. by destruct (spec_wait a). Qed.

Lemma wp_tag_clear a d tag :
  sim a d → 0 ≤ tag < 3 →
  wp (dma_queue_tag_clear fuel tag) d (λ _ d', simulates d (spec_tag_clear tag a).1 (spec_tag_clear tag a).2 d').
Proof.
  intros Hsim Htag. unfold dma_queue_tag_clear. apply wp_bind, wp_assert; [by apply tag_ok|].
  apply wp_bind. eapply wp_mono; [by apply wp_flush_wait|]. intros _ d1 [Hs1 Hd1]. unfold spec_tag_clear.
  pose proof (spec_wait_flight a) as Hfl1. destruct (spec_wait a) as [evs a1]. cbn [fst snd] in *.
  apply wp_bind, wp_mask_get. intros m. apply wp_bind, wp_mask_set; [by destruct Hs1|]. intros d2 Hd2.
  pose proof (sim_machine _ _ _ _ Hs1 Hd2) as Hs2.
  destruct (rings_get _ _ _ tag (sim_rings _ _ Hs2) Htag) as (q & l & _ & Hl & [Hring _]). rewrite (queue_of_lookup _ _ _ Hl).
  apply wp_bind. eapply wp_mono; [apply (wp_cancel_loop l); [destruct Hring; lia | exact Hs2 | done | done | done]|].
  cbv beta. intros u d3 [Hs3 Hd3]. apply wp_mask_set; [by destruct Hs3|]. intros d4 Hd4. split; [by apply (sim_machine _ _ _ _ Hs3 Hd4)|].
  destruct Hd2 as (Hd2 & _), Hd4 as (Hd4 & _). rewrite <- (app_nil_r (flat_map _ _)).
  exact (does_trans _ _ _ _ _ Hd1 (does_nil _ _ _ _ Hd2 (does_trans _ _ _ _ _ Hd3 Hd4))).
Qed.

Lemma wp_clear a d :
  sim a d →
  wp (dma_queue_clear fuel) d (λ _ d', let '(_, evs, a') := spec_step DqClear a in simulates d evs a' d').
Proof.
  intros Hsim. unfold dma_queue_clear. apply wp_bind, wp_mask_get. intros m.
  apply wp_bind, wp_mask_set; [by destruct Hsim|]. intros d0 Hd0. pose proof (sim_machine _ _ _ _ Hsim Hd0) as Hs0. cbn [spec_step].
  apply wp_bind. eapply wp_mono; [by apply (wp_tag_clear a d0 0)|]. intros _ d1 [Hs1 Hd1]. destruct (spec_tag_clear 0 a) as [e0 a0].
  apply wp_bind. eapply wp_mono; [by apply (wp_tag_clear a0 d1 1)|]. intros _ d2 [Hs2 Hd2]. destruct (spec_tag_clear 1 a0) as [e1 a1].
  apply wp_bind. eapply wp_mono; [by apply (wp_tag_clear a1 d2 2)|]. intros _ d3 [Hs3 Hd3]. destruct (spec_tag_clear 2 a1) as [e2 a2].
  apply wp_mask_set; [by destruct Hs3|]. intros d4 Hd4. split; [by apply (sim_machine _ _ _ _ Hs3 Hd4)|].
  destruct Hd0 as (Hd0 & _), Hd4 as (Hd4 & _). cbn [fst snd] in *. rewrite <- (app_nil_r e2).
  exact (does_nil _ _ _ _ Hd0 (does_trans _ _ _ _ _ Hd1 (does_trans _ _ _ _ _ Hd2 (does_trans _ _ _ _ _ Hd3 Hd4)))).
Qed.

(** *** Sequences of operations *)

Lemma wp_dq_step op a d :
  sim a d → spec_ok op a →
  wp (dq_step fuel op) d (λ r d', let '(r0, evs, a') := spec_step op a in r = r0 ∧ simulates d evs a' d').
Proof.
  intros Hsim Hop. destruct op as [tag handle h work | tag dst src len | tag | | tag |]; cbn [dq_step].
  - by apply wp_enqueue.
  - unfold dma_queue_simple_enqueue. apply wp_bind, wp_modify, wp_bind, wp_gets. destruct (sim_simple _ _ Hsim) as [Hsa Hsm].
    cbn [simple_handle set_simple_handle]. rewrite Hsa, Hsm. set (d1 := set_simple_handle _ d).
    assert (sim a d1) as Hs1 by (destruct Hsim; by split).
    eapply wp_mono; [by apply (wp_enqueue a d1 _ tag NullHandler 0 Hs1)|]. done.
  - by apply wp_flush.
  - apply wp_bind. eapply wp_mono; [by apply wp_flush_wait|]. cbv beta. intros u d' Hs. apply wp_ret. cbn [spec_step]. by destruct (spec_wait a).
  - apply wp_bind. eapply wp_mono; [by apply wp_tag_clear|]. cbv beta. intros u d' Hs. apply wp_ret. cbn [spec_step]. by destruct (spec_tag_clear tag a).
  - apply wp_bind. eapply wp_mono; [by apply wp_clear|]. cbv beta. intros u d' Hs. apply wp_ret. destruct (spec_step DqClear a) as [[r evs] a'] eqn:E.
    split; [|done]. cbn [spec_step] in E. destruct (spec_tag_clear 0 a), (spec_tag_clear 1 _), (spec_tag_clear 2 _). by injection E.
Qed.

Lemma wp_dq_run ops a d :
  sim a d → spec_run_ok ops a →
  wp (dq_run fuel ops) d (λ rs d', let '(rs0, evs, a') := spec_run ops a in rs = rs0 ∧ simulates d evs a' d').
Proof.
  revert a d. induction ops as [|op ops IH]; intros a d Hsim Hok'; cbn [dq_run spec_run]; [apply wp_ret; split; [done|]; by apply simulates_refl|].
  destruct Hok' as [Hop Hops]. apply wp_bind. eapply wp_mono; [by apply (wp_dq_step op a)|]. intros r d1.
  destruct (spec_step op a) as [[r0 evs] a1]. intros [-> [Hs1 Hd1]]. apply wp_bind. eapply wp_mono; [by apply (IH a1)|]. intros rs d2.
  destruct (spec_run ops a1) as [[rs0 evs'] a2]. intros [-> Hs2]. apply wp_ret. split; [done|]. by eapply simulates_after.
Qed.
End FairQueue.
End DmaProof.
