(* ===== verification/DmaQueueClaims.v ===== *)
(** * DMA queues: results

    The refinement of the contract from initialisation on, what a flush
    guarantees, the invariant of the static data, and two ways in which the ring
    loses requests. *)

From S2P Require Import Prelude Bits CallbackList ScuDma ScuDmaProof DmaQueue DmaQueueSpec DmaQueueProof.

Section Init.
Context `{Machine} (B fuel : nat) (Hok : level_ends_ok) (Hidle : idle_within B) (Hfuel : (B ≤ fuel)%nat).

(** What the data of the module is before its initialisation: three pools of 32
    requests, and the static handle of [dma_queue_simple_enqueue]. *)
Record dq_static (d : dq_t) : Prop := {
  static_scu : scu_wf (dq_scu d);
  static_queues : length (dma_queues d) = 3%nat;
  static_pools : Forall (λ q, length (requests q) = 32%nat) (dma_queues d);
  static_handle : dnad (simple_handle d) = 0x101 ∧ dnmd (simple_handle d) = 0x10100;
}.

Lemma queue_init_spec q : length (requests q) = 32%nat → yields (_queue_init q) (λ q', ring q' [] ∧ length (requests q') = 32%nat).
Proof.
  intros Hl. unfold _queue_init. apply yields_bind. eapply yields_mono; [apply (for_up_inv (λ _ rs, length rs = 32%nat)); [done|]|].
  - intros j rs Hj Hrs. change (Z.of_nat (Z.to_nat DMA_QUEUE_REQUESTS_MAX_COUNT)) with 32 in Hj.
    destruct (arr_get_in_range rs j) as (r & -> & _); [lia|]. cbn [mbind outcome_bind].
    rewrite arr_set_in_range by lia. cbn [yields]. by rewrite length_insert.
  - intros rs Hrs. cbn [yields]. split; [|done]. split; simpl; [split; [done | split; done..] | done | lia | constructor |]. intros i r Hr. by rewrite lookup_nil in Hr.
Qed.

Lemma wp_level_end_set level h w s Q :
  scu_wf s → 0 ≤ level ≤ 2 → (∀ s', does [] s s' → Q tt s') → wp (scu_dma_level_end_set level h w) s Q.
Proof.
  intros [Hl Hc] Hlv HQ. unfold scu_dma_level_end_set. apply wp_bind, wp_gets, wp_bind.
  destruct (arr_get_in_range (_level_state s) level) as (l & Hg & _); [lia|]. eapply wp_lift; [exact Hg|]. cbv beta. apply wp_bind.
  eapply wp_lift; [apply arr_set_in_range; lia|]. cbv beta. apply wp_modify, HQ. split; [|by rewrite app_nil_r].
  split; simpl; [by rewrite length_insert|]. apply Forall_insert; [done|]. by destruct h.
Qed.

Lemma wp_queue_init d :
  dq_static d →
  wp (_internal_dma_queue_init fuel) d (λ _ d', simulates d [IoWrite (level_register 0 0x10) 0] no_requests d').
Proof.
  intros [Hwf Hlen Hpools Hh]. unfold _internal_dma_queue_init. apply wp_bind. eapply wp_wait_level0; [done | done | done | done |].
  intros d1 (Hd1 & _ & Hq1 & Hs1). apply wp_bind, wp_on_scu. apply wp_stop; [by destruct Hd1 | done |]. intros s2 He2%emits_does.
  apply wp_bind, wp_on_scu, wp_modify. cbn [dq_scu current_tag dma_queues simple_handle].
  apply wp_bind, wp_on_scu. apply wp_level_end_set; [by destruct He2 as [[] _]; split | done |]. intros s3 Hd3.
  cbn [dq_scu current_tag dma_queues simple_handle]. apply wp_bind, wp_modify. apply wp_bind, wp_gets. cbn [dma_queues set_current_tag].
  assert (yields (for_up (Z.to_nat DMA_QUEUE_TAG_COUNT) 0 (λ tag qs, q ← arr_get qs tag; q ← _queue_init q; arr_set qs tag q) (dma_queues d1))
    (λ qs, length qs = 3%nat ∧ Forall (λ q, ring q []) qs)) as Hqs.
  { eapply yields_mono; [apply (for_up_inv (λ t qs, length qs = 3%nat ∧ Forall (λ q, length (requests q) = 32%nat) qs ∧
      ∀ j q, 0 ≤ j < t → qs !! Z.to_nat j = Some q → ring q []))|].
    - rewrite Hq1. split_and!; [done | done | intros; lia].
    - intros t qs Ht (Hl & Hp & Hr). change (Z.of_nat (Z.to_nat DMA_QUEUE_TAG_COUNT)) with 3 in Ht.
      destruct (arr_get_in_range qs t) as (q & -> & Hq); [lia|]. cbn [mbind outcome_bind]. apply yields_bind.
      eapply yields_mono; [apply queue_init_spec, (Forall_lookup_1 _ _ _ _ Hp Hq)|]. intros q' [Hring Hlr].
      rewrite arr_set_in_range by lia. cbn [yields]. split_and!; [by rewrite length_insert | by apply Forall_insert |].
      intros j q0 Hj Hq0. destruct (decide (j = t)) as [-> | Hne].
      + rewrite list_lookup_insert_eq in Hq0 by lia. by injection Hq0 as <-.
      + rewrite list_lookup_insert_ne in Hq0 by lia. apply (Hr j); [lia | done].
    - intros qs (Hl & _ & Hr). split; [done|]. apply Forall_lookup. intros i q Hq. pose proof (lookup_lt_Some _ _ _ Hq).
      apply (Hr (Z.of_nat i)); [change (Z.of_nat (Z.to_nat DMA_QUEUE_TAG_COUNT)) with 3; lia | by rewrite Nat2Z.id]. }
  apply yields_Ok in Hqs as (qs & -> & Hl3 & Hrings). apply wp_bind. eapply wp_lift; [reflexivity|]. cbv beta. apply wp_modify. split.
  - split; cbn [dq_scu dma_queues current_tag simple_handle set_dma_queues set_current_tag no_requests flight pending];
      [by destruct Hd3 | | done | done | by rewrite Hs1].
    split; [done|]. intros tag q l Htag Hq Hl. assert (l = []) as ->.
    { assert (tag = 0 ∨ tag = 1 ∨ tag = 2) as [-> | [-> | ->]] by lia; simpl in Hl; by injection Hl. }
    split; [|done]. exact (Forall_lookup_1 _ _ _ _ Hrings Hq).
  - cbn [dq_scu set_dma_queues set_current_tag]. change DMA_QUEUE_SCU_DMA_LEVEL with 0 in He2. rewrite (proj1 (register_address 0 0 ltac:(lia))) in He2.
    destruct Hd1 as [_ Hv1], He2 as [_ Hv2], Hd3 as [Hw3 Hv3]. split; [done|].
    rewrite Hv3, app_nil_r. unfold visible in *. simpl io in *. by rewrite Hv2, Hv1, app_nil_r.
Qed.
End Init.

(** ** Refinement *)

(** C5: from its initialisation on, every sequence of operations on the DMA
    queues (enqueueing where there is room, flushing, waiting, clearing) returns,
    gives the results of the abstract queues, and does to the outside exactly
    what they prescribe: the handler calls with their statuses and the register
    writes of every transfer, in order.  No counter overflow shows. *)
Theorem dma_queue_refines (m : Machine) (B fuel : nat) (ops : list dq_op) (d : dq_t) :
  level_ends_ok → idle_within B → (B ≤ fuel)%nat → dq_static d → spec_run_ok ops no_requests →
  wp (_ ← _internal_dma_queue_init fuel; dq_run fuel ops) d (λ rs d',
    ∃ evs a, spec_run ops no_requests = (rs, evs, a) ∧
      visible (dq_scu d') = visible (dq_scu d) ++ [IoWrite (level_register 0 0x10) 0] ++ evs ∧ sim a d').
Proof.
  intros Hok Hidle Hfuel Hd Hops. apply wp_bind. eapply wp_mono; [by eapply wp_queue_init|]. intros _ d1 [Hs1 [_ Hv1]].
  eapply wp_mono; [by eapply wp_dq_run|]. intros rs d2. cbv beta. destruct (spec_run ops no_requests) as [[rs0 evs] a].
  intros [-> [Hs2 [_ Hv2]]]. exists evs, a. split_and!; [done | | done]. by rewrite Hv2, Hv1, <- app_assoc.
Qed.

Definition demo_request : dma_queue_request := Request (Handle 0 0 0 0 0) NullHandler (Transfer 0 0).
Definition demo_dq : @dq_t demo_machine :=
  @Dq demo_machine demo_scu 0 (replicate 3 (DmaQueue (replicate 32 demo_request) 0 0 0)) (Handle 0 0 0 0x101 0x10100).

Lemma demo_static : @dq_static demo_machine demo_dq.
Proof. split; [apply demo_scu_wf | done | by apply Forall_replicate | done]. Qed.

Definition demo_ops : list dq_op :=
  [DqEnqueue 0 (Handle 1 2 3 0 0) (UserHandler 100) 7; DqSimple 0 0x05E00000 0x06040000 64; DqEnqueue 1 (Handle 4 5 6 0 0) (UserHandler 101) 8;
   DqFlush 0; DqEnqueue 0 (Handle 7 8 9 0 0) NullHandler 0; DqFlush 1; DqTagClear 0; DqFlush 2; DqClear].

Lemma dma_queue_refines_witness :
  @wp dq_t (list Z) (_ ← @_internal_dma_queue_init demo_machine 3; @dq_run demo_machine 3 demo_ops) demo_dq (λ rs d',
    ∃ evs a, spec_run demo_ops no_requests = (rs, evs, a) ∧
      @visible demo_machine (dq_scu d') = @visible demo_machine (dq_scu demo_dq) ++ [IoWrite (level_register 0 0x10) 0] ++ evs ∧
      @sim demo_machine a d').
Proof.
  apply (dma_queue_refines demo_machine 3 3 demo_ops demo_dq);
    [apply demo_level_ends | apply demo_idle | lia | apply demo_static |].
  repeat (split; [split; [lia | vm_compute; lia] || (vm_compute; split; congruence) || exact I|]). exact I.
Defined.

(** ** Flushing *)

(** C15: a flush and a wait on a queue that has requests end, and in between
    every request pending at the flush has been transferred once, in order, and
    its handler called with the status COMPLETE after its transfer; the queue is
    then empty and no flush is under way.  The rounds of the loop in
    [dma_queue_flush_wait] are enough. *)
Theorem dma_queue_flush_completes (m : Machine) (B fuel : nat) (a : queues) (d : dq_t) (tag : Z) (r : req) (l : list req) :
  level_ends_ok → idle_within B → (B ≤ fuel)%nat → sim a d → flight a = None → 0 ≤ tag < 3 → queue_of a tag = r :: l →
  wp (st ← dma_queue_flush fuel tag; _ ← dma_queue_flush_wait fuel; mret st) d (λ st d',
    st = 0 ∧ current_tag d' = DMA_QUEUE_TAG_INVALID ∧ sim (set_queue tag [] a) d' ∧
    visible (dq_scu d') = visible (dq_scu d) ++ call_events r 2 ++
      flat_map (λ r, start_events r ++ call_events r 8) (r :: l)).
Proof.
  intros Hok Hidle Hfuel Hsim Hfl Htag Hq. apply wp_bind. eapply wp_mono; [by eapply wp_flush|]. intros st d1.
  cbn [spec_step]. unfold spec_wait at 1. rewrite Hfl, Hq. intros [-> [Hs1 [_ Hv1]]].
  apply wp_bind. eapply wp_mono; [by eapply wp_flush_wait|]. intros u d2 [Hs2 [_ Hv2]]. apply wp_ret.
  assert (Z.to_nat tag < length (pending a))%nat as Hin by (destruct (rings_length _ _ _ (sim_rings _ _ Hsim)) as [_ ->]; lia).
  unfold spec_wait in Hs2, Hv2. cbn [flight] in Hs2, Hv2.
  rewrite (queue_of_lookup _ tag l) in Hs2, Hv2 by (simpl; by apply list_lookup_insert_eq).
  rewrite take_ge in Hv2 by lia. rewrite drop_ge in Hs2 by lia. cbn [pending snd] in Hs2. rewrite list_insert_insert_eq in Hs2.
  split_and!; [done | by rewrite (sim_tag _ _ Hs2) | unfold set_queue; by rewrite Hfl |].
  rewrite Hv2, Hv1. cbn [fst flat_map app]. by rewrite <- !app_assoc.
Qed.

Definition state_of {S A} (c : M S A) (s : S) : S := match c s with Ok (_, s') => s' | Fault _ => s end.

Lemma wp_state_of {S A} (c : M S A) s (P : S → Prop) : wp c s (λ _ s', P s') → P (state_of c s).
Proof. unfold wp, state_of. by destruct (c s) as [[a s']|]. Qed.

Definition demo_reqs : list req := [Req (Handle 1 2 3 0 0) (UserHandler 100) 7; Req (Handle 4 5 6 0 0) _default_handler 8].

Definition demo_queued : @dq_t demo_machine :=
  state_of (_ ← @_internal_dma_queue_init demo_machine 3;
            @dq_run demo_machine 3 [DqEnqueue 1 (Handle 1 2 3 0 0) (UserHandler 100) 7; DqEnqueue 1 (Handle 4 5 6 0 0) NullHandler 8]) demo_dq.

Lemma demo_queued_sim : @sim demo_machine (Queues [[]; demo_reqs; []] None) demo_queued.
Proof.
  unfold demo_queued. apply (wp_state_of _ _ (λ d, sim _ d)). apply wp_bind. eapply wp_mono; [eapply wp_queue_init; [apply demo_level_ends | apply demo_idle | lia | apply demo_static]|].
  intros u d1 [Hs1 _]. eapply wp_mono.
  - eapply (wp_dq_run 3 3 demo_level_ends demo_idle ltac:(lia) _ no_requests); [exact Hs1|].
    split; [split; [lia | vm_compute; lia]|]. split; [split; [lia | vm_compute; lia] | exact I].
  - intros rs d2 [_ [Hs2 _]]. exact Hs2.
Qed.

Lemma dma_queue_flush_completes_witness :
  @wp dq_t Z (st ← @dma_queue_flush demo_machine 3 1; _ ← @dma_queue_flush_wait demo_machine 3; mret st) demo_queued (λ st d',
    st = 0 ∧ current_tag d' = DMA_QUEUE_TAG_INVALID ∧ @sim demo_machine (set_queue 1 [] (Queues [[]; demo_reqs; []] None)) d' ∧
    @visible demo_machine (dq_scu d') = @visible demo_machine (dq_scu demo_queued) ++ [IoCall 100 [2; 7]] ++
      flat_map (λ r, start_events r ++ call_events r 8) demo_reqs).
Proof.
  apply (dma_queue_flush_completes demo_machine 3 3 (Queues [[]; demo_reqs; []] None) demo_queued 1
    (Req (Handle 1 2 3 0 0) (UserHandler 100) 7) [Req (Handle 4 5 6 0 0) _default_handler 8]);
    [apply demo_level_ends | apply demo_idle | lia | apply demo_queued_sim | done | lia | done].
Defined.

(** ** Requests that are lost *)

(** The calls of handlers among the events. *)
Definition handler_calls (evs : list io_event) : list (Z * list Z) :=
  omap (λ e, match e with IoCall f args => Some (f, args) | _ => None end) evs.

Definition enqueue_n (n : nat) (first : Z) : list dq_op :=
  (λ i, DqEnqueue 0 (Handle 0 0 0 0 0) (UserHandler (first + Z.of_nat i)) 0) <$> seq 0 n.

Definition run_calls (ops : list dq_op) : outcome (list Z * list (Z * list Z)) :=
  match (_ ← @_internal_dma_queue_init demo_machine 3; @dq_run demo_machine 3 ops) demo_dq with
  | Ok (rs, d) => Ok (rs, handler_calls (io (dq_scu d)))
  | Fault e => Fault e
  end.

(** While a flush is under way on a tag, the 32nd request enqueued on it is
    accepted and overwrites the one that is being transferred: the handler of the
    new request is called with UNPROCESSED and COMPLETE instead, before its
    transfer was started, and that of the overwritten one is not called again. *)
Theorem dma_queue_overwrites_transfer :
  run_calls ([DqEnqueue 0 (Handle 0 0 0 0 0) (UserHandler 100) 0; DqFlush 0] ++ enqueue_n 32 200 ++ [DqWait]) =
    Ok (replicate 35 0, [(100, [2; 0]); (231, [9; 0])]).
Proof. vm_compute. reflexivity. Qed.

(** The counters are [int8_t], and the number of pending requests is their
    difference as an unsigned number: once [tail] has wrapped around and [head]
    has not, a full queue is not recognised.  On a new queue the 33rd request is
    refused; after 120 requests were flushed all 33 are accepted, the count is
    reported as 4294967073, and the flush transfers the last request twice and
    the first one not at all. *)
Theorem dma_queue_counters_wrap :
  let before := concat (replicate 4 (enqueue_n 30 100 ++ [DqFlush 0; DqWait])) in
  run_calls (enqueue_n 33 200) = Ok (replicate 32 0 ++ [-1], []) ∧
  (run_calls (before ++ enqueue_n 33 200 ++ [DqFlush 0; DqWait]) ≫= λ '(rs, calls), Ok (drop 128 rs, drop 124 calls)) =
    Ok (replicate 35 0, [(232, [2; 0]); (232, [8; 0])] ++ ((λ i, (201 + Z.of_nat i, [8; 0])) <$> seq 0 32)) ∧
  ((_ ← @_internal_dma_queue_init demo_machine 3; _ ← @dq_run demo_machine 3 (before ++ enqueue_n 33 200);
    @dma_queue_count_get demo_machine 0) demo_dq ≫= λ '(n, _), Ok n) = Ok 4294967073.
Proof. split_and!; vm_compute; reflexivity. Qed.
