(* ===== verification/Fix16.v ===== *)
(** * Fixed-point numbers (math/fix16.h, fix16.c, fix16_sqrt.c, uint32.c)

    A [fix16_t] is an [int32_t] with 16 fractional bits.  The products are inline
    assembly: [dmuls.l] leaves the 64-bit product of two signed registers in MACH
    and MACL, and [xtrct] takes the middle 32 bits of two registers. *)

From S2P Require Import Prelude Bits.

Definition FIX16_OVERFLOW : Z := 2147483648.
Definition FIX16_ONE : Z := 65536.

Definition in_i32 (x : Z) : Prop := - 2 ^ 31 ≤ x < 2 ^ 31.

(** ** The products *)

(** [dmuls.l a, b]: MACH and MACL. *)
Definition dmuls_l (a b : Z) : Z * Z := (u32 (a * b / 2 ^ 32), u32 (a * b)).

(** [xtrct m, n] *)
Definition xtrct (m n : Z) : Z := Z.lor (u32 (Z.shiftl m 16)) (Z.shiftr n 16).

Definition fix16_int16_mul (a b : Z) : Z := i32 (dmuls_l a b).2.
Definition fix16_int16_muls (a b : Z) : Z := i16 (dmuls_l a b).1.
Definition fix16_mul (a b : Z) : Z :=
  let '(mach, macl) := dmuls_l a b in i32 (xtrct mach macl).

(** ** Conversions *)

Definition fix16_int32_from (value : Z) : Z := i32 (value * FIX16_ONE).
Definition fix16_int32_to (value : Z) : Z := Z.shiftr value 16.
Definition fix16_round_int32_to (value : Z) : Z :=
  if 0 <=? value then Z.quot (i32 (value + Z.shiftr FIX16_ONE 1)) FIX16_ONE
  else Z.quot (i32 (value - Z.shiftr FIX16_ONE 1)) FIX16_ONE.
Definition fix16_integral (value : Z) : Z := i32 (Z.land (u32 value) 4294901760).
Definition fix16_fractional (value : Z) : Z := Z.land value 65535.
Definition fix16_abs (value : Z) : Z := if value <? 0 then i32 (- value) else value.
Definition fix16_sign (value : Z) : Z := if value <? 0 then - FIX16_ONE else FIX16_ONE.
Definition fix16_floor (value : Z) : Z := i32 (Z.land (u32 value) 4294901760).
Definition fix16_ceil (value : Z) : Z :=
  i32 (u32 (Z.land (u32 value) 4294901760 + if testz (Z.land (u32 value) 65535) then FIX16_ONE else 0)).
Definition fix16_min (x y : Z) : Z := if x <? y then x else y.
Definition fix16_max (x y : Z) : Z := if y <? x then x else y.
Definition fix16_clamp (value value_low value_high : Z) : Z := fix16_min (fix16_max value value_low) value_high.

(** ** fix16.c *)

Definition fix16_overflow_add (a b : Z) : Z :=
  let ta := u32 a in
  let tb := u32 b in
  let sum := u32 (ta + tb) in
  if (Z.land (Z.lxor ta tb) 2147483648 =? 0) && testz (Z.land (Z.lxor ta sum) 2147483648)
  then i32 FIX16_OVERFLOW
  else i32 sum.

Definition fix16_overflow_sub (a b : Z) : Z :=
  let ta := u32 a in
  let tb := u32 b in
  let diff := u32 (ta - tb) in
  if testz (Z.land (Z.lxor ta tb) 2147483648) && testz (Z.land (Z.lxor ta diff) 2147483648)
  then i32 FIX16_OVERFLOW
  else i32 diff.

Definition fix16_lerp (a b t : Z) : Z :=
  i32 (fix16_mul a (i32 (FIX16_ONE - t)) + fix16_mul b t).

Definition fix16_lerp8 (a b t : Z) : Z :=
  let fixed_t := fix16_int32_from (Z.shiftr (t + 1) 8) in
  i32 (fix16_mul a (FIX16_ONE - t) + fix16_mul b fixed_t).

(** ** fix16_sqrt.c *)

Definition fix16_sqrt (value : Z) : outcome Z :=
  '(r, q) ← iter 32 (λ '(r, b, q),
    if 64 <? b then
      let t := u32 (q + b) in
      let '(r, q) := if t <=? r then (u32 (r - t), u32 (t + b)) else (r, q) in
      Ok (inl (u32 (Z.shiftl r 1), Z.shiftr b 1, q))
    else Ok (inr (r, q))) (u32 value, 1073741824, 0);
  Ok (i32 (Z.shiftr q 8)).

(** ** uint32.c *)

Definition uint32_log2 (value : Z) : Z :=
  if value =? 0 then 0 else
  let result := 0 in
  let '(value, result) := if 2 ^ 16 <=? value then (Z.shiftr value 16, result + 16) else (value, result) in
  let '(value, result) := if 2 ^ 8 <=? value then (Z.shiftr value 8, result + 8) else (value, result) in
  let '(value, result) := if 2 ^ 4 <=? value then (Z.shiftr value 4, result + 4) else (value, result) in
  let '(value, result) := if 2 ^ 2 <=? value then (Z.shiftr value 2, result + 2) else (value, result) in
  if 2 ^ 1 <=? value then result + 1 else result.

Definition uint32_loop_log2 (value : Z) : outcome Z :=
  iter 33 (λ l, x ← shr32 value l; Ok (if 1 <? x then inl (l + 1) else inr l)) 0.

Definition uint32_pow2 (value : Z) : Z :=
  let value := u32 (value - 1) in
  let value := Z.lor value (Z.shiftr value 1) in
  let value := Z.lor value (Z.shiftr value 2) in
  let value := Z.lor value (Z.shiftr value 4) in
  let value := Z.lor value (Z.shiftr value 8) in
  let value := Z.lor value (Z.shiftr value 16) in
  u32 (value + 1).

(** ** Products *)

Lemma i32_mod x y : x mod 2 ^ 32 = y mod 2 ^ 32 → i32 x = i32 y.
Proof.
  intros E. unfold wraps. change (32 - 1) with 31.
  rewrite <- (Zplus_mod_idemp_l x), <- (Zplus_mod_idemp_l y), E. done.
Qed.

(** The product is the exact one, rounded down, of which 32 bits are kept. *)
Lemma fix16_mul_value a b : fix16_mul a b = i32 (a * b / 2 ^ 16).
Proof.
  unfold fix16_mul, dmuls_l, xtrct. set (p := a * b). apply i32_mod.
  rewrite Z.shiftl_mul_pow2, Z.shiftr_div_pow2 by lia.
  assert (u32 (u32 (p / 2 ^ 32) * 2 ^ 16) = (p / 2 ^ 32) mod 2 ^ 16 * 2 ^ 16) as -> by (unfold wrapu; dlia).
  rewrite lor_add by (unfold wrapu; dlia). unfold wrapu. dlia.
Qed.

Lemma fix16_mul_exact a b : in_i32 (a * b / 2 ^ 16) → fix16_mul a b = a * b / 2 ^ 16.
Proof. intros H. rewrite fix16_mul_value. apply wraps_small; [lia|]. exact H. Qed.

Lemma fix16_mul_one a : in_i32 a → fix16_mul a FIX16_ONE = a.
Proof.
  intros H. assert (a * FIX16_ONE / 2 ^ 16 = a) as E by (apply Z.div_mul; lia).
  rewrite fix16_mul_exact; rewrite E; done.
Qed.

Lemma fix16_mul_zero a : fix16_mul a 0 = 0.
Proof. rewrite fix16_mul_value, Z.mul_0_r. done. Qed.

(** The ends of an interpolation. *)
Lemma fix16_lerp_ends a b : in_i32 a → in_i32 b →
  fix16_lerp a b 0 = a ∧ fix16_lerp a b FIX16_ONE = b.
Proof.
  intros Ha Hb. unfold fix16_lerp. change (i32 (FIX16_ONE - 0)) with FIX16_ONE.
  change (i32 (FIX16_ONE - FIX16_ONE)) with 0. rewrite !fix16_mul_zero, !fix16_mul_one by done.
  rewrite Z.add_0_r, Z.add_0_l. unfold in_i32 in *. split; apply wraps_small; lia.
Qed.

(** [fix16_lerp8] ignores its second value for every [t] but 255, where it still
    adds most of the first. *)
Lemma fix16_lerp8_ignores a b t : 0 ≤ t < 255 → fix16_lerp8 a b t = fix16_lerp8 a 0 t.
Proof.
  intros Ht. unfold fix16_lerp8. assert (Z.shiftr (t + 1) 8 = 0) as ->.
  { rewrite Z.shiftr_div_pow2 by lia. apply Z.div_small. lia. }
  change (fix16_int32_from 0) with 0. by rewrite !fix16_mul_zero.
Qed.

(** ** Sums that tell an overflow *)

Lemma sign_bit a : in_i32 a → Z.testbit (u32 a) 31 = (a <? 0).
Proof.
  intros Ha. unfold in_i32 in Ha. rewrite testbit_div by lia. unfold wrapu.
  apply eq_true_iff_eq. rewrite Z.eqb_eq, Z.ltb_lt. dlia.
Qed.

Lemma sign_bit_u32 x : in_u32 x → Z.testbit x 31 = (2 ^ 31 <=? x).
Proof.
  intros Hx. rewrite testbit_div by lia. apply eq_true_iff_eq. rewrite Z.eqb_eq, Z.leb_le. dlia.
Qed.

Lemma land_sign x : (Z.land x 2147483648 =? 0) = negb (Z.testbit x 31).
Proof. change 2147483648 with (2 ^ 31). rewrite <- (land_bit_test x 31) by lia. unfold testz. by rewrite negb_involutive. Qed.

Lemma fix16_overflow_add_spec a b : in_i32 a → in_i32 b →
  fix16_overflow_add a b = if decide (- 2 ^ 31 ≤ a + b < 2 ^ 31) then a + b else - 2 ^ 31.
Proof.
  intros Ha Hb. unfold fix16_overflow_add. rewrite land_sign. unfold testz. rewrite land_sign.
  rewrite !Z.lxor_spec, !sign_bit by done. rewrite sign_bit_u32 by (apply (wrapu_range 32); lia).
  unfold in_i32 in *. change (i32 FIX16_OVERFLOW) with (- 2 ^ 31).
  assert (i32 (u32 (u32 a + u32 b)) = i32 (a + b)) as -> by (apply i32_mod; unfold wrapu; dlia).
  assert (u32 (u32 a + u32 b) = (a + b) mod 2 ^ 32) as -> by (unfold wrapu; dlia).
  case_decide as Hd.
  - rewrite wraps_small by (change (32 - 1) with 31; lia).
    destruct (Z.ltb_spec a 0), (Z.ltb_spec b 0), (Z.leb_spec (2 ^ 31) ((a + b) mod 2 ^ 32)); cbn; try done; dlia.
  - destruct (Z.ltb_spec a 0), (Z.ltb_spec b 0), (Z.leb_spec (2 ^ 31) ((a + b) mod 2 ^ 32)); cbn; try done; dlia.
Qed.

Lemma fix16_overflow_sub_spec a b : in_i32 a → in_i32 b →
  fix16_overflow_sub a b = if decide (- 2 ^ 31 ≤ a - b < 2 ^ 31) then a - b else - 2 ^ 31.
Proof.
  intros Ha Hb. unfold fix16_overflow_sub, testz. rewrite !land_sign.
  rewrite !Z.lxor_spec, !sign_bit by done. rewrite sign_bit_u32 by (apply (wrapu_range 32); lia).
  unfold in_i32 in *. change (i32 FIX16_OVERFLOW) with (- 2 ^ 31).
  assert (i32 (u32 (u32 a - u32 b)) = i32 (a - b)) as -> by (apply i32_mod; unfold wrapu; dlia).
  assert (u32 (u32 a - u32 b) = (a - b) mod 2 ^ 32) as -> by (unfold wrapu; dlia).
  case_decide as Hd.
  - rewrite wraps_small by (change (32 - 1) with 31; lia).
    destruct (Z.ltb_spec a 0), (Z.ltb_spec b 0), (Z.leb_spec (2 ^ 31) ((a - b) mod 2 ^ 32)); cbn; try done; dlia.
  - destruct (Z.ltb_spec a 0), (Z.ltb_spec b 0), (Z.leb_spec (2 ^ 31) ((a - b) mod 2 ^ 32)); cbn; try done; dlia.
Qed.

(** ** The square root

    After [j] rounds [q] is the largest multiple of [2^(32-j)] whose square does
    not exceed [v * 2^32], and [r] the remainder in units of [2^(32-j)]. *)
Section Sqrt.
Context (v : Z) (Hv : 0 ≤ v ≤ 2 ^ 30).

Definition root (j r b q : Z) : Prop :=
  0 ≤ j ≤ 24 ∧ b = 2 ^ (30 - j) ∧ q mod 2 ^ (32 - j) = 0 ∧ 0 ≤ q ≤ 2 ^ 31 ∧ 0 ≤ r < 2 ^ 32 ∧
  r * 2 ^ (32 - j) = v * 2 ^ 32 - q * q ∧ v * 2 ^ 32 < (q + 2 ^ (32 - j)) * (q + 2 ^ (32 - j)).

Lemma root_init : root 0 (u32 v) 1073741824 0.
Proof.
  unfold root. rewrite wrapu_small by lia. change (30 - 0) with 30. change (32 - 0) with 32.
  repeat split; lia.
Qed.

(** The remainder of a root [q], a multiple of [w] below [2^31], fits 32 bits. *)
Lemma remainder_fits w q r : 0 < w → 2 ^ 31 mod w = 0 → q mod w = 0 → 0 ≤ q → 0 ≤ r →
  r * w = v * 2 ^ 32 - q * q → v * 2 ^ 32 < (q + w) * (q + w) → q ≤ 2 ^ 31 ∧ r < 2 ^ 32.
Proof.
  intros Hw Hm Hq Hq0 Hr E Hlt.
  assert (q ≤ 2 ^ 31) as Hq31 by nia. split; [done|].
  destruct (decide (q = 2 ^ 31)) as [->|]; [nia|].
  assert (q + w ≤ 2 ^ 31) as Hqw.
  { apply Z.mod_divide in Hm as [k Hk]; [|lia]. apply Z.mod_divide in Hq as [l Hl]; [|lia].
    assert (l < k) by (apply (Z.mul_lt_mono_pos_r w); lia). assert ((l + 1) * w ≤ k * w) by (apply Z.mul_le_mono_nonneg_r; lia). lia. }
  assert (r * w < 2 ^ 32 * w) by nia. by apply (Z.mul_lt_mono_pos_r w).
Qed.

Lemma root_step j r b q : root j r b q → j < 24 →
  let t := u32 (q + b) in
  let '(r', q') := if t <=? r then (u32 (r - t), u32 (t + b)) else (r, q) in
  root (j + 1) (u32 (Z.shiftl r' 1)) (Z.shiftr b 1) q'.
Proof.
  intros (Hj & Hb & Hm & Hq & Hr & E & Hlt) Hj24. cbv zeta.
  assert (2 ^ (32 - j) = 2 * 2 ^ (31 - j)) as Hw2 by (rewrite <- Z.pow_succ_r by lia; f_equal; lia).
  assert (2 ^ (31 - j) = 2 * b) as Hwb by (subst b; rewrite <- Z.pow_succ_r by lia; f_equal; lia).
  assert (2 ^ (30 - (j + 1)) = Z.shiftr b 1) as Hb'.
  { subst b. rewrite Z.shiftr_div_pow2 by lia. replace (30 - j) with (30 - (j + 1) + 1) by lia.
    rewrite Z.pow_add_r by lia. symmetry. apply Z.div_mul. lia. }
  assert (0 < b ≤ 2 ^ 30) as Hbr by (subst b; split; [lia | apply Z.pow_le_mono_r; lia]).
  assert (2 ^ 31 mod 2 ^ (31 - j) = 0) as Hdiv.
  { apply Z.mod_divide; [lia|]. exists (2 ^ j). rewrite <- Z.pow_add_r by lia. f_equal. lia. }
  rewrite wrapu_small by lia. set (w := 2 ^ (31 - j)) in *.
  assert (q mod w = 0) as Hqw.
  { apply Z.mod_divide in Hm as [k Hk]; [|lia]. apply Z.mod_divide; [lia|]. exists (2 * k). lia. }
  assert (32 - (j + 1) = 31 - j) as Ej by lia.
  destruct (Z.leb_spec (q + b) r) as [Hle|Hle].
  - assert ((r - (q + b)) * 2 * w = v * 2 ^ 32 - (q + w) * (q + w)) as E' by nia.
    assert (q + w ≤ 2 ^ 31) by nia.
    rewrite (wrapu_small 32 (r - (q + b))), (wrapu_small 32 (q + b + b)) by lia.
    replace (q + b + b) with (q + w) by lia. rewrite Z.shiftl_mul_pow2 by lia.
    assert (v * 2 ^ 32 < (q + w + w) * (q + w + w)) as Hlt' by nia.
    destruct (remainder_fits w (q + w) ((r - (q + b)) * 2)) as [Hq' Hr']; try done; try lia.
    { rewrite <- Z.add_mod_idemp_r, Z.mod_same, Z.add_0_r by lia. done. }
    change (2 ^ 1) with 2. rewrite wrapu_small by lia. unfold root. rewrite Ej. fold w. split_and!; try (done || lia).
    rewrite <- Z.add_mod_idemp_r, Z.mod_same, Z.add_0_r by lia. done.
  - rewrite Z.shiftl_mul_pow2 by lia. change (2 ^ 1) with 2.
    assert (r * 2 * w = v * 2 ^ 32 - q * q) as E' by nia.
    assert (v * 2 ^ 32 < (q + w) * (q + w)) as Hlt' by nia.
    destruct (remainder_fits w q (r * 2)) as [Hq' Hr']; try done; try lia.
    rewrite wrapu_small by lia. unfold root. rewrite Ej. fold w. split_and!; try (done || lia).
Qed.

Lemma sqrt_spec : yields (fix16_sqrt v) (λ y, 0 ≤ y ∧ y * y ≤ v * 2 ^ 16 < (y + 1) * (y + 1)).
Proof.
  unfold fix16_sqrt. apply yields_bind.
  apply (yields_mono _ (λ '(r, q), ∃ b, root 24 r b q)).
  - apply (iter_inv (λ '(r, b, q), ∃ j, root j r b q) (λ '(_, b, _), Z.to_nat (Z.log2 b))).
    + exists 0. apply root_init.
    + cbn. lia.
    + intros [[r b] q] [j Hj]. pose proof Hj as (Hjr & Hb & _). destruct (Z.ltb_spec 64 b) as [H64|H64].
      * assert (j < 24) as Hj24.
        { destruct (decide (j = 24)) as [->|]; [|lia]. cbn in Hb. lia. }
        pose proof (root_step j r b q Hj Hj24) as Hs. cbv zeta in Hs.
        destruct (u32 (q + b) <=? r); cbn [yields]; (split; [by exists (j + 1)|]);
          subst b; rewrite Z.shiftr_div_pow2 by lia; replace (30 - j) with (29 - j + 1) by lia;
          rewrite Z.pow_add_r, Z.div_mul, <- Z.pow_add_r, !Z.log2_pow2 by lia; lia.
      * exists b. cbn [yields]. assert (j = 24) as ->; [|done].
        destruct (decide (j < 24)); [|lia]. assert (2 ^ 7 ≤ b) by (subst b; apply Z.pow_le_mono_r; lia). lia.
  - intros [r q] (b & _ & _ & Hm & Hq & Hr & E & Hlt). cbn [yields]. change (32 - 24) with 8 in *.
    rewrite Z.shiftr_div_pow2 by lia. apply Z.mod_divide in Hm as [y ->]; [|lia]. rewrite Z.div_mul by lia.
    rewrite wraps_small by (change (32 - 1) with 31; lia). split; [lia|]. nia.
Qed.
End Sqrt.

(** ** uint32.c *)

Lemma log2_halve v k : 0 ≤ k → 2 ^ k ≤ v → Z.log2 v = Z.log2 (Z.shiftr v k) + k ∧ 0 < Z.shiftr v k.
Proof.
  intros Hk Hv. assert (k ≤ Z.log2 v) by (apply Z.log2_le_pow2; lia).
  rewrite Z.log2_shiftr, Z.max_r by lia. split; [lia|].
  rewrite Z.shiftr_div_pow2 by lia. apply Z.div_str_pos. lia.
Qed.

Lemma uint32_log2_spec v : 0 < v < 2 ^ 32 → uint32_log2 v = Z.log2 v.
Proof.
  intros Hv. unfold uint32_log2. destruct (Z.eqb_spec v 0); [lia|].
  assert (∀ k v r, 0 < k → 0 < v → let '(v', r') := if 2 ^ k <=? v then (Z.shiftr v k, r + k) else (v, r) in
    0 < v' ∧ r' + Z.log2 v' = r + Z.log2 v ∧ (v < 2 ^ (2 * k) → v' < 2 ^ k)) as Hstep.
  { intros k x r Hk Hx. destruct (Z.leb_spec (2 ^ k) x) as [Hle|]; [|done].
    destruct (log2_halve x k) as [E Hpos]; [lia | done|]. split; [done|]. split; [lia|].
    intros Hlt. rewrite Z.shiftr_div_pow2 by lia. apply Z.div_lt_upper_bound; [lia|].
    rewrite <- Z.pow_add_r by lia. by replace (k + k) with (2 * k) by lia. }
  pose proof (Hstep 16 v 0 ltac:(lia) ltac:(lia)) as H1. destruct (if 2 ^ 16 <=? v then _ else _) as [v1 r1].
  destruct H1 as (P1 & E1 & B1). specialize (B1 ltac:(lia)).
  pose proof (Hstep 8 v1 r1 ltac:(lia) P1) as H2. destruct (if 2 ^ 8 <=? v1 then _ else _) as [v2 r2].
  destruct H2 as (P2 & E2 & B2). specialize (B2 B1).
  pose proof (Hstep 4 v2 r2 ltac:(lia) P2) as H3. destruct (if 2 ^ 4 <=? v2 then _ else _) as [v3 r3].
  destruct H3 as (P3 & E3 & B3). specialize (B3 B2).
  pose proof (Hstep 2 v3 r3 ltac:(lia) P3) as H4. destruct (if 2 ^ 2 <=? v3 then _ else _) as [v4 r4].
  destruct H4 as (P4 & E4 & B4). specialize (B4 B3).
  assert (v4 = 1 ∨ v4 = 2 ∨ v4 = 3) as [-> | [-> | ->]] by lia;
    [change (Z.log2 1) with 0 in E4 | change (Z.log2 2) with 1 in E4 | change (Z.log2 3) with 1 in E4];
    simpl; lia.
Qed.

Lemma uint32_loop_log2_spec v : 0 < v < 2 ^ 32 → uint32_loop_log2 v = Ok (uint32_log2 v).
Proof.
  intros Hv. rewrite uint32_log2_spec by done. unfold uint32_loop_log2.
  assert (Z.log2 v < 32) by (apply Z.log2_lt_pow2; lia). pose proof (Z.log2_nonneg v).
  assert (yields (iter 33 (λ l, x ← shr32 v l; Ok (if 1 <? x then inl (l + 1) else inr l)) 0) (eq (Z.log2 v))) as Hy.
  { apply (iter_inv (λ l, 0 ≤ l ≤ Z.log2 v) (λ l, Z.to_nat (Z.log2 v - l))); [lia | lia |].
    intros l Hl. unfold shr32. destruct (Z.leb_spec 0 l), (Z.ltb_spec l 32); try lia. cbn [andb mbind outcome_bind yields].
    rewrite Z.shiftr_div_pow2 by lia. destruct (Z.ltb_spec 1 (v / 2 ^ l)) as [Hlt|Hle].
    - assert (l + 1 ≤ Z.log2 v); [|lia]. apply Z.log2_le_pow2; [lia|]. rewrite Z.pow_add_r by lia.
      assert (2 * 2 ^ l ≤ v); [|lia]. pose proof (Z.mul_div_le v (2 ^ l)). nia.
    - assert (Z.log2 v < l + 1); [|lia]. apply Z.log2_lt_pow2; [lia|]. rewrite Z.pow_add_r by lia.
      pose proof (Z.mul_succ_div_gt v (2 ^ l)). nia. }
  apply yields_Ok in Hy as (x & -> & <-). done.
Qed.

(** [n] has its top [k] bits set, down from bit [t], or all of them. *)
Definition smeared (n t k : Z) : Prop :=
  (∀ i, 0 ≤ i → t - k < i ≤ t → Z.testbit n i = true) ∧ (∀ i, t < i → Z.testbit n i = false).

Lemma smear_step n t k : 0 < k → smeared n t k → smeared (Z.lor n (Z.shiftr n k)) t (2 * k).
Proof.
  intros Hk [Hset Hclear]. split.
  - intros i Hi Ht. rewrite Z.lor_spec, Z.shiftr_spec by done. destruct (decide (t - k < i)).
    + by rewrite Hset by lia.
    + rewrite (Hset (i + k)) by lia. apply orb_true_r.
  - intros i Hi. rewrite Z.lor_spec, Hclear by done. destruct (decide (0 ≤ i)).
    + rewrite Z.shiftr_spec by done. by rewrite Hclear by lia.
    + apply Z.testbit_neg_r. lia.
Qed.

(** The least power of two that is not smaller. *)
Lemma uint32_pow2_spec v : 1 < v ≤ 2 ^ 31 → uint32_pow2 v = 2 ^ Z.log2_up v.
Proof.
  intros Hv. unfold uint32_pow2. rewrite (wrapu_small 32 (v - 1)) by lia. set (t := Z.log2 (v - 1)).
  assert (smeared (v - 1) t 1) as H1.
  { split; intros i; [intros Hi Ht; replace i with t by lia; apply Z.bit_log2; lia|].
    intros Hi. apply Z.bits_above_log2; lia. }
  apply smear_step in H1; [|lia]. apply smear_step in H1; [|lia]. apply smear_step in H1; [|lia].
  apply smear_step in H1; [|lia]. apply smear_step in H1; [|lia]. change (2 * (2 * (2 * (2 * (2 * 1))))) with 32 in H1.
  change (2 * (2 * (2 * (2 * 1)))) with 16 in H1. change (2 * (2 * (2 * 1))) with 8 in H1.
  change (2 * (2 * 1)) with 4 in H1. change (2 * 1) with 2 in H1.
  assert (0 ≤ t < 31) as Ht by (split; [apply Z.log2_nonneg | apply Z.log2_lt_pow2; lia]).
  match type of H1 with smeared ?n _ _ => assert (n = Z.ones (t + 1)) as -> end.
  { apply Z.bits_inj'. intros i Hi. destruct (decide (i ≤ t)).
    - rewrite (proj1 H1) by lia. symmetry. apply Z.ones_spec_low. lia.
    - rewrite (proj2 H1) by lia. symmetry. apply Z.ones_spec_high. lia. }
  rewrite Z.ones_equiv. replace (Z.pred (2 ^ (t + 1)) + 1) with (2 ^ (t + 1)) by lia.
  rewrite wrapu_small by (split; [lia | apply Z.pow_lt_mono_r; lia]).
  f_equal. unfold Z.log2_up. destruct (Z.compare_spec 1 v); try lia. by replace (Z.pred v) with (v - 1) by lia.
Qed.

(** ** Claims *)

(** C35: [fix16_sqrt] returns, for every value from 0 to 16384.0, the square root
    rounded down to the precision of a [fix16_t]: the largest [y] whose square
    does not exceed the value, both taken as numbers with 16 fractional bits. *)
Theorem fix16_sqrt_root v : 0 ≤ v ≤ 2 ^ 30 →
  ∃ y, fix16_sqrt v = Ok y ∧ 0 ≤ y ∧ y * y ≤ v * 2 ^ 16 < (y + 1) * (y + 1).
Proof. intros Hv. by apply yields_Ok, sqrt_spec. Qed.

Lemma fix16_sqrt_root_witness : ∃ y, fix16_sqrt 131072 = Ok y ∧ 0 ≤ y ∧
  y * y ≤ 131072 * 2 ^ 16 < (y + 1) * (y + 1).
Proof. apply (fix16_sqrt_root 131072). lia. Defined.

(** For larger values the remainder is shifted out of its 32 bits: the
    root of 2147482988 (about 32768) is returned as 11863040, and there is a
    larger number whose square still does not exceed the value; the root of
    1073742336, just above 16384.0, is short as well. *)
Theorem fix16_sqrt_overflows :
  (fix16_sqrt 2147482988 = Ok 11863040 ∧ 11863281 * 11863281 ≤ 2147482988 * 2 ^ 16) ∧
  (∃ y, fix16_sqrt 1073742336 = Ok y ∧ (y + 1) * (y + 1) ≤ 1073742336 * 2 ^ 16).
Proof.
  split; [split; [reflexivity | lia]|]. eexists. split; [vm_compute; reflexivity | lia].
Qed.
