(* ===== verification/VtParse.v ===== *)
(** The parser of escape sequences of the debug console
    (kernel/dbgio/devices/cons/vt_parse.inc and vt_parse_table.inc): its states
    and actions, the table of state changes, one definition per row, and the
    functions that run it over a text.  The callback of the parser is an
    argument, with the state [W] it works on. *)

From S2P Require Import Prelude Memory.

Inductive vt_parse_state_t :=
| VT_PARSE_STATE_ANYWHERE
| VT_PARSE_STATE_CSI_ENTRY
| VT_PARSE_STATE_CSI_IGNORE
| VT_PARSE_STATE_CSI_INTERMEDIATE
| VT_PARSE_STATE_CSI_PARAM
| VT_PARSE_STATE_DCS_ENTRY
| VT_PARSE_STATE_DCS_IGNORE
| VT_PARSE_STATE_DCS_INTERMEDIATE
| VT_PARSE_STATE_DCS_PARAM
| VT_PARSE_STATE_DCS_PASSTHROUGH
| VT_PARSE_STATE_ESCAPE
| VT_PARSE_STATE_ESCAPE_INTERMEDIATE
| VT_PARSE_STATE_GROUND
| VT_PARSE_STATE_OSC_STRING
| VT_PARSE_STATE_SOS_PM_APC_STRING.

Inductive vt_parse_action_t :=
| VT_PARSE_ACTION_INVALID
| VT_PARSE_ACTION_CLEAR
| VT_PARSE_ACTION_COLLECT
| VT_PARSE_ACTION_CSI_DISPATCH
| VT_PARSE_ACTION_ESC_DISPATCH
| VT_PARSE_ACTION_EXECUTE
| VT_PARSE_ACTION_HOOK
| VT_PARSE_ACTION_IGNORE
| VT_PARSE_ACTION_OSC_END
| VT_PARSE_ACTION_OSC_PUT
| VT_PARSE_ACTION_OSC_START
| VT_PARSE_ACTION_PARAM
| VT_PARSE_ACTION_PRINT
| VT_PARSE_ACTION_PUT
| VT_PARSE_ACTION_UNHOOK.

#[global] Instance vt_parse_state_t_eq_dec : EqDecision vt_parse_state_t.
Proof. solve_decision. Defined.
#[global] Instance vt_parse_action_t_eq_dec : EqDecision vt_parse_action_t.
Proof. solve_decision. Defined.

(** The enumerators in the order of their values, from 0. *)
Definition vt_parse_states : list vt_parse_state_t :=
  [VT_PARSE_STATE_ANYWHERE;
   VT_PARSE_STATE_CSI_ENTRY;
   VT_PARSE_STATE_CSI_IGNORE;
   VT_PARSE_STATE_CSI_INTERMEDIATE;
   VT_PARSE_STATE_CSI_PARAM;
   VT_PARSE_STATE_DCS_ENTRY;
   VT_PARSE_STATE_DCS_IGNORE;
   VT_PARSE_STATE_DCS_INTERMEDIATE;
   VT_PARSE_STATE_DCS_PARAM;
   VT_PARSE_STATE_DCS_PASSTHROUGH;
   VT_PARSE_STATE_ESCAPE;
   VT_PARSE_STATE_ESCAPE_INTERMEDIATE;
   VT_PARSE_STATE_GROUND;
   VT_PARSE_STATE_OSC_STRING;
   VT_PARSE_STATE_SOS_PM_APC_STRING].

Definition vt_parse_actions : list vt_parse_action_t :=
  [VT_PARSE_ACTION_INVALID;
   VT_PARSE_ACTION_CLEAR;
   VT_PARSE_ACTION_COLLECT;
   VT_PARSE_ACTION_CSI_DISPATCH;
   VT_PARSE_ACTION_ESC_DISPATCH;
   VT_PARSE_ACTION_EXECUTE;
   VT_PARSE_ACTION_HOOK;
   VT_PARSE_ACTION_IGNORE;
   VT_PARSE_ACTION_OSC_END;
   VT_PARSE_ACTION_OSC_PUT;
   VT_PARSE_ACTION_OSC_START;
   VT_PARSE_ACTION_PARAM;
   VT_PARSE_ACTION_PRINT;
   VT_PARSE_ACTION_PUT;
   VT_PARSE_ACTION_UNHOOK].

Definition state_value (s : vt_parse_state_t) : Z :=
  match s with
  | VT_PARSE_STATE_ANYWHERE => 0
  | VT_PARSE_STATE_CSI_ENTRY => 1
  | VT_PARSE_STATE_CSI_IGNORE => 2
  | VT_PARSE_STATE_CSI_INTERMEDIATE => 3
  | VT_PARSE_STATE_CSI_PARAM => 4
  | VT_PARSE_STATE_DCS_ENTRY => 5
  | VT_PARSE_STATE_DCS_IGNORE => 6
  | VT_PARSE_STATE_DCS_INTERMEDIATE => 7
  | VT_PARSE_STATE_DCS_PARAM => 8
  | VT_PARSE_STATE_DCS_PASSTHROUGH => 9
  | VT_PARSE_STATE_ESCAPE => 10
  | VT_PARSE_STATE_ESCAPE_INTERMEDIATE => 11
  | VT_PARSE_STATE_GROUND => 12
  | VT_PARSE_STATE_OSC_STRING => 13
  | VT_PARSE_STATE_SOS_PM_APC_STRING => 14
  end.

Definition action_value (a : vt_parse_action_t) : Z :=
  match a with
  | VT_PARSE_ACTION_INVALID => 0
  | VT_PARSE_ACTION_CLEAR => 1
  | VT_PARSE_ACTION_COLLECT => 2
  | VT_PARSE_ACTION_CSI_DISPATCH => 3
  | VT_PARSE_ACTION_ESC_DISPATCH => 4
  | VT_PARSE_ACTION_EXECUTE => 5
  | VT_PARSE_ACTION_HOOK => 6
  | VT_PARSE_ACTION_IGNORE => 7
  | VT_PARSE_ACTION_OSC_END => 8
  | VT_PARSE_ACTION_OSC_PUT => 9
  | VT_PARSE_ACTION_OSC_START => 10
  | VT_PARSE_ACTION_PARAM => 11
  | VT_PARSE_ACTION_PRINT => 12
  | VT_PARSE_ACTION_PUT => 13
  | VT_PARSE_ACTION_UNHOOK => 14
  end.

(** A [state_change_t] packs an action and a state. *)
Definition ACTION (sc : Z) : outcome vt_parse_action_t := arr_get vt_parse_actions (Z.land sc 15).
Definition STATE (sc : Z) : outcome vt_parse_state_t := arr_get vt_parse_states (Z.shiftr sc 4).

(** ** The table

    A row is given by its entries that are not zero: [(i, j, sc)] is the change
    [sc] for the bytes from [i] to [j]. *)
Definition row : Type := list (Z * Z * Z).

Definition row_get (r : row) (ch : Z) : Z :=
  match find (λ '(i, j, _), (i <=? ch) && (ch <=? j)) r with Some (_, _, sc) => sc | None => 0 end.

(** [action | (state << 4)] and [action | (0 << 4)] *)
Definition change (a : vt_parse_action_t) (s : vt_parse_state_t) : Z :=
  Z.lor (action_value a) (Z.shiftl (state_value s) 4).
Definition stay (a : vt_parse_action_t) : Z := Z.lor (action_value a) (Z.shiftl 0 4).
(** [0 | (state << 4)] *)
Definition enter (s : vt_parse_state_t) : Z := Z.lor 0 (Z.shiftl (state_value s) 4).

Definition row_ANYWHERE : row :=
  [(24, 24, change VT_PARSE_ACTION_EXECUTE VT_PARSE_STATE_GROUND);
   (26, 26, change VT_PARSE_ACTION_EXECUTE VT_PARSE_STATE_GROUND);
   (27, 27, enter VT_PARSE_STATE_ESCAPE);
   (128, 143, change VT_PARSE_ACTION_EXECUTE VT_PARSE_STATE_GROUND);
   (144, 144, enter VT_PARSE_STATE_DCS_ENTRY);
   (145, 151, change VT_PARSE_ACTION_EXECUTE VT_PARSE_STATE_GROUND);
   (152, 152, enter VT_PARSE_STATE_SOS_PM_APC_STRING);
   (153, 154, change VT_PARSE_ACTION_EXECUTE VT_PARSE_STATE_GROUND);
   (155, 155, enter VT_PARSE_STATE_CSI_ENTRY);
   (156, 156, change VT_PARSE_ACTION_EXECUTE VT_PARSE_STATE_GROUND);
   (157, 157, enter VT_PARSE_STATE_OSC_STRING);
   (158, 159, enter VT_PARSE_STATE_SOS_PM_APC_STRING)].

Definition row_CSI_ENTRY : row :=
  [(0, 23, stay VT_PARSE_ACTION_EXECUTE);
   (25, 25, stay VT_PARSE_ACTION_EXECUTE);
   (28, 31, stay VT_PARSE_ACTION_EXECUTE);
   (32, 47, change VT_PARSE_ACTION_COLLECT VT_PARSE_STATE_CSI_INTERMEDIATE);
   (48, 57, change VT_PARSE_ACTION_PARAM VT_PARSE_STATE_CSI_PARAM);
   (58, 58, enter VT_PARSE_STATE_CSI_IGNORE);
   (59, 59, change VT_PARSE_ACTION_PARAM VT_PARSE_STATE_CSI_PARAM);
   (60, 63, change VT_PARSE_ACTION_COLLECT VT_PARSE_STATE_CSI_PARAM);
   (64, 126, change VT_PARSE_ACTION_CSI_DISPATCH VT_PARSE_STATE_GROUND);
   (127, 127, stay VT_PARSE_ACTION_IGNORE)].

Definition row_CSI_IGNORE : row :=
  [(0, 23, stay VT_PARSE_ACTION_EXECUTE);
   (25, 25, stay VT_PARSE_ACTION_EXECUTE);
   (28, 31, stay VT_PARSE_ACTION_EXECUTE);
   (32, 63, stay VT_PARSE_ACTION_IGNORE);
   (64, 126, enter VT_PARSE_STATE_GROUND);
   (127, 127, stay VT_PARSE_ACTION_IGNORE)].

Definition row_CSI_INTERMEDIATE : row :=
  [(0, 23, stay VT_PARSE_ACTION_EXECUTE);
   (25, 25, stay VT_PARSE_ACTION_EXECUTE);
   (28, 31, stay VT_PARSE_ACTION_EXECUTE);
   (32, 47, stay VT_PARSE_ACTION_COLLECT);
   (48, 63, enter VT_PARSE_STATE_CSI_IGNORE);
   (64, 126, change VT_PARSE_ACTION_CSI_DISPATCH VT_PARSE_STATE_GROUND);
   (127, 127, stay VT_PARSE_ACTION_IGNORE)].

Definition row_CSI_PARAM : row :=
  [(0, 23, stay VT_PARSE_ACTION_EXECUTE);
   (25, 25, stay VT_PARSE_ACTION_EXECUTE);
   (28, 31, stay VT_PARSE_ACTION_EXECUTE);
   (32, 47, change VT_PARSE_ACTION_COLLECT VT_PARSE_STATE_CSI_INTERMEDIATE);
   (48, 57, stay VT_PARSE_ACTION_PARAM);
   (58, 58, enter VT_PARSE_STATE_CSI_IGNORE);
   (59, 59, stay VT_PARSE_ACTION_PARAM);
   (60, 63, enter VT_PARSE_STATE_CSI_IGNORE);
   (64, 126, change VT_PARSE_ACTION_CSI_DISPATCH VT_PARSE_STATE_GROUND);
   (127, 127, stay VT_PARSE_ACTION_IGNORE)].

Definition row_DCS_ENTRY : row :=
  [(0, 23, stay VT_PARSE_ACTION_IGNORE);
   (25, 25, stay VT_PARSE_ACTION_IGNORE);
   (28, 31, stay VT_PARSE_ACTION_IGNORE);
   (32, 47, change VT_PARSE_ACTION_COLLECT VT_PARSE_STATE_DCS_INTERMEDIATE);
   (48, 57, change VT_PARSE_ACTION_PARAM VT_PARSE_STATE_DCS_PARAM);
   (58, 58, enter VT_PARSE_STATE_DCS_IGNORE);
   (59, 59, change VT_PARSE_ACTION_PARAM VT_PARSE_STATE_DCS_PARAM);
   (60, 63, change VT_PARSE_ACTION_COLLECT VT_PARSE_STATE_DCS_PARAM);
   (64, 126, enter VT_PARSE_STATE_DCS_PASSTHROUGH);
   (127, 127, stay VT_PARSE_ACTION_IGNORE)].

Definition row_DCS_IGNORE : row :=
  [(0, 23, stay VT_PARSE_ACTION_IGNORE);
   (25, 25, stay VT_PARSE_ACTION_IGNORE);
   (28, 127, stay VT_PARSE_ACTION_IGNORE);
   (156, 156, enter VT_PARSE_STATE_GROUND)].

Definition row_DCS_INTERMEDIATE : row :=
  [(0, 23, stay VT_PARSE_ACTION_IGNORE);
   (25, 25, stay VT_PARSE_ACTION_IGNORE);
   (28, 31, stay VT_PARSE_ACTION_IGNORE);
   (32, 47, stay VT_PARSE_ACTION_COLLECT);
   (48, 63, enter VT_PARSE_STATE_DCS_IGNORE);
   (64, 126, enter VT_PARSE_STATE_DCS_PASSTHROUGH);
   (127, 127, stay VT_PARSE_ACTION_IGNORE)].

Definition row_DCS_PARAM : row :=
  [(0, 23, stay VT_PARSE_ACTION_IGNORE);
   (25, 25, stay VT_PARSE_ACTION_IGNORE);
   (28, 31, stay VT_PARSE_ACTION_IGNORE);
   (32, 47, change VT_PARSE_ACTION_COLLECT VT_PARSE_STATE_DCS_INTERMEDIATE);
   (48, 57, stay VT_PARSE_ACTION_PARAM);
   (58, 58, enter VT_PARSE_STATE_DCS_IGNORE);
   (59, 59, stay VT_PARSE_ACTION_PARAM);
   (60, 63, enter VT_PARSE_STATE_DCS_IGNORE);
   (64, 126, enter VT_PARSE_STATE_DCS_PASSTHROUGH);
   (127, 127, stay VT_PARSE_ACTION_IGNORE)].

Definition row_DCS_PASSTHROUGH : row :=
  [(0, 23, stay VT_PARSE_ACTION_PUT);
   (25, 25, stay VT_PARSE_ACTION_PUT);
   (28, 126, stay VT_PARSE_ACTION_PUT);
   (127, 127, stay VT_PARSE_ACTION_IGNORE);
   (156, 156, enter VT_PARSE_STATE_GROUND)].

Definition row_ESCAPE : row :=
  [(0, 23, stay VT_PARSE_ACTION_EXECUTE);
   (25, 25, stay VT_PARSE_ACTION_EXECUTE);
   (28, 31, stay VT_PARSE_ACTION_EXECUTE);
   (32, 47, change VT_PARSE_ACTION_COLLECT VT_PARSE_STATE_ESCAPE_INTERMEDIATE);
   (48, 79, change VT_PARSE_ACTION_ESC_DISPATCH VT_PARSE_STATE_GROUND);
   (80, 80, enter VT_PARSE_STATE_DCS_ENTRY);
   (81, 87, change VT_PARSE_ACTION_ESC_DISPATCH VT_PARSE_STATE_GROUND);
   (88, 88, enter VT_PARSE_STATE_SOS_PM_APC_STRING);
   (89, 90, change VT_PARSE_ACTION_ESC_DISPATCH VT_PARSE_STATE_GROUND);
   (91, 91, enter VT_PARSE_STATE_CSI_ENTRY);
   (92, 92, change VT_PARSE_ACTION_ESC_DISPATCH VT_PARSE_STATE_GROUND);
   (93, 93, enter VT_PARSE_STATE_OSC_STRING);
   (94, 95, enter VT_PARSE_STATE_SOS_PM_APC_STRING);
   (96, 126, change VT_PARSE_ACTION_ESC_DISPATCH VT_PARSE_STATE_GROUND);
   (127, 127, stay VT_PARSE_ACTION_IGNORE)].

Definition row_ESCAPE_INTERMEDIATE : row :=
  [(0, 23, stay VT_PARSE_ACTION_EXECUTE);
   (25, 25, stay VT_PARSE_ACTION_EXECUTE);
   (28, 31, stay VT_PARSE_ACTION_EXECUTE);
   (32, 47, stay VT_PARSE_ACTION_COLLECT);
   (48, 126, change VT_PARSE_ACTION_ESC_DISPATCH VT_PARSE_STATE_GROUND);
   (127, 127, stay VT_PARSE_ACTION_IGNORE)].

Definition row_GROUND : row :=
  [(0, 23, stay VT_PARSE_ACTION_EXECUTE);
   (25, 25, stay VT_PARSE_ACTION_EXECUTE);
   (28, 31, stay VT_PARSE_ACTION_EXECUTE);
   (32, 127, stay VT_PARSE_ACTION_PRINT);
   (128, 143, stay VT_PARSE_ACTION_EXECUTE);
   (145, 154, stay VT_PARSE_ACTION_EXECUTE);
   (156, 156, stay VT_PARSE_ACTION_EXECUTE)].

Definition row_OSC_STRING : row :=
  [(0, 23, stay VT_PARSE_ACTION_IGNORE);
   (25, 25, stay VT_PARSE_ACTION_IGNORE);
   (28, 31, stay VT_PARSE_ACTION_IGNORE);
   (32, 127, stay VT_PARSE_ACTION_OSC_PUT);
   (156, 156, enter VT_PARSE_STATE_GROUND)].

Definition row_SOS_PM_APC_STRING : row :=
  [(0, 23, stay VT_PARSE_ACTION_IGNORE);
   (25, 25, stay VT_PARSE_ACTION_IGNORE);
   (28, 127, stay VT_PARSE_ACTION_IGNORE);
   (156, 156, enter VT_PARSE_STATE_GROUND)].

Definition _vt_parse_state_table (s : vt_parse_state_t) : row :=
  match s with
  | VT_PARSE_STATE_ANYWHERE => row_ANYWHERE
  | VT_PARSE_STATE_CSI_ENTRY => row_CSI_ENTRY
  | VT_PARSE_STATE_CSI_IGNORE => row_CSI_IGNORE
  | VT_PARSE_STATE_CSI_INTERMEDIATE => row_CSI_INTERMEDIATE
  | VT_PARSE_STATE_CSI_PARAM => row_CSI_PARAM
  | VT_PARSE_STATE_DCS_ENTRY => row_DCS_ENTRY
  | VT_PARSE_STATE_DCS_IGNORE => row_DCS_IGNORE
  | VT_PARSE_STATE_DCS_INTERMEDIATE => row_DCS_INTERMEDIATE
  | VT_PARSE_STATE_DCS_PARAM => row_DCS_PARAM
  | VT_PARSE_STATE_DCS_PASSTHROUGH => row_DCS_PASSTHROUGH
  | VT_PARSE_STATE_ESCAPE => row_ESCAPE
  | VT_PARSE_STATE_ESCAPE_INTERMEDIATE => row_ESCAPE_INTERMEDIATE
  | VT_PARSE_STATE_GROUND => row_GROUND
  | VT_PARSE_STATE_OSC_STRING => row_OSC_STRING
  | VT_PARSE_STATE_SOS_PM_APC_STRING => row_SOS_PM_APC_STRING
  end.

Definition _vt_parse_entry_actions (s : vt_parse_state_t) : vt_parse_action_t :=
  match s with
  | VT_PARSE_STATE_CSI_ENTRY => VT_PARSE_ACTION_CLEAR
  | VT_PARSE_STATE_DCS_ENTRY => VT_PARSE_ACTION_CLEAR
  | VT_PARSE_STATE_DCS_PASSTHROUGH => VT_PARSE_ACTION_HOOK
  | VT_PARSE_STATE_ESCAPE => VT_PARSE_ACTION_CLEAR
  | VT_PARSE_STATE_OSC_STRING => VT_PARSE_ACTION_OSC_START
  | _ => VT_PARSE_ACTION_INVALID
  end.

Definition _vt_parse_exit_actions (s : vt_parse_state_t) : vt_parse_action_t :=
  match s with
  | VT_PARSE_STATE_DCS_PASSTHROUGH => VT_PARSE_ACTION_UNHOOK
  | VT_PARSE_STATE_OSC_STRING => VT_PARSE_ACTION_OSC_END
  | _ => VT_PARSE_ACTION_INVALID
  end.

(** ** The parser *)

Definition MAX_INTERMEDIATE_CHARS : Z := 2.

Record vt_parse_t := mk_vt_parse {
  vt_state : vt_parse_state_t;
  intermediate_chars : list Z;
  ignore_flagged : Z;
  params : list Z;
  num_params : Z;
}.

(** The value of a parser in static memory before [_vt_parse_init]. *)
Definition vt_parse_zero : vt_parse_t :=
  mk_vt_parse VT_PARSE_STATE_ANYWHERE (replicate (Z.to_nat (MAX_INTERMEDIATE_CHARS + 1)) 0) 0 (replicate 16 0) 0.

(** [strlen] on [intermediate_chars]: a missing terminator is an access
    outside the array. *)
Definition intermediate_length (l : list Z) : outcome Z :=
  match list_find (λ c, c = 0) l with Some (i, _) => Ok (Z.of_nat i) | None => Fault OutOfBounds end.

Section Parser.
Context {W : Type}.
Variable callback : vt_parse_t → vt_parse_action_t → Z → W → outcome W.

Definition _vt_parse_init (p : vt_parse_t) : outcome vt_parse_t :=
  ic ← arr_set (intermediate_chars p) 0 0;
  Ok (mk_vt_parse VT_PARSE_STATE_GROUND ic 0 (params p) 0).

Definition set_param (p : vt_parse_t) (i v : Z) : outcome vt_parse_t :=
  ps ← arr_set (params p) i (u8 v);
  Ok (mk_vt_parse (vt_state p) (intermediate_chars p) (ignore_flagged p) ps (num_params p)).

Definition set_num_params (p : vt_parse_t) (n : Z) : vt_parse_t :=
  mk_vt_parse (vt_state p) (intermediate_chars p) (ignore_flagged p) (params p) (u8 n).

Definition set_state (p : vt_parse_t) (s : vt_parse_state_t) : vt_parse_t :=
  mk_vt_parse s (intermediate_chars p) (ignore_flagged p) (params p) (num_params p).

(** Append the character to the intermediate ones, or flag the sequence. *)
Definition action_collect (p : vt_parse_t) (ch : Z) : outcome vt_parse_t :=
  n ← intermediate_length (intermediate_chars p);
  if MAX_INTERMEDIATE_CHARS <? n + 1 then
    Ok (mk_vt_parse (vt_state p) (intermediate_chars p) 1 (params p) (num_params p))
  else
    ic ← arr_set (intermediate_chars p) n (u8 ch);
    Ok (mk_vt_parse (vt_state p) ic (ignore_flagged p) (params p) (num_params p)).

(** Process a character of a parameter. *)
Definition action_param (p : vt_parse_t) (ch : Z) : outcome vt_parse_t :=
  if ch =? 59 then
    let p := set_num_params p (num_params p + 1) in
    set_param p (num_params p - 1) 0
  else
    p ← (if num_params p =? 0 then set_param (set_num_params p 1) 0 0 else Ok p);
    let current_param := num_params p - 1 in
    x ← arr_get (params p) current_param;
    p ← set_param p current_param (x * 10);
    x ← arr_get (params p) current_param;
    set_param p current_param (x + (ch - 48)).

Definition action_clear (p : vt_parse_t) : outcome vt_parse_t :=
  ic ← arr_set (intermediate_chars p) 0 0;
  Ok (mk_vt_parse (vt_state p) ic 0 (params p) 0).

Definition _do_action (p : vt_parse_t) (w : W) (action : vt_parse_action_t) (ch : Z) : outcome (vt_parse_t * W) :=
  match action with
  | VT_PARSE_ACTION_COLLECT => p ← action_collect p ch; Ok (p, w)
  | VT_PARSE_ACTION_PARAM => p ← action_param p ch; Ok (p, w)
  | VT_PARSE_ACTION_CLEAR => p ← action_clear p; Ok (p, w)
  | _ => w ← callback p action ch w; Ok (p, w)
  end.

(** [if (action) _do_action(parser, action, ch)] *)
Definition do_action_if (p : vt_parse_t) (w : W) (action : vt_parse_action_t) (ch : Z) : outcome (vt_parse_t * W) :=
  if testz (action_value action) then _do_action p w action ch else Ok (p, w).

Definition _do_state_change (p : vt_parse_t) (w : W) (sc ch : Z) : outcome (vt_parse_t * W) :=
  new_state ← STATE sc;
  action ← ACTION sc;
  if testz (state_value new_state) then
    let exit_action := _vt_parse_exit_actions (vt_state p) in
    let entry_action := _vt_parse_entry_actions new_state in
    '(p, w) ← do_action_if p w exit_action 0;
    '(p, w) ← do_action_if p w action ch;
    '(p, w) ← do_action_if p w entry_action 0;
    Ok (set_state p new_state, w)
  else _do_action p w action ch.

(** The change a byte brings about: that of the row "anywhere" where it has
    one, else that of the state. *)
Definition vt_change (s : vt_parse_state_t) (ch : Z) : Z :=
  let sc := row_get (_vt_parse_state_table VT_PARSE_STATE_ANYWHERE) ch in
  if negb (testz sc) then row_get (_vt_parse_state_table s) ch else sc.

Definition vt_parse_byte (ch : Z) (pw : vt_parse_t * W) : outcome (vt_parse_t * W) :=
  let '(p, w) := pw in _do_state_change p w (vt_change (vt_state p) ch) (i8 ch).

(** [data] is the address of the text and [len] its length. *)
Definition _vt_parse (m : mem) (p : vt_parse_t) (w : W) (data len : Z) : outcome (vt_parse_t * W) :=
  for_up (Z.to_nat (i32 len)) 0 (λ i, vt_parse_byte (load8 m (data + i))) (p, w).

End Parser.
