(* ===== verification/Cons.v ===== *)
(** The debug console (kernel/dbgio/devices/cons/cons.c): a cursor on a screen
    of characters, moved by the text and by the escape sequences [VtParse]
    recognises.  The screen belongs to a device; its functions, the [cons_ops_t]
    of cons.h, are pointers that may be null and work on a state [D]. *)

From S2P Require Import Prelude Bits Memory CStr VtParse.
Import Search.

Definition CONS_COLS_MIN : Z := 40.
Definition CONS_ROWS_MIN : Z := 32.
Definition CONS_COLS_MAX : Z := 64.
Definition CONS_ROWS_MAX : Z := 64.
Definition CONS_TAB_WIDTH : Z := 2.

Record cons_ops_t (D : Type) := mk_cons_ops {
  op_clear : option (D → outcome D);
  op_area_clear : option (Z → Z → Z → Z → D → outcome D);
  op_line_clear : option (Z → D → outcome D);
  op_line_partial_clear : option (Z → Z → Z → D → outcome D);
  op_write : option (Z → Z → Z → D → outcome D);
}.
Arguments mk_cons_ops {D} _ _ _ _ _.
Arguments op_clear {D} _.
Arguments op_area_clear {D} _.
Arguments op_line_clear {D} _.
Arguments op_line_partial_clear {D} _.
Arguments op_write {D} _.

(** A call through a function pointer. *)
Definition fn_ptr {F} (p : option F) : outcome F :=
  match p with Some f => Ok f | None => Fault NullPointer end.

(** The state of cons.c but for the parser. *)
Record cons_t (D : Type) := mk_cons {
  cols : Z;
  rows : Z;
  cell_count : Z;
  cursor_col : Z;
  cursor_row : Z;
  ops : cons_ops_t D;
}.
Arguments mk_cons {D} _ _ _ _ _ _.
Arguments cols {D} _.
Arguments rows {D} _.
Arguments cell_count {D} _.
Arguments cursor_col {D} _.
Arguments cursor_row {D} _.
Arguments ops {D} _.

Section Console.
Context {D : Type}.
Implicit Types (c : cons_t D) (d : D).

Definition set_cursor c (col row : Z) : cons_t D :=
  mk_cons (cols c) (rows c) (cell_count c) col row (ops c).

(** ** The cursor *)

Definition _cursor_column_exceeded c (x : Z) : bool :=
  let col := i16 (cursor_col c + x) in (col <? 0) || (cols c <=? col).

Definition _cursor_row_exceeded c (y : Z) : bool :=
  let row := i16 (cursor_row c + u16 y) in (row <? 0) || (rows c <=? row).

Definition _cursor_row_advance c (y : Z) : cons_t D :=
  set_cursor c (cursor_col c) (i16 (cursor_row c + u16 y)).

Definition _cursor_row_set c (y : Z) : cons_t D := set_cursor c (cursor_col c) (i16 y).

Definition _cursor_row_cond_set c (row : Z) : cons_t D * bool :=
  if (0 <=? row) && (row <=? rows c) then (set_cursor c (cursor_col c) row, true) else (c, false).

Definition _cursor_column_advance c (x : Z) : cons_t D :=
  set_cursor c (i16 (cursor_col c + x)) (cursor_row c).

Definition _cursor_column_set c (x : Z) : cons_t D := set_cursor c (i16 x) (cursor_row c).

Definition _cursor_column_cond_set c (col : Z) : cons_t D * bool :=
  if (0 <=? col) && (col <=? cols c) then (set_cursor c col (cursor_row c), true) else (c, false).

Definition _cursor_cond_set c (col row : Z) : cons_t D * bool :=
  if (0 <=? col) && (col <=? cols c) && ((0 <=? row) && (row <=? rows c))
  then (set_cursor c col row, true) else (c, false).

(** ** Characters *)

Definition _action_character_print (ch : Z) c d : outcome (cons_t D * D) :=
  let c := if _cursor_column_exceeded c 0 then _cursor_row_advance (_cursor_column_set c 0) 1 else c in
  if _cursor_row_exceeded c 0 then Ok (c, d) else
  write ← fn_ptr (op_write (ops c));
  d ← write (cursor_col c) (cursor_row c) (u8 ch) d;
  Ok (_cursor_column_advance c 1, d).

Definition _action_escape_character_print (ch : Z) c d : outcome (cons_t D * D) :=
  if (ch =? 0) || (ch =? 7) || (ch =? 12) then Ok (c, d)
  else if ch =? 8 then
    Ok (if negb (_cursor_column_exceeded c (-1)) then _cursor_column_advance c (-1) else c, d)
  else if ch =? 10 then Ok (_cursor_row_advance (_cursor_column_set c 0) 1, d)
  else if ch =? 13 then Ok (_cursor_column_set c 0, d)
  else if ch =? 9 then
    if _cursor_column_exceeded c CONS_TAB_WIDTH then
      let tab := i16 (cols c - cursor_col c - 1) in
      Ok (if tab <? 0 then c else _cursor_column_advance c tab, d)
    else Ok (_cursor_column_advance c CONS_TAB_WIDTH, d)
  else if ch =? 11 then Ok (_cursor_row_advance c 1, d)
  else _action_character_print ch c d.

(** ** Control sequences *)

Definition _action_csi_a (ps : list Z) (n : Z) c d : outcome (cons_t D * D) :=
  if n =? 0 then Ok (c, d) else
  p0 ← arr_get ps 0;
  let row := if p0 =? 0 then 1 else p0 in
  let row := if _cursor_row_exceeded c (- row) then cursor_row c else row in
  Ok (_cursor_row_advance c (- row), d).

Definition _action_csi_b (ps : list Z) (n : Z) c d : outcome (cons_t D * D) :=
  if n =? 0 then Ok (c, d) else
  p0 ← arr_get ps 0;
  let row := if p0 =? 0 then 1 else p0 in
  let row := if _cursor_row_exceeded c row then i16 (rows c - cursor_row c - 1) else row in
  Ok (_cursor_row_advance c row, d).

Definition _action_csi_c (ps : list Z) (n : Z) c d : outcome (cons_t D * D) :=
  if n =? 0 then Ok (c, d) else
  p0 ← arr_get ps 0;
  let col := if p0 =? 0 then 1 else p0 in
  let col := if _cursor_column_exceeded c col then i16 (cols c - cursor_col c - 1) else col in
  Ok (_cursor_column_advance c col, d).

Definition _action_csi_d (ps : list Z) (n : Z) c d : outcome (cons_t D * D) :=
  if n =? 0 then Ok (c, d) else
  p0 ← arr_get ps 0;
  let col := if p0 =? 0 then 1 else p0 in
  let col := if _cursor_column_exceeded c (- col) then cursor_col c else col in
  Ok (_cursor_column_advance c (- col), d).

Definition _action_csi_h (ps : list Z) (n : Z) c d : outcome (cons_t D * D) :=
  if n =? 0 then Ok (_cursor_row_set (_cursor_column_set c 0) 0, d) else
  if testz (Z.land n 1) || (2 <? n) then Ok (c, d) else
  p1 ← arr_get ps 1;
  let col := if p1 - 1 <? 0 then 0 else p1 - 1 in
  p0 ← arr_get ps 0;
  let row := if p0 - 1 <? 0 then 0 else p0 - 1 in
  Ok (_cursor_row_set (_cursor_column_set c col) row, d).

(** [number = (num_params > 0) ? params[0] : 0] *)
Definition csi_number (ps : list Z) (n : Z) : outcome Z := if 0 <? n then arr_get ps 0 else Ok 0.

Definition _action_csi_j (ps : list Z) (n : Z) c d : outcome (cons_t D * D) :=
  let col := cursor_col c in
  let row := cursor_row c in
  number ← csi_number ps n;
  if number =? 0 then
    if (col =? 0) && (row =? 0) then clear ← fn_ptr (op_clear (ops c)); d ← clear d; Ok (c, d)
    else if (cols c - col <=? 0) || (rows c - row <=? 0) then Ok (c, d)
    else area_clear ← fn_ptr (op_area_clear (ops c)); d ← area_clear col (cols c) row (rows c) d; Ok (c, d)
  else if number =? 1 then
    if (col =? 0) || (row =? 0) then Ok (c, d) else
    let col := if _cursor_column_exceeded c 0 then cols c else col in
    let row := if _cursor_row_exceeded c 0 then rows c else row in
    area_clear ← fn_ptr (op_area_clear (ops c)); d ← area_clear 0 col 0 row d; Ok (c, d)
  else if number =? 2 then clear ← fn_ptr (op_clear (ops c)); d ← clear d; Ok (c, d)
  else Ok (c, d).

Definition _action_csi_k (ps : list Z) (n : Z) c d : outcome (cons_t D * D) :=
  if _cursor_row_exceeded c 0 then Ok (c, d) else
  number ← csi_number ps n;
  let col := cursor_col c in
  let row := cursor_row c in
  if number =? 0 then
    if cols c - col <=? 0 then Ok (c, d)
    else if col =? 0 then line_clear ← fn_ptr (op_line_clear (ops c)); d ← line_clear row d; Ok (c, d)
    else partial ← fn_ptr (op_line_partial_clear (ops c)); d ← partial col (cols c) row d; Ok (c, d)
  else if number =? 1 then
    if col =? 0 then Ok (c, d) else
    let col := if _cursor_column_exceeded c 0 then cols c else col in
    partial ← fn_ptr (op_line_partial_clear (ops c)); d ← partial 0 col row d; Ok (c, d)
  else if number =? 2 then line_clear ← fn_ptr (op_line_clear (ops c)); d ← line_clear row d; Ok (c, d)
  else Ok (c, d).

Definition _action_csi_dispatch_print (ch : Z) (ps : list Z) (n : Z) c d : outcome (cons_t D * D) :=
  if ch =? 65 then _action_csi_a ps n c d
  else if ch =? 66 then _action_csi_b ps n c d
  else if ch =? 67 then _action_csi_c ps n c d
  else if ch =? 68 then _action_csi_d ps n c d
  else if ch =? 72 then _action_csi_h ps n c d
  else if ch =? 74 then _action_csi_j ps n c d
  else if ch =? 75 then _action_csi_k ps n c d
  else Ok (c, d).

Definition _vt_parser_callback (p : vt_parse_t) (action : vt_parse_action_t) (ch : Z) (w : cons_t D * D) :
    outcome (cons_t D * D) :=
  let '(c, d) := w in
  match action with
  | VT_PARSE_ACTION_PRINT | VT_PARSE_ACTION_IGNORE | VT_PARSE_ACTION_INVALID => _action_character_print ch c d
  | VT_PARSE_ACTION_EXECUTE => _action_escape_character_print ch c d
  | VT_PARSE_ACTION_CSI_DISPATCH => _action_csi_dispatch_print (i8 ch) (params p) (num_params p) c d
  | _ => Ok (c, d)
  end.

(** ** The interface *)

(** [_cons] and the device: the parser is apart because it runs on its own while
    the callback changes the rest. *)
Record console := mk_console {
  con : cons_t D;
  con_parser : vt_parse_t;
  con_dev : D;
}.

Definition no_ops : cons_ops_t D := mk_cons_ops None None None None None.

(** [_cons] before the first call, in static memory. *)
Definition cons_zero : cons_t D := mk_cons 0 0 0 0 0 no_ops.

(** C: [assert(condition)] *)
Definition check (b : bool) : outcome unit := if b then Ok tt else Fault AssertFailed.
Definition not_null {F} (p : option F) : bool := match p with Some _ => true | None => false end.

Definition cons_init (o : option (cons_ops_t D)) (ncols nrows : Z) (s : console) : outcome console :=
  _ ← check (not_null o);
  o ← fn_ptr o;
  _ ← check ((CONS_COLS_MIN <=? ncols) && (ncols <=? CONS_COLS_MAX));
  _ ← check ((CONS_ROWS_MIN <=? nrows) && (nrows <=? CONS_ROWS_MAX));
  let ops := mk_cons_ops (op_clear o) (op_area_clear o) (op_line_clear o)
               (op_line_partial_clear (ops (con s))) (op_write o) in
  _ ← check (not_null (op_clear ops));
  _ ← check (not_null (op_area_clear ops));
  _ ← check (not_null (op_line_clear ops));
  _ ← check (not_null (op_write ops));
  clear ← fn_ptr (op_clear o);
  d ← clear (con_dev s);
  p ← _vt_parse_init (con_parser s);
  Ok (mk_console (mk_cons ncols nrows (u16 (ncols * nrows)) 0 0 ops) p d).

Definition cons_buffer (fuel : nat) (m : mem) (buffer : Z) (s : console) : outcome console :=
  _ ← check (testz buffer);
  if load8 m buffer =? 0 then Ok s else
  len ← strlen fuel m buffer;
  if len =? 0 then Ok s else
  '(p, (c, d)) ← _vt_parse _vt_parser_callback m (con_parser s) (con s, con_dev s) buffer len;
  Ok (mk_console c p d).

End Console.
Arguments console : clear implicits.
