(* ===== verification/ConsProof.v ===== *)
(** The console keeps every access of the device inside the screen: the parser
    keeps its arrays, the cursor stays where its 16 bits can hold it, and the
    functions of the device are called with arguments of the screen.  The
    device enters by the interface [ConsDevice]. *)

From S2P Require Import Prelude Bits Memory CStr VtParse Cons.
Import Search.

(** ** Runs that may stop at some faults

    [sat F o Q]: the run [o] returns a value in [Q], or stops at a fault of [F]. *)
Definition sat {A} (F : fault → Prop) (o : outcome A) (Q : A → Prop) : Prop :=
  match o with Ok a => Q a | Fault e => F e end.

Section Sat.
Context (F : fault → Prop).

Lemma sat_bind {A B} (o : outcome A) (f : A → outcome B) Q :
  sat F o (λ a, sat F (f a) Q) → sat F (mbind f o) Q.
Proof. by destruct o. Qed.

Lemma sat_mono {A} (o : outcome A) (P Q : A → Prop) : sat F o P → (∀ a, P a → Q a) → sat F o Q.
Proof. destruct o; simpl; auto. Qed.

Lemma sat_yields {A} (o : outcome A) Q : yields o Q → sat F o Q.
Proof. by destruct o. Qed.

Lemma sat_for_up {A} (I : Z → A → Prop) n i body (a : A) :
  I i a → (∀ j b, i ≤ j < i + Z.of_nat n → I j b → sat F (body j b) (I (j + 1))) →
  sat F (for_up n i body a) (I (i + Z.of_nat n)).
Proof.
  revert i a. induction n as [|n IH]; intros i a HI Hb; simpl.
  - by rewrite Z.add_0_r.
  - apply sat_bind, (sat_mono _ (I (i + 1))); [apply Hb; [lia | done]|].
    intros a' HI'. replace (i + Z.of_nat (S n)) with (i + 1 + Z.of_nat n) by lia.
    apply IH; [done|]. intros j b Hj. apply Hb. lia.
Qed.

End Sat.

(** ** The parser *)

(** The arrays of the parser and the number of its parameters. *)
Definition vt_wf (p : vt_parse_t) : Prop :=
  length (intermediate_chars p) = 3%nat ∧ intermediate_chars p !! 2%nat = Some 0 ∧
  length (params p) = 16%nat ∧ Forall (λ x, in_u8 x) (params p) ∧ 0 ≤ num_params p ≤ 16.

(** The separators of parameters since the last escape character. *)
Definition separators (n ch : Z) : Z := if ch =? 27 then 0 else if ch =? 59 then n + 1 else n.

(** No more than 15 of them in a row. *)
Fixpoint separators_ok (n : Z) (text : list Z) : bool :=
  match text with
  | [] => true
  | ch :: text => (separators n ch <=? 15) && separators_ok (separators n ch) text
  end.

Lemma param_range p i : vt_wf p → 0 ≤ i < 16 → yields (arr_get (params p) i) (λ x, in_u8 x).
Proof.
  intros (_ & _ & Hl & Hp & _) Hi. destruct (arr_get_in_range (params p) i) as (x & -> & Hx); [lia|].
  rewrite Forall_lookup in Hp. by apply Hp in Hx.
Qed.

Lemma set_param_wf p i v : vt_wf p → 0 ≤ i < 16 →
  yields (set_param p i v) (λ q, vt_wf q ∧ num_params q = num_params p).
Proof.
  intros (H3 & H2 & Hl & Hp & Hn) Hi. unfold set_param. rewrite arr_set_in_range by lia.
  cbn. split; [|done]. repeat split; cbn; try done; try lia.
  - by rewrite length_insert.
  - apply Forall_insert; [done|]. apply (wrapu_range 8). lia.
Qed.

Lemma set_num_params_wf p n : vt_wf p → 0 ≤ n ≤ 16 → vt_wf (set_num_params p n).
Proof. intros (H3 & H2 & Hl & Hp & Hn) ?. unfold set_num_params, vt_wf; cbn. rewrite wrapu_small by lia. done. Qed.

Lemma action_collect_wf p ch : vt_wf p →
  yields (action_collect p ch) (λ q, vt_wf q ∧ num_params q = num_params p).
Proof.
  intros (H3 & H2 & Hl & Hp & Hn). unfold action_collect, intermediate_length.
  destruct (list_find (λ c, c = 0) (intermediate_chars p)) as [[i x]|] eqn:Hf.
  - apply list_find_Some in Hf as (Hx & _ & Hbefore). apply yields_bind. cbn [yields].
    unfold MAX_INTERMEDIATE_CHARS. destruct (Z.ltb_spec 2 (Z.of_nat i + 1)); [done|].
    rewrite arr_set_in_range by lia. cbn. split; [|done]. repeat split; cbn; try done; try lia.
    + by rewrite length_insert.
    + rewrite list_lookup_insert_ne by lia. done.
  - apply list_find_None in Hf. rewrite Forall_lookup in Hf. by destruct (Hf 2%nat 0).
Qed.

Lemma action_clear_wf p : vt_wf p → yields (action_clear p) (λ q, vt_wf q ∧ num_params q = 0).
Proof.
  intros (H3 & H2 & Hl & Hp & Hn). unfold action_clear. rewrite arr_set_in_range by lia.
  cbn. split; [|done]. repeat split; cbn; try done; try lia.
  - by rewrite length_insert.
  - rewrite list_lookup_insert_ne by lia. done.
Qed.

(** A separator; of all other characters none adds a parameter to a first one. *)
Definition separator (ch : Z) : Z := if ch =? 59 then 1 else 0.

Lemma action_param_wf p n ch : vt_wf p → num_params p ≤ n + 1 → 0 ≤ n → n + separator ch ≤ 15 →
  yields (action_param p ch) (λ q, vt_wf q ∧ num_params q ≤ n + separator ch + 1).
Proof.
  intros Hp Hn Hn0 Hs. unfold action_param, separator in *. pose proof Hp as (_ & _ & _ & _ & Hr).
  destruct (ch =? 59).
  - pose proof (set_num_params_wf p (num_params p + 1) Hp ltac:(lia)) as Hp'.
    assert (num_params (set_num_params p (num_params p + 1)) = num_params p + 1) as E by (cbn; apply wrapu_small; lia).
    eapply yields_mono; [apply set_param_wf; [done | lia]|]. intros q [Hq Eq]. split; [done | lia].
  - apply yields_bind. apply (yields_mono _ (λ q, vt_wf q ∧ 0 < num_params q ≤ n + 1)).
    { destruct (Z.eqb_spec (num_params p) 0); [|split; [done | lia]].
      eapply yields_mono; [apply set_param_wf; [apply set_num_params_wf; [done | lia] | lia]|].
      cbn. intros q [Hq ->]. split; [done | change (wrapu 8 1) with 1; lia]. }
    intros q [Hq Hnq]. pose proof Hq as (_ & _ & _ & _ & Hrq). apply yields_bind.
    eapply yields_mono; [apply param_range; [done | lia]|]. intros x _. apply yields_bind.
    eapply yields_mono; [apply set_param_wf; [done | lia]|]. intros q1 [Hq1 E1]. apply yields_bind.
    eapply yields_mono; [apply param_range; [done | lia]|]. intros y _.
    eapply yields_mono; [apply set_param_wf; [done | lia]|]. intros q2 [Hq2 E2]. split; [done | lia].
Qed.

(** Every entry of the table has a state and an action; only an escape character
    enters the state that clears, whatever the state was. *)
Definition entry_ok (s : vt_parse_state_t) (ch : Z) : bool :=
  match STATE (vt_change s ch), ACTION (vt_change s ch) with
  | Ok s', Ok a => if ch =? 27 then bool_decide (s' = VT_PARSE_STATE_ESCAPE ∧ a = VT_PARSE_ACTION_INVALID) else true
  | _, _ => false
  end.

Lemma table_ok s ch : in_u8 ch → entry_ok s ch = true.
Proof.
  intros Hch. assert (forallb (λ s, forallb (entry_ok s) (seqZ 0 256)) vt_parse_states = true) as H by (vm_compute; reflexivity).
  rewrite forallb_forall in H. specialize (H s). rewrite forallb_forall in H. apply H.
  - destruct s; cbn; tauto.
  - apply list_elem_of_In, elem_of_seqZ. lia.
Qed.

(** The characters that move the cursor down a line. *)
Definition line_feed (ch : Z) : Z := if (ch =? 10) || (ch =? 11) then 1 else 0.

Fixpoint line_feeds (text : list Z) : Z :=
  match text with [] => 0 | ch :: text => line_feed ch + line_feeds text end.

Lemma line_feeds_nonneg text : 0 ≤ line_feeds text.
Proof. induction text as [|ch text IH]; cbn; [lia|]. unfold line_feed. destruct (_ || _); lia. Qed.

Section Run.
Context {W : Type} (callback : vt_parse_t → vt_parse_action_t → Z → W → outcome W).
Context (F : fault → Prop) (R : Z → W → Prop) (L : Z).
Hypothesis R_mono : ∀ N N' w, R N w → N ≤ N' → R N' w.
Hypothesis callback_ok : ∀ p a ch N w, vt_wf p → R N w → N + line_feed ch ≤ L →
  sat F (callback p a ch w) (R (N + line_feed ch)).

(** The state after text with [n] separators in a row and [N] line feeds. *)
Definition run_inv (n N : Z) (pw : vt_parse_t * W) : Prop :=
  vt_wf pw.1 ∧ num_params pw.1 ≤ n + 1 ∧ R N pw.2.

Lemma run_inv_mono n n' N N' pw : run_inv n N pw → n ≤ n' → N ≤ N' → run_inv n' N' pw.
Proof. intros (Hp & Hn & HR) ??. split; [done|]. split; [lia | by eapply R_mono]. Qed.

Lemma do_action_inv p w a ch n N : run_inv n N (p, w) → 0 ≤ n → n + separator ch ≤ 15 → N + line_feed ch ≤ L →
  sat F (_do_action callback p w a ch) (λ pw,
    run_inv (n + separator ch) (N + line_feed ch) pw ∧ (a = VT_PARSE_ACTION_CLEAR → num_params pw.1 = 0)).
Proof.
  intros (Hp & Hn & HR) Hn0 Hs HL. cbn in Hp, Hn, HR.
  assert (0 ≤ separator ch) by (unfold separator; destruct (ch =? 59); lia).
  assert (0 ≤ line_feed ch) by (unfold line_feed; destruct ((ch =? 10) || (ch =? 11)); lia).
  assert (R (N + line_feed ch) w) as HR' by (eapply R_mono; [done | lia]).
  assert (∀ o (Q : vt_parse_t → Prop), yields o Q →
    (∀ q, Q q → vt_wf q ∧ num_params q ≤ n + separator ch + 1 ∧ (a = VT_PARSE_ACTION_CLEAR → num_params q = 0)) →
    sat F (q ← o; Ok (q, w)) (λ pw, run_inv (n + separator ch) (N + line_feed ch) pw ∧ (a = VT_PARSE_ACTION_CLEAR → num_params pw.1 = 0)))
    as Hparser.
  { intros o Q Ho HQ. apply sat_bind, sat_yields. eapply yields_mono; [done|]. intros q Hq.
    destruct (HQ q Hq) as (? & ? & ?). cbn. done. }
  destruct a; cbn [_do_action];
    try (apply sat_bind; eapply sat_mono; [by apply (callback_ok _ _ _ N)|]; intros w' Hw'; cbn; split; [split; [done|]; cbn; split; [lia | done] | done]).
  - eapply Hparser; [by apply action_clear_wf|]. intros q [? ->]. split; [done|]. split; [lia | done].
  - eapply Hparser; [by apply action_collect_wf|]. intros q [? ->]. split; [done|]. split; [lia | done].
  - eapply Hparser; [by eapply action_param_wf|]. intros q [? ?]. done.
Qed.

Lemma do_action_if_inv p w a ch n N : run_inv n N (p, w) → 0 ≤ n → n + separator ch ≤ 15 → N + line_feed ch ≤ L →
  sat F (do_action_if callback p w a ch) (λ pw,
    run_inv (n + separator ch) (N + line_feed ch) pw ∧ (a = VT_PARSE_ACTION_CLEAR → num_params pw.1 = 0)).
Proof.
  intros Hi Hn Hs HL. unfold do_action_if. destruct (testz (action_value a)) eqn:E; [by apply do_action_inv|].
  cbn. split; [|by destruct a].
  eapply run_inv_mono; [done | |]; unfold separator, line_feed; repeat case_match; lia.
Qed.

Lemma state_change_inv p w sc s' a ch n N : STATE sc = Ok s' → ACTION sc = Ok a →
  run_inv n N (p, w) → 0 ≤ n → n + separator ch ≤ 15 → N + line_feed ch ≤ L →
  sat F (_do_state_change callback p w sc ch) (λ pw, run_inv (n + separator ch) (N + line_feed ch) pw ∧
    (s' = VT_PARSE_STATE_ESCAPE → num_params pw.1 = 0)).
Proof.
  intros Es Ea Hi Hn Hs HL. unfold _do_state_change. rewrite Es, Ea. cbn [mbind outcome_bind].
  destruct (testz (state_value s')) eqn:E.
  2:{ eapply sat_mono; [by apply do_action_inv|]. intros pw [Hpw _]. split; [done|]. by intros ->. }
  assert (0 ≤ separator ch) by (unfold separator; destruct (ch =? 59); lia).
  assert (0 ≤ line_feed ch) by (unfold line_feed; destruct ((ch =? 10) || (ch =? 11)); lia).
  apply sat_bind. eapply sat_mono; [apply (do_action_if_inv _ _ _ 0 n N); [done..|cbn; lia | cbn; lia]|].
  intros [p1 w1] [H1 _]. cbn [separator line_feed Z.eqb orb] in H1. rewrite !Z.add_0_r in H1.
  apply sat_bind. eapply sat_mono; [by apply (do_action_if_inv _ _ _ ch n N)|].
  intros [p2 w2] [H2 _]. apply sat_bind.
  eapply sat_mono; [apply (do_action_if_inv _ _ _ 0 (n + separator ch) (N + line_feed ch)); [done | lia | cbn; lia | cbn; lia]|].
  intros [p3 w3] [H3 Hz]. cbn [separator line_feed Z.eqb orb] in H3. rewrite !Z.add_0_r in H3.
  cbn. split; [done|]. intros ->. by apply Hz.
Qed.

Lemma separators_char n ch : ch ≠ 27 → separators n ch = n + separator ch.
Proof. intros Hch. unfold separators, separator. destruct (Z.eqb_spec ch 27); [done|]. destruct (ch =? 59); lia. Qed.

Lemma i8_char ch c : in_u8 ch → 0 ≤ c < 128 → (i8 ch =? c) = (ch =? c).
Proof.
  intros Hch Hc. unfold wraps. change (8 - 1) with 7. change (2 ^ 7) with 128. change (2 ^ 8) with 256.
  destruct (Z.eqb_spec ch c), (Z.eqb_spec ((ch + 128) mod 256 - 128) c); try done; dlia.
Qed.

Lemma parse_byte_inv ch n N pw : in_u8 ch → run_inv n N pw → 0 ≤ n → separators n ch ≤ 15 → N + line_feed ch ≤ L →
  n ≤ 15 → sat F (vt_parse_byte callback ch pw) (run_inv (separators n ch) (N + line_feed ch)).
Proof.
  intros Hch Hi Hn Hs HL Hn15. destruct pw as [p w]. cbn [vt_parse_byte].
  pose proof (table_ok (vt_state p) ch Hch) as Ht. unfold entry_ok in Ht.
  destruct (STATE (vt_change (vt_state p) ch)) as [s'|] eqn:Es; [|done].
  destruct (ACTION (vt_change (vt_state p) ch)) as [a|] eqn:Ea; [|done].
  assert (separator (i8 ch) = separator ch) as E1 by (unfold separator; by rewrite i8_char by lia).
  assert (line_feed (i8 ch) = line_feed ch) as E2 by (unfold line_feed; by rewrite !i8_char by lia).
  eapply sat_mono; [eapply (state_change_inv p w _ s' a (i8 ch) n N); [done..| |by rewrite E2]|].
  - rewrite E1. destruct (Z.eq_dec ch 27) as [->|]; [cbn; lia|]. by rewrite <- separators_char.
  - rewrite E1, E2. intros [p' w'] [Hi' H0]. destruct (Z.eqb_spec ch 27) as [->|].
    + apply bool_decide_eq_true in Ht as [-> _]. destruct Hi' as (? & _ & ?). split; [done|].
      split; [|done]. rewrite (H0 eq_refl). cbn. lia.
    + by rewrite separators_char.
Qed.

(** The bytes of the text from [i] on. *)
Definition text_from (m : mem) (data i len : Z) : list Z := (λ i, load8 m (data + i)) <$> seqZ i (len - i).

Lemma text_from_next m data i len : i < len → text_from m data i len = load8 m (data + i) :: text_from m data (i + 1) len.
Proof. intros Hi. unfold text_from. rewrite seqZ_cons by lia. cbn. by replace (Z.pred (len - i)) with (len - (i + 1)) by lia. Qed.

Lemma vt_parse_inv m p w data len n N : run_inv n N (p, w) → 0 ≤ n ≤ 15 → 0 ≤ len < 2 ^ 31 →
  separators_ok n (text_from m data 0 len) = true → N + line_feeds (text_from m data 0 len) ≤ L →
  sat F (_vt_parse callback m p w data len) (λ pw,
    vt_wf pw.1 ∧ R (N + line_feeds (text_from m data 0 len)) pw.2).
Proof.
  intros Hi Hn Hlen Hs HL. unfold _vt_parse. rewrite (wraps_small 32) by lia.
  set (total := N + line_feeds (text_from m data 0 len)) in *.
  eapply sat_mono; [apply (sat_for_up F (λ i pw, ∃ n N, run_inv n N pw ∧ 0 ≤ n ≤ 15 ∧
    separators_ok n (text_from m data i len) = true ∧ N + line_feeds (text_from m data i len) = total))|].
  - exists n, N. done.
  - intros j pw Hj (n' & N' & Hi' & Hn' & Hs' & HL'). rewrite text_from_next in Hs', HL' by lia.
    cbn [separators_ok line_feeds] in Hs', HL'. apply andb_prop in Hs' as [H15 Hs']. apply Z.leb_le in H15.
    pose proof (line_feeds_nonneg (text_from m data (j + 1) len)).
    eapply sat_mono; [apply (parse_byte_inv _ n' N'); [apply load8_range | done | lia | lia | lia | lia]|].
    intros pw' Hpw'. exists (separators n' (load8 m (data + j))), (N' + line_feed (load8 m (data + j))).
    split; [done|]. split; [unfold separators in *; repeat case_match; lia|]. split; [done | lia].
  - intros pw (n' & N' & (Hp & _ & HR) & _ & _ & HL'). split; [done|].
    unfold text_from in HL'. rewrite seqZ_nil in HL' by lia. cbn in HL'. by replace N' with total in HR by lia.
Qed.

End Run.

(** ** The device

    What the console relies on: the functions of the device work on the cells
    of a screen of [C] columns and [L] lines, whatever happened before. *)
Class ConsDevice {D : Type} (o : cons_ops_t D) (C L : Z) (Inv : D → Prop) : Prop := {
  device_clear : ∃ f, op_clear o = Some f ∧ ∀ d, Inv d → yields (f d) Inv;
  device_area_clear : ∃ f, op_area_clear o = Some f ∧ ∀ c0 c1 r0 r1 d,
    0 ≤ c0 ≤ c1 → c1 ≤ C → 0 ≤ r0 ≤ r1 → r1 ≤ L → Inv d → yields (f c0 c1 r0 r1 d) Inv;
  device_line_clear : ∃ f, op_line_clear o = Some f ∧ ∀ r d, 0 ≤ r < L → Inv d → yields (f r d) Inv;
  device_line_partial_clear : ∀ f, op_line_partial_clear o = Some f → ∀ c0 c1 r d,
    0 ≤ c0 ≤ c1 → c1 ≤ C → 0 ≤ r < L → Inv d → yields (f c0 c1 r d) Inv;
  device_write : ∃ f, op_write o = Some f ∧ ∀ c r ch d,
    0 ≤ c < C → 0 ≤ r < L → in_u8 ch → Inv d → yields (f c r ch d) Inv;
}.

(** ** The cursor

    The rows and columns the cursor can have: a control sequence sets them to
    254 at most, and each of [N] line feeds moves it down by one; a cursor to the
    right of the screen is on a row it was set to. *)
Definition cursor_ok (C N col row : Z) : Prop :=
  0 ≤ N ∧ 0 ≤ col ≤ 254 ∧ 0 ≤ row ≤ 255 + N ∧ (C ≤ col → row ≤ 254 + N).

Definition cons_wf {D} (o : cons_ops_t D) (C L N : Z) (c : cons_t D) : Prop :=
  ops c = o ∧ cols c = C ∧ rows c = L ∧ cursor_ok C N (cursor_col c) (cursor_row c).

(** The largest number of line feeds that keeps the row in 16 bits. *)
Definition max_line_feeds : Z := 32512.

Section Callback.
Context {D : Type} (o : cons_ops_t D) (C L : Z) (Inv : D → Prop) `{!ConsDevice o C L Inv}.
Context (HC : CONS_COLS_MIN ≤ C ≤ CONS_COLS_MAX) (HL : CONS_ROWS_MIN ≤ L ≤ CONS_ROWS_MAX).
Implicit Types (c : cons_t D) (d : D).

(** The one fault of the console: a call through the pointer to
    [line_partial_clear] where it is null. *)
Definition missing_op (e : fault) : Prop := e = NullPointer ∧ op_line_partial_clear o = None.

Definition screen (N : Z) (w : cons_t D * D) : Prop := cons_wf o C L N w.1 ∧ Inv w.2.

Lemma screen_mono N N' w : screen N w → N ≤ N' → screen N' w.
Proof. intros [(? & ? & ? & Hc) ?] ?. split; [|done]. unfold cons_wf, cursor_ok in *. split_and!; try done; lia. Qed.

Lemma i16_u16 x y : i16 (x + u16 y) = i16 (x + y).
Proof.
  unfold wraps, wrapu. rewrite <- !Z.add_assoc, (Z.add_comm (y mod _)), !Z.add_assoc.
  rewrite Zplus_mod_idemp_r. f_equal. f_equal. lia.
Qed.

Lemma column_exceeded N c x : cons_wf o C L N c → -512 ≤ x ≤ 512 →
  _cursor_column_exceeded c x = negb ((0 <=? cursor_col c + x) && (cursor_col c + x <? C)).
Proof.
  intros (_ & <- & _ & Hc) Hx. unfold _cursor_column_exceeded, cursor_ok in *. rewrite wraps_small by lia.
  repeat case_cmp; (done || lia).
Qed.

Lemma row_exceeded N c y : cons_wf o C L N c → - 2 ^ 15 ≤ cursor_row c + y < 2 ^ 15 →
  _cursor_row_exceeded c y = negb ((0 <=? cursor_row c + y) && (cursor_row c + y <? L)).
Proof.
  intros (_ & _ & <- & Hc) Hy. unfold _cursor_row_exceeded, cursor_ok in *. rewrite i16_u16, wraps_small by lia.
  repeat case_cmp; (done || lia).
Qed.

Lemma set_cursor_wf N N' c col row : cons_wf o C L N c → cursor_ok C N' col row → cons_wf o C L N' (set_cursor c col row).
Proof. intros (? & ? & ? & _) ?. by split_and!. Qed.

Lemma set_cursor_twice c a b col row : set_cursor (set_cursor c a b) col row = set_cursor c col row.
Proof. done. Qed.

Lemma character_print_ok ch N c d : screen N (c, d) → N ≤ max_line_feeds →
  sat missing_op (_action_character_print ch c d) (screen N).
Proof.
  intros [Hc Hd] HN. cbn [fst snd] in Hc, Hd. unfold max_line_feeds in HN. unfold _action_character_print.
  rewrite (column_exceeded N) by (done || lia). rewrite Z.add_0_r.
  pose proof Hc as (Eo & Ec & El & Hcur). unfold cursor_ok, CONS_COLS_MIN, CONS_COLS_MAX in *.
  set (c' := if negb _ then _ else c).
  assert (cons_wf o C L N c' ∧ cursor_col c' < C) as [Hc' Hlt].
  { unfold c'. destruct (Z.leb_spec 0 (cursor_col c)), (Z.ltb_spec (cursor_col c) C); try lia; cbn [andb negb]; [done|].
    unfold _cursor_row_advance, _cursor_column_set. cbn. rewrite i16_u16, wraps_small, (wraps_small 16 (_ + 1)) by lia.
    split; [|lia]. apply (set_cursor_wf N); [apply (set_cursor_wf N); [done|]|]; unfold cursor_ok in *; lia. }
  clearbody c'. rewrite (row_exceeded N) by (done || (destruct Hc' as (_ & _ & _ & ?); unfold cursor_ok in *; lia)).
  rewrite Z.add_0_r. pose proof Hc' as (Eo' & _ & _ & Hcur'). unfold cursor_ok in Hcur'.
  destruct (Z.leb_spec 0 (cursor_row c')), (Z.ltb_spec (cursor_row c') L); cbn [andb negb]; try (by split).
  destruct device_write as (f & Ef & Hf). rewrite Eo', Ef. cbn [fn_ptr mbind outcome_bind].
  apply sat_bind, sat_yields. eapply yields_mono; [apply Hf; [lia | lia | apply (wrapu_range 8); lia | done]|].
  intros d' Hd'. split; [|done]. cbn [fst]. unfold _cursor_column_advance. rewrite wraps_small by lia.
  unfold CONS_ROWS_MAX in HL. eapply set_cursor_wf; [done|]. unfold cursor_ok. lia.
Qed.

(** Ends a run that only moved the cursor. *)
Ltac moved N := cbn [sat]; split; [cbn [fst]; unfold _cursor_row_advance, _cursor_row_set, _cursor_column_advance, _cursor_column_set; cbn;
    rewrite ?i16_u16, ?wraps_small by lia; rewrite ?set_cursor_twice;
    repeat match goal with |- cons_wf _ _ _ _ (set_cursor _ _ _) => apply (set_cursor_wf N) end;
    try done; unfold cursor_ok in *; lia | done].

Lemma escape_character_print_ok ch N c d : screen N (c, d) → N + line_feed ch ≤ max_line_feeds →
  sat missing_op (_action_escape_character_print ch c d) (screen (N + line_feed ch)).
Proof.
  intros Hs HN. pose proof Hs as [Hc Hd]. cbn [fst snd] in Hc, Hd.
  pose proof Hc as (_ & Ec & _ & Hcur). unfold cursor_ok, CONS_COLS_MIN, CONS_COLS_MAX, max_line_feeds in *.
  unfold _action_escape_character_print, line_feed in *.
  destruct (Z.eqb_spec ch 10) as [->|]; cbn [orb Z.eqb] in *; [moved N|].
  destruct (Z.eqb_spec ch 11) as [->|]; cbn [orb Z.eqb] in *; [moved N|]. rewrite Z.add_0_r in *.
  destruct (_ || _); [done|]. destruct (ch =? 8).
  { rewrite (column_exceeded N) by (done || lia). repeat case_cmp; cbn [andb negb]; try done. moved N. }
  destruct (ch =? 13); [moved N|]. destruct (ch =? 9); [|by apply character_print_ok].
  unfold CONS_TAB_WIDTH. rewrite (column_exceeded N) by (done || lia). rewrite (wraps_small 16 (cols c - _ - 1)) by lia.
  repeat case_cmp; cbn [andb negb]; try done; moved N.
Qed.

(** The amount [r] a control sequence moves the cursor by. *)
Ltac csi_amount p r :=
  destruct (num_params p =? 0); [done|]; apply sat_bind, sat_yields;
  let x := fresh "x" in let Hx := fresh "Hx" in
  eapply yields_mono; [apply (param_range p 0); [done | lia]|]; intros x Hx; cbv beta zeta in Hx |- *;
  set (r := if x =? 0 then 1 else x); assert (1 ≤ r ≤ 255) by (unfold r; case_cmp; lia); clearbody r.

Lemma csi_a_ok p N c d : vt_wf p → screen N (c, d) → N ≤ max_line_feeds →
  sat missing_op (_action_csi_a (params p) (num_params p) c d) (screen N).
Proof.
  intros Hp Hs HN. pose proof Hs as [Hc Hd]. cbn [fst snd] in Hc, Hd.
  pose proof Hc as (_ & _ & _ & Hcur). unfold cursor_ok, CONS_ROWS_MAX, max_line_feeds in *.
  unfold _action_csi_a. csi_amount p r.
  rewrite (row_exceeded N) by (done || lia).
  repeat case_cmp; cbn [andb negb yields]; moved N.
Qed.

Lemma csi_b_ok p N c d : vt_wf p → screen N (c, d) → N ≤ max_line_feeds →
  sat missing_op (_action_csi_b (params p) (num_params p) c d) (screen N).
Proof.
  intros Hp Hs HN. pose proof Hs as [Hc Hd]. cbn [fst snd] in Hc, Hd.
  pose proof Hc as (_ & _ & El & Hcur). unfold cursor_ok, CONS_ROWS_MIN, CONS_ROWS_MAX, max_line_feeds in *.
  unfold _action_csi_b. csi_amount p r.
  rewrite (wraps_small 16 (rows c - _ - 1)) by lia.
  destruct (Z_lt_dec (cursor_row c + r) (2 ^ 15)).
  - rewrite (row_exceeded N) by (done || lia). repeat case_cmp; cbn [andb negb yields]; moved N.
  - replace (_cursor_row_exceeded c r) with true; [moved N|].
    unfold _cursor_row_exceeded. rewrite i16_u16. unfold wraps. change (16 - 1) with 15.
    assert ((cursor_row c + r + 2 ^ 15) mod 2 ^ 16 = cursor_row c + r + 2 ^ 15 - 2 ^ 16) as ->
      by (symmetry; apply (Z.mod_unique_pos _ _ 1); lia).
    destruct (Z.ltb_spec (cursor_row c + r + 2 ^ 15 - 2 ^ 16 - 2 ^ 15) 0); [done | lia].
Qed.

Lemma csi_c_ok p N c d : vt_wf p → screen N (c, d) → N ≤ max_line_feeds →
  sat missing_op (_action_csi_c (params p) (num_params p) c d) (screen N).
Proof.
  intros Hp Hs HN. pose proof Hs as [Hc Hd]. cbn [fst snd] in Hc, Hd.
  pose proof Hc as (_ & Ec & _ & Hcur). unfold cursor_ok, CONS_COLS_MIN, CONS_COLS_MAX, max_line_feeds in *.
  unfold _action_csi_c. csi_amount p r.
  rewrite (column_exceeded N), (wraps_small 16 (cols c - _ - 1)) by (done || lia).
  repeat case_cmp; cbn [andb negb yields]; moved N.
Qed.

Lemma csi_d_ok p N c d : vt_wf p → screen N (c, d) → N ≤ max_line_feeds →
  sat missing_op (_action_csi_d (params p) (num_params p) c d) (screen N).
Proof.
  intros Hp Hs HN. pose proof Hs as [Hc Hd]. cbn [fst snd] in Hc, Hd.
  pose proof Hc as (_ & Ec & _ & Hcur). unfold cursor_ok, CONS_COLS_MIN, CONS_COLS_MAX, max_line_feeds in *.
  unfold _action_csi_d. csi_amount p r.
  rewrite (column_exceeded N) by (done || lia).
  repeat case_cmp; cbn [andb negb yields]; moved N.
Qed.

Lemma csi_h_ok p N c d : vt_wf p → screen N (c, d) → N ≤ max_line_feeds →
  sat missing_op (_action_csi_h (params p) (num_params p) c d) (screen N).
Proof.
  intros Hp Hs HN. pose proof Hs as [Hc Hd]. cbn [fst snd] in Hc, Hd.
  pose proof Hc as (_ & _ & _ & Hcur). unfold cursor_ok, max_line_feeds in *.
  unfold _action_csi_h. destruct (num_params p =? 0); [moved N|]. destruct (_ || _); [done|].
  apply sat_bind, sat_yields. eapply yields_mono; [apply (param_range p 1); [done | lia]|]. intros x Hx. cbv beta zeta in *.
  apply sat_bind, sat_yields. eapply yields_mono; [apply (param_range p 0); [done | lia]|]. intros y Hy. cbv beta zeta in *.
  repeat case_cmp; moved N.
Qed.

Lemma number_ok p : vt_wf p → yields (csi_number (params p) (num_params p)) (λ x, in_u8 x).
Proof. intros Hp. unfold csi_number. destruct (_ <? _); [apply param_range; [done | lia] | cbn; lia]. Qed.

(** A call of a function of the device that leaves the cursor alone. *)
Lemma device_call N c (o' : outcome D) : cons_wf o C L N c → yields o' Inv →
  sat missing_op (d ← o'; Ok (c, d)) (screen N).
Proof. intros Hc Ho. apply sat_bind, sat_yields. eapply yields_mono; [done|]. by intros d'. Qed.

Lemma csi_j_ok p N c d : vt_wf p → screen N (c, d) → N ≤ max_line_feeds →
  sat missing_op (_action_csi_j (params p) (num_params p) c d) (screen N).
Proof.
  intros Hp Hs HN. pose proof Hs as [Hc Hd]. cbn [fst snd] in Hc, Hd.
  pose proof Hc as (Eo & Ec & El & Hcur). unfold cursor_ok, max_line_feeds in *.
  unfold _action_csi_j. apply sat_bind, sat_yields. eapply yields_mono; [by apply number_ok|]. intros number _.
  rewrite Eo, Ec, El.
  assert (sat missing_op (clear ← fn_ptr (op_clear o); d ← clear d; Ok (c, d)) (screen N)) as Hclear.
  { destruct device_clear as (f & -> & Hf). apply device_call; [done | by apply Hf]. }
  assert (∀ x0 x1 y0 y1, 0 ≤ x0 ≤ x1 → x1 ≤ C → 0 ≤ y0 ≤ y1 → y1 ≤ L →
    sat missing_op (area_clear ← fn_ptr (op_area_clear o); d ← area_clear x0 x1 y0 y1 d; Ok (c, d)) (screen N)) as Harea.
  { intros. destruct device_area_clear as (f & -> & Hf). apply device_call; [done | by apply Hf]. }
  destruct (number =? 0); [|destruct (number =? 1); [|by destruct (number =? 2)]].
  - destruct (_ && _); [done|]. repeat case_cmp; cbn [orb]; try done. apply Harea; lia.
  - destruct (_ || _); [done|]. rewrite (column_exceeded N), (row_exceeded N) by (done || lia). rewrite !Z.add_0_r.
    repeat case_cmp; cbn [andb negb]; apply Harea; unfold CONS_COLS_MIN, CONS_ROWS_MIN in *; lia.
Qed.

Lemma csi_k_ok p N c d : vt_wf p → screen N (c, d) → N ≤ max_line_feeds →
  sat missing_op (_action_csi_k (params p) (num_params p) c d) (screen N).
Proof.
  intros Hp Hs HN. pose proof Hs as [Hc Hd]. cbn [fst snd] in Hc, Hd.
  pose proof Hc as (Eo & Ec & El & Hcur). unfold cursor_ok, max_line_feeds in *. unfold _action_csi_k.
  rewrite (row_exceeded N) by (done || lia). rewrite Z.add_0_r.
  destruct (Z.leb_spec 0 (cursor_row c)), (Z.ltb_spec (cursor_row c) L); cbn [andb negb]; try (by split).
  apply sat_bind, sat_yields. eapply yields_mono; [by apply number_ok|]. intros number _. rewrite Eo, Ec.
  assert (sat missing_op (line_clear ← fn_ptr (op_line_clear o); d ← line_clear (cursor_row c) d; Ok (c, d)) (screen N)) as Hline.
  { destruct device_line_clear as (f & -> & Hf). apply device_call; [done | by apply Hf]. }
  assert (∀ x0 x1, 0 ≤ x0 ≤ x1 → x1 ≤ C →
    sat missing_op (partial ← fn_ptr (op_line_partial_clear o); d ← partial x0 x1 (cursor_row c) d; Ok (c, d)) (screen N)) as Hpartial.
  { intros. destruct (op_line_partial_clear o) as [f|] eqn:Ef; [|by split].
    apply device_call; [done|]. by eapply device_line_partial_clear. }
  cbv zeta. destruct (number =? 0); [|destruct (number =? 1); [|by destruct (number =? 2)]].
  - repeat case_cmp; try done. apply Hpartial; lia.
  - destruct (_ =? 0); [done|]. rewrite (column_exceeded N) by (done || lia). rewrite Z.add_0_r.
    repeat case_cmp; cbn [andb negb]; apply Hpartial; unfold CONS_COLS_MIN in *; lia.
Qed.

Lemma parser_callback_ok p a ch N w : vt_wf p → screen N w → N + line_feed ch ≤ max_line_feeds →
  sat missing_op (_vt_parser_callback p a ch w) (screen (N + line_feed ch)).
Proof.
  intros Hp Hs HN. destruct w as [c d].
  assert (0 ≤ line_feed ch) by (unfold line_feed; destruct (_ || _); lia).
  assert (screen (N + line_feed ch) (c, d)) as Hs' by (eapply screen_mono; [done | lia]).
  destruct a; cbn [_vt_parser_callback]; try done;
    first [by apply character_print_ok | by apply escape_character_print_ok | idtac].
  unfold _action_csi_dispatch_print.
  destruct (_ =? 65); [by apply csi_a_ok|]. destruct (_ =? 66); [by apply csi_b_ok|].
  destruct (_ =? 67); [by apply csi_c_ok|]. destruct (_ =? 68); [by apply csi_d_ok|].
  destruct (_ =? 72); [by apply csi_h_ok|]. destruct (_ =? 74); [by apply csi_j_ok|].
  destruct (_ =? 75); [by apply csi_k_ok | done].
Qed.

(** The state of a console between two calls: [N] counts line feeds. *)
Definition console_wf (N : Z) (s : console D) : Prop :=
  screen N (con s, con_dev s) ∧ vt_wf (con_parser s).

(** The separators a sequence already has when a call begins. *)
Definition pending (s : console D) : Z := Z.max 0 (num_params (con_parser s) - 1).

Lemma cons_buffer_ok fuel m buffer len s N : console_wf N s →
  buffer ≠ 0 → strlen fuel m buffer = Ok len → 0 ≤ len < 2 ^ 31 →
  separators_ok (pending s) (text_from m buffer 0 len) = true →
  N + line_feeds (text_from m buffer 0 len) ≤ max_line_feeds →
  sat missing_op (cons_buffer fuel m buffer s) (console_wf (N + line_feeds (text_from m buffer 0 len))).
Proof.
  intros [Hs Hp] Hb Hlen Hr Hsep HN. pose proof Hp as (_ & _ & _ & _ & Hn).
  assert (console_wf (N + line_feeds (text_from m buffer 0 len)) s) as Hs'.
  { split; [|done]. eapply screen_mono; [done|]. pose proof (line_feeds_nonneg (text_from m buffer 0 len)). lia. }
  unfold cons_buffer, check. rewrite (proj2 (testz_true buffer)) by done. cbn [mbind outcome_bind].
  destruct (load8 m buffer =? 0); [done|]. rewrite Hlen. cbn [mbind outcome_bind].
  destruct (len =? 0); [done|]. apply sat_bind. eapply sat_mono.
  - apply (vt_parse_inv _ missing_op screen max_line_feeds) with (n := pending s) (N := N); try done.
    + apply screen_mono.
    + intros. by apply parser_callback_ok.
    + split; [done|]. split; [unfold pending; cbn; lia | done].
    + unfold pending. lia.
  - intros [p [c d]] [Hwf Hw]. done.
Qed.

End Callback.
