(* ===== verification/Vdp2Dev.v ===== *)
(** The console's device on the VDP2 (kernel/dbgio/devices/vdp2.c): a buffer of
    pattern names, one 16-bit word per character cell, in pages 64 cells wide.
    The functions of [_cons_ops] and of the device work on [_dev_state], a pointer
    that is null before the device is set up.  [fetch16 a] is the word the CPU's
    DMA controller reads at the address [a]; the mode of the colour RAM is an
    argument where the code reads it from the hardware. *)

From S2P Require Import Prelude Bits Memory CStr VtParse Cons.

Definition STATE_INITIALIZED : Z := 1.
Definition STATE_BUFFER_DIRTY : Z := 2.
Definition STATE_BUFFER_CLEARED : Z := 4.
Definition STATE_BUFFER_FLUSHING : Z := 8.
Definition STATE_BUFFER_FORCE_FLUSHING : Z := 16.

Record dev_state := mk_dev_state {
  dev_flags : Z;
  cp_table : Z;
  color_palette : Z;
  page_base : Z;
  page_pnd : option (list Z);
  page_size : Z;
  page_width : Z;
  page_height : Z;
  cram_mode : Z;
  pnd_value : Z;
  pnd_value_clear : Z;
}.

Definition set_flags (f : Z) (s : dev_state) : dev_state :=
  mk_dev_state f (cp_table s) (color_palette s) (page_base s) (page_pnd s) (page_size s) (page_width s)
    (page_height s) (cram_mode s) (pnd_value s) (pnd_value_clear s).
Definition set_pnd (l : list Z) (s : dev_state) : dev_state :=
  mk_dev_state (dev_flags s) (cp_table s) (color_palette s) (page_base s) (Some l) (page_size s) (page_width s)
    (page_height s) (cram_mode s) (pnd_value s) (pnd_value_clear s).
Definition set_pnd_values (mode v vc : Z) (s : dev_state) : dev_state :=
  mk_dev_state (dev_flags s) (cp_table s) (color_palette s) (page_base s) (page_pnd s) (page_size s) (page_width s)
    (page_height s) mode v vc.

(** [_dev_state], a pointer. *)
Definition dev : Type := option dev_state.

Definition deref {A} (p : option A) : outcome A :=
  match p with Some a => Ok a | None => Fault NullPointer end.

(** ** Pattern names (vdp2/scrn_macros.h) *)

Definition VDP2_SCRN_CALCULATE_PAGE_WIDTH_M (chsz : Z) : Z := if chsz =? 1 * 1 then 64 else 32.
Definition VDP2_SCRN_CALCULATE_PAGE_HEIGHT_M (chsz : Z) : Z := if chsz =? 1 * 1 then 64 else 32.
Definition VDP2_SCRN_CALCULATE_PAGE_DIMENSION_M (chsz : Z) : Z := if chsz =? 1 * 1 then 64 * 64 else 32 * 32.
Definition VDP2_SCRN_CALCULATE_PAGE_SIZE_M (chsz pndsz : Z) : Z :=
  VDP2_SCRN_CALCULATE_PAGE_DIMENSION_M chsz * (pndsz * 2).

Definition VDP2_SCRN_PND_CP_NUM (address : Z) : Z := Z.shiftr (u32 address) 5.
Definition VDP2_SCRN_PND_MODE_0_PAL_NUM (cram_address : Z) : Z := Z.land (Z.shiftr (u32 cram_address) 5) 127.
Definition VDP2_SCRN_PND_MODE_2_PAL_NUM (cram_address : Z) : Z := Z.land (Z.shiftr (u32 cram_address) 6) 127.

(** The number of the palette depends on the mode: [pal_num]. *)
Definition VDP2_SCRN_PND_CONFIG_0 (pal_num cpd_addr vf hf : Z) : Z :=
  Z.lor (Z.lor (Z.lor (Z.shiftl (Z.land pal_num 15) 12) (Z.shiftl (Z.land vf 1) 11)) (Z.shiftl (Z.land hf 1) 10))
    (Z.land (VDP2_SCRN_PND_CP_NUM cpd_addr) 4095).

(** ** The buffer *)

Definition _pnd_write (col row value : Z) (d : dev) : outcome dev :=
  s ← deref d;
  let offset := i16 (col + row * page_width s) in
  pnd ← deref (page_pnd s);
  pnd ← arr_set pnd offset value;
  Ok (Some (set_pnd pnd s)).

Definition _pnd_clear (col row : Z) (d : dev) : outcome dev :=
  s ← deref d;
  _pnd_write col row (pnd_value_clear s) d.

Definition pnd_update_word (pnd_value : Z) (i : Z) (pnd : list Z) : outcome (list Z) :=
  x ← arr_get pnd i;
  pnd ← arr_set pnd i (Z.land x 4095);
  x ← arr_get pnd i;
  arr_set pnd i (Z.lor x pnd_value).

Definition _pnd_values_update (force : bool) (mode : Z) (d : dev) : outcome dev :=
  s ← deref d;
  if negb force && negb (cram_mode s =? mode) then Ok d else
  let pal_num := if mode =? 2 then VDP2_SCRN_PND_MODE_2_PAL_NUM (color_palette s)
                 else VDP2_SCRN_PND_MODE_0_PAL_NUM (color_palette s) in
  let pnd_value := u16 (VDP2_SCRN_PND_CONFIG_0 pal_num (cp_table s) 0 0) in
  let s := set_pnd_values mode pnd_value pnd_value s in
  pnd ← deref (page_pnd s);
  pnd ← for_up (Z.to_nat (page_size s)) 0 (pnd_update_word pnd_value) pnd;
  Ok (Some (set_pnd pnd s)).

(** Sets and clears flags of the device. *)
Definition or_flags (f : Z) (s : dev_state) : dev_state := set_flags (Z.lor (dev_flags s) f) s.
Definition clear_flags (f : Z) (s : dev_state) : dev_state := set_flags (Z.land (dev_flags s) (u8 (Z.lnot f))) s.

Definition VDP2_VRAM_ADDR (bank offset : Z) : Z := u32 (635437056 + Z.shiftl bank 17 + offset).
Definition VDP2_CRAM_ADDR (address : Z) : Z := u32 (636485632 + Z.shiftl address 1).

(** The state [_dev_state_init] allocates and clears. *)
Definition dev_state_zero : dev_state := mk_dev_state 0 0 0 0 None 0 0 0 0 0 0.

(** The parameters of [dbgio_vdp2_t] are given; [page] is the block the allocator
    returns for the page.  The buffers of the font are not in the model. *)
Definition _dev_state_init (mode pnd_bank map_index cpd_bank cpd_offset cram_index : Z) (page : list Z) (d : dev) : outcome dev :=
  let s := match d with Some s => s | None => dev_state_zero end in
  if negb (Z.land (dev_flags s) STATE_INITIALIZED =? 0) then Ok (Some s) else
  let size := u16 (VDP2_SCRN_CALCULATE_PAGE_SIZE_M (1 * 1) 1) in
  let width := VDP2_SCRN_CALCULATE_PAGE_WIDTH_M (1 * 1) in
  let height := VDP2_SCRN_CALCULATE_PAGE_HEIGHT_M (1 * 1) in
  let base := VDP2_VRAM_ADDR pnd_bank (map_index * size) in
  let cp := VDP2_VRAM_ADDR cpd_bank cpd_offset in
  let pal := VDP2_CRAM_ADDR (Z.shiftl cram_index 3) in
  let size := Z.shiftr size 1 in
  let s := mk_dev_state (dev_flags s) cp pal base (page_pnd s) size width height (cram_mode s) (pnd_value s) (pnd_value_clear s) in
  d ← _pnd_values_update true mode (Some s);
  s ← deref d;
  Ok (Some (match page_pnd s with Some _ => s | None => set_pnd page s end)).

Section Device.
Variable fetch16 : Z → Z.

(** A transfer of the DMA controller from a fixed address: the words from
    [&page_pnd[0]] on, [len] bytes, are what it reads there. *)
Definition dmac_fill (src len : Z) (pnd : list Z) : outcome (list Z) :=
  for_up (Z.to_nat (Z.shiftr len 1)) 0 (λ i pnd, arr_set pnd i (fetch16 src)) pnd.

Definition _buffer_clear (d : dev) : outcome dev :=
  s ← deref d;
  if Z.land (dev_flags s) STATE_BUFFER_CLEARED =? STATE_BUFFER_CLEARED then Ok d else
  let s := or_flags STATE_BUFFER_DIRTY s in
  pnd ← deref (page_pnd s);
  pnd ← dmac_fill (pnd_value_clear s) (page_size s) pnd;
  Ok (Some (or_flags STATE_BUFFER_CLEARED (set_pnd pnd s))).

(** [for (col = col_start; col < col_end; col++) _pnd_clear(col, row)] *)
Definition clear_cells (col_start col_end row : Z) (d : dev) : outcome dev :=
  for_up (Z.to_nat (col_end - col_start)) col_start (λ col, _pnd_clear col row) d.

Definition _buffer_area_clear (col_start col_end row_start row_end : Z) (d : dev) : outcome dev :=
  s ← deref d;
  for_up (Z.to_nat (row_end - row_start)) row_start (λ row, clear_cells col_start col_end row)
    (Some (or_flags STATE_BUFFER_DIRTY s)).

Definition _buffer_line_clear (row : Z) (d : dev) : outcome dev :=
  s ← deref d;
  clear_cells 0 (page_width s) row (Some (or_flags STATE_BUFFER_DIRTY s)).

Definition _buffer_line_partial_clear (col_start col_end row : Z) (d : dev) : outcome dev :=
  s ← deref d;
  clear_cells col_start col_end row (Some (or_flags STATE_BUFFER_DIRTY s)).

Definition _buffer_write (col row ch : Z) (d : dev) : outcome dev :=
  s ← deref d;
  let s := clear_flags STATE_BUFFER_CLEARED (or_flags STATE_BUFFER_DIRTY s) in
  let v := Z.lor (Z.land (pnd_value s) 61440) ch in
  let s := set_pnd_values (cram_mode s) v (pnd_value_clear s) s in
  _pnd_write col row (pnd_value s) (Some s).

Definition _cons_ops : cons_ops_t dev :=
  mk_cons_ops (Some _buffer_clear) (Some _buffer_area_clear) (Some _buffer_line_clear)
    (Some _buffer_line_partial_clear) (Some _buffer_write).

(** ** The device *)

Definition _shared_puts (fuel : nat) (m : mem) (buffer : Z) (s : console dev) : outcome (console dev) :=
  match con_dev s with
  | None => Ok s
  | Some st =>
      if Z.land (dev_flags st) STATE_INITIALIZED =? 0 then Ok s else
      let state_mask := Z.lor STATE_BUFFER_FLUSHING STATE_BUFFER_FORCE_FLUSHING in
      if Z.land (dev_flags st) state_mask =? STATE_BUFFER_FLUSHING then Ok s else
      cons_buffer fuel m buffer s
  end.

(** The part of [_scroll_screen_reset] that works on the buffer; the rest sets
    registers of the VDP2. *)
Definition _scroll_screen_reset (mode : Z) (d : dev) : outcome dev := _pnd_values_update false mode d.

(** The words the flush copies to [page_base], if it does, and the device after it. *)
Definition _simple_flush (mode : Z) (d : dev) : outcome (dev * option (list Z)) :=
  match d with
  | None => Ok (d, None)
  | Some st =>
      if Z.land (dev_flags st) STATE_INITIALIZED =? 0 then Ok (d, None) else
      if negb (Z.land (dev_flags st) STATE_BUFFER_DIRTY =? STATE_BUFFER_DIRTY) then Ok (d, None) else
      d ← _scroll_screen_reset mode (Some (or_flags STATE_BUFFER_FLUSHING st));
      st ← deref d;
      pnd ← deref (page_pnd st);
      let state_mask := Z.lor (Z.lor STATE_BUFFER_DIRTY STATE_BUFFER_FLUSHING) STATE_BUFFER_FORCE_FLUSHING in
      Ok (Some (or_flags STATE_INITIALIZED (clear_flags state_mask st)),
          Some (take (Z.to_nat (Z.shiftr (page_size st) 1)) pnd))
  end.

End Device.

(** ** The font *)

Definition FONT_1BPP_CPD_SIZE : Z := 2048.
Definition FONT_4BPP_CPD_SIZE : Z := 8192.

Definition _1bpp_4bpp_convert (byte : Z) (fgbg : list Z) : outcome Z :=
  let ubyte := Z.land (Z.shiftr byte 1) 1 in
  let lbyte := Z.land byte 1 in
  l ← arr_get fgbg lbyte;
  u ← arr_get fgbg ubyte;
  Ok (u8 (Z.lor (Z.shiftl l 4) u)).

Definition decompress_byte (cmp_cpd fgbg : list Z) (i : Z) (dec_cpd : list Z) : outcome (list Z) :=
  let j := 4 * i in
  cpd ← arr_get cmp_cpd i;
  x ← _1bpp_4bpp_convert cpd fgbg; dec_cpd ← arr_set dec_cpd (j + 0) x;
  let cpd := Z.shiftr cpd 2 in
  x ← _1bpp_4bpp_convert cpd fgbg; dec_cpd ← arr_set dec_cpd (j + 1) x;
  let cpd := Z.shiftr cpd 2 in
  x ← _1bpp_4bpp_convert cpd fgbg; dec_cpd ← arr_set dec_cpd (j + 2) x;
  let cpd := Z.shiftr cpd 2 in
  x ← _1bpp_4bpp_convert cpd fgbg; arr_set dec_cpd (j + 3) x.

(** The arrays are given; the alignment of the font in memory is not in it. *)
Definition _font_1bpp_4bpp_decompress (dec_cpd cmp_cpd : list Z) (fg bg : Z) : outcome (list Z) :=
  let fgbg := [Z.land bg 15; Z.land fg 15] in
  for_up (Z.to_nat FONT_1BPP_CPD_SIZE) 0 (decompress_byte cmp_cpd fgbg) dec_cpd.
