(* ===== verification/Vdp2Proof.v ===== *)
(** The VDP2 device meets the interface of the console, so no text writes
    outside its buffer; plain text appears in the cells it should; and the
    update of the pattern names runs past the end of the buffer. *)

From S2P Require Import Prelude Bits Memory MemCopyProof CStr CStrProof VtParse Cons ConsProof Vdp2Dev.
Import Search.

(** ** The device *)

(** A device with its page of 64 by 32 cells. *)
Definition dev_wf (d : dev) : Prop :=
  ∃ s pnd, d = Some s ∧ page_pnd s = Some pnd ∧ length pnd = 2048%nat ∧ page_width s = 64 ∧ page_size s = 4096.

(** The cell of a column and a row. *)
Definition cell (col row : Z) : nat := Z.to_nat (col + row * 64).

Lemma pnd_write_Ok s pnd col row v : page_pnd s = Some pnd → length pnd = 2048%nat → page_width s = 64 →
  0 ≤ col < 64 → 0 ≤ row < 32 →
  _pnd_write col row v (Some s) = Ok (Some (set_pnd (<[cell col row := v]> pnd) s)).
Proof.
  intros Ep El Ew Hc Hr. unfold _pnd_write, deref. cbn [mbind outcome_bind]. rewrite Ep, Ew.
  rewrite wraps_small by lia. cbn [mbind outcome_bind]. rewrite arr_set_in_range by lia. done.
Qed.

Lemma pnd_write_wf col row v d : 0 ≤ col < 64 → 0 ≤ row < 32 → dev_wf d → yields (_pnd_write col row v d) dev_wf.
Proof.
  intros Hc Hr (s & pnd & -> & Ep & El & Ew & Es). rewrite (pnd_write_Ok s pnd) by done.
  eexists _, _. split; [done|]. split; [done|]. cbn. by rewrite length_insert.
Qed.

Lemma pnd_clear_wf col row d : 0 ≤ col < 64 → 0 ≤ row < 32 → dev_wf d → yields (_pnd_clear col row d) dev_wf.
Proof.
  intros Hc Hr Hd. pose proof Hd as (s & pnd & -> & _). unfold _pnd_clear. cbn [deref mbind outcome_bind].
  by apply pnd_write_wf.
Qed.

Lemma or_flags_wf f s : dev_wf (Some s) → dev_wf (Some (or_flags f s)).
Proof. intros (s' & pnd & [= <-] & ? & ? & ? & ?). by eexists _, pnd. Qed.

Lemma clear_cells_wf c0 c1 row d : 0 ≤ c0 ≤ c1 → c1 ≤ 64 → 0 ≤ row < 32 → dev_wf d →
  yields (clear_cells c0 c1 row d) dev_wf.
Proof.
  intros Hc Hc1 Hr Hd. apply (for_up_inv (λ _, dev_wf)); [done|]. intros j d' Hj Hd'. apply pnd_clear_wf; [lia | done..].
Qed.

Lemma dmac_fill_spec fetch16 src len pnd : 0 ≤ Z.shiftr len 1 ≤ Z.of_nat (length pnd) →
  dmac_fill fetch16 src len pnd =
    Ok (replicate (Z.to_nat (Z.shiftr len 1)) (fetch16 src) ++ drop (Z.to_nat (Z.shiftr len 1)) pnd).
Proof.
  intros Hl. apply yields_eq. unfold dmac_fill. set (n := Z.to_nat (Z.shiftr len 1)).
  eapply yields_mono; [apply (for_up_inv (λ i l, l = replicate (Z.to_nat i) (fetch16 src) ++ drop (Z.to_nat i) pnd))|].
  - by rewrite drop_0.
  - intros j l Hj ->. rewrite arr_set_in_range by (rewrite length_app, length_replicate, length_drop; lia).
    cbn [yields]. rewrite insert_app_r_alt by (rewrite length_replicate; lia).
    rewrite length_replicate, Nat.sub_diag. replace (Z.to_nat (j + 1)) with (S (Z.to_nat j)) by lia.
    destruct (lookup_lt_is_Some_2 pnd (Z.to_nat j)) as [x Hx]; [lia|]. rewrite (drop_S _ _ _ Hx).
    cbn [insert list_insert]. rewrite replicate_S_end, <- app_assoc. done.
  - intros l ->. by rewrite Z.add_0_l, Nat2Z.id.
Qed.

Lemma buffer_clear_wf fetch16 d : dev_wf d → yields (_buffer_clear fetch16 d) dev_wf.
Proof.
  intros Hd. pose proof Hd as (s & pnd & -> & Ep & El & Ew & Es). unfold _buffer_clear.
  cbn [deref mbind outcome_bind]. destruct (_ =? _); [done|]. cbn [or_flags page_pnd set_flags]. rewrite Ep.
  cbn [deref mbind outcome_bind]. cbn [or_flags page_size set_flags]. rewrite Es.
  rewrite dmac_fill_spec by (rewrite El; vm_compute; done). change (Z.to_nat (Z.shiftr 4096 1)) with 2048%nat.
  cbn [mbind outcome_bind yields].
  apply or_flags_wf. eexists _, _. split; [done|]. split; [done|].
  rewrite length_app, length_replicate, length_drop. cbn. split_and!; [lia | done | done].
Qed.

(** The functions [cons_init] installs; [line_partial_clear] may be missing. *)
Definition installed (fetch16 : Z → Z) (partial : bool) : cons_ops_t dev :=
  mk_cons_ops (Some (_buffer_clear fetch16)) (Some _buffer_area_clear) (Some _buffer_line_clear)
    (if partial then Some _buffer_line_partial_clear else None) (Some _buffer_write).

#[global] Instance vdp2_device fetch16 partial : ConsDevice (installed fetch16 partial) CONS_COLS_MIN CONS_ROWS_MIN dev_wf.
Proof.
  unfold CONS_COLS_MIN, CONS_ROWS_MIN. split.
  - eexists. split; [done|]. apply buffer_clear_wf.
  - eexists. split; [done|]. intros c0 c1 r0 r1 d Hc Hc1 Hr Hr1 Hd. pose proof Hd as (s & pnd & -> & _).
    apply (for_up_inv (λ _, dev_wf)); [by apply or_flags_wf|].
    intros j d' Hj Hd'. apply clear_cells_wf; [done | lia | lia | done].
  - eexists. split; [done|]. intros r d Hr Hd. pose proof Hd as (s & pnd & -> & _ & _ & Ew & _).
    unfold _buffer_line_clear. cbn [deref mbind outcome_bind]. rewrite Ew.
    apply clear_cells_wf; [lia | lia | lia | by apply or_flags_wf].
  - intros f Hf c0 c1 r d Hc Hc1 Hr Hd. pose proof Hd as (s & pnd & -> & _).
    assert (f = _buffer_line_partial_clear) as -> by (destruct partial; [by injection Hf | done]).
    apply clear_cells_wf; [done | lia | lia | by apply or_flags_wf].
  - eexists. split; [done|]. intros c r ch d Hc Hr Hch Hd. pose proof Hd as (s & pnd & -> & Ep & El & Ew & Es).
    apply pnd_write_wf; [lia | lia|]. eexists _, pnd. done.
Qed.

(** ** Plain text *)

(** The cell of the [p]-th character of a screen of 40 columns. *)
Definition nth_cell (p : Z) : nat := cell (p mod 40) (p / 40).

Lemma nth_cell_inj p q : 0 ≤ p < 1280 → 0 ≤ q < 1280 → nth_cell p = nth_cell q → p = q.
Proof. intros Hp Hq. unfold nth_cell, cell. intros E. dlia. Qed.

(** The words of a buffer after a text from the [p]-th character on. *)
Fixpoint put_text (pnd : list Z) (base p : Z) (text : list Z) : list Z :=
  match text with
  | [] => pnd
  | ch :: text => put_text (<[nth_cell p := Z.lor base ch]> pnd) base (p + 1) text
  end.

Lemma put_text_spec text pnd base p : 0 ≤ p → p + Z.of_nat (length text) ≤ 1280 → length pnd = 2048%nat →
  length (put_text pnd base p text) = 2048%nat ∧
  (∀ k, 0 ≤ k < Z.of_nat (length text) →
    put_text pnd base p text !! nth_cell (p + k) = Z.lor base <$> text !! Z.to_nat k) ∧
  (∀ i, (∀ k, 0 ≤ k < Z.of_nat (length text) → i ≠ nth_cell (p + k)) → put_text pnd base p text !! i = pnd !! i).
Proof.
  revert pnd p. induction text as [|ch text IH]; intros pnd p Hp Hl Hpnd; cbn [put_text length] in *.
  { split; [done|]. split; [lia | done]. }
  destruct (IH (<[nth_cell p := Z.lor base ch]> pnd) (p + 1)) as (Hlen & Hin & Hout); [lia | lia | by rewrite length_insert|].
  split; [done|]. split.
  - intros k Hk. destruct (Z.eq_dec k 0) as [->|].
    + rewrite Hout, Z.add_0_r.
      * rewrite list_lookup_insert_eq; [done|]. rewrite Hpnd. unfold nth_cell, cell. dlia.
      * intros k Hk' E. apply nth_cell_inj in E; lia.
    + replace (p + k) with (p + 1 + (k - 1)) by lia. rewrite Hin by lia.
      by replace (Z.to_nat k) with (S (Z.to_nat (k - 1))) by lia.
  - intros i Hi. rewrite Hout.
    + rewrite list_lookup_insert_ne; [done|]. intros E. apply (Hi 0); [lia|]. by rewrite Z.add_0_r.
    + intros k Hk. replace (p + 1 + k) with (p + (k + 1)) by lia. apply Hi. lia.
Qed.

Lemma ground_print {W} (cb : vt_parse_t → vt_parse_action_t → Z → W → outcome W) ch p w :
  vt_state p = VT_PARSE_STATE_GROUND → 32 ≤ ch ≤ 126 →
  vt_parse_byte cb ch (p, w) = (w ← cb p VT_PARSE_ACTION_PRINT ch w; Ok (p, w)).
Proof.
  intros Hp Hch. cbn [vt_parse_byte]. rewrite Hp.
  assert (vt_change VT_PARSE_STATE_GROUND ch = stay VT_PARSE_ACTION_PRINT) as ->.
  { assert (forallb (λ ch, vt_change VT_PARSE_STATE_GROUND ch =? stay VT_PARSE_ACTION_PRINT) (seqZ 32 95) = true) as H
      by (vm_compute; reflexivity).
    rewrite forallb_forall in H. apply Z.eqb_eq, H. apply list_elem_of_In, elem_of_seqZ. lia. }
  rewrite wraps_small by lia. reflexivity.
Qed.

(** A word with the palette of another and the character of its own. *)
Lemma pnd_value_kept v ch : in_u8 ch → Z.land (Z.lor (Z.land v 61440) ch) 61440 = Z.land v 61440.
Proof.
  intros Hch. rewrite Z.land_lor_distr_l, <- Z.land_assoc. change (Z.land 61440 61440) with 61440.
  assert (Z.land ch 61440 = 0) as ->; [|apply Z.lor_0_r].
  apply Z.bits_inj'. intros i Hi. rewrite Z.land_spec, Z.bits_0. destruct (Z_lt_dec i 8).
  - replace (Z.testbit 61440 i) with false; [apply andb_false_r|].
    assert (i = 0 ∨ i = 1 ∨ i = 2 ∨ i = 3 ∨ i = 4 ∨ i = 5 ∨ i = 6 ∨ i = 7) as Hc by lia.
    destruct Hc as [-> | [-> | [-> | [-> | [-> | [-> | [-> | ->]]]]]]]; reflexivity.
  - rewrite (testbit_above ch 8 i) by lia. done.
Qed.

Section Text.
Context (fetch16 : Z → Z) (partial : bool) (base : Z).

(** The console at the [p]-th character, its buffer holding [pnd]. *)
Definition at_char (p : Z) (pnd : list Z) (w : cons_t dev * dev) : Prop :=
  let '(c, d) := w in
  ops c = installed fetch16 partial ∧ cols c = 40 ∧ rows c = 32 ∧
  0 ≤ cursor_col c ≤ 40 ∧ 0 ≤ cursor_row c ∧ cursor_row c * 40 + cursor_col c = p ∧
  ∃ s, d = Some s ∧ page_pnd s = Some pnd ∧ length pnd = 2048%nat ∧ page_width s = 64 ∧
       Z.land (pnd_value s) 61440 = base.

Lemma print_at p pnd ch c d : at_char p pnd (c, d) → 0 ≤ p < 1280 → in_u8 ch →
  yields (_action_character_print ch c d) (at_char (p + 1) (<[nth_cell p := Z.lor base ch]> pnd)).
Proof.
  intros (Eo & Ec & El & Hcol & Hrow & Hpos & s & -> & Ep & Hl & Ew & Eb) Hp Hch. unfold _action_character_print.
  set (c' := if _cursor_column_exceeded c 0 then _ else c).
  assert (c' = set_cursor c (p mod 40) (p / 40)) as ->.
  { unfold c', _cursor_column_exceeded, _cursor_row_advance, _cursor_column_set, set_cursor. cbn.
    rewrite i16_u16, Z.add_0_r, Ec, !wraps_small by lia.
    destruct (Z.ltb_spec (cursor_col c) 0), (Z.leb_spec 40 (cursor_col c)); try lia; cbn [orb].
    - rewrite <- Ec. f_equal; dlia.
    - destruct c; cbn in *. f_equal; dlia. }
  unfold _cursor_row_exceeded, _cursor_column_advance. cbn. rewrite i16_u16, El, Z.add_0_r, !wraps_small by dlia.
  destruct (Z.ltb_spec (p / 40) 0), (Z.leb_spec 32 (p / 40)); [dlia..|]. cbn [orb]. rewrite Eo. cbn [installed op_write fn_ptr mbind outcome_bind].
  rewrite (wrapu_small 8) by lia. unfold _buffer_write. cbn [deref mbind outcome_bind].
  rewrite (pnd_write_Ok _ pnd) by (done || dlia). cbn.
  rewrite Ec, El. split_and!; try done; try dlia.
  eexists. split; [done|]. cbn. rewrite length_insert. split_and!; try done; [by rewrite Eb|].
  rewrite <- Eb. by apply pnd_value_kept.
Qed.

Lemma parse_text p pnd m data len c d q : at_char p pnd (c, d) → 0 ≤ p → p + len ≤ 1280 → 0 ≤ len →
  vt_state q = VT_PARSE_STATE_GROUND → Forall (λ ch, 32 ≤ ch ≤ 126) (text_from m data 0 len) →
  yields (_vt_parse _vt_parser_callback m q (c, d) data len) (λ '(_, w),
    at_char (p + len) (put_text pnd base p (text_from m data 0 len)) w).
Proof.
  intros Hat Hp Hfit Hlen Hq Htext. unfold _vt_parse. rewrite wraps_small by lia.
  eapply yields_mono; [apply (for_up_inv (λ i '(q', w), vt_state q' = VT_PARSE_STATE_GROUND ∧
    Forall (λ ch, 32 ≤ ch ≤ 126) (text_from m data i len) ∧
    ∃ pnd', at_char (p + i) pnd' w ∧
      put_text pnd' base (p + i) (text_from m data i len) = put_text pnd base p (text_from m data 0 len)))|].
  - split; [done|]. split; [done|]. exists pnd. by rewrite Z.add_0_r.
  - intros j [q' [c' d']] Hj (Hq' & Ht & pnd' & Hat' & E). rewrite text_from_next in Ht, E by lia.
    inversion_clear Ht as [|? ? Hch Ht']. rewrite ground_print by done. cbn [_vt_parser_callback].
    apply yields_bind. eapply yields_mono; [apply (print_at (p + j) pnd'); [done | lia | lia]|].
    intros w' Hw'. cbn. split; [done|]. split; [done|]. eexists. rewrite Z.add_assoc. split; [done|]. done.
  - intros [q' w] (_ & _ & pnd' & Hat' & E). unfold text_from in E at 1. rewrite seqZ_nil in E by lia. cbn in E. subst pnd'.
    rewrite Z.add_0_l, Z2Nat.id in Hat' by lia. done.
Qed.

End Text.

Lemma text_from_length m data len : 0 ≤ len → Z.of_nat (length (text_from m data 0 len)) = len.
Proof. intros Hl. unfold text_from. rewrite length_fmap, length_seqZ. lia. Qed.

Lemma text_from_lookup m data len k : 0 ≤ k < len → text_from m data 0 len !! Z.to_nat k = Some (load8 m (data + k)).
Proof.
  intros Hk. unfold text_from. rewrite list_lookup_fmap. rewrite (lookup_seqZ_lt 0) by lia.
  cbn. do 3 f_equal. lia.
Qed.

Lemma cons_buffer_text fetch16 partial base fuel m buffer len s pnd p :
  at_char fetch16 partial base p pnd (con s, con_dev s) → vt_state (con_parser s) = VT_PARSE_STATE_GROUND →
  buffer ≠ 0 → cstring m buffer len → (Z.to_nat len < fuel)%nat → 0 ≤ p → p + len ≤ 1280 →
  Forall (λ ch, 32 ≤ ch ≤ 126) (text_from m buffer 0 len) →
  yields (cons_buffer fuel m buffer s) (λ s', at_char fetch16 partial base (p + len)
    (put_text pnd base p (text_from m buffer 0 len)) (con s', con_dev s')).
Proof.
  intros Hat Hg Hb Hstr Hf Hp Hfit Htext. pose proof Hstr as (Hlen & Hbefore & Hnul). unfold cons_buffer, check.
  rewrite (proj2 (testz_true buffer) Hb). cbn [mbind outcome_bind].
  destruct (load8 m buffer =? 0) eqn:E0.
  { assert (len = 0) as -> by (symmetry; apply (first_at_eq _ _ _ 0 Hstr); [lia | by rewrite Z.add_0_r]).
    cbn. by rewrite Z.add_0_r. }
  rewrite (strlen_spec _ _ _ len) by done. cbn [mbind outcome_bind].
  destruct (Z.eqb_spec len 0) as [->|]; [by rewrite Z.add_0_r in Hnul; rewrite Hnul in E0|].
  apply yields_bind. eapply yields_mono; [by apply (parse_text fetch16 partial base p pnd)|].
  intros [q [c d]] Hw. done.
Qed.

(** ** Set-up *)

(** What [cons_init] leaves: four of the five functions of the device, a cursor
    at the top left and a parser at rest. *)
Lemma cons_init_vdp2 fetch16 d : dev_wf d →
  yields (cons_init (Some (_cons_ops fetch16)) CONS_COLS_MIN CONS_ROWS_MIN (mk_console cons_zero vt_parse_zero d))
    (console_wf (installed fetch16 false) CONS_COLS_MIN CONS_ROWS_MIN dev_wf 0).
Proof.
  intros Hd. change (cons_init _ _ _ _) with (d ← _buffer_clear fetch16 d;
    Ok (mk_console (mk_cons 40 32 1280 0 0 (installed fetch16 false))
      (mk_vt_parse VT_PARSE_STATE_GROUND [0; 0; 0] 0 (replicate 16 0) 0) d)).
  apply yields_bind. eapply yields_mono; [by apply buffer_clear_wf|]. intros d' Hd'.
  cbn [mbind outcome_bind yields]. split; [split; [|done]|].
  - split_and!; try done; vm_compute; done.
  - split_and!; try done; try (vm_compute; done). by apply Forall_replicate.
Qed.

(** A device with an empty page, and its console. *)
Definition demo_dev (flags : Z) : dev_state :=
  mk_dev_state flags 635830272 636485632 635846656 (Some (replicate 2048 0)) 4096 64 64 0 0 0.

Definition demo_console : console dev :=
  mk_console (mk_cons 40 32 1280 0 0 (installed (λ _, 0) false))
    (mk_vt_parse VT_PARSE_STATE_GROUND [0; 0; 0] 0 (replicate 16 0) 0) (Some (demo_dev 1)).

(** A string at address 4096. *)
Definition text_at (text : list Z) : mem := list_to_map (zip (seqZ 4096 (Z.of_nat (length text) + 1)) (text ++ [0])).

Lemma demo_console_wf : console_wf (installed (λ _, 0) false) CONS_COLS_MIN CONS_ROWS_MIN dev_wf 0 demo_console.
Proof.
  split; [split|].
  - split_and!; try done; vm_compute; done.
  - eexists _, _. done.
  - split_and!; try done; try (vm_compute; done). by apply Forall_replicate.
Qed.

(** ** Claims *)

(** C16: Whatever text a program prints, with at most 15 semicolons between one
    escape character and the next, which separate the 16 parameters the parser has
    room for (semicolons that are printed count as well), and no more line feeds
    than the 16 bits of the row hold, the parser stays inside its arrays and every access to the buffer of the VDP2
    stays inside its page: the console ends in a well-formed state.  The only
    fault it can meet is a call of [line_partial_clear] where that pointer was
    not installed. *)
Theorem vdp2_console_safe fetch16 partial fuel m buffer len s N :
  console_wf (installed fetch16 partial) CONS_COLS_MIN CONS_ROWS_MIN dev_wf N s →
  buffer ≠ 0 → cstring m buffer len → len < 2 ^ 31 → (Z.to_nat len < fuel)%nat →
  separators_ok (pending s) (text_from m buffer 0 len) = true →
  N + line_feeds (text_from m buffer 0 len) ≤ max_line_feeds →
  sat (λ e, e = NullPointer ∧ partial = false) (_shared_puts fuel m buffer s)
    (console_wf (installed fetch16 partial) CONS_COLS_MIN CONS_ROWS_MIN dev_wf
       (N + line_feeds (text_from m buffer 0 len))).
Proof.
  intros Hs Hb Hstr Hlen Hf Hsep HN.
  assert (console_wf (installed fetch16 partial) CONS_COLS_MIN CONS_ROWS_MIN dev_wf (N + line_feeds (text_from m buffer 0 len)) s) as Hs'.
  { destruct Hs as [Hs Hp]. split; [|done]. eapply screen_mono; [done|]. pose proof (line_feeds_nonneg (text_from m buffer 0 len)). lia. }
  unfold _shared_puts. destruct (con_dev s) as [st|] eqn:Ed; [|done].
  destruct (_ =? 0); [done|]. destruct (_ =? STATE_BUFFER_FLUSHING); [done|].
  pose proof (cons_buffer_ok (installed fetch16 partial) CONS_COLS_MIN CONS_ROWS_MIN dev_wf ltac:(vm_compute; done) ltac:(vm_compute; done)
    fuel m buffer len s N Hs Hb (strlen_spec _ _ _ _ Hstr Hf)) as H.
  destruct Hstr as [Hr _]. specialize (H ltac:(lia) Hsep HN).
  destruct (cons_buffer fuel m buffer s); [done|]. destruct H as [-> Hm]. by destruct partial.
Qed.

Lemma vdp2_console_safe_witness :
  sat (λ e, e = NullPointer ∧ false = false) (_shared_puts 11 (text_at [72; 105; 10; 27; 91; 50; 59; 53; 72; 33]) 4096 demo_console)
    (console_wf (installed (λ _, 0) false) CONS_COLS_MIN CONS_ROWS_MIN dev_wf 1).
Proof.
  apply (vdp2_console_safe (λ _, 0) false 11 (text_at [72; 105; 10; 27; 91; 50; 59; 53; 72; 33]) 4096 10 demo_console 0).
  - apply demo_console_wf.
  - done.
  - apply cstring_check; [lia | vm_compute; reflexivity].
  - lia.
  - vm_compute. lia.
  - vm_compute. reflexivity.
  - vm_compute. discriminate.
Defined.

(** C17: Plain text that fits on the screen appears on it: from the cursor on, in
    reading order and wrapping at the end of each line of 40, the cells get the
    characters with the palette in use; no other word of the page changes, and
    the cursor stands behind the text. *)
Theorem vdp2_puts_text fetch16 partial fuel m buffer len (s : console dev) st pnd p :
  con_dev s = Some st → page_pnd st = Some pnd → length pnd = 2048%nat → page_width st = 64 →
  Z.land (dev_flags st) STATE_INITIALIZED ≠ 0 →
  Z.land (dev_flags st) (Z.lor STATE_BUFFER_FLUSHING STATE_BUFFER_FORCE_FLUSHING) ≠ STATE_BUFFER_FLUSHING →
  vt_state (con_parser s) = VT_PARSE_STATE_GROUND →
  ops (con s) = installed fetch16 partial → cols (con s) = 40 → rows (con s) = 32 →
  0 ≤ cursor_col (con s) ≤ 40 → 0 ≤ cursor_row (con s) → p = cursor_row (con s) * 40 + cursor_col (con s) →
  buffer ≠ 0 → cstring m buffer len → (Z.to_nat len < fuel)%nat → p + len ≤ 1280 →
  Forall (λ ch, 32 ≤ ch ≤ 126) (text_from m buffer 0 len) →
  ∃ s' st' pnd', _shared_puts fuel m buffer s = Ok s' ∧ con_dev s' = Some st' ∧ page_pnd st' = Some pnd' ∧
    cursor_row (con s') * 40 + cursor_col (con s') = p + len ∧
    (∀ k, 0 ≤ k < len →
      pnd' !! nth_cell (p + k) = Some (Z.lor (Z.land (pnd_value st) 61440) (load8 m (buffer + k)))) ∧
    (∀ i, (∀ k, 0 ≤ k < len → i ≠ nth_cell (p + k)) → pnd' !! i = pnd !! i).
Proof.
  intros Ed Ep Hl Ew Hini Hfl Hg Eo Ec Er Hcol Hrow Ep' Hb Hstr Hf Hfit Htext.
  pose proof Hstr as [Hlen _]. set (base := Z.land (pnd_value st) 61440).
  assert (at_char fetch16 partial base p pnd (con s, con_dev s)) as Hat by (unfold at_char; split_and!; first [done | lia | by exists st]).
  destruct (put_text_spec (text_from m buffer 0 len) pnd base p) as (_ & Hin & Hout);
    [lia | rewrite text_from_length; lia | done|]. rewrite text_from_length in Hin, Hout by lia.
  pose proof (cons_buffer_text fetch16 partial base fuel m buffer len s pnd p Hat Hg Hb Hstr Hf ltac:(lia) Hfit Htext) as Hy.
  apply yields_Ok in Hy as (s' & E & _ & _ & _ & _ & _ & Hpos & st' & Ed' & Epnd' & _).
  exists s', st', (put_text pnd base p (text_from m buffer 0 len)). split_and!; try done.
  - unfold _shared_puts. rewrite Ed. by rewrite (proj2 (Z.eqb_neq _ _) Hini), (proj2 (Z.eqb_neq _ _) Hfl).
  - intros k Hk. rewrite Hin by lia. by rewrite text_from_lookup by lia.
Qed.

Lemma vdp2_puts_text_witness : ∃ s' st' pnd',
  _shared_puts 3 (text_at [72; 105]) 4096 demo_console = Ok s' ∧ con_dev s' = Some st' ∧ page_pnd st' = Some pnd' ∧
  cursor_row (con s') * 40 + cursor_col (con s') = 2 ∧
  (∀ k, 0 ≤ k < 2 → pnd' !! nth_cell (0 + k) = Some (Z.lor (Z.land 0 61440) (load8 (text_at [72; 105]) (4096 + k)))) ∧
  (∀ i, (∀ k, 0 ≤ k < 2 → i ≠ nth_cell (0 + k)) → pnd' !! i = replicate 2048 0 !! i).
Proof.
  apply (vdp2_puts_text (λ _, 0) false 3 (text_at [72; 105]) 4096 2 demo_console (demo_dev 1) (replicate 2048 0) 0);
    try done; try (vm_compute; lia); try (vm_compute; discriminate).
  - apply cstring_check; [lia | vm_compute; reflexivity].
  - change (text_from (text_at [72; 105]) 4096 0 2) with [72; 105]. repeat constructor; lia.
Defined.

(** A loop that reaches an index at which its body faults. *)
Lemma for_up_faults {A} (I : Z → A → Prop) e n i k body (a : A) :
  I i a → i ≤ k < i + Z.of_nat n →
  (∀ j b, i ≤ j < k → I j b → yields (body j b) (I (j + 1))) → (∀ b, I k b → body k b = Fault e) →
  for_up n i body a = Fault e.
Proof.
  revert i a. induction n as [|n IH]; intros i a HI Hk Hb Hf; [lia|]. cbn [for_up].
  destruct (Z.eq_dec i k) as [->|]; [by rewrite Hf|].
  pose proof (Hb i a ltac:(lia) HI) as Hy. apply yields_Ok in Hy as (a' & -> & HI'). cbn [mbind outcome_bind].
  apply IH; [done | lia | | done]. intros j b Hj. apply Hb. lia.
Qed.

Lemma pnd_update_overruns v pnd : length pnd = 2048%nat →
  for_up (Z.to_nat 4096) 0 (pnd_update_word v) pnd = Fault OutOfBounds.
Proof.
  intros Hl. apply (for_up_faults (λ _ l, length l = 2048%nat) _ _ _ 2048); [done | lia | |].
  - intros j l Hj Hlen. unfold pnd_update_word.
    destruct (arr_get_in_range l j) as (x & -> & _); [lia|]. cbn [mbind outcome_bind].
    rewrite arr_set_in_range by lia. cbn [mbind outcome_bind].
    destruct (arr_get_in_range (<[Z.to_nat j:=Z.land x 4095]> l) j) as (y & -> & _); [rewrite length_insert; lia|].
    cbn [mbind outcome_bind]. rewrite arr_set_in_range by (rewrite length_insert; lia). cbn [yields]. by rewrite !length_insert.
  - intros l Hlen. unfold pnd_update_word, arr_get. change (2048 <? 0) with false. cbv iota.
    rewrite lookup_ge_None_2 by lia. done.
Qed.

(** Flushing a device whose buffer has changed writes past the end of the
    buffer: the update of the palette takes the size of the page, in bytes, for
    its number of words, and goes on for another 2048 words behind it. *)
Theorem vdp2_flush_overruns st : dev_wf (Some st) →
  Z.land (dev_flags st) STATE_INITIALIZED ≠ 0 → Z.land (dev_flags st) STATE_BUFFER_DIRTY = STATE_BUFFER_DIRTY →
  _simple_flush (cram_mode st) (Some st) = Fault OutOfBounds.
Proof.
  intros (s & pnd & [= <-] & Ep & Hl & Ew & Es) Hini Hd. unfold _simple_flush.
  rewrite (proj2 (Z.eqb_neq _ _) Hini), Hd. cbn [Z.eqb negb].
  unfold _scroll_screen_reset, _pnd_values_update. cbn [deref mbind outcome_bind negb andb or_flags set_flags cram_mode].
  rewrite !Z.eqb_refl. cbn [negb]. cbn [negb andb set_pnd_values or_flags set_flags page_pnd page_size]. rewrite Ep, Es. cbn [deref mbind outcome_bind].
  rewrite pnd_update_overruns by done. reflexivity.
Qed.

Lemma vdp2_flush_overruns_witness : _simple_flush 0 (Some (demo_dev 3)) = Fault OutOfBounds.
Proof. apply (vdp2_flush_overruns (demo_dev 3)); [by eexists _, _ | discriminate | reflexivity]. Defined.

(** Before the buffer is allocated the same update goes through a null pointer:
    [_dev_state_init] calls it one statement too early. *)
Lemma pnd_update_null s mode : page_pnd s = None → _pnd_values_update true mode (Some s) = Fault NullPointer.
Proof. intros E. unfold _pnd_values_update. cbn [deref mbind outcome_bind negb andb page_pnd set_pnd_values]. by rewrite E. Qed.

Lemma dev_state_init_null mode pnd_bank map_index cpd_bank cpd_offset cram_index page :
  _dev_state_init mode pnd_bank map_index cpd_bank cpd_offset cram_index page None = Fault NullPointer.
Proof. unfold _dev_state_init. cbn [dev_flags dev_state_zero Z.land Z.eqb negb]. by rewrite pnd_update_null. Qed.

(** [_buffer_clear] gives the DMA controller the pattern name as the address to
    read from, so the page is filled with whatever word lies there. *)
Lemma buffer_clear_reads_address fetch16 s pnd : page_pnd s = Some pnd → length pnd = 2048%nat → page_size s = 4096 →
  Z.land (dev_flags s) STATE_BUFFER_CLEARED ≠ STATE_BUFFER_CLEARED →
  ∃ s', _buffer_clear fetch16 (Some s) = Ok (Some s') ∧ page_pnd s' = Some (replicate 2048 (fetch16 (pnd_value_clear s))).
Proof.
  intros Ep Hl Es Hc. unfold _buffer_clear. cbn [deref mbind outcome_bind].
  rewrite (proj2 (Z.eqb_neq _ _) Hc). cbn [or_flags set_flags page_pnd page_size]. rewrite Ep, Es. cbn [deref mbind outcome_bind].
  rewrite dmac_fill_spec by (rewrite Hl; vm_compute; done). change (Z.to_nat (Z.shiftr 4096 1)) with 2048%nat.
  rewrite drop_ge, app_nil_r by lia. by eexists.
Qed.

(** The console and device as a program finds them after [cons_init]. *)
Definition initialised (fetch16 : Z → Z) : outcome (console dev) :=
  cons_init (Some (_cons_ops fetch16)) CONS_COLS_MIN CONS_ROWS_MIN (mk_console cons_zero vt_parse_zero (Some (demo_dev 1))).

(** [cons_init] never installs [line_partial_clear], though the device has
    it: erasing to the end of a line from its third column (ESC [ 2 C, ESC [ K)
    calls a null pointer. *)
Theorem cons_line_partial_clear_null fetch16 :
  (s ← initialised fetch16; _shared_puts 8 (text_at [27; 91; 50; 67; 27; 91; 75]) 4096 s) = Fault NullPointer.
Proof. vm_compute. reflexivity. Qed.

(** Nothing bounds the parameters of a control sequence: the seventeenth
    writes behind the array of 16. *)
Theorem vt_params_overrun fetch16 :
  (s ← initialised fetch16; _shared_puts 20 (text_at ([27; 91] ++ replicate 17 59)) 4096 s) = Fault OutOfBounds.
Proof. vm_compute. reflexivity. Qed.

(** The 32768th line feed takes the row below zero, and erasing to the end of the
    screen then starts there. *)
Definition console_at_row (r : Z) : console dev :=
  mk_console (set_cursor (con demo_console) 0 r) (con_parser demo_console) (con_dev demo_console).

Lemma cons_row_wraps :
  _shared_puts 5 (text_at [10; 27; 91; 74]) 4096 (console_at_row 32767) = Fault OutOfBounds.
Proof. vm_compute. reflexivity. Qed.

(** ** The font *)

(** The colour of a bit of the font. *)
Definition ink (fg bg : Z) (bit : bool) : Z := if bit then Z.land fg 15 else Z.land bg 15.

Lemma convert_spec x fg bg : _1bpp_4bpp_convert x [Z.land bg 15; Z.land fg 15] =
  Ok (ink fg bg (Z.testbit x 0) * 16 + ink fg bg (Z.testbit x 1)).
Proof.
  unfold _1bpp_4bpp_convert.
  assert (∀ y, Z.land y 1 = if Z.testbit y 0 then 1 else 0) as E.
  { intros y. rewrite (land_mask y 1) by lia. change (2 ^ 1) with 2. rewrite Zmod_odd, Z.bit0_odd. done. }
  rewrite !E, Z.shiftr_spec by lia. change (0 + 1) with 1.
  assert (∀ b, arr_get [Z.land bg 15; Z.land fg 15] (if b : bool then 1 else 0) = Ok (ink fg bg b)) as Eg by (by intros []).
  rewrite !Eg. cbn [mbind outcome_bind].
  assert (∀ b, 0 ≤ ink fg bg b < 2 ^ 4) as Hr.
  { intros b. unfold ink. destruct b; rewrite (land_mask _ 4) by lia; apply Z.mod_pos_bound; lia. }
  rewrite Z.shiftl_mul_pow2, lor_add by (lia || apply Hr).
  pose proof (Hr (Z.testbit x 0)). pose proof (Hr (Z.testbit x 1)). rewrite (wrapu_small 8) by lia. done.
Qed.

(** Four bytes of the decompressed font, two pixels each. *)
Definition pixels (fg bg x j : Z) : Z := ink fg bg (Z.testbit x (2 * j)) * 16 + ink fg bg (Z.testbit x (2 * j + 1)).

Lemma decompress_byte_spec cmp dec fg bg i x : Z.of_nat (length dec) = 8192 → 0 ≤ i < 2048 → cmp !! Z.to_nat i = Some x →
  yields (decompress_byte cmp [Z.land bg 15; Z.land fg 15] i dec) (λ dec', Z.of_nat (length dec') = 8192 ∧
    (∀ j, 0 ≤ j < 4 → dec' !! Z.to_nat (4 * i + j) = Some (pixels fg bg x j)) ∧
    (∀ k, (k < Z.to_nat (4 * i))%nat → dec' !! k = dec !! k)).
Proof.
  intros Hl Hi Hx. unfold decompress_byte. rewrite (proj2 (arr_get_Ok cmp i x)) by (split; [lia | done]).
  cbn [mbind outcome_bind]. rewrite !convert_spec. cbn [mbind outcome_bind]. rewrite !Z.shiftr_spec by lia.
  rewrite arr_set_in_range by lia. cbn [mbind outcome_bind].
  rewrite arr_set_in_range by (rewrite length_insert; lia). cbn [mbind outcome_bind].
  rewrite arr_set_in_range by (rewrite !length_insert; lia). cbn [mbind outcome_bind].
  rewrite arr_set_in_range by (rewrite !length_insert; lia). cbn [yields]. rewrite !length_insert. split; [done|]. split.
  - intros j Hj. assert (j = 0 ∨ j = 1 ∨ j = 2 ∨ j = 3) as [-> | [-> | [-> | ->]]] by lia;
      repeat first [rewrite list_lookup_insert_eq by (rewrite ?length_insert; lia); done
                   | rewrite list_lookup_insert_ne by lia].
  - intros k Hk. by rewrite !list_lookup_insert_ne by lia.
Qed.

(** Pixel by pixel the decompressed font has the foreground colour where the
    font has a bit and the background colour where it has none. *)
Lemma font_decompress_spec cmp dec fg bg : length cmp = 2048%nat → Z.of_nat (length dec) = 8192 →
  yields (_font_1bpp_4bpp_decompress dec cmp fg bg) (λ dec', Z.of_nat (length dec') = 8192 ∧
    ∀ i j x, 0 ≤ i < 2048 → 0 ≤ j < 4 → cmp !! Z.to_nat i = Some x →
      dec' !! Z.to_nat (4 * i + j) = Some (pixels fg bg x j)).
Proof.
  intros Hc Hd. unfold _font_1bpp_4bpp_decompress, FONT_1BPP_CPD_SIZE.
  eapply yields_mono; [apply (for_up_inv (λ n dec', Z.of_nat (length dec') = 8192 ∧ ∀ i j x, 0 ≤ i < n → 0 ≤ j < 4 →
    cmp !! Z.to_nat i = Some x → dec' !! Z.to_nat (4 * i + j) = Some (pixels fg bg x j)))|].
  - split; [done | lia].
  - intros n dec' Hn [Hl Hdone]. destruct (lookup_lt_is_Some_2 cmp (Z.to_nat n)) as [y Hy]; [lia|].
    eapply yields_mono; [apply (decompress_byte_spec _ _ _ _ _ y); [done | lia | done]|].
    intros dec'' (Hl' & Hnew & Hold). split; [done|]. intros i j x Hi Hj Hx. destruct (Z.eq_dec i n) as [->|].
    + rewrite Hx in Hy. injection Hy as <-. by apply Hnew.
    + rewrite Hold by lia. apply Hdone; [lia | done..].
  - intros dec' [Hl Hdone]. split; [done|]. intros i j x Hi. apply Hdone. lia.
Qed.
