(* ===== verification/Ctype.v ===== *)
(** The character classes (lib/ctype/ctype.c): a bitmap of 257 entries and the
    functions that look it up. *)

From S2P Require Import Prelude Bits.

Definition _U : Z := 1.
Definition _L : Z := 2.
Definition _N : Z := 4.
Definition _S : Z := 8.
Definition _P : Z := 16.
Definition _C : Z := 32.
Definition _X : Z := 64.
Definition _B : Z := 128.

Definition _ctype_bitmap : list Z :=
  [0] ++
  replicate 8 _C ++
  [_C; Z.lor _C _S; Z.lor _C _S; Z.lor _C _S; Z.lor _C _S; Z.lor _C _S; _C; _C] ++
  replicate 16 _C ++
  [Z.lor _S _B; _P; _P; _P; _P; _P; _P; _P] ++
  replicate 8 _P ++
  replicate 8 _N ++
  [_N; _N; _P; _P; _P; _P; _P; _P] ++
  [_P; Z.lor _U _X; Z.lor _U _X; Z.lor _U _X; Z.lor _U _X; Z.lor _U _X; Z.lor _U _X; _U] ++
  replicate 16 _U ++
  [_U; _U; _U; _P; _P; _P; _P; _P] ++
  [_P; Z.lor _L _X; Z.lor _L _X; Z.lor _L _X; Z.lor _L _X; Z.lor _L _X; Z.lor _L _X; _L] ++
  replicate 16 _L ++
  [_L; _L; _L; _P; _P; _P; _P; _C] ++
  replicate 128 0.

(** The index is always inside the bitmap: see [ctype_bitmap_length]. *)
Definition _CTYPE_LOOKUP (c : Z) : Z := nth (Z.to_nat (1 + Z.land c 255)) _ctype_bitmap 0.

Definition isalnum (c : Z) : bool := testz (Z.land (_CTYPE_LOOKUP c) (Z.lor (Z.lor _U _L) _N)).
Definition isalpha (c : Z) : bool := testz (Z.land (_CTYPE_LOOKUP c) (Z.lor _U _L)).
Definition isascii (c : Z) : bool := u32 c <=? 127.
Definition isblank (c : Z) : bool := (Z.land (_CTYPE_LOOKUP c) _B =? _B) || (c =? 9).
Definition iscntrl (c : Z) : bool := Z.land (_CTYPE_LOOKUP c) _C =? _C.
Definition isdigit (c : Z) : bool := Z.land (_CTYPE_LOOKUP c) _N =? _N.
Definition isgraph (c : Z) : bool := testz (Z.land (_CTYPE_LOOKUP c) (Z.lor (Z.lor (Z.lor _P _U) _L) _N)).
Definition islower (c : Z) : bool := Z.land (_CTYPE_LOOKUP c) (Z.lor _U _L) =? _L.
Definition isprint (c : Z) : bool := testz (Z.land (_CTYPE_LOOKUP c) (Z.lor (Z.lor (Z.lor (Z.lor _P _U) _L) _N) _B)).
Definition ispunct (c : Z) : bool := Z.land (_CTYPE_LOOKUP c) _P =? _P.
Definition isspace (c : Z) : bool := Z.land (_CTYPE_LOOKUP c) _S =? _S.
Definition isupper (c : Z) : bool := Z.land (_CTYPE_LOOKUP c) (Z.lor _U _L) =? _U.
Definition isxdigit (c : Z) : bool := testz (Z.land (_CTYPE_LOOKUP c) (Z.lor _X _N)).
Definition tolower (c : Z) : Z := if isupper c then Z.lor c _C else c.
Definition toupper (c : Z) : Z := if islower c then Z.land c 95 else c.

(** ** What the classes are *)

Lemma ctype_bitmap_length : length _ctype_bitmap = 257%nat.
Proof. reflexivity. Qed.

(** Facts about all characters, decided one by one. *)
Ltac by_chars c :=
  match goal with
  | |- ?l = ?r =>
      apply eqb_true_iff; match eval pattern c in (eqb l r) with ?P _ => apply (all_bytes P) end;
      [vm_compute; reflexivity | done]
  end.

(** An [int] made from a [char] is looked up by its low byte. *)
Lemma ctype_lookup_low c : _CTYPE_LOOKUP c = _CTYPE_LOOKUP (c mod 256).
Proof. unfold _CTYPE_LOOKUP. rewrite !(land_mask _ 8) by lia. by rewrite Z.mod_mod by lia. Qed.

Lemma isdigit_spec c : in_u8 c → isdigit c = (48 <=? c) && (c <=? 57).
Proof. intros Hc. by_chars c. Qed.
Lemma isupper_spec c : in_u8 c → isupper c = (65 <=? c) && (c <=? 90).
Proof. intros Hc. by_chars c. Qed.
Lemma islower_spec c : in_u8 c → islower c = (97 <=? c) && (c <=? 122).
Proof. intros Hc. by_chars c. Qed.
Lemma isalpha_spec c : in_u8 c → isalpha c = isupper c || islower c.
Proof. intros Hc. by_chars c. Qed.
Lemma isalnum_spec c : in_u8 c → isalnum c = isalpha c || isdigit c.
Proof. intros Hc. by_chars c. Qed.
Lemma isspace_spec c : in_u8 c → isspace c = (c =? 32) || ((9 <=? c) && (c <=? 13)).
Proof. intros Hc. by_chars c. Qed.
Lemma isprint_spec c : in_u8 c → isprint c = (32 <=? c) && (c <=? 126).
Proof. intros Hc. by_chars c. Qed.
Lemma iscntrl_spec c : in_u8 c → iscntrl c = (c <? 32) || (c =? 127).
Proof. intros Hc. by_chars c. Qed.
Lemma isgraph_spec c : in_u8 c → isgraph c = isprint c && negb (c =? 32).
Proof. intros Hc. by_chars c. Qed.
Lemma ispunct_spec c : in_u8 c → ispunct c = isgraph c && negb (isalnum c).
Proof. intros Hc. by_chars c. Qed.
Lemma isblank_spec c : in_u8 c → isblank c = (c =? 32) || (c =? 9).
Proof. intros Hc. by_chars c. Qed.
Lemma isxdigit_spec c : in_u8 c →
  isxdigit c = isdigit c || ((65 <=? toupper c) && (toupper c <=? 70)).
Proof. intros Hc. by_chars c. Qed.
Lemma tolower_toupper c : in_u8 c → isalpha c = true →
  islower (tolower c) = true ∧ isupper (toupper c) = true ∧ toupper (tolower c) = toupper c.
Proof.
  intros Hc Ha.
  assert (negb (isalpha c) || (islower (tolower c) && isupper (toupper c) && (toupper (tolower c) =? toupper c)) = true) as H
    by by_chars c.
  rewrite Ha in H. cbn in H. apply andb_prop in H as [H E]. apply andb_prop in H as [H1 H2].
  split; [done|]. split; [done | by apply Z.eqb_eq].
Qed.
