(* ===== verification/Conv.v ===== *)
(** Conversions of the C library: [strtol], [atoi] and [atol] (lib/stdlib), the
    comparisons that ignore case and [swab] (lib/string). *)

From S2P Require Import Prelude Bits Memory MemCopyProof Ctype.

(** ** stdlib *)

Definition abs (number : Z) : Z := if number <? 0 then i32 (- number) else number.
Definition labs (number : Z) : Z := if number <? 0 then i32 (- number) else number.

(** [do c = *s++; while (isspace(c))] *)
Definition skip_space (fuel : nat) (m : mem) (s : Z) : outcome (Z * Z) :=
  iter fuel (λ s, let c := load8 m s in Ok (if isspace c then inl (s + 1) else inr (c, s + 1))) s.

(** The value of a digit or letter. *)
Definition digit_of (c : Z) : option Z :=
  if isdigit c then Some (c - 48)
  else if isalpha c then Some (c - if isupper c then 65 - 10 else 97 - 10)
  else None.

(** A round of the loop over the digits: the next character, the position
    behind it, the value and whether there were digits, or too many. *)
Definition strtol_digit (m : mem) (base cutoff cutlim : Z) (x : Z * Z * Z * Z) : outcome (Z * Z * Z * Z + Z * Z * Z) :=
  let '(c, s, acc, any) := x in
  Ok (match digit_of c with
      | None => inr (acc, any, s)
      | Some d =>
          if base <=? d then inr (acc, any, s)
          else if (any <? 0) || (cutoff <? acc) || ((acc =? cutoff) && (cutlim <? d))
          then inl (load8 m s, s + 1, acc, -1)
          else inl (load8 m s, s + 1, u32 (u32 (acc * base) + d), 1)
      end).

Definition strtol_digits (fuel : nat) (m : mem) (base cutoff cutlim c s : Z) : outcome (Z * Z * Z) :=
  iter fuel (strtol_digit m base cutoff cutlim) (c, s, 0, 0).

(** The value and the memory, in which [endptr] may have been set. *)
Definition strtol (fuel : nat) (m : mem) (nptr endptr base : Z) : outcome (Z * mem) :=
  '(c, s) ← skip_space fuel m nptr;
  let '(neg, c, s) :=
    if c =? 45 then (true, load8 m s, s + 1)
    else if c =? 43 then (false, load8 m s, s + 1)
    else (false, c, s) in
  let '(c, s, base) :=
    if ((base =? 0) || (base =? 16)) && (c =? 48) && ((load8 m s =? 120) || (load8 m s =? 88))
    then (load8 m (s + 1), s + 2, 16) else (c, s, base) in
  let base := if base =? 0 then if c =? 48 then 8 else 10 else base in
  let limit := if neg : bool then 2147483648 else 2147483647 in
  let cutlim := limit mod u32 base in
  let cutoff := limit / u32 base in
  '(acc, any, s) ← strtol_digits fuel m base cutoff cutlim c s;
  let acc := if any <? 0 then if neg then 2147483648 else 2147483647
             else if neg then u32 (- acc) else acc in
  let m := if testz endptr then store32 m endptr (if testz any then s - 1 else nptr) else m in
  Ok (i32 acc, m).

Definition atoi_digits (fuel : nat) (m : mem) (s : Z) : outcome Z :=
  iter fuel (λ '(s, n),
    Ok (if isdigit (load8 m s) then inl (s + 1, i32 (10 * n - (load8 m s - 48))) else inr n)) (s, 0).

Definition atoi (fuel : nat) (m : mem) (s : Z) : outcome Z :=
  s ← iter fuel (λ s, Ok (if isspace (load8 m s) then inl (s + 1) else inr s)) s;
  let neg := load8 m s =? 45 in
  let s := if neg || (load8 m s =? 43) then s + 1 else s in
  n ← atoi_digits fuel m s;
  Ok (if neg then n else i32 (- n)).

Definition atol (fuel : nat) (m : mem) (s : Z) : outcome Z :=
  s ← iter fuel (λ s, Ok (if isspace (load8 m s) then inl (s + 1) else inr s)) s;
  let neg := load8 m s =? 45 in
  let s := if neg || (load8 m s =? 43) then s + 1 else s in
  n ← atoi_digits fuel m s;
  Ok (if neg then n else i32 (- n)).

(** ** string *)

Definition same_letter (a b : Z) : bool := (a =? b) || (tolower a =? tolower b).

Definition strcasecmp (fuel : nat) (m : mem) (l r : Z) : outcome Z :=
  iter fuel (λ '(l, r),
    Ok (if testz (load8 m l) && testz (load8 m r) && same_letter (load8 m l) (load8 m r)
        then inl (l + 1, r + 1) else inr (tolower (load8 m l) - tolower (load8 m r)))) (l, r).

Definition strncasecmp (fuel : nat) (m : mem) (l r n : Z) : outcome Z :=
  if n =? 0 then Ok 0 else
  iter fuel (λ '(l, r, n),
    Ok (if testz (load8 m l) && testz (load8 m r) && testz n && same_letter (load8 m l) (load8 m r)
        then inl (l + 1, r + 1, n - 1) else inr (tolower (load8 m l) - tolower (load8 m r)))) (l, r, n - 1).

Definition swab (fuel : nat) (m : mem) (src dest n : Z) : outcome mem :=
  iter fuel (λ '(m, src, dest, n),
    Ok (if 1 <? n then
          let m := store8 m dest (load8 m (src + 1)) in
          let m := store8 m (dest + 1) (load8 m src) in
          inl (m, src + 2, dest + 2, n - 2)
        else inr m)) (m, src, dest, n).

(** ** Numerals *)

(** The value of digits, the first one leading. *)
Definition value_from (base v : Z) (ds : list Z) : Z := foldl (λ v d, v * base + d) v ds.

(** The digits at an address and a character that ends them. *)
Fixpoint numeral (m : mem) (base s : Z) (ds : list Z) : Prop :=
  match ds with
  | [] => match digit_of (load8 m s) with Some d => base ≤ d | None => True end
  | d :: ds => digit_of (load8 m s) = Some d ∧ 0 ≤ d < base ∧ numeral m base (s + 1) ds
  end.

Lemma value_from_ge base v ds : 1 ≤ base → 0 ≤ v → Forall (λ d, 0 ≤ d) ds → v ≤ value_from base v ds.
Proof.
  intros Hb. revert v. induction ds as [|d ds IH]; intros v Hv Hd; cbn; [lia|].
  inversion_clear Hd. etransitivity; [|apply IH; [nia | done]]. nia.
Qed.

Lemma numeral_nonneg m base s ds : numeral m base s ds → Forall (λ d, 0 ≤ d) ds.
Proof. revert s. induction ds as [|d ds IH]; intros s; [done|]. intros (_ & ? & ?). constructor; [lia | by eapply IH]. Qed.

(** The digits up to the limit, or the mark that it is passed. *)
Definition counted (limit v : Z) (any acc : Z) : Prop :=
  (v ≤ limit ∧ 0 ≤ any ∧ acc = v) ∨ (limit < v ∧ any = -1).

(** How [any] ends. *)
Definition any_digits (limit v any : Z) (ds : list Z) : Z :=
  if decide (ds = []) then any else if decide (v ≤ limit) then 1 else -1.

Lemma strtol_digit_next m base limit v acc any c s d : 2 ≤ base ≤ 36 → 0 ≤ limit < 2 ^ 32 → 0 ≤ v →
  digit_of c = Some d → 0 ≤ d < base → counted limit v any acc →
  ∃ acc' any', strtol_digit m base (limit / base) (limit mod base) (c, s, acc, any) = Ok (inl (load8 m s, s + 1, acc', any')) ∧
    counted limit (v * base + d) any' acc' ∧ any' = if decide (v * base + d ≤ limit) then 1 else -1.
Proof.
  intros Hb Hlim Hv Hd Hr Hc. unfold strtol_digit. rewrite Hd. destruct (Z.leb_spec base d); [lia|].
  pose proof (Z.div_mod limit base). pose proof (Z.mod_pos_bound limit base).
  destruct Hc as [(Hle & Hany & ->)|[Hgt ->]].
  - destruct (Z.ltb_spec any 0); [lia|]. cbn [orb].
    destruct (Z.leb_spec (v * base + d) limit) as [Hfits|Hover].
    + assert ((limit / base <? v) || ((v =? limit / base) && (limit mod base <? d)) = false) as ->.
      { destruct (Z.ltb_spec (limit / base) v); [nia|]. destruct (Z.eqb_spec v (limit / base)) as [->|]; [|done].
        destruct (Z.ltb_spec (limit mod base) d); [nia | done]. }
      rewrite (wrapu_small 32 (v * base)), (wrapu_small 32) by nia. eexists _, _. split; [done|].
      split; [left; lia | by rewrite decide_True].
    + assert ((limit / base <? v) || ((v =? limit / base) && (limit mod base <? d)) = true) as ->.
      { destruct (Z.ltb_spec (limit / base) v); [done|]. destruct (Z.eqb_spec v (limit / base)) as [->|]; [|nia].
        destruct (Z.ltb_spec (limit mod base) d); [done | nia]. }
      eexists _, _. split; [done|]. split; [right; lia | by rewrite decide_False by lia].
  - cbn [Z.ltb Z.compare orb]. eexists _, _. split; [done|]. split; [right; nia | by rewrite decide_False by nia].
Qed.

Lemma strtol_digits_from fuel m base limit ds : 2 ≤ base ≤ 36 → 0 ≤ limit < 2 ^ 32 →
  ∀ s acc any v, numeral m base s ds → (length ds < fuel)%nat → 0 ≤ v → counted limit v any acc →
  yields (iter fuel (strtol_digit m base (limit / base) (limit mod base)) (load8 m s, s + 1, acc, any))
    (λ '(acc', any', s'), s' = s + Z.of_nat (length ds) + 1 ∧ counted limit (value_from base v ds) any' acc' ∧
      any' = any_digits limit (value_from base v ds) any ds).
Proof.
  intros Hb Hlim. revert fuel. induction ds as [|d ds IH]; intros fuel s acc any v Hn Hf Hv Hc;
    (destruct fuel; [cbn in Hf; lia|]); cbn [iter].
  - cbn [numeral] in Hn. cbn [strtol_digit mbind outcome_bind].
    destruct (digit_of (load8 m s)) as [d|]; [destruct (Z.leb_spec base d); [|lia]|]; cbn; (split; [lia | done]).
  - destruct Hn as (Hd & Hr & Hn). cbn [length] in Hf.
    destruct (strtol_digit_next m base limit v acc any (load8 m s) (s + 1) d) as (acc' & any' & -> & Hc' & Hany'); [done..|].
    cbn [mbind outcome_bind]. eapply yields_mono; [apply (IH fuel (s + 1) acc' any' (v * base + d)); [done | lia | nia | done]|].
    intros [[acc'' any''] s''] (-> & Hc'' & ->). cbn [length]. split; [lia|]. split; [done|].
    unfold any_digits. rewrite (decide_False (P := d :: ds = [])) by done. destruct ds; [by rewrite decide_True by done|].
    by rewrite decide_False by done.
Qed.

(** ** strtol *)

Lemma skip_space_spec fuel m s w : 0 ≤ w → (Z.to_nat w < fuel)%nat →
  (∀ i, 0 ≤ i < w → isspace (load8 m (s + i)) = true) → isspace (load8 m (s + w)) = false →
  skip_space fuel m s = Ok (load8 m (s + w), s + w + 1).
Proof.
  intros Hw Hf Hsp Hend. apply yields_eq. unfold skip_space.
  apply (iter_inv (λ p, s ≤ p ≤ s + w) (λ p, Z.to_nat (s + w - p))); [lia | lia |].
  intros p Hp. cbn. destruct (Z.eq_dec p (s + w)) as [->|].
  - by rewrite Hend.
  - pose proof (Hsp (p - s) ltac:(lia)) as E. replace (s + (p - s)) with p in E by lia. rewrite E. lia.
Qed.

Lemma digit_char c d : in_u8 c → digit_of c = Some d → isspace c = false ∧ c ≠ 45 ∧ c ≠ 43.
Proof.
  intros Hc Hd. assert (match digit_of c with Some _ => negb (isspace c) && negb (c =? 45) && negb (c =? 43) | None => true end = true) as H
    by by_chars c.
  rewrite Hd in H. repeat apply andb_prop in H as [H ?]. rewrite !negb_true_iff, ?Z.eqb_neq in *. done.
Qed.

(** A sign, and the number it makes of a value, kept in range. *)
Definition signed (sign : option bool) (v : Z) : Z :=
  match sign with Some true => Z.max (- 2 ^ 31) (- v) | _ => Z.min (2 ^ 31 - 1) v end.

Definition sign_at (m : mem) (s : Z) (sign : option bool) : Prop :=
  match sign with Some true => load8 m s = 45 | Some false => load8 m s = 43 | None => True end.

Definition behind_sign (s : Z) (sign : option bool) : Z := match sign with Some _ => s + 1 | None => s end.

Lemma strtol_value neg v any acc ds : ds ≠ [] → 0 ≤ v →
  counted (if neg : bool then 2147483648 else 2147483647) v any acc →
  any = any_digits (if neg then 2147483648 else 2147483647) v 0 ds →
  testz any = true ∧
  i32 (if any <? 0 then if neg then 2147483648 else 2147483647 else if neg then u32 (- acc) else acc) =
    signed (Some neg) v.
Proof.
  intros Hds Hv Hc ->. unfold any_digits in *. rewrite (decide_False (P := ds = [])) in * by done. unfold signed, counted in *.
  destruct (decide (v ≤ _)) as [Hle|Hgt]; (split; [done|]); cbn [Z.ltb Z.compare].
  - destruct Hc as [(_ & _ & ->)|[? _]]; [|lia]. destruct neg.
    + unfold wraps, wrapu. change (32 - 1) with 31. dlia.
    + rewrite wraps_small by lia. lia.
  - destruct neg; [change (i32 2147483648) with (-2147483648) | change (i32 2147483647) with 2147483647]; lia.
Qed.

Lemma strtol_spec fuel m nptr endptr base w sign ds : 2 ≤ base ≤ 36 → base ≠ 16 → ds ≠ [] →
  0 ≤ w → (∀ i, 0 ≤ i < w → isspace (load8 m (nptr + i)) = true) → sign_at m (nptr + w) sign →
  numeral m base (behind_sign (nptr + w) sign) ds → (Z.to_nat w < fuel)%nat → (length ds < fuel)%nat →
  strtol fuel m nptr endptr base =
    Ok (signed sign (value_from base 0 ds),
        if testz endptr then store32 m endptr (behind_sign (nptr + w) sign + Z.of_nat (length ds)) else m).
Proof.
  intros Hb H16 Hds Hw Hsp Hsign Hnum Hfw Hfd. set (s := behind_sign (nptr + w) sign) in *.
  assert (∃ d, digit_of (load8 m s) = Some d) as [d0 Hd0] by (destruct ds; [done|]; destruct Hnum as (? & _); eauto).
  destruct (digit_char _ _ (load8_range m s) Hd0) as (Hns & Hn45 & Hn43).
  pose proof (value_from_ge base 0 ds ltac:(lia) ltac:(lia) (numeral_nonneg _ _ _ _ Hnum)) as Hv.
  unfold strtol. rewrite (skip_space_spec fuel m nptr w); [|done..|].
  2:{ unfold s, behind_sign in *. destruct sign as [[]|]; cbn in Hsign; [by rewrite Hsign | by rewrite Hsign | done]. }
  cbn [mbind outcome_bind].
  set (neg := match sign with Some true => true | _ => false end).
  assert ((if load8 m (nptr + w) =? 45 then (true, load8 m (nptr + w + 1), nptr + w + 1 + 1)
           else if load8 m (nptr + w) =? 43 then (false, load8 m (nptr + w + 1), nptr + w + 1 + 1)
           else (false, load8 m (nptr + w), nptr + w + 1)) = (neg, load8 m s, s + 1)) as ->.
  { unfold s, neg, behind_sign in *. destruct sign as [[]|]; cbn in Hsign; [by rewrite Hsign | by rewrite Hsign|].
    by rewrite (proj2 (Z.eqb_neq _ _) Hn45), (proj2 (Z.eqb_neq _ _) Hn43). }
  destruct (Z.eqb_spec base 0); [lia|]. destruct (Z.eqb_spec base 16); [done|]. cbn [orb andb].
  destruct (Z.eqb_spec base 0); [done|]. rewrite (wrapu_small 32 base) by lia.
  set (limit := if neg then 2147483648 else 2147483647).
  assert (yields (strtol_digits fuel m base (limit / base) (limit mod base) (load8 m s) (s + 1)) (λ '(acc, any, s'),
    s' = s + Z.of_nat (length ds) + 1 ∧ counted limit (value_from base 0 ds) any acc ∧
    any = any_digits limit (value_from base 0 ds) 0 ds)) as Hy.
  { apply strtol_digits_from; [done | unfold limit; destruct neg; lia | done..|]. left. unfold limit; destruct neg; lia. }
  apply yields_Ok in Hy as ([[acc any] s'] & -> & -> & Hc & Hany). cbn [mbind outcome_bind].
  destruct (strtol_value neg (value_from base 0 ds) any acc ds) as [E1 E2]; [done..|].
  fold limit in E2. rewrite E1, E2. f_equal. f_equal; [unfold neg, signed; by destruct sign as [[]|]|].
  destruct (testz endptr); [|done]. f_equal. lia.
Qed.

(** ** atoi *)

Lemma isdigit_digit_of c : in_u8 c → isdigit c = true ↔ ∃ d, digit_of c = Some d ∧ d < 10.
Proof.
  intros Hc. assert (isdigit c = match digit_of c with Some d => d <? 10 | None => false end) as H by by_chars c. rewrite H. destruct (digit_of c) as [d|]; split; try done.
  - intros Hd. exists d. split; [done | by apply Z.ltb_lt].
  - intros (d' & [= <-] & Hd). by apply Z.ltb_lt.
  - by intros (d' & ? & _).
Qed.

Lemma atoi_digits_from m ds : ∀ fuel s v, numeral m 10 s ds → (length ds < fuel)%nat → 0 ≤ v →
  value_from 10 v ds ≤ 2 ^ 31 →
  iter fuel (λ '(s, n), Ok (if isdigit (load8 m s) then inl (s + 1, i32 (10 * n - (load8 m s - 48))) else inr n)) (s, - v) =
    Ok (- value_from 10 v ds).
Proof.
  induction ds as [|d ds IH]; intros fuel s v Hn Hf Hv Hle; (destruct fuel; [cbn in Hf; lia|]); cbn [iter mbind outcome_bind].
  - assert (isdigit (load8 m s) = false) as ->; [|done]. apply not_true_iff_false. intros Hd.
    apply isdigit_digit_of in Hd as (d & Hd & ?); [|apply load8_range]. cbn in Hn. rewrite Hd in Hn. lia.
  - destruct Hn as (Hd & Hr & Hn). pose proof (value_from_ge 10 (v * 10 + d) ds ltac:(lia) ltac:(lia) (numeral_nonneg _ _ _ _ Hn)) as Hge.
    change (value_from 10 v (d :: ds)) with (value_from 10 (v * 10 + d) ds) in *.
    assert (isdigit (load8 m s) = true) as E by (apply isdigit_digit_of; [apply load8_range|]; exists d; split; [done | lia]).
    rewrite E. assert (load8 m s - 48 = d) as -> by (unfold digit_of in Hd; rewrite E in Hd; by injection Hd).
    rewrite (wraps_small 32) by lia. replace (10 * - v - d) with (- (v * 10 + d)) by lia.
    apply IH; [done | cbn in Hf; lia | lia | done].
Qed.

(** Numbers that fit are read alike by [atoi] and by [strtol]. *)
Lemma atoi_agrees fuel m s w sign ds : ds ≠ [] →
  0 ≤ w → (∀ i, 0 ≤ i < w → isspace (load8 m (s + i)) = true) → sign_at m (s + w) sign →
  numeral m 10 (behind_sign (s + w) sign) ds → (Z.to_nat w < fuel)%nat → (length ds < fuel)%nat →
  value_from 10 0 ds < 2 ^ 31 →
  atoi fuel m s = Ok (signed sign (value_from 10 0 ds)) ∧ atol fuel m s = atoi fuel m s.
Proof.
  intros Hds Hw Hsp Hsign Hnum Hfw Hfd Hle. split; [|done]. set (p := behind_sign (s + w) sign) in *.
  assert (∃ d, digit_of (load8 m p) = Some d) as [d0 Hd0] by (destruct ds; [done|]; destruct Hnum as (? & _); eauto).
  destruct (digit_char _ _ (load8_range m p) Hd0) as (Hns & Hn45 & Hn43).
  assert (isspace (load8 m (s + w)) = false) as Hend.
  { unfold p, behind_sign in *. destruct sign as [[]|]; cbn in Hsign; [by rewrite Hsign | by rewrite Hsign | done]. }
  pose proof (value_from_ge 10 0 ds ltac:(lia) ltac:(lia) (numeral_nonneg _ _ _ _ Hnum)) as Hv.
  unfold atoi. assert (iter fuel (λ s, Ok (if isspace (load8 m s) then inl (s + 1) else inr s)) s = Ok (s + w)) as ->.
  { apply yields_eq, (iter_inv (λ q, s ≤ q ≤ s + w) (λ q, Z.to_nat (s + w - q))); [lia | lia|].
    intros q Hq. cbn. destruct (Z.eq_dec q (s + w)) as [->|]; [by rewrite Hend|].
    pose proof (Hsp (q - s) ltac:(lia)) as E. replace (s + (q - s)) with q in E by lia. rewrite E. lia. }
  cbn [mbind outcome_bind].
  assert ((if (load8 m (s + w) =? 45) || (load8 m (s + w) =? 43) then s + w + 1 else s + w) = p) as ->.
  { unfold p, behind_sign in *. destruct sign as [[]|]; cbn in Hsign; [by rewrite Hsign | by rewrite Hsign|].
    by rewrite (proj2 (Z.eqb_neq _ _) Hn45), (proj2 (Z.eqb_neq _ _) Hn43). }
  unfold atoi_digits.
  pose proof (atoi_digits_from m ds fuel p 0 Hnum Hfd ltac:(lia) ltac:(lia)) as E. change (- 0) with 0 in E. rewrite E. cbn [mbind outcome_bind]. f_equal.
  unfold signed. destruct sign as [[]|]; cbn in Hsign.
  - rewrite Hsign. cbn. lia.
  - rewrite Hsign. cbn [Z.eqb Pos.eqb]. rewrite wraps_small; lia.
  - unfold p in Hn45. cbn in Hn45. rewrite (proj2 (Z.eqb_neq _ _) Hn45), wraps_small; lia.
Qed.
