(* ===== verification/Stdio.v ===== *)
(** Formatted output: [vsprintf], [sprintf] and [snprintf] (lib/stdio/snprintf.c)
    and [fix16_str] (math/fix16_str.c).  The arguments of a call are a list of
    words; reading past its end is a fault.  [tmp_buffer] is the address of the
    local array of 16 bytes and [null_string] that of the literal "<NULL>". *)

From S2P Require Import Prelude Bits Memory CStr Fix16 Ctype.
Import Search.

(** ** fix16_str *)

Definition _scales : list Z := [1; 10; 100; 1000; 10000; 100000; 100000; 100000].

(** [scale] is less than 2^32, so it is divided by ten no more than ten times
    before it is zero. *)
Definition _itoa_loop (m : mem) (buf scale value : Z) (skip : bool) : outcome (mem * Z) :=
  iter 11 (λ '(m, buf, scale, value, skip),
    if scale =? 0 then Ok (inr (m, buf)) else
    let digit := value / scale in
    if negb skip || testz digit || (scale =? 1) then
      Ok (inl (store8 m buf (48 + digit), buf + 1, scale / 10, value mod scale, false))
    else Ok (inl (m, buf, scale / 10, value, skip))) (m, buf, scale, value, skip).

Definition fix16_str (m : mem) (value buf decimals : Z) : outcome (mem * Z) :=
  let uvalue := u32 (if 0 <=? value then value else - value) in
  let start_buf := buf in
  let '(m, buf) := if value <? 0 then (store8 m buf 45, buf + 1) else (m, buf) in
  let int_part := Z.shiftr uvalue 16 in
  let frac_part := Z.land uvalue 65535 in
  scale ← arr_get _scales (Z.land decimals 7);
  let frac_part := u32 (fix16_mul frac_part scale) in
  let '(int_part, frac_part) := if scale <=? frac_part then (int_part + 1, frac_part - scale) else (int_part, frac_part) in
  '(m, buf) ← _itoa_loop m buf 10000 int_part true;
  '(m, buf) ← (if negb (scale =? 1) then _itoa_loop (store8 m buf 46) (buf + 1) (scale / 10) frac_part false
               else Ok (m, buf));
  Ok (store8 m buf 0, u32 (buf - start_buf)).

(** ** vsprintf *)

Definition _uppercase_hexchars : list Z := [48; 49; 50; 51; 52; 53; 54; 55; 56; 57; 65; 66; 67; 68; 69; 70].
Definition _lowercase_hexchars : list Z := [48; 49; 50; 51; 52; 53; 54; 55; 56; 57; 97; 98; 99; 100; 101; 102].

Definition _skip_atoi (fuel : nat) (m : mem) (s : Z) : outcome (Z * Z) :=
  iter fuel (λ '(s, i),
    Ok (if isdigit (load8 m s) then inl (s + 1, u16 (i * 10 + load8 m s - 48)) else inr (i, s))) (s, 0).

(** [va_arg] *)
Definition va_arg (args : list Z) : outcome (Z * list Z) :=
  match args with a :: args => Ok (a, args) | [] => Fault OutOfBounds end.

Record flags := mk_flags { left_align : bool; plus_sign : bool; zero_pad : bool; space_sign : bool }.

(** The flags behind a percent sign, and the character that ends them. *)
Definition read_flags (fuel : nat) (m : mem) (fmt : Z) : outcome (Z * flags) :=
  iter fuel (λ '(fmt, f),
    let fmt := fmt + 1 in
    let c := load8 m fmt in
    Ok (if c =? 45 then inl (fmt, mk_flags true (plus_sign f) (zero_pad f) (space_sign f))
        else if c =? 43 then inl (fmt, mk_flags (left_align f) true (zero_pad f) (space_sign f))
        else if c =? 32 then inl (fmt, mk_flags (left_align f) (plus_sign f) (zero_pad f) (if plus_sign f then space_sign f else true))
        else if c =? 48 then inl (fmt, mk_flags (left_align f) (plus_sign f) true (space_sign f))
        else inr (fmt, f))) (fmt, mk_flags false false false false).

Definition read_width (fuel : nat) (m : mem) (fmt : Z) (args : list Z) (la : bool) : outcome (Z * Z * list Z * bool) :=
  if isdigit (load8 m fmt) then '(w, fmt) ← _skip_atoi fuel m fmt; Ok (i16 w, fmt, args, la)
  else if load8 m fmt =? 42 then
    '(a, args) ← va_arg args;
    let w := i16 a in
    Ok (if w <? 0 then (i16 (- w), fmt + 1, args, true) else (w, fmt + 1, args, la))
  else Ok (-1, fmt, args, la).

Definition read_precision (fuel : nat) (m : mem) (fmt : Z) (args : list Z) : outcome (Z * Z * list Z) :=
  if load8 m fmt =? 46 then
    let fmt := fmt + 1 in
    '(p, fmt, args) ←
      (if isdigit (load8 m fmt) then '(p, fmt) ← _skip_atoi fuel m fmt; Ok (i16 p, fmt, args)
       else if load8 m fmt =? 42 then '(a, args) ← va_arg args; Ok (i16 a, fmt + 1, args)
       else Ok (-1, fmt, args));
    Ok (if p <? 0 then 0 else p, fmt, args)
  else Ok (-1, fmt, args).

(** [while (len < field_width--) *str++ = c] *)
Definition pad (m : mem) (str c len field_width : Z) : outcome (mem * Z * Z) :=
  iter (S (Z.to_nat (field_width - len))) (λ '(m, str, w),
    Ok (if len <? w then inl (store8 m str c, str + 1, i16 (w - 1)) else inr (m, str, i16 (w - 1)))) (m, str, field_width).

(** [while (--field_width > 0) *str++ = ' '] *)
Definition pad_char (m : mem) (str field_width : Z) : outcome (mem * Z * Z) :=
  iter (S (Z.to_nat (u16 field_width))) (λ '(m, str, w),
    let w := i16 (w - 1) in
    Ok (if 0 <? w then inl (store8 m str 32, str + 1, w) else inr (m, str, w))) (m, str, field_width).

(** [for (i = 0; i < len; ++i) *str++ = *s++] *)
Definition copy_text (m : mem) (str s len : Z) : outcome (mem * Z) :=
  m ← for_up (Z.to_nat len) 0 (λ i m, Ok (store8 m (str + i) (load8 m (s + i)))) m;
  Ok (m, str + Z.max 0 len).

(** The digits of a number, written backwards from [s]: at most eight in
    hexadecimal and ten in decimal. *)
Definition hex_digits (m : mem) (hexchars : list Z) (s num : Z) : outcome (mem * Z) :=
  let '(m, s) := if num =? 0 then (store8 m (s - 1) 48, s - 1) else (m, s) in
  iter 9 (λ '(m, s, num),
    if num =? 0 then Ok (inr (m, s)) else
    c ← arr_get hexchars (Z.land num 15);
    Ok (inl (store8 m (s - 1) c, s - 1, Z.shiftr num 4))) (m, s, num).

Definition unsigned_digits (m : mem) (s num : Z) : outcome (mem * Z) :=
  let '(m, s) := if num =? 0 then (store8 m (s - 1) 48, s - 1) else (m, s) in
  iter 11 (λ '(m, s, num),
    Ok (if num =? 0 then inr (m, s) else inl (store8 m (s - 1) (num mod 10 + 48), s - 1, num / 10))) (m, s, num).

Definition signed_digits (m : mem) (s i : Z) : outcome (mem * Z) :=
  let '(m, s) := if i =? 0 then (store8 m (s - 1) 48, s - 1) else (m, s) in
  let neg := i <? 0 in
  iter 11 (λ '(m, s, i),
    Ok (if i =? 0 then inr (m, s)
        else inl (store8 m (s - 1) (if neg then 48 - Z.rem i 10 else Z.rem i 10 + 48), s - 1, Z.quot i 10))) (m, s, i).

(** The variables of [vsprintf] that live from one conversion to the next. *)
Record pf_state := mk_pf { pf_mem : mem; pf_str : Z; pf_fmt : Z; pf_args : list Z; pf_num : Z }.

Section Vsprintf.
Context (fuel : nat) (tmp_buffer null_string buf : Z).

(** The end of a conversion of a number: its sign, padding and digits. *)
Definition put_number (m : mem) (str s num precision field_width : Z) (f : flags) : outcome (mem * Z) :=
  len ← strnlen m s (u32 precision);
  let len := i16 len in
  let '(m, str, field_width) :=
    if testz num then (store8 m str 45, str + 1, i16 (field_width - 1))
    else if plus_sign f then (store8 m str 43, str + 1, i16 (field_width - 1))
    else if space_sign f then (store8 m str 32, str + 1, i16 (field_width - 1))
    else (m, str, field_width) in
  '(m, str, field_width) ←
    (if negb (left_align f) then pad m str (if zero_pad f then 48 else 32) len field_width else Ok (m, str, field_width));
  '(m, str) ← copy_text m str s len;
  '(m, str, _) ← pad m str 32 len field_width;
  Ok (m, str).

Definition put_char (m : mem) (str : Z) (args : list Z) (field_width : Z) (f : flags) : outcome (mem * Z * list Z) :=
  '(m, str, field_width) ← (if negb (left_align f) then pad_char m str field_width else Ok (m, str, field_width));
  '(a, args) ← va_arg args;
  '(m, str, _) ← pad_char (store8 m str (u8 a)) (str + 1) field_width;
  Ok (m, str, args).

Definition put_string (m : mem) (str : Z) (args : list Z) (precision field_width : Z) (f : flags) : outcome (mem * Z * list Z) :=
  '(s, args) ← va_arg args;
  let s := if s =? 0 then null_string else s in
  len ← strnlen m s (u32 precision);
  let len := i16 len in
  '(m, str, field_width) ← (if negb (left_align f) then pad m str 32 len field_width else Ok (m, str, field_width));
  '(m, str) ← copy_text m str s len;
  '(m, str, _) ← pad m str 32 len field_width;
  Ok (m, str, args).

(** A conversion, from the percent sign to its last character. *)
Definition conversion (st : pf_state) : outcome pf_state :=
  let '(mk_pf m str fmt args num) := st in
  '(fmt, f) ← read_flags fuel m fmt;
  '(field_width, fmt, args, la) ← read_width fuel m fmt args (left_align f);
  '(precision, fmt, args) ← read_precision fuel m fmt args;
  let fmt := if (load8 m fmt =? 104) || (load8 m fmt =? 108) || (load8 m fmt =? 76) then fmt + 1 else fmt in
  let f := mk_flags la (plus_sign f) (if la then false else zero_pad f) (space_sign f) in
  let c := load8 m fmt in
  if c =? 99 then '(m, str, args) ← put_char m str args field_width f; Ok (mk_pf m str fmt args num)
  else if c =? 115 then '(m, str, args) ← put_string m str args precision field_width f; Ok (mk_pf m str fmt args num)
  else if (c =? 112) || (c =? 120) || (c =? 88) then
    let '(field_width, f) :=
      if (c =? 112) && (field_width =? -1) then (2 * 4, mk_flags la (plus_sign f) true (space_sign f)) else (field_width, f) in
    let hexchars := if c =? 120 then _lowercase_hexchars else _uppercase_hexchars in
    let s := tmp_buffer + 11 in
    let m := store8 m s 0 in
    '(a, args) ← va_arg args;
    '(m, s) ← hex_digits m hexchars s (u32 a);
    '(m, str) ← put_number m str s 0 precision field_width (mk_flags la false (zero_pad f) (space_sign f));
    Ok (mk_pf m str fmt args 0)
  else if c =? 110 then
    '(ip, args) ← va_arg args;
    let n := u16 (str - buf) in
    Ok (mk_pf (store8 (store8 m ip (Z.shiftr n 8)) (ip + 1) n) str fmt args num)
  else if c =? 117 then
    let s := tmp_buffer + 11 in
    let m := store8 m s 0 in
    '(a, args) ← va_arg args;
    '(m, s) ← unsigned_digits m s (u32 a);
    '(m, str) ← put_number m str s 0 precision field_width (mk_flags la false (zero_pad f) (space_sign f));
    Ok (mk_pf m str fmt args 0)
  else if (c =? 100) || (c =? 105) then
    let s := tmp_buffer + 11 in
    let m := store8 m s 0 in
    '(a, args) ← va_arg args;
    let i := i32 a in
    '(m, s) ← signed_digits m s i;
    let num := if i <? 0 then 1 else 0 in
    '(m, str) ← put_number m str s num precision field_width f;
    Ok (mk_pf m str fmt args num)
  else if c =? 102 then
    '(a, args) ← va_arg args;
    '(m, _) ← fix16_str m (i32 a) tmp_buffer 7;
    '(m, str) ← put_number m str tmp_buffer num precision field_width f;
    Ok (mk_pf m str fmt args num)
  else Ok (mk_pf m str fmt args num).

(** A character of the format. *)
Definition format_char (st : pf_state) : outcome (pf_state + pf_state) :=
  let c := load8 (pf_mem st) (pf_fmt st) in
  if c =? 0 then Ok (inr st)
  else
    st ← (if negb (c =? 37) then
            Ok (mk_pf (store8 (pf_mem st) (pf_str st) c) (pf_str st + 1) (pf_fmt st) (pf_args st) (pf_num st))
          else conversion st);
    Ok (inl (mk_pf (pf_mem st) (pf_str st) (pf_fmt st + 1) (pf_args st) (pf_num st))).

Definition vsprintf (m : mem) (fmt : Z) (args : list Z) : outcome (mem * Z) :=
  st ← iter fuel format_char (mk_pf m buf fmt args 0);
  Ok (store8 (pf_mem st) (pf_str st) 0, i32 (pf_str st - buf)).

Definition sprintf (m : mem) (fmt : Z) (args : list Z) : outcome (mem * Z) :=
  '(m, i) ← vsprintf m fmt args;
  Ok (m, u16 i).

(** The size of the buffer is not used. *)
Definition snprintf (m : mem) (n fmt : Z) (args : list Z) : outcome (mem * Z) :=
  '(m, i) ← vsprintf m fmt args;
  Ok (m, u16 i).

End Vsprintf.
