(* ===== verification/StdioProof.v ===== *)
(** What [sprintf] writes for a number is what [strtol] reads. *)

From S2P Require Import Prelude Bits Memory MemCopyProof CStr CStrProof Fix16 Ctype Conv Stdio.
Import Search.

(** ** Digits in memory *)

Fixpoint digits_at (m : mem) (s : Z) (ds : list Z) : Prop :=
  match ds with
  | [] => True
  | d :: ds => load8 m s = 48 + d ∧ 0 ≤ d < 10 ∧ digits_at m (s + 1) ds
  end.

(** Two memories agree on a region. *)
Definition agree (m m' : mem) (a n : Z) : Prop := ∀ k, 0 ≤ k < n → load8 m' (a + k) = load8 m (a + k).

Lemma digits_at_move m m' s t ds : digits_at m s ds →
  (∀ k, 0 ≤ k < Z.of_nat (length ds) → load8 m' (t + k) = load8 m (s + k)) → digits_at m' t ds.
Proof.
  revert s t. induction ds as [|d ds IH]; intros s t Hd Hk; [done|]. destruct Hd as (Hd & Hr & Hds). cbn [length] in Hk.
  split; [|split; [done|]].
  - pose proof (Hk 0 ltac:(lia)) as E. rewrite !Z.add_0_r in E. by rewrite E.
  - apply (IH (s + 1)); [done|]. intros k Hk'. rewrite <- !Z.add_assoc. apply Hk. lia.
Qed.

Lemma digit_of_char d : 0 ≤ d < 10 → digit_of (48 + d) = Some d.
Proof.
  intros Hd. assert (in_u8 (48 + d)) as Hc by lia. unfold digit_of. rewrite isdigit_spec by done.
  destruct (Z.leb_spec 48 (48 + d)), (Z.leb_spec (48 + d) 57); try lia. cbn. f_equal. lia.
Qed.

Lemma digits_numeral m s ds : digits_at m s ds → load8 m (s + Z.of_nat (length ds)) = 0 → numeral m 10 s ds.
Proof.
  revert s. induction ds as [|d ds IH]; intros s Hd Hz; cbn [length numeral] in *.
  - rewrite Z.add_0_r in Hz. rewrite Hz. done.
  - destruct Hd as (E & Hr & Hds). rewrite E. split; [by apply digit_of_char|]. split; [done|].
    apply IH; [done|]. by replace (s + 1 + Z.of_nat (length ds)) with (s + Z.of_nat (S (length ds))) by lia.
Qed.

Lemma digits_nonzero m s ds k : digits_at m s ds → 0 ≤ k < Z.of_nat (length ds) → load8 m (s + k) ≠ 0.
Proof.
  revert s k. induction ds as [|d ds IH]; intros s k Hd Hk; cbn [length] in Hk; [lia|]. destruct Hd as (E & Hr & Hds).
  destruct (Z.eq_dec k 0) as [->|]; [rewrite Z.add_0_r; lia|].
  replace (s + k) with (s + 1 + (k - 1)) by lia. apply IH; [done | lia].
Qed.

(** ** The digits of a number *)

Section Digits.
Context (m0 : mem) (e i : Z).

(** The digits written so far, from [s] to [e], and what is left of the number. *)
Definition digits_inv (x : mem * Z * Z) : Prop :=
  let '(m, s, i') := x in
  ∃ ds, s = e - Z.of_nat (length ds) ∧ digits_at m s ds ∧ value_from 10 (Z.abs i') ds = Z.abs i ∧
    Z.abs i' < 10 ^ (10 - Z.of_nat (length ds)) ∧ 0 ≤ 10 - Z.of_nat (length ds) ∧
    (0 ≤ i → 0 ≤ i') ∧ (i < 0 → i' ≤ 0) ∧ (∀ a, a < s ∨ e ≤ a → load8 m a = load8 m0 a).

Lemma digit_char_value (i' : Z) : (0 ≤ i → 0 ≤ i') → (i < 0 → i' ≤ 0) →
  (if i <? 0 then 48 - Z.rem i' 10 else Z.rem i' 10 + 48) = 48 + Z.abs i' mod 10 ∧ Z.abs (Z.quot i' 10) = Z.abs i' / 10.
Proof.
  intros Hp Hn. destruct (Z.ltb_spec i 0).
  - specialize (Hn ltac:(lia)). assert (∃ j, i' = - j ∧ 0 ≤ j) as (j & -> & Hj) by (exists (- i'); lia).
    rewrite Z.rem_opp_l, Z.quot_opp_l, Z.abs_opp, (Z.abs_eq j), Z.rem_mod_nonneg, Z.quot_div_nonneg by lia.
    split; [lia|]. rewrite Z.abs_opp, Z.abs_eq; [done|]. apply Z.div_pos; lia.
  - specialize (Hp ltac:(lia)). rewrite (Z.abs_eq i') by done. rewrite Z.rem_mod_nonneg, Z.quot_div_nonneg by lia.
    split; [lia|]. apply Z.abs_eq, Z.div_pos; lia.
Qed.

Lemma digits_step m s i' : digits_inv (m, s, i') → i' ≠ 0 →
  digits_inv (store8 m (s - 1) (if i <? 0 then 48 - Z.rem i' 10 else Z.rem i' 10 + 48), s - 1, Z.quot i' 10).
Proof.
  intros (ds & Es & Hds & Hv & Hlt & Hl & Hp & Hn & Hm) Hi'. destruct (digit_char_value i' Hp Hn) as [-> Eq].
  pose proof (Z.mod_pos_bound (Z.abs i') 10 ltac:(lia)) as Hmod. pose proof (Z.div_mod (Z.abs i') 10 ltac:(lia)) as Hdm.
  assert (10 - Z.of_nat (length ds) ≠ 0) as Hne by (intros E; rewrite E in Hlt; cbn in Hlt; lia).
  exists (Z.abs i' mod 10 :: ds). cbn [length digits_at]. split_and!.
  - lia.
  - rewrite load8_store8_eq, wrapu_small by lia. done.
  - lia.
  - lia.
  - apply (digits_at_move m _ s); [done|]. intros k Hk. rewrite load8_store8_ne by lia. f_equal. lia.
  - rewrite Eq. change (value_from 10 (Z.abs i' / 10) (Z.abs i' mod 10 :: ds)) with (value_from 10 (Z.abs i' / 10 * 10 + Z.abs i' mod 10) ds).
    by replace (Z.abs i' / 10 * 10 + Z.abs i' mod 10) with (Z.abs i') by lia.
  - rewrite Eq. apply Z.div_lt_upper_bound; [lia|]. replace (10 - Z.of_nat (length ds)) with (1 + (10 - Z.of_nat (S (length ds)))) in Hlt by lia.
    rewrite Z.pow_add_r in Hlt by lia. lia.
  - lia.
  - intros H. specialize (Hp H). apply Z.quot_pos; lia.
  - intros H. specialize (Hn H). rewrite <- (Z.opp_involutive i'), Z.quot_opp_l by lia. pose proof (Z.quot_pos (- i') 10 ltac:(lia) ltac:(lia)). lia.
  - intros a Ha. rewrite load8_store8_ne by lia. apply Hm. lia.
Qed.

Lemma signed_digits_spec : - 2 ^ 31 ≤ i < 2 ^ 31 → yields (signed_digits m0 e i) (λ '(m, s), ∃ ds,
  ds ≠ [] ∧ Z.of_nat (length ds) ≤ 10 ∧ s = e - Z.of_nat (length ds) ∧ digits_at m s ds ∧ value_from 10 0 ds = Z.abs i ∧
  (∀ a, a < s ∨ e ≤ a → load8 m a = load8 m0 a)).
Proof.
  intros Hi. unfold signed_digits. destruct (Z.eqb_spec i 0) as [->|Hne].
  { cbn. exists [0]. cbn. split_and!; try done; [rewrite load8_store8_eq; done|].
    intros a Ha. apply load8_store8_ne. lia. }
  apply (iter_inv (λ x, digits_inv x ∧ (x.2 = 0 → x.1.2 ≠ e)) (λ x, Z.to_nat (x.1.2 - (e - 10)))).
  - split; [|cbn; lia]. exists []. cbn. split_and!; try done; lia.
  - cbn. lia.
  - intros [[m s] i'] [Hinv Hz]. cbn [fst snd] in *. destruct (Z.eqb_spec i' 0) as [->|Hi'].
    + destruct Hinv as (ds & Es & Hds & Hv & _ & Hl & _ & _ & Hm). cbn. exists ds. split_and!; try done; [|lia].
      intros ->. apply Hz; [done|]. cbn in Es. lia.
    + pose proof (digits_step m s i' Hinv Hi') as Hstep. cbn [yields]. split; [split; [done|]|].
      * cbn [fst snd]. destruct Hinv as (ds & -> & _). lia.
      * cbn [fst snd]. destruct Hstep as (ds & Es & _ & _ & _ & Hl & _). cbn in *. lia.
Qed.

End Digits.

(** ** Output *)

Definition apart (a n b k : Z) : Prop := a + n ≤ b ∨ b + k ≤ a.

Definition no_flags : flags := mk_flags false false false false.

Lemma pad_none m str c len w : w ≤ len → pad m str c len w = Ok (m, str, i16 (w - 1)).
Proof. intros Hw. unfold pad. replace (Z.to_nat (w - len)) with 0%nat by lia. cbn. destruct (Z.ltb_spec len w); [lia | done]. Qed.

Lemma copy_text_spec m str s len : 0 ≤ len → apart str len s len → yields (copy_text m str s len) (λ '(m', str'),
  str' = str + len ∧ (∀ k, 0 ≤ k < len → load8 m' (str + k) = load8 m (s + k)) ∧
  (∀ a, a < str ∨ str + len ≤ a → load8 m' a = load8 m a)).
Proof.
  intros Hl Ha. unfold copy_text. apply yields_bind.
  eapply yields_mono; [apply (for_up_inv (λ i m', (∀ k, 0 ≤ k < i → load8 m' (str + k) = load8 m (s + k)) ∧
    (∀ a, a < str ∨ str + i ≤ a → load8 m' a = load8 m a)))|].
  - split; [lia | done].
  - intros j m' Hj [Hin Hout]. cbn [yields]. split.
    + intros k Hk. rewrite load8_store8. destruct (decide (str + j = str + k)).
      * replace k with j by lia. rewrite wrapu_small by apply load8_range. apply Hout. unfold apart in Ha. lia.
      * apply Hin. lia.
    + intros a Ha'. rewrite load8_store8_ne by lia. apply Hout. lia.
  - intros m' [Hin Hout]. cbn. split; [lia|]. split.
    + intros k Hk. apply Hin. lia.
    + intros a Ha'. apply Hout. lia.
Qed.

Lemma strnlen_digits m s ds : 0 < s → digits_at m s ds → load8 m (s + Z.of_nat (length ds)) = 0 →
  Z.of_nat (length ds) ≤ 10 → strnlen m s (u32 (-1)) = Ok (Z.of_nat (length ds)).
Proof.
  intros Hs Hd Hz Hl. change (u32 (-1)) with 4294967295. apply strnlen_spec; [done|]. split; [lia|]. split.
  - intros k Hk. apply Z.eqb_neq. by eapply digits_nonzero.
  - intros _. by apply Z.eqb_eq.
Qed.

Lemma put_number_plain m str s num ds : 0 < s → digits_at m s ds → load8 m (s + Z.of_nat (length ds)) = 0 →
  Z.of_nat (length ds) ≤ 10 → apart str 11 s (Z.of_nat (length ds) + 1) →
  yields (put_number m str s num (-1) (-1) no_flags) (λ '(m', str'),
    let sign := if testz num then 1 else 0 in
    str' = str + sign + Z.of_nat (length ds) ∧ (testz num = true → load8 m' str = 45) ∧
    digits_at m' (str + sign) ds ∧ (∀ a, a < str ∨ str + sign + Z.of_nat (length ds) ≤ a → load8 m' a = load8 m a)).
Proof.
  intros Hs Hd Hz Hl Ha. unfold put_number. rewrite (strnlen_digits m s ds) by done. cbn [mbind outcome_bind].
  set (len := Z.of_nat (length ds)) in *. assert (0 ≤ len) by lia. rewrite (wraps_small 16 len) by lia.
  cbn [no_flags plus_sign space_sign left_align zero_pad negb].
  assert (∀ m1 str1 w, w ≤ len → i16 (w - 1) ≤ len → apart str1 len s len → (∀ k, 0 ≤ k ≤ len → load8 m1 (s + k) = load8 m (s + k)) →
    yields ('(m2, str2, w2) ← pad m1 str1 32 len w; '(m2, str2) ← copy_text m2 str2 s len; '(m2, str2, _) ← pad m2 str2 32 len w2; Ok (m2, str2))
      (λ '(m', str'), str' = str1 + len ∧ digits_at m' str1 ds ∧ (∀ a, a < str1 ∨ str1 + len ≤ a → load8 m' a = load8 m1 a))) as Htail.
  { intros m1 str1 w Hw Hw' Ha1 Hm1. rewrite pad_none by done. cbn [mbind outcome_bind]. apply yields_bind.
    eapply yields_mono; [by apply copy_text_spec|]. intros [m2 str2] (-> & Hin & Hout). rewrite pad_none by done.
    cbn. split; [done|]. split; [|done]. apply (digits_at_move m _ s); [done|]. intros k Hk. rewrite Hin by lia. apply Hm1. lia. }
  unfold apart in *. change (i16 (-1 - 1)) with (-2). destruct (testz num).
  - eapply yields_mono; [apply Htail; [lia | change (i16 (-2 - 1)) with (-3); lia | lia | intros k Hk; apply load8_store8_ne; lia]|].
    intros [m' str'] (-> & Hds & Hout). split; [lia|]. split.
    + intros _. rewrite Hout by lia. rewrite load8_store8_eq. done.
    + split; [done|]. intros a Ha'. rewrite Hout by lia. apply load8_store8_ne. lia.
  - eapply yields_mono; [apply Htail; [lia | change (i16 (-1 - 1)) with (-2); lia | lia | done]|].
    intros [m' str'] (-> & Hds & Hout). rewrite !Z.add_0_r. split; [done|]. split; [done|]. split; [done|].
    intros a Ha'. apply Hout. lia.
Qed.

(** The conversion "%d" of [n]. *)
Lemma conversion_d fuel tmp null buf m str fmt n args num : (0 < fuel)%nat → load8 m (fmt + 1) = 100 →
  - 2 ^ 31 ≤ n < 2 ^ 31 → 0 < tmp → apart str 11 tmp 16 →
  yields (conversion fuel tmp null buf (mk_pf m str fmt (n :: args) num)) (λ st, ∃ ds,
    let sign := if n <? 0 then 1 else 0 in
    ds ≠ [] ∧ Z.of_nat (length ds) ≤ 10 ∧ value_from 10 0 ds = Z.abs n ∧
    pf_str st = str + sign + Z.of_nat (length ds) ∧ pf_fmt st = fmt + 1 ∧ pf_args st = args ∧
    (n < 0 → load8 (pf_mem st) str = 45) ∧ digits_at (pf_mem st) (str + sign) ds ∧
    (∀ a, a < str ∨ str + sign + Z.of_nat (length ds) ≤ a → a < tmp ∨ tmp + 16 ≤ a → load8 (pf_mem st) a = load8 m a)).
Proof.
  intros Hf E Hn Htmp Ha. unfold conversion.
  assert (read_flags fuel m fmt = Ok (fmt + 1, no_flags)) as ->.
  { unfold read_flags. destruct fuel; [lia|]. cbn [iter]. by rewrite E. }
  cbn [mbind outcome_bind]. unfold read_width. rewrite E. change (isdigit 100) with false. cbn [Z.eqb Pos.eqb mbind outcome_bind].
  unfold read_precision. rewrite E. cbn [Z.eqb Pos.eqb mbind outcome_bind orb]. repeat (rewrite E; cbn [Z.eqb Pos.eqb orb va_arg mbind outcome_bind]).
  rewrite (wraps_small 32 n) by lia. apply yields_bind.
  eapply yields_mono; [apply (signed_digits_spec (store8 m (tmp + 11) 0) (tmp + 11) n); lia|].
  intros [m1 s] (ds & Hds & Hl & -> & Hd & Hv & Hm1). apply yields_bind. cbn [left_align no_flags plus_sign zero_pad space_sign].
  fold no_flags. assert (0 ≤ Z.of_nat (length ds)) by lia. unfold apart in Ha.
  eapply yields_mono; [apply (put_number_plain m1 str _ (if n <? 0 then 1 else 0) ds)|].
  - lia.
  - done.
  - replace (tmp + 11 - _ + _) with (tmp + 11) by lia. rewrite Hm1 by lia. rewrite load8_store8_eq. done.
  - done.
  - unfold apart. lia.
  - intros [m2 str2] (Estr & H45 & Hd2 & Hm2). cbn [yields]. exists ds.
    assert (testz (if n <? 0 then 1 else 0) = (n <? 0)) as Ez by (by destruct (n <? 0)). rewrite Ez in *.
    cbn [pf_str pf_fmt pf_args pf_mem]. split_and!; try done.
    + intros Hneg. apply H45. by apply Z.ltb_lt.
    + intros a Ha1 Ha2. rewrite Hm2 by lia. rewrite Hm1 by lia. apply load8_store8_ne. lia.
Qed.

(** ** Claims *)

(** C28: What [sprintf] writes for "%d" is read back by [strtol]: for every [int]
    the buffer holds a string of at most 11 characters, whose length is returned
    and which converts to the number; nothing else in memory changes but the
    local buffer of [vsprintf]. *)
Theorem sprintf_strtol_round_trip fuel tmp null buf fmt m n args : (2 ≤ fuel)%nat →
  load8 m fmt = 37 → load8 m (fmt + 1) = 100 → load8 m (fmt + 2) = 0 → - 2 ^ 31 ≤ n < 2 ^ 31 → 0 < tmp →
  apart buf 12 tmp 16 → apart fmt 3 tmp 16 → apart fmt 3 buf 12 →
  ∃ m' k, sprintf fuel tmp null buf m fmt (n :: args) = Ok (m', k) ∧ 1 ≤ k ≤ 11 ∧ cstring m' buf k ∧
    strtol 11 m' buf 0 10 = Ok (n, m') ∧
    (∀ a, apart a 1 buf (k + 1) → apart a 1 tmp 16 → load8 m' a = load8 m a).
Proof.
  intros Hf E0 E1 E2 Hn Htmp Hbt Hft Hfb. unfold apart in *. unfold sprintf, vsprintf.
  pose proof (conversion_d fuel tmp null buf m buf fmt n args 0 ltac:(lia) E1 Hn Htmp ltac:(unfold apart; lia)) as Hy.
  apply yields_Ok in Hy as (st & Est & ds & Hds & Hl & Hv & Estr & Efmt & _ & H45 & Hd & Hm).
  assert (1 ≤ Z.of_nat (length ds)) by (destruct ds; [done | cbn; lia]).
  set (sign := if n <? 0 then 1 else 0) in *. assert (0 ≤ sign ≤ 1) by (unfold sign; destruct (n <? 0); lia).
  set (st' := mk_pf (pf_mem st) (pf_str st) (pf_fmt st + 1) (pf_args st) (pf_num st)).
  assert (iter fuel (format_char fuel tmp null buf) (mk_pf m buf fmt (n :: args) 0) = Ok st') as ->.
  { destruct fuel as [|[|fuel']]; [lia..|]. set (fuel := S (S fuel')) in *. change (iter fuel) with (iter (A := pf_state) (B := pf_state) (S (S fuel'))).
    cbn [iter]. assert (format_char fuel tmp null buf (mk_pf m buf fmt (n :: args) 0) = Ok (inl st')) as ->.
    { unfold format_char. cbn [pf_mem pf_fmt]. rewrite E0. cbn [Z.eqb Pos.eqb negb]. by rewrite Est. }
    cbn [mbind outcome_bind]. unfold format_char, st'. cbn [pf_mem pf_fmt]. rewrite Efmt.
    replace (fmt + 1 + 1) with (fmt + 2) by lia. rewrite (Hm (fmt + 2)), E2 by lia. done. }
  cbn [mbind outcome_bind st' pf_mem pf_str].
  rewrite Estr. remember (sign + Z.of_nat (length ds)) as k eqn:Ek. replace (buf + sign + Z.of_nat (length ds) - buf) with k by lia.
  rewrite (wraps_small 32), (wrapu_small 16) by lia.
  set (m' := store8 (pf_mem st) (buf + sign + Z.of_nat (length ds)) 0).
  assert (load8 m' (buf + k) = 0) as Hz by (unfold m'; rewrite Ek, Z.add_assoc, load8_store8_eq; done).
  assert (digits_at m' (buf + sign) ds) as Hd'.
  { apply (digits_at_move (pf_mem st) _ (buf + sign)); [done|]. intros j Hj. apply load8_store8_ne. lia. }
  assert (n < 0 → load8 m' buf = 45) as H45' by (intros Hneg; unfold m'; rewrite load8_store8_ne by lia; auto).
  assert (cstring m' buf k) as Hstr.
  { split; [lia|]. split; [|by apply Z.eqb_eq]. intros j Hj. apply Z.eqb_neq. destruct (Z_lt_dec j sign).
    - assert (n < 0) by (unfold sign in *; destruct (Z.ltb_spec n 0); lia). replace j with 0 by lia. rewrite Z.add_0_r, H45' by done. done.
    - replace (buf + j) with (buf + sign + (j - sign)) by lia. eapply digits_nonzero; [done | lia]. }
  exists m', k. split; [done|]. split; [lia|]. split; [done|]. split.
  - rewrite (strtol_spec 11 m' buf 0 10 0 (if n <? 0 then Some true else None) ds); try done; try lia.
    + cbn [testz Z.eqb negb]. rewrite Hv. f_equal. f_equal. unfold signed. destruct (Z.ltb_spec n 0); lia.
    + rewrite Z.add_0_r. destruct (Z.ltb_spec n 0); [by apply H45' | done].
    + rewrite Z.add_0_r. replace (behind_sign buf _) with (buf + sign) by (unfold sign; destruct (n <? 0); cbn; lia).
      apply digits_numeral; [done|]. by rewrite <- Z.add_assoc, <- Ek.
  - intros a Ha1 Ha2. unfold m'. rewrite load8_store8_ne by lia. apply Hm; lia.
Qed.

(** A string at an address. *)
Definition string_at (a : Z) (text : list Z) : mem := list_to_map (zip (seqZ a (Z.of_nat (length text) + 1)) (text ++ [0])).

Lemma sprintf_strtol_round_trip_witness : ∃ m' k,
  sprintf 2 16384 0 12288 (string_at 8192 [37; 100]) 8192 [-42] = Ok (m', k) ∧ 1 ≤ k ≤ 11 ∧ cstring m' 12288 k ∧
    strtol 11 m' 12288 0 10 = Ok (-42, m') ∧
    (∀ a, apart a 1 12288 (k + 1) → apart a 1 16384 16 → load8 m' a = load8 (string_at 8192 [37; 100]) a).
Proof.
  apply (sprintf_strtol_round_trip 2 16384 0 12288 8192 (string_at 8192 [37; 100]) (-42) []);
    try reflexivity; unfold apart; lia.
Defined.

(** What a call leaves in the first bytes of the buffer at 12288, and its result. *)
Definition printed (fmt args : list Z) (n : Z) : outcome (list Z * Z) :=
  '(m, k) ← sprintf 8 16384 0 12288 (string_at 8192 fmt) 8192 args;
  Ok ((λ i, load8 m (12288 + i)) <$> seqZ 0 n, k).

(** A negative number in a field is written with its sign in front of the
    padding: for "%5d" and -42 the text is a minus sign, two blanks and 42, which
    [strtol] reads as 0. *)
Theorem sprintf_field_sign :
  printed [37; 53; 100] [-42] 6 = Ok ([45; 32; 32; 52; 50; 0], 5) ∧
  match sprintf 8 16384 0 12288 (string_at 8192 [37; 53; 100]) 8192 [-42] with
  | Ok (m, _) => match strtol 8 m 12288 0 10 with Ok (n, _) => n = 0 | Fault _ => False end
  | Fault _ => False
  end.
Proof. split; vm_compute; reflexivity. Qed.

(** "%%" prints nothing; "%f" behind a negative "%d" gets a minus sign of its
    own; and a call of [snprintf] writes as much as one of [sprintf]. *)
Lemma printed_percent : printed [37; 37; 65] [] 2 = Ok ([65; 0], 1).
Proof. vm_compute. reflexivity. Qed.

Lemma printed_stale_sign : printed [37; 100; 37; 102] [-1; 65536] 11 = Ok ([45; 49; 45; 49; 46; 48; 48; 48; 48; 48; 0], 10).
Proof. vm_compute. reflexivity. Qed.

Lemma snprintf_unbounded fuel tmp null buf m n fmt args :
  snprintf fuel tmp null buf m n fmt args = sprintf fuel tmp null buf m fmt args.
Proof. reflexivity. Qed.
