(* ===== verification/Crc.v ===== *)
(** The checksum of the cartridge protocol (lib/crc/crc.c): a CRC of eight bits by
    a table, compared with the division it stands for. *)

From S2P Require Import Prelude Bits Memory MemCopyProof.

Definition _crc_table : list Z :=
  [0; 7; 14; 9; 28; 27; 18; 21; 56; 63; 54; 49; 36; 35; 42; 45;
   112; 119; 126; 121; 108; 107; 98; 101; 72; 79; 70; 65; 84; 83; 90; 93;
   224; 231; 238; 233; 252; 251; 242; 245; 216; 223; 214; 209; 196; 195; 202; 205;
   144; 151; 158; 153; 140; 139; 130; 133; 168; 175; 166; 161; 180; 179; 186; 189;
   199; 192; 201; 206; 219; 220; 213; 210; 255; 248; 241; 246; 227; 228; 237; 234;
   183; 176; 185; 190; 171; 172; 165; 162; 143; 136; 129; 134; 147; 148; 157; 154;
   39; 32; 41; 46; 59; 60; 53; 50; 31; 24; 17; 22; 3; 4; 13; 10;
   87; 80; 89; 94; 75; 76; 69; 66; 111; 104; 97; 102; 115; 116; 125; 122;
   137; 142; 135; 128; 149; 146; 155; 156; 177; 182; 191; 184; 173; 170; 163; 164;
   249; 254; 247; 240; 229; 226; 235; 236; 193; 198; 207; 200; 221; 218; 211; 212;
   105; 110; 103; 96; 117; 114; 123; 124; 81; 86; 95; 88; 77; 74; 67; 68;
   25; 30; 23; 16; 5; 2; 11; 12; 33; 38; 47; 40; 61; 58; 51; 52;
   78; 73; 64; 71; 82; 85; 92; 91; 118; 113; 120; 127; 106; 109; 100; 99;
   62; 57; 48; 55; 34; 37; 44; 43; 6; 1; 8; 15; 26; 29; 20; 19;
   174; 169; 160; 167; 178; 181; 188; 187; 150; 145; 152; 159; 138; 141; 132; 131;
   222; 217; 208; 215; 194; 197; 204; 203; 230; 225; 232; 239; 250; 253; 244; 243].

(** A byte of the loop: the shifted value never survives the mask of eight bits. *)
Definition crc_step (crc_value b : Z) : outcome Z :=
  let tbl_idx := Z.land (Z.lxor (Z.shiftr crc_value 0) b) 255 in
  x ← arr_get _crc_table tbl_idx;
  Ok (Z.land (Z.lxor x (Z.shiftl crc_value 8)) 255).

Definition crc_calculate (m : mem) (buffer buffer_len : Z) : outcome Z :=
  crc_value ← for_up (Z.to_nat buffer_len) 0 (λ i crc_value, crc_step crc_value (load8 m (buffer + i))) 0;
  Ok (u8 (Z.lxor (Z.land crc_value 255) 0)).

(** ** The division

    The remainder of a polynomial over the field of two elements, bit by bit,
    by x^8 + x^2 + x + 1. *)
Definition crc_bit (c : Z) : Z := u8 (Z.lxor (Z.shiftl c 1) (if Z.testbit c 7 then 7 else 0)).
Definition crc_byte (c b : Z) : Z := Nat.iter 8 crc_bit (Z.lxor c b).
Definition crc_bytes (c : Z) (bs : list Z) : Z := foldl crc_byte c bs.

Lemma lxor_byte a b : in_u8 a → in_u8 b → in_u8 (Z.lxor a b).
Proof.
  intros Ha Hb. assert (0 ≤ Z.lxor a b) by (apply Z.lxor_nonneg; lia). split; [done|].
  destruct (Z.eq_dec (Z.lxor a b) 0) as [->|Hne]; [lia|]. apply (Z.log2_lt_pow2 _ 8); [lia|].
  pose proof (Z.log2_lxor a b ltac:(lia) ltac:(lia)).
  assert (∀ x, in_u8 x → Z.log2 x < 8) as Hlog.
  { intros x Hx. destruct (Z.eq_dec x 0) as [->|]; [cbn; lia|]. apply Z.log2_lt_pow2; lia. }
  pose proof (Hlog a Ha). pose proof (Hlog b Hb). lia.
Qed.

Lemma table_is_division c : in_u8 c → arr_get _crc_table c = Ok (crc_byte c 0) ∧ in_u8 (crc_byte c 0).
Proof.
  intros Hc. assert ((match arr_get _crc_table c with Ok x => x =? crc_byte c 0 | Fault _ => false end) &&
    (0 <=? crc_byte c 0) && (crc_byte c 0 <? 256) = true) as H
    by (revert c Hc; apply (all_bytes (λ c, _)); vm_compute; reflexivity).
  apply andb_prop in H as [H Hlt]. apply andb_prop in H as [H Hle].
  destruct (arr_get _crc_table c) as [x|]; [|done]. apply Z.eqb_eq in H as ->. split; [done|]. lia.
Qed.

Lemma crc_byte_lxor c b : crc_byte c b = crc_byte (Z.lxor c b) 0.
Proof. unfold crc_byte. by rewrite Z.lxor_0_r. Qed.

Lemma crc_byte_range c b : in_u8 c → in_u8 b → in_u8 (crc_byte c b).
Proof. intros Hc Hb. rewrite crc_byte_lxor. apply table_is_division. by apply lxor_byte. Qed.

Lemma crc_step_spec c b : in_u8 c → in_u8 b → crc_step c b = Ok (crc_byte c b).
Proof.
  intros Hc Hb. unfold crc_step. rewrite Z.shiftr_0_r. pose proof (lxor_byte c b Hc Hb) as Hx.
  rewrite (land_mask _ 8), Z.mod_small by lia. destruct (table_is_division _ Hx) as [-> Hr]. cbn [mbind outcome_bind].
  rewrite <- crc_byte_lxor in *. f_equal. rewrite (land_mask _ 8), Z.shiftl_mul_pow2 by lia.
  change (2 ^ 8) with 256 in *. apply Z.bits_inj'. intros i Hi. destruct (Z_lt_dec i 8).
  - rewrite (Z.mod_pow2_bits_low _ 8) by lia. rewrite Z.lxor_spec. change 256 with (2 ^ 8).
    rewrite Z.mul_pow2_bits_low by lia. apply xorb_false_r.
  - rewrite (Z.mod_pow2_bits_high _ 8) by lia. symmetry. apply (testbit_above _ 8); [done | lia].
Qed.

Opaque crc_byte.

Lemma crc_bytes_range bs c : in_u8 c → Forall (λ b, in_u8 b) bs → in_u8 (crc_bytes c bs).
Proof.
  revert c. induction bs as [|b bs IH]; intros c Hc Hbs; [done|]. inversion_clear Hbs as [|? ? Hb Hbs'].
  apply (IH (crc_byte c b)); [by apply crc_byte_range | done].
Qed.

Lemma crc_calculate_spec m a n : 0 ≤ n → crc_calculate m a n = Ok (crc_bytes 0 (bytes_at m a n)).
Proof.
  intros Hn. apply yields_eq. unfold crc_calculate. apply yields_bind.
  eapply yields_mono; [apply (for_up_inv (λ i c, c = crc_bytes 0 (bytes_at m a i)))|].
  - done.
  - intros j c Hj ->. rewrite crc_step_spec; [|apply crc_bytes_range; [lia | apply bytes_at_range] | apply load8_range].
    cbn [yields]. rewrite bytes_at_snoc by lia. unfold crc_bytes. rewrite foldl_app. cbn [foldl]. reflexivity.
  - intros c ->. cbn [yields]. rewrite Z.add_0_l, Z2Nat.id, Z.lxor_0_r by lia.
    pose proof (crc_bytes_range (bytes_at m a n) 0 ltac:(lia) (bytes_at_range m a n)) as Hr.
    rewrite (land_mask _ 8), Z.mod_small, (wrapu_small 8) by lia. done.
Qed.

(** ** What the checksum detects *)

Lemma crc_byte_inj c c' b b' : in_u8 c → in_u8 c' → in_u8 b → in_u8 b' →
  crc_byte c b = crc_byte c' b' → Z.lxor c b = Z.lxor c' b'.
Proof.
  intros Hc Hc' Hb Hb' E. rewrite crc_byte_lxor, (crc_byte_lxor c') in E.
  pose proof (lxor_byte c b Hc Hb) as Hx. pose proof (lxor_byte c' b' Hc' Hb') as Hx'.
  destruct (table_is_division _ Hx) as [E1 _]. destruct (table_is_division _ Hx') as [E2 _].
  rewrite <- E in E2. apply arr_get_Ok in E1 as [_ E1], E2 as [_ E2].
  assert (NoDup _crc_table) as Hnd by (apply (bool_decide_unpack _); vm_compute; done).
  pose proof (NoDup_lookup _ _ _ _ Hnd E1 E2). lia.
Qed.

Lemma lxor_cancel a b b' : Z.lxor a b = Z.lxor a b' → b = b'.
Proof. intros E. apply (f_equal (Z.lxor a)) in E. by rewrite <- !Z.lxor_assoc, Z.lxor_nilpotent, !Z.lxor_0_l in E. Qed.

Lemma crc_bytes_inj bs c c' : in_u8 c → in_u8 c' → Forall (λ b, in_u8 b) bs →
  crc_bytes c bs = crc_bytes c' bs → c = c'.
Proof.
  revert c c'. induction bs as [|b bs IH]; intros c c' Hc Hc' Hbs E; [done|]. inversion_clear Hbs as [|? ? Hb Hbs'].
  apply (IH (crc_byte c b) (crc_byte c' b)) in E; [|by apply crc_byte_range..|done].
  apply crc_byte_inj in E; [|done..]. rewrite (Z.lxor_comm c), (Z.lxor_comm c') in E. by apply lxor_cancel in E.
Qed.

(** A message followed by its checksum has the checksum zero. *)
Lemma crc_residue bs : Forall (λ b, in_u8 b) bs → crc_bytes 0 (bs ++ [crc_bytes 0 bs]) = 0.
Proof. intros _. unfold crc_bytes. rewrite foldl_app. cbn [foldl]. rewrite crc_byte_lxor, Z.lxor_nilpotent. vm_compute. reflexivity. Qed.

(** C37: The table gives the remainder of the division by x^8 + x^2 + x + 1 bit by
    bit, for every buffer; a buffer that ends in the checksum of what comes
    before has the checksum zero. *)
Theorem crc_is_division m buffer n : 0 ≤ n →
  crc_calculate m buffer n = Ok (crc_bytes 0 (bytes_at m buffer n)) ∧
  (crc_calculate m buffer n = Ok (load8 m (buffer + n)) → crc_calculate m buffer (n + 1) = Ok 0).
Proof.
  intros Hn. split; [by apply crc_calculate_spec|]. rewrite !crc_calculate_spec, bytes_at_snoc by lia.
  intros [= <-]. f_equal. apply crc_residue, bytes_at_range.
Qed.

Definition demo_packet : mem := list_to_map [(4096, 49); (4097, 50); (4098, 51); (4099, 192)].

Lemma crc_is_division_witness : crc_calculate demo_packet 4096 3 = Ok 192 ∧ crc_calculate demo_packet 4096 4 = Ok 0.
Proof. split; [vm_compute; reflexivity|]. apply (crc_is_division demo_packet 4096 3); [lia | vm_compute; reflexivity]. Defined.

(** C40: Any error inside a single byte changes the checksum: two buffers of the
    same length that differ in one byte have different ones. *)
Theorem crc_detects_byte m m' buffer n k : 0 ≤ k < n →
  load8 m (buffer + k) ≠ load8 m' (buffer + k) →
  (∀ i, 0 ≤ i < n → i ≠ k → load8 m (buffer + i) = load8 m' (buffer + i)) →
  crc_calculate m buffer n ≠ crc_calculate m' buffer n.
Proof.
  intros Hk Hne Heq. rewrite !crc_calculate_spec by lia. intros [= E].
  assert (∀ m, bytes_at m buffer n = bytes_at m buffer k ++ load8 m (buffer + k) :: ((λ i, load8 m (buffer + i)) <$> seqZ (k + 1) (n - k - 1))) as Hsplit.
  { intros m1. unfold bytes_at. replace n with (k + (n - k)) at 1 by lia. rewrite seqZ_app, fmap_app by lia. f_equal.
    rewrite Z.add_0_l, seqZ_cons by lia. cbn. by replace (Z.pred (n - k)) with (n - k - 1) by lia. }
  rewrite !Hsplit in E. unfold crc_bytes in E. rewrite !foldl_app in E. cbn [foldl] in E.
  assert (bytes_at m' buffer k = bytes_at m buffer k) as Epre.
  { apply list_fmap_ext. intros ? i Hi%list_elem_of_lookup_2%elem_of_seqZ. symmetry. apply Heq; lia. }
  assert (((λ i, load8 m' (buffer + i)) <$> seqZ (k + 1) (n - k - 1)) = ((λ i, load8 m (buffer + i)) <$> seqZ (k + 1) (n - k - 1))) as Epost.
  { apply list_fmap_ext. intros ? i Hi%list_elem_of_lookup_2%elem_of_seqZ. symmetry. apply Heq; lia. }
  rewrite Epre, Epost in E. fold (crc_bytes 0 (bytes_at m buffer k)) in E. set (c := crc_bytes 0 (bytes_at m buffer k)) in *.
  assert (in_u8 c) as Hc by (apply crc_bytes_range; [lia | apply bytes_at_range]).
  apply (crc_bytes_inj ((λ i, load8 m (buffer + i)) <$> seqZ (k + 1) (n - k - 1))) in E;
    [|apply crc_byte_range; [done | apply load8_range]..|apply Forall_fmap, Forall_forall; intros; apply load8_range].
  apply crc_byte_inj in E; [|done|done|apply load8_range..]. apply lxor_cancel in E. done.
Qed.

Lemma crc_detects_byte_witness :
  crc_calculate demo_packet 4096 3 ≠ crc_calculate (store8 demo_packet 4097 51) 4096 3.
Proof.
  apply (crc_detects_byte demo_packet (store8 demo_packet 4097 51) 4096 3 1); [lia | vm_compute; done|].
  intros i Hi Hne. symmetry. apply load8_store8_ne. lia.
Defined.
