(* ===== verification/Gdb.v ===== *)
(** The stub for the GDB debugger (common/gdb/gdb.c and sh2.inc): the packets of
    its protocol over a serial device, memory in hexadecimal, the registers, and
    breakpoints that replace instructions by traps.

    The device is the bytes still to be received and those sent; a run that waits
    for a byte that never comes ends with [OutOfFuel].  The list of breakpoints, a
    tail queue of blocks from the allocator, is a list of addresses and the
    instructions they had. *)

From S2P Require Import Prelude Bits Memory MemCopy.
Import Memcpy.

(** ** Registers *)

(** [cpu_registers_t]; [r] has 15 entries. *)
Record cpu_registers := mk_registers {
  r_sp : Z;
  r_regs : list Z;
  r_macl : Z;
  r_mach : Z;
  r_vbr : Z;
  r_gbr : Z;
  r_pr : Z;
  r_pc : Z;
  r_sr : Z;
}.

Definition set_r (l : list Z) (f : cpu_registers) : cpu_registers :=
  mk_registers (r_sp f) l (r_macl f) (r_mach f) (r_vbr f) (r_gbr f) (r_pr f) (r_pc f) (r_sr f).
Definition set_pc (v : Z) (f : cpu_registers) : cpu_registers :=
  mk_registers (r_sp f) (r_regs f) (r_macl f) (r_mach f) (r_vbr f) (r_gbr f) (r_pr f) v (r_sr f).

Definition _gdb_register_file_read (f : cpu_registers) (n : Z) : outcome (option Z) :=
  if n <? 15 then x ← arr_get (r_regs f) n; Ok (Some x)
  else if n =? 15 then Ok (Some (r_sp f))
  else if n =? 21 then Ok (Some (r_macl f))
  else if n =? 20 then Ok (Some (r_mach f))
  else if n =? 19 then Ok (Some (r_vbr f))
  else if n =? 18 then Ok (Some (r_gbr f))
  else if n =? 17 then Ok (Some (r_pr f))
  else if n =? 16 then Ok (Some (r_pc f))
  else if n =? 22 then Ok (Some (r_sr f))
  else Ok None.

(** The registers and whether there is one of this number. *)
Definition _gdb_register_file_write (f : cpu_registers) (n r : Z) : outcome (cpu_registers * bool) :=
  let '(mk_registers sp l macl mach vbr gbr pr pc sr) := f in
  if n <? 15 then l ← arr_set l n r; Ok (set_r l f, true)
  else if n =? 15 then Ok (mk_registers r l macl mach vbr gbr pr pc sr, true)
  else if n =? 21 then Ok (mk_registers sp l r mach vbr gbr pr pc sr, true)
  else if n =? 20 then Ok (mk_registers sp l macl r vbr gbr pr pc sr, true)
  else if n =? 19 then Ok (mk_registers sp l macl mach r gbr pr pc sr, true)
  else if n =? 18 then Ok (mk_registers sp l macl mach vbr r pr pc sr, true)
  else if n =? 17 then Ok (mk_registers sp l macl mach vbr gbr r pc sr, true)
  else if n =? 16 then Ok (set_pc r f, true)
  else if n =? 22 then Ok (mk_registers sp l macl mach vbr gbr pr pc r, true)
  else Ok (f, false).

(** ** Instructions *)

Definition GDB_TRAPA_VECTOR_NUMBER : Z := 32.
Definition CPU_SR_T_BIT_MASK : Z := 1.

Definition INSTRN_TRAPA (i : Z) : Z := Z.lor 49920 (Z.land i 255).

Definition OPCODE_BT (op : Z) : bool := Z.land op 65280 =? 35072.
Definition OPCODE_BTS (op : Z) : bool := Z.land op 65280 =? 36096.
Definition OPCODE_BF (op : Z) : bool := Z.land op 65280 =? 35584.
Definition OPCODE_BFS (op : Z) : bool := Z.land op 65280 =? 36608.
Definition OPCODE_8_DISP (op : Z) : Z :=
  if Z.land op 128 =? 0 then Z.land op 255 else Z.lor (Z.land op 255) 4294967040.
Definition OPCODE_BRA (op : Z) : bool := Z.land op 61440 =? 40960.
Definition OPCODE_BSR (op : Z) : bool := Z.land op 61440 =? 45056.
Definition OPCODE_12_DISP (op : Z) : Z :=
  if Z.land op 2048 =? 0 then Z.land op 4095 else Z.lor (Z.land op 4095) 4294963200.
Definition OPCODE_BRAF (op : Z) : bool := Z.land op 61695 =? 35.
Definition OPCODE_BRAF_M (op : Z) : Z := Z.shiftr (Z.land op 3840) 8.
Definition OPCODE_BSRF (op : Z) : bool := Z.land op 61695 =? 3.
Definition OPCODE_BSRF_M (op : Z) : Z := Z.land (Z.shiftr op 8) 15.
Definition OPCODE_JMP (op : Z) : bool := Z.land op 61695 =? 16427.
Definition OPCODE_JMP_M (op : Z) : Z := Z.land (Z.shiftr op 8) 15.
Definition OPCODE_JSR (op : Z) : bool := Z.land op 61695 =? 16395.
Definition OPCODE_JSR_M (op : Z) : Z := Z.land (Z.shiftr op 8) 15.
Definition OPCODE_RTS (op : Z) : bool := op =? 11.
Definition OPCODE_RTE (op : Z) : bool := op =? 43.
Definition OPCODE_TRAPA (op : Z) : bool := Z.land op 65280 =? 49920.
Definition OPCODE_TRAPA_IMM (op : Z) : Z := Z.land op 255.

(** A branch by a displacement: [pc + (disp << 1) + 4] in 32 bits. *)
Definition branch (pc disp : Z) : Z := u32 (pc + u32 (Z.shiftl disp 1) + 4).

(** [reg_file->r[m]]: the stack pointer, register 15, is not in the array. *)
Definition reg_m (f : cpu_registers) (m : Z) : outcome Z := arr_get (r_regs f) m.

Definition _calculate_pc (m : mem) (f : cpu_registers) : outcome Z :=
  opcode ← load16a m (r_pc f);
  let pc := u32 (r_pc f + 2) in
  if OPCODE_BT opcode || OPCODE_BTS opcode then
    Ok (if testz (Z.land (r_sr f) CPU_SR_T_BIT_MASK) then branch (r_pc f) (OPCODE_8_DISP opcode) else pc)
  else if OPCODE_BF opcode || OPCODE_BFS opcode then
    Ok (if Z.land (r_sr f) CPU_SR_T_BIT_MASK =? 0 then branch (r_pc f) (OPCODE_8_DISP opcode) else pc)
  else if OPCODE_BRA opcode || OPCODE_BSR opcode then Ok (branch (r_pc f) (OPCODE_12_DISP opcode))
  else if OPCODE_BRAF opcode then r ← reg_m f (OPCODE_BRAF_M opcode); Ok (u32 (r_pc f + r + 4))
  else if OPCODE_BSRF opcode then r ← reg_m f (OPCODE_BSRF_M opcode); Ok (u32 (r_pc f + r + 4))
  else if OPCODE_JMP opcode then reg_m f (OPCODE_JMP_M opcode)
  else if OPCODE_JSR opcode then reg_m f (OPCODE_JSR_M opcode)
  else if OPCODE_RTS opcode then Ok (r_pr f)
  else if OPCODE_RTE opcode then load32a m (r_sp f)
  else if OPCODE_TRAPA opcode then load32a m (u32 (r_vbr f + Z.shiftl (OPCODE_TRAPA_IMM opcode) 1))
  else Ok pc.

(** ** The state of the stub *)

Record bp := mk_bp { bp_addr : Z; bp_instruction : Z }.

Record gdb := mk_gdb {
  g_rx : list Z;
  g_tx : list Z;
  g_mem : mem;
  g_regs : cpu_registers;
  g_stepping : bool;
  g_bp_step : bp;
  g_bp_list : list bp;
}.

Definition set_rx (l : list Z) (s : gdb) : gdb :=
  mk_gdb l (g_tx s) (g_mem s) (g_regs s) (g_stepping s) (g_bp_step s) (g_bp_list s).
Definition set_tx (l : list Z) (s : gdb) : gdb :=
  mk_gdb (g_rx s) l (g_mem s) (g_regs s) (g_stepping s) (g_bp_step s) (g_bp_list s).
Definition set_mem (m : mem) (s : gdb) : gdb :=
  mk_gdb (g_rx s) (g_tx s) m (g_regs s) (g_stepping s) (g_bp_step s) (g_bp_list s).
Definition set_regs (f : cpu_registers) (s : gdb) : gdb :=
  mk_gdb (g_rx s) (g_tx s) (g_mem s) f (g_stepping s) (g_bp_step s) (g_bp_list s).
Definition set_step (b : bool) (x : bp) (s : gdb) : gdb :=
  mk_gdb (g_rx s) (g_tx s) (g_mem s) (g_regs s) b x (g_bp_list s).
Definition set_bps (l : list bp) (s : gdb) : gdb :=
  mk_gdb (g_rx s) (g_tx s) (g_mem s) (g_regs s) (g_stepping s) (g_bp_step s) l.

(** A loop in the state monad; its fuel is counted by the callers. *)
Definition iterM {S A B} (fuel : nat) (body : A → M S (A + B)) (a : A) : M S B := λ s,
  iter fuel (λ '(a, s), '(r, s) ← body a s; Ok (match r with inl a => inl (a, s) | inr b => inr (b, s) end)) (a, s).

Definition _gdb_putc (c : Z) : M gdb unit := modify (λ s, set_tx (g_tx s ++ [u8 c]) s).

Definition _gdb_getc : M gdb Z := λ s,
  match g_rx s with [] => Fault OutOfFuel | c :: rx => Ok (c, set_rx rx s) end.

(** ** Breakpoints (sh2.inc) *)

Definition _bp_list_empty (l : list bp) : bool := match l with [] => true | _ => false end.

Definition _bp_list_breakpoint_find (l : list bp) (addr : Z) : option bp := find (λ b, bp_addr b =? addr) l.

(** [TAILQ_REMOVE] of the breakpoint that was found at an address. *)
Fixpoint bp_list_remove (l : list bp) (addr : Z) : list bp :=
  match l with
  | [] => []
  | b :: l => if bp_addr b =? addr then l else b :: bp_list_remove l addr
  end.

Definition _bp_list_breakpoint_free (b : bp) : M gdb unit :=
  l ← gets g_bp_list;
  if _bp_list_empty l then mret tt else
  m ← gets g_mem;
  m ← lift (store16a m (bp_addr b) (bp_instruction b));
  modify (λ s, set_bps (bp_list_remove l (bp_addr b)) (set_mem m s)).

(** [alloc]: whether the allocator has a block for the breakpoint. *)
Definition _bp_list_breakpoint_add (alloc : bool) (addr : Z) : M gdb Z :=
  l ← gets g_bp_list;
  match _bp_list_breakpoint_find l addr with
  | Some _ => mret 0
  | None =>
      if negb alloc then mret (-1) else
      m ← gets g_mem;
      i ← lift (load16a m addr);
      m ← lift (store16a m addr (INSTRN_TRAPA GDB_TRAPA_VECTOR_NUMBER));
      _ ← modify (λ s, set_bps (l ++ [mk_bp addr i]) (set_mem m s));
      mret 0
  end.

Definition _gdb_remove_break (type addr kind : Z) : M gdb Z :=
  if addr =? 0 then mret (-1) else
  if type =? 0 then
    l ← gets g_bp_list;
    match _bp_list_breakpoint_find l addr with
    | None => mret (-1)
    | Some b => _ ← _bp_list_breakpoint_free b; mret 0
    end
  else mret (-1).

Definition _gdb_break (alloc : bool) (type addr kind : Z) : M gdb Z :=
  if addr =? 0 then mret (-1) else
  if type =? 0 then
    r ← _bp_list_breakpoint_add alloc addr;
    mret (if r <? 0 then -1 else 0)
  else mret (-1).

Definition _gdb_step (address : Z) : M gdb unit :=
  m ← gets g_mem;
  f ← gets g_regs;
  p ← (if testz address then mret address else lift (_calculate_pc m f));
  i ← lift (load16a m p);
  m ← lift (store16a m p (INSTRN_TRAPA GDB_TRAPA_VECTOR_NUMBER));
  modify (λ s, set_step true (mk_bp p i) (set_mem m s)).

Definition _gdb_monitor_entry : M gdb unit :=
  stepping ← gets g_stepping;
  l ← gets g_bp_list;
  if negb stepping && _bp_list_empty l then mret tt else
  f ← gets g_regs;
  let pc := u32 (r_pc f - 2) in
  _ ← modify (set_regs (set_pc pc f));
  m ← gets g_mem;
  m ← match _bp_list_breakpoint_find l pc with
      | Some b => lift (store16a m (bp_addr b) (bp_instruction b))
      | None => mret m
      end;
  _ ← modify (set_mem m);
  if stepping then
    x ← gets g_bp_step;
    m ← lift (store16a m (bp_addr x) (bp_instruction x));
    modify (λ s, set_step false (mk_bp 0 0) (set_mem m s))
  else mret tt.

(** ** Hexadecimal (gdb.c) *)

Definition _hex_digit_to_integer (h : Z) : Z :=
  if (97 <=? h) && (h <=? 102) then h - 97 + 10
  else if (48 <=? h) && (h <=? 57) then h - 48
  else if (65 <=? h) && (h <=? 70) then h - 65 + 10
  else 0.

Definition _low_nibble_to_hex (c : Z) : Z :=
  nth (Z.to_nat (Z.land c 15)) [48; 49; 50; 51; 52; 53; 54; 55; 56; 57; 65; 66; 67; 68; 69; 70] 0.

(** The value up to the delimiter, and the position behind it. *)
Definition _parse_unsigned_long (fuel : nat) (m : mem) (hargs delim : Z) : outcome (Z * Z) :=
  iter fuel (λ '(hargs, l),
    Ok (if i8 (load8 m hargs) =? delim then inr (l, hargs + 1)
        else inl (hargs + 1, u32 (u32 (Z.shiftl l 4) + _hex_digit_to_integer (i8 (load8 m hargs)))))) (hargs, 0).

(** [IS_POW_2_ALIGNED]: a unit of [n] bytes fits and is aligned. *)
Definition IS_POW_2_ALIGNED (n addr len : Z) : bool := (n <=? len) && (Z.land addr (n - 1) =? 0).

(** The size of the next unit. *)
Definition unit_size (addr len : Z) : Z :=
  if IS_POW_2_ALIGNED 4 addr len then 4 else if IS_POW_2_ALIGNED 2 addr len then 2 else 1.

(** [lc_t], a union: the bytes of a unit read at once, the first one highest. *)
Definition read_unit (m : mem) (addr n : Z) : outcome (list Z) :=
  if n =? 4 then
    v ← load32a m addr; Ok [Z.shiftr v 24; Z.land (Z.shiftr v 16) 255; Z.land (Z.shiftr v 8) 255; Z.land v 255]
  else if n =? 2 then v ← load16a m addr; Ok [Z.shiftr v 8; Z.land v 255]
  else Ok [load8 m addr].

Definition write_unit (m : mem) (addr : Z) (l : list Z) : outcome mem :=
  match l with
  | [a; b; c; d] => store32a m addr (Z.lor (Z.lor (Z.shiftl a 24) (Z.shiftl b 16)) (Z.lor (Z.shiftl c 8) d))
  | [a; b] => store16a m addr (Z.lor (Z.shiftl a 8) b)
  | [a] => Ok (store8 m addr a)
  | _ => Ok m
  end.

(** Two characters per byte. *)
Fixpoint put_hex (m : mem) (h_buf : Z) (l : list Z) : mem :=
  match l with
  | [] => m
  | c :: l =>
      let m := store8 m h_buf (_low_nibble_to_hex (Z.shiftr (i8 c) 4)) in
      let m := store8 m (h_buf + 1) (_low_nibble_to_hex (i8 c)) in
      put_hex m (h_buf + 2) l
  end.

Definition _mem_to_hex_buffer (m : mem) (addr h_buf len : Z) : outcome (mem * Z) :=
  iter (S (Z.to_nat len)) (λ '(m, addr, h_buf, len, ret_val),
    if 0 <? len then
      let n := unit_size addr len in
      l ← read_unit m addr n;
      Ok (inl (put_hex m h_buf l, u32 (addr + n), h_buf + 2 * n, len - n, ret_val + 2 * n))
    else Ok (inr (m, ret_val))) (m, addr, h_buf, len, 0).

(** The next [n] bytes of a string of hexadecimal digits. *)
Definition get_hex (m : mem) (buf n : Z) : list Z :=
  (λ i, let h := u8 (Z.shiftl (_hex_digit_to_integer (i8 (load8 m (buf + 2 * i)))) 4) in
        u8 (h + _hex_digit_to_integer (i8 (load8 m (buf + 2 * i + 1))))) <$> seqZ 0 n.

(** The memory and the address behind the region written. *)
Definition _hex_buffer_to_mem (m : mem) (buf addr len : Z) : outcome (mem * Z) :=
  iter (S (Z.to_nat len)) (λ '(m, buf, addr, len),
    if 0 <? len then
      let n := unit_size addr len in
      m ← write_unit m addr (get_hex m buf n);
      Ok (inl (m, buf + 2 * n, u32 (addr + n), len - n))
    else Ok (inr (m, addr))) (m, buf, addr, len).

(** ** Packets *)

Definition GDB_RX_BUF_LEN : Z := 512.

(** Sends [len] bytes from [buffer] and returns their sum. *)
Definition put_byte (x : Z * Z * Z) : M gdb (Z * Z * Z + Z) :=
  let '(buffer, len, sum) := x in
  if testz len then
    m ← gets g_mem;
    let c := i8 (load8 m buffer) in
    _ ← _gdb_putc c;
    mret (inl (buffer + 1, len - 1, u8 (sum + c)))
  else mret (inr sum).

Definition _put_buf (buffer len : Z) : M gdb Z := iterM (S (Z.to_nat len)) put_byte (buffer, len, 0).

(** The end of a packet, and whether it was acknowledged. *)
Definition put_checksum (csum : Z) : M gdb bool :=
  _ ← _gdb_putc 35;
  _ ← _gdb_putc (_low_nibble_to_hex (Z.shiftr csum 4));
  _ ← _gdb_putc (_low_nibble_to_hex csum);
  a ← _gdb_getc;
  mret (Z.land a 127 =? 43).

(** [do body while (not acknowledged)]: every round receives a byte. *)
Definition until_acknowledged (body : M gdb bool) : M gdb unit :=
  n ← gets (λ s, length (g_rx s));
  iterM (S n) (λ _, ok ← body; mret (if ok : bool then inr tt else inl tt)) tt.

Definition _put_packet (c buffer len : Z) : M gdb unit :=
  until_acknowledged (
    _ ← _gdb_putc 36;
    _ ← when (negb (c =? 0)) (_gdb_putc c);
    sum ← _put_buf buffer len;
    put_checksum (u8 (c + sum))).

(** Waits for the start of a packet. *)
Definition wait_start : M gdb unit :=
  n ← gets (λ s, length (g_rx s));
  iterM (S n) (λ _, ch ← _gdb_getc; mret (if Z.land ch 127 =? 36 then inr tt else inl tt)) tt.

(** A store into the receive buffer, an array of [GDB_RX_BUF_LEN]. *)
Definition rx_store (rx_buffer len ch : Z) : M gdb unit :=
  if len <? GDB_RX_BUF_LEN then modify (λ s, set_mem (store8 (g_mem s) (rx_buffer + len) ch) s) else raise OutOfBounds.

(** A byte of the data, or the number sign that ends it. *)
Definition read_byte (rx_buffer : Z) (x : Z * Z) : M gdb (Z * Z + Z * Z) :=
  let '(len, csum) := x in
  ch ← _gdb_getc;
  let ch := Z.land ch 127 in
  if ch =? 35 then mret (inr (len, csum)) else
  _ ← rx_store rx_buffer len ch;
  mret (inl (u16 (len + 1), u8 (csum + ch))).

(** The data: its length and sum. *)
Definition read_data (rx_buffer : Z) : M gdb (Z * Z) :=
  n ← gets (λ s, length (g_rx s));
  iterM (S n) (read_byte rx_buffer) (0, 0).

Definition _get_packet (rx_buffer : Z) : M gdb unit :=
  _ ← wait_start;
  '(len, csum) ← read_data rx_buffer;
  _ ← rx_store rx_buffer len 0;
  h ← _gdb_getc;
  let xmit_csum := u8 (_hex_digit_to_integer (Z.land h 127)) in
  l ← _gdb_getc;
  let xmit_csum := u8 (_hex_digit_to_integer (Z.land l 127) + Z.shiftl xmit_csum 4) in
  if negb (csum =? xmit_csum) then _gdb_putc 45 else
  _ ← _gdb_putc 43;
  m ← gets g_mem;
  assert_ (negb (load8 m (rx_buffer + 2) =? 58)).

(** ** Commands *)

Section Monitor.
(** The addresses of [buffer] and of the local variables: [r] at [frame] and
    [tx_buf] behind it; [ok_text] and [error_text] are those of the literals "OK"
    and "01". *)
Context (alloc : bool) (buffer frame ok_text error_text : Z).

Definition tx_buf : Z := frame + 4.

Definition _gdb_last_signal (sigval : Z) : M gdb unit :=
  _ ← modify (λ s, set_mem (store8 (store8 (g_mem s) tx_buf (_low_nibble_to_hex (Z.shiftr sigval 4)))
                                   (tx_buf + 1) (_low_nibble_to_hex sigval)) s);
  _put_packet 83 tx_buf 2.

(** The registers one after the other; the reply is their words in
    hexadecimal. *)
Definition _gdb_command_read_registers : M gdb unit :=
  until_acknowledged (
    _ ← _gdb_putc 36;
    csum ← iterM 24 (λ '(n, csum),
      f ← gets g_regs;
      r ← lift (_gdb_register_file_read f n);
      match r with
      | None => mret (inr csum)
      | Some r =>
          m ← gets g_mem;
          '(m, tx_len) ← lift (_mem_to_hex_buffer (store32 m frame r) frame tx_buf 4);
          _ ← modify (set_mem m);
          sum ← _put_buf tx_buf tx_len;
          mret (inl (n + 1, u8 (csum + sum)))
      end) (0, 0);
    put_checksum csum).

Definition _gdb_command_read_memory (address len : Z) : M gdb unit :=
  until_acknowledged (
    _ ← _gdb_putc 36;
    csum ← iterM (S (Z.to_nat len)) (λ '(i, csum),
      if i <? len then
        m ← gets g_mem;
        let r := load8 m (u32 (address + i)) in
        '(m, tx_len) ← lift (_mem_to_hex_buffer (store8 m frame r) frame tx_buf 1);
        _ ← modify (set_mem m);
        sum ← _put_buf tx_buf tx_len;
        mret (inl (i + 1, u8 (csum + sum)))
      else mret (inr csum)) (0, 0);
    put_checksum csum).

Definition put_ok : M gdb unit := _put_packet 0 ok_text 2.
Definition put_error : M gdb unit := _put_packet 69 error_text 2.

(** How the monitor ends: the program goes on, or the machine is reset. *)
Inductive monitor_exit :=
| Resume
| Reset_.

(** The addresses and numbers behind a command. *)
Definition parse (fuel : nat) (hargs delim : Z) : M gdb (Z * Z) :=
  m ← gets g_mem; lift (_parse_unsigned_long fuel m hargs delim).

Definition _gdb_command (fuel : nat) (sigval : Z) : M gdb (option monitor_exit) :=
  _ ← _get_packet buffer;
  m ← gets g_mem;
  let c := load8 m buffer in
  let hargs := buffer + 1 in
  if c =? 63 then _ ← _gdb_last_signal sigval; mret None
  else if (c =? 65) || (c =? 99) then mret (Some Resume)
  else if c =? 68 then _ ← put_ok; mret (Some Resume)
  else if c =? 103 then _ ← _gdb_command_read_registers; mret None
  else if c =? 107 then _ ← put_ok; mret (Some Reset_)
  else if c =? 109 then
    '(addr, hargs) ← parse fuel hargs 44;
    '(length, _) ← parse fuel hargs 0;
    _ ← _gdb_command_read_memory addr length; mret None
  else if c =? 77 then
    '(addr, hargs) ← parse fuel hargs 44;
    '(length, data) ← parse fuel hargs 58;
    m ← gets g_mem;
    '(m, _) ← lift (_hex_buffer_to_mem m data addr length);
    _ ← modify (set_mem m);
    _ ← put_ok; mret None
  else if c =? 80 then
    '(n, hargs) ← parse fuel hargs 61;
    m ← gets g_mem;
    '(m, _) ← lift (_hex_buffer_to_mem m hargs frame 4);
    _ ← modify (set_mem m);
    f ← gets g_regs;
    '(f, _) ← lift (_gdb_register_file_write f n (load32 m frame));
    _ ← modify (set_regs f);
    _ ← put_ok; mret None
  else if c =? 115 then
    '(addr, _) ← parse fuel hargs 0;
    _ ← _gdb_step addr; mret (Some Resume)
  else if c =? 83 then mret (Some Resume)
  else if c =? 122 then
    '(type, hargs) ← parse fuel hargs 44;
    '(addr, hargs) ← parse fuel hargs 44;
    '(kind, _) ← parse fuel hargs 0;
    error ← _gdb_remove_break type addr kind;
    _ ← (if error <? 0 then put_error else put_ok); mret None
  else if c =? 90 then
    '(type, hargs) ← parse fuel hargs 44;
    '(addr, hargs) ← parse fuel hargs 44;
    '(kind, _) ← parse fuel hargs 0;
    error ← _gdb_break alloc type addr kind;
    _ ← (if error <? 0 then put_error else put_ok); mret None
  else if (c =? 67) || (c =? 71) || (c =? 105) || (c =? 73) || (c =? 82) || (c =? 116) then mret None
  else _ ← _put_packet 0 0 0; mret None.

(** Every round receives at least a byte. *)
Definition gdb_monitor (fuel : nat) (sigval : Z) : M gdb monitor_exit :=
  _ ← _gdb_last_signal sigval;
  _ ← _gdb_monitor_entry;
  n ← gets (λ s, length (g_rx s));
  iterM (S n) (λ _, r ← _gdb_command fuel sigval;
    mret (match r with Some e => inr e | None => inl tt end)) tt.

End Monitor.
