(* ===== verification/GdbProof.v ===== *)
(** The stub's hexadecimal is read back as it was written, its packets arrive,
    and breakpoints leave the program they are set in as it was. *)

From S2P Require Import Prelude Bits Memory MemCopy MemCopyProof Gdb.
Import Memcpy.

(** ** Hexadecimal *)

(** The two characters of a byte. *)
Definition hex_high (c : Z) : Z := _low_nibble_to_hex (c / 16).
Definition hex_low (c : Z) : Z := _low_nibble_to_hex c.

Lemma hex_chars c : in_u8 c →
  u8 (_low_nibble_to_hex (Z.shiftr (i8 c) 4)) = hex_high c ∧ u8 (_low_nibble_to_hex (i8 c)) = hex_low c ∧
  u8 (u8 (Z.shiftl (_hex_digit_to_integer (i8 (hex_high c))) 4) + _hex_digit_to_integer (i8 (hex_low c))) = c.
Proof.
  intros Hc.
  assert ((u8 (_low_nibble_to_hex (Z.shiftr (i8 c) 4)) =? hex_high c) && (u8 (_low_nibble_to_hex (i8 c)) =? hex_low c) &&
    (u8 (u8 (Z.shiftl (_hex_digit_to_integer (i8 (hex_high c))) 4) + _hex_digit_to_integer (i8 (hex_low c))) =? c) = true) as H.
  { revert c Hc. apply (all_bytes (λ c, _)). vm_compute. reflexivity. }
  apply andb_prop in H as [H H3]. apply andb_prop in H as [H1 H2]. by rewrite !Z.eqb_eq in *.
Qed.

(** [k] bytes from [src] in [m0] stand in hexadecimal at [h] in [m]. *)
Definition hex_of (m0 : mem) (src : Z) (m : mem) (h k : Z) : Prop :=
  ∀ i, 0 ≤ i < k → load8 m (h + 2 * i) = hex_high (load8 m0 (src + i)) ∧ load8 m (h + 2 * i + 1) = hex_low (load8 m0 (src + i)).

Lemma put_hex_spec l m h : Forall (λ c, in_u8 c) l →
  (∀ i c, 0 ≤ i → l !! Z.to_nat i = Some c →
    load8 (put_hex m h l) (h + 2 * i) = hex_high c ∧ load8 (put_hex m h l) (h + 2 * i + 1) = hex_low c) ∧
  (∀ a, a < h ∨ h + 2 * Z.of_nat (length l) ≤ a → load8 (put_hex m h l) a = load8 m a).
Proof.
  revert m h. induction l as [|c l IH]; intros m h Hl; [done|]. inversion_clear Hl as [|? ? Hc Hl'].
  destruct (hex_chars c Hc) as (E1 & E2 & _). cbn [put_hex length].
  set (m1 := store8 (store8 m h _) (h + 1) _). destruct (IH m1 (h + 2) Hl') as [Hin Hout].
  split.
  - intros i x Hi Hx. destruct (Z.eq_dec i 0) as [->|].
    + injection Hx as <-. rewrite !Hout by lia. unfold m1. rewrite !Z.mul_0_r, !Z.add_0_r.
      rewrite load8_store8_eq, load8_store8_ne, load8_store8_eq by lia. done.
    + replace (Z.to_nat i) with (S (Z.to_nat (i - 1))) in Hx by lia.
      destruct (Hin (i - 1) x ltac:(lia) Hx) as [H1 H2]. replace (h + 2 * i) with (h + 2 + 2 * (i - 1)) by lia. done.
  - intros a Ha. rewrite Hout by lia. unfold m1. by rewrite !load8_store8_ne by lia.
Qed.

Lemma unit_size_cases addr len : 0 ≤ addr → 0 < len →
  (unit_size addr len = 4 ∧ addr mod 4 = 0 ∧ 4 ≤ len) ∨ (unit_size addr len = 2 ∧ addr mod 2 = 0 ∧ 2 ≤ len) ∨ unit_size addr len = 1.
Proof.
  intros Ha Hl. unfold unit_size, IS_POW_2_ALIGNED. change (4 - 1) with 3. change (2 - 1) with 1.
  rewrite (land_mask addr 2), (land_mask addr 1) by lia. change (2 ^ 2) with 4. change (2 ^ 1) with 2.
  destruct (Z.leb_spec 4 len), (Z.eqb_spec (addr mod 4) 0); cbn; [by left | | |];
    destruct (Z.leb_spec 2 len), (Z.eqb_spec (addr mod 2) 0); cbn; tauto.
Qed.

Lemma read_unit_spec m addr n :
  (n = 4 ∧ addr mod 4 = 0) ∨ (n = 2 ∧ addr mod 2 = 0) ∨ n = 1 →
  read_unit m addr n = Ok ((λ i, load8 m (addr + i)) <$> seqZ 0 n).
Proof.
  intros [(-> & Ha)|[(-> & Ha)| ->]]; unfold read_unit; cbn [Z.eqb Pos.eqb].
  - unfold load32a. rewrite Ha. cbn [Z.eqb mbind outcome_bind]. f_equal.
    pose proof (load8_range m addr). pose proof (load8_range m (addr + 1)). pose proof (load8_range m (addr + 2)). pose proof (load8_range m (addr + 3)).
    change (seqZ 0 4) with [0; 1; 2; 3]. cbn [fmap list_fmap]. rewrite Z.add_0_r.
    unfold load32. rewrite !Z.shiftr_div_pow2, !(land_mask _ 8) by lia. repeat f_equal; dlia.
  - unfold load16a. rewrite Ha. cbn [Z.eqb mbind outcome_bind]. f_equal.
    pose proof (load8_range m addr). pose proof (load8_range m (addr + 1)).
    change (seqZ 0 2) with [0; 1]. cbn [fmap list_fmap]. rewrite Z.add_0_r.
    unfold load16. rewrite Z.shiftr_div_pow2, (land_mask _ 8) by lia. repeat f_equal; dlia.
  - by rewrite <- (Z.add_0_r addr) at 1.
Qed.

(** An element at a small index. *)
Ltac at_index :=
  change (Z.to_nat 0) with 0%nat; change (Z.to_nat 1) with 1%nat; change (Z.to_nat 2) with 2%nat;
  change (Z.to_nat 3) with 3%nat; cbn [lookup list_lookup].

Lemma write_unit_spec m addr n l : Forall (λ c, in_u8 c) l → Z.of_nat (length l) = n →
  (n = 4 ∧ addr mod 4 = 0) ∨ (n = 2 ∧ addr mod 2 = 0) ∨ n = 1 →
  yields (write_unit m addr l) (λ m',
    (∀ i, 0 ≤ i < n → l !! Z.to_nat i = Some (load8 m' (addr + i))) ∧
    (∀ a, a < addr ∨ addr + n ≤ a → load8 m' a = load8 m a)).
Proof.
  intros Hl Hn [(-> & Ha)|[(-> & Ha)| ->]].
  - destruct l as [|a [|b [|c [|d [|]]]]]; cbn in Hn; try lia. cbn [write_unit]. rewrite !Forall_cons in Hl.
    destruct Hl as (Hra & Hrb & Hrc & Hrd & _). unfold store32a. rewrite Ha. cbn [Z.eqb yields].
    assert (Z.lor (Z.lor (Z.shiftl a 24) (Z.shiftl b 16)) (Z.lor (Z.shiftl c 8) d) = a * 2 ^ 24 + b * 2 ^ 16 + c * 2 ^ 8 + d) as ->.
    { assert (∀ x y, Z.lor (x * 2 ^ 16) (y * 2 ^ 16) = Z.lor x y * 2 ^ 16) as E
        by (intros; rewrite <- !Z.shiftl_mul_pow2, Z.shiftl_lor by lia; done).
      rewrite !Z.shiftl_mul_pow2 by lia. replace (a * 2 ^ 24) with (a * 2 ^ 8 * 2 ^ 16) by lia.
      rewrite E, (lor_add d c 8), (lor_add b a 8), (lor_add _ _ 16) by lia. lia. }
    split.
    + intros i Hi. assert (i = 0 ∨ i = 1 ∨ i = 2 ∨ i = 3) as [-> | [-> | [-> | ->]]] by lia; unfold store32; rewrite ?Z.add_0_r;
        repeat (rewrite load8_store8_ne by lia); rewrite load8_store8_eq; at_index; f_equal; unfold wrapu; dlia.
    + intros x Hx. unfold store32. by rewrite !load8_store8_ne by lia.
  - destruct l as [|a [|b [|]]]; cbn in Hn; try lia. cbn [write_unit]. rewrite !Forall_cons in Hl.
    destruct Hl as (Hra & Hrb & _). unfold store16a. rewrite Ha. cbn [Z.eqb yields].
    rewrite Z.shiftl_mul_pow2, (lor_add b a 8) by lia. unfold store16. rewrite Z.shiftr_div_pow2 by lia. split.
    + intros i Hi. assert (i = 0 ∨ i = 1) as [-> | ->] by lia; rewrite ?Z.add_0_r;
        repeat (rewrite load8_store8_ne by lia); rewrite load8_store8_eq; at_index; f_equal; unfold wrapu; dlia.
    + intros x Hx. by rewrite !load8_store8_ne by lia.
  - destruct l as [|a [|]]; cbn in Hn; try lia. rewrite Forall_singleton in Hl. cbn [write_unit yields]. split.
    + intros i Hi. replace i with 0 by lia. rewrite Z.add_0_r, load8_store8_eq, wrapu_small by lia. done.
    + intros x Hx. by rewrite load8_store8_ne by lia.
Qed.

(** The byte two characters stand for. *)
Definition hex_byte (m : mem) (buf : Z) : Z :=
  u8 (u8 (Z.shiftl (_hex_digit_to_integer (i8 (load8 m buf))) 4) + _hex_digit_to_integer (i8 (load8 m (buf + 1)))).

Lemma get_hex_spec m buf n : get_hex m buf n = (λ i, hex_byte m (buf + 2 * i)) <$> seqZ 0 n.
Proof. done. Qed.

Lemma get_hex_range m buf n : Forall (λ c, in_u8 c) (get_hex m buf n).
Proof. rewrite get_hex_spec. apply Forall_fmap, Forall_forall. intros i _. apply (wrapu_range 8). lia. Qed.

Lemma unit_size_bounds addr len : 0 ≤ addr → 0 < len → 1 ≤ unit_size addr len ≤ len ∧
  ((unit_size addr len = 4 ∧ addr mod 4 = 0) ∨ (unit_size addr len = 2 ∧ addr mod 2 = 0) ∨ unit_size addr len = 1).
Proof. intros Ha Hl. destruct (unit_size_cases addr len Ha Hl) as [(-> & ? & ?)|[(-> & ? & ?)| ->]]; split; auto; lia. Qed.

Lemma mem_to_hex_spec m addr h len : in_u32 addr → 0 ≤ len → addr + len ≤ 2 ^ 32 → addr + len ≤ h ∨ h + 2 * len ≤ addr →
  yields (_mem_to_hex_buffer m addr h len) (λ '(m', n), n = 2 * len ∧ hex_of m addr m' h len ∧
    (∀ a, a < h ∨ h + 2 * len ≤ a → load8 m' a = load8 m a)).
Proof.
  intros Ha Hl Hw Hd. unfold _mem_to_hex_buffer.
  apply (iter_inv (λ '(m', a, h', l, n), ∃ k, 0 ≤ k ≤ len ∧ a = u32 (addr + k) ∧ h' = h + 2 * k ∧ l = len - k ∧ n = 2 * k ∧
    hex_of m addr m' h k ∧ (∀ a, a < h ∨ h + 2 * k ≤ a → load8 m' a = load8 m a)) (λ '(_, _, _, l, _), Z.to_nat l)).
  - exists 0. rewrite wrapu_small by lia. split_and!; try done; try lia. intros i Hi. lia.
  - lia.
  - intros [[[[m' a] h'] l] n] (k & Hk & -> & -> & -> & -> & Hhex & Hout). destruct (Z.ltb_spec 0 (len - k)).
    2:{ cbn. replace k with len in * by lia. done. }
    rewrite (wrapu_small 32 (addr + k)) by lia. destruct (unit_size_bounds (addr + k) (len - k)) as [Hn Hcase]; [lia..|].
    set (n := unit_size (addr + k) (len - k)) in *. rewrite (read_unit_spec m' (addr + k) n) by done.
    cbn [mbind outcome_bind yields]. split; [|lia]. exists (k + n).
    set (l := (λ i, load8 m' (addr + k + i)) <$> seqZ 0 n).
    assert (Forall (λ c, in_u8 c) l) as Hlr by (apply Forall_fmap, Forall_forall; intros; apply load8_range).
    assert (Z.of_nat (length l) = n) as Hll by (unfold l; rewrite length_fmap, length_seqZ; lia).
    destruct (put_hex_spec l m' (h + 2 * k) Hlr) as [Hin Hout']. rewrite Hll in Hout'.
    split_and!; try lia; try (f_equal; lia).
    + intros i Hi. destruct (Z_lt_dec i k).
      * rewrite !Hout' by lia. apply Hhex. lia.
      * replace (h + 2 * i) with (h + 2 * k + 2 * (i - k)) by lia. apply Hin; [lia|]. unfold l.
        rewrite list_lookup_fmap, lookup_seqZ_lt by lia. cbn. rewrite Hout by lia. do 2 f_equal. lia.
    + intros x Hx. rewrite Hout' by lia. apply Hout. lia.
Qed.

Lemma hex_to_mem_spec m buf addr len : in_u32 addr → 0 ≤ len → addr + len ≤ 2 ^ 32 → addr + len ≤ buf ∨ buf + 2 * len ≤ addr →
  yields (_hex_buffer_to_mem m buf addr len) (λ '(m', e), e = u32 (addr + len) ∧
    (∀ i, 0 ≤ i < len → load8 m' (addr + i) = hex_byte m (buf + 2 * i)) ∧
    (∀ a, a < addr ∨ addr + len ≤ a → load8 m' a = load8 m a)).
Proof.
  intros Ha Hl Hw Hd. unfold _hex_buffer_to_mem.
  apply (iter_inv (λ '(m', b, a, l), ∃ k, 0 ≤ k ≤ len ∧ b = buf + 2 * k ∧ a = u32 (addr + k) ∧ l = len - k ∧
    (∀ i, 0 ≤ i < k → load8 m' (addr + i) = hex_byte m (buf + 2 * i)) ∧
    (∀ a, a < addr ∨ addr + k ≤ a → load8 m' a = load8 m a)) (λ '(_, _, _, l), Z.to_nat l)).
  - exists 0. rewrite wrapu_small by lia. split_and!; try done; lia.
  - lia.
  - intros [[[m' b] a] l] (k & Hk & -> & -> & -> & Hin & Hout). destruct (Z.ltb_spec 0 (len - k)).
    2:{ cbn. replace k with len in * by lia. done. }
    rewrite (wrapu_small 32 (addr + k)) by lia. destruct (unit_size_bounds (addr + k) (len - k)) as [Hn Hcase]; [lia..|].
    set (n := unit_size (addr + k) (len - k)) in *. apply yields_bind.
    eapply yields_mono; [apply (write_unit_spec m' (addr + k) n); [apply get_hex_range | unfold get_hex; rewrite length_fmap, length_seqZ; lia | done]|].
    intros m1 [Hin1 Hout1]. cbn [yields]. split; [|lia]. exists (k + n). split_and!; try lia; try (f_equal; lia).
    + intros i Hi. destruct (Z_lt_dec i k).
      * rewrite Hout1 by lia. apply Hin. lia.
      * specialize (Hin1 (i - k) ltac:(lia)). rewrite get_hex_spec, list_lookup_fmap, lookup_seqZ_lt in Hin1 by lia.
        injection Hin1 as Hin1. replace (addr + k + (i - k)) with (addr + i) in Hin1 by lia. rewrite <- Hin1.
        unfold hex_byte. rewrite !Hout by lia. do 4 f_equal; [do 3 f_equal; lia|]. do 2 f_equal. lia.
    + intros x Hx. rewrite Hout1 by lia. apply Hout. lia.
Qed.

Lemma hex_byte_of m0 src m h k i : hex_of m0 src m h k → 0 ≤ i < k → hex_byte m (h + 2 * i) = load8 m0 (src + i).
Proof.
  intros H Hi. destruct (H i Hi) as [H1 H2]. unfold hex_byte. rewrite H1, H2.
  by destruct (hex_chars (load8 m0 (src + i)) (load8_range _ _)) as (_ & _ & ->).
Qed.

(** ** The serial device *)

Lemma wp_iterM {S A B} (I : A → S → Prop) (measure : A → S → nat) (Q : B → S → Prop) fuel body a s :
  I a s → (measure a s < fuel)%nat →
  (∀ a s, I a s → wp (body a) s (λ r s', match r with inl a' => I a' s' ∧ (measure a' s' < measure a s)%nat | inr b => Q b s' end)) →
  wp (iterM fuel body a) s Q.
Proof.
  intros HI Hm Hb. unfold wp, iterM.
  enough (yields (iter fuel (λ '(a, s), '(r, s) ← body a s;
    Ok (match r with inl a => inl (a, s) | inr b => inr (b, s) end)) (a, s)) (λ x, Q x.1 x.2)) as Hy.
  { by destruct (iter _ _ _) as [[b s']|]. }
  apply (iter_inv (λ x, I x.1 x.2) (λ x, measure x.1 x.2)); [done | done|].
  intros [a' s'] HI'. specialize (Hb a' s' HI'). unfold wp in Hb. cbn [fst snd] in *.
  by destruct (body a' s') as [[[a''|b] s'']|].
Qed.

Lemma wp_putc c s Q : Q tt (set_tx (g_tx s ++ [u8 c]) s) → wp (_gdb_putc c) s Q.
Proof. done. Qed.

Lemma wp_getc c rx s Q : g_rx s = c :: rx → Q c (set_rx rx s) → wp _gdb_getc s Q.
Proof. intros E HQ. unfold wp, _gdb_getc. by rewrite E. Qed.

Lemma u8_i8 x y : u8 (x + i8 y) = u8 (x + y).
Proof. unfold wrapu, wraps. change (8 - 1) with 7. dlia. Qed.

Lemma u8_i8_0 y : u8 (i8 y) = u8 y.
Proof. exact (u8_i8 0 y). Qed.

(** The sum of bytes, and that sum at the width of the code. *)
Definition sumZ (l : list Z) : Z := foldr Z.add 0 l.
Definition checksum (l : list Z) : Z := u8 (sumZ l).

Lemma sumZ_snoc l x : sumZ (l ++ [x]) = sumZ l + x.
Proof. unfold sumZ. induction l as [|y l IH]; cbn [foldr app]; [|rewrite IH]; lia. Qed.

Lemma checksum_snoc l x : checksum (l ++ [x]) = u8 (checksum l + x).
Proof. unfold checksum. rewrite sumZ_snoc. unfold wrapu. dlia. Qed.

Lemma checksum_cons x l : checksum (x :: l) = u8 (x + checksum l).
Proof. unfold checksum, sumZ. cbn [foldr]. unfold wrapu. dlia. Qed.

Lemma checksum_range l : in_u8 (checksum l).
Proof. apply (wrapu_range 8). lia. Qed.

Lemma put_buf_spec buffer len s (Q : Z → gdb → Prop) : 0 ≤ len →
  Q (checksum (bytes_at (g_mem s) buffer len)) (set_tx (g_tx s ++ bytes_at (g_mem s) buffer len) s) →
  wp (_put_buf buffer len) s Q.
Proof.
  intros Hl HQ. unfold _put_buf.
  apply (wp_iterM (λ '(b, l, sum) s', ∃ k, 0 ≤ k ≤ len ∧ b = buffer + k ∧ l = len - k ∧
    sum = checksum (bytes_at (g_mem s) buffer k) ∧ s' = set_tx (g_tx s ++ bytes_at (g_mem s) buffer k) s) (λ '(_, l, _) _, Z.to_nat l)).
  - exists 0. split_and!; try done; try lia. unfold bytes_at. cbn. rewrite app_nil_r. by destruct s.
  - lia.
  - intros [[b l] sum] s' (k & Hk & -> & -> & -> & ->). cbn [put_byte]. destruct (testz (len - k)) eqn:E.
    + apply testz_true in E. wp_steps. apply wp_putc. wp_steps. split; [|lia]. exists (k + 1).
      cbn [set_tx g_mem g_tx]. rewrite bytes_at_snoc by lia. split_and!; try lia.
      * by rewrite u8_i8, checksum_snoc.
      * rewrite app_assoc. unfold set_tx. cbn. repeat f_equal. rewrite u8_i8_0, wrapu_small; [done | apply load8_range].
    + apply testz_false in E. wp_steps. replace k with len in * by lia. done.
Qed.

(** ** Packets *)

(** A packet on the wire. *)
Definition packet (payload : list Z) : list Z :=
  36 :: payload ++ [35; _low_nibble_to_hex (Z.shiftr (checksum payload) 4); _low_nibble_to_hex (checksum payload)].

(** The two digits of a checksum are seven-bit characters, and are read back. *)
Lemma checksum_digits c : in_u8 c →
  let h := _low_nibble_to_hex (Z.shiftr c 4) in let l := _low_nibble_to_hex c in
  u8 h = h ∧ u8 l = l ∧
  u8 (_hex_digit_to_integer (Z.land l 127) + Z.shiftl (u8 (_hex_digit_to_integer (Z.land h 127))) 4) = c.
Proof.
  intros Hc. cbv zeta.
  assert ((u8 (_low_nibble_to_hex (Z.shiftr c 4)) =? _low_nibble_to_hex (Z.shiftr c 4)) && (u8 (_low_nibble_to_hex c) =? _low_nibble_to_hex c) &&
    (u8 (_hex_digit_to_integer (Z.land (_low_nibble_to_hex c) 127) + Z.shiftl (u8 (_hex_digit_to_integer (Z.land (_low_nibble_to_hex (Z.shiftr c 4)) 127))) 4) =? c) = true) as H.
  { revert c Hc. apply (all_bytes (λ c, _)). vm_compute. reflexivity. }
  apply andb_prop in H as [H H3]. apply andb_prop in H as [H1 H2]. by rewrite !Z.eqb_eq in *.
Qed.

Lemma wp_until_acknowledged body s (Q : unit → gdb → Prop) :
  wp body s (λ ok s', ok = true ∧ Q tt s') → wp (until_acknowledged body) s Q.
Proof.
  intros H. unfold until_acknowledged. wp_steps. unfold wp, iterM in *. cbn [iter]. unfold mbind, M_bind, outcome_bind in *.
  destruct (body s) as [[ok s']|]; [|done]. by destruct H as [-> H].
Qed.

Lemma put_checksum_spec csum a rx s (Q : bool → gdb → Prop) : in_u8 csum → g_rx s = a :: rx →
  Q (Z.land a 127 =? 43)
    (set_rx rx (set_tx (g_tx s ++ [35; _low_nibble_to_hex (Z.shiftr csum 4); _low_nibble_to_hex csum]) s)) →
  wp (put_checksum csum) s Q.
Proof.
  intros Hc Hrx HQ. destruct (checksum_digits csum Hc) as (E1 & E2 & _). unfold put_checksum.
  wp_steps. apply wp_putc. wp_steps. apply wp_putc. wp_steps. apply wp_putc. wp_steps. apply (wp_getc a rx); [done|]. wp_steps.
  rewrite E1, E2. unfold set_rx, set_tx in *. cbn in *. by rewrite <- !app_assoc in *.
Qed.

(** The payload of a packet with the command character [c]. *)
Definition payload (m : mem) (c buffer len : Z) : list Z := (if c =? 0 then [] else [c]) ++ bytes_at m buffer len.

Lemma put_packet_spec c buffer len a rx s (Q : unit → gdb → Prop) :
  in_u8 c → 0 ≤ len → g_rx s = a :: rx → Z.land a 127 = 43 →
  Q tt (set_rx rx (set_tx (g_tx s ++ packet (payload (g_mem s) c buffer len)) s)) →
  wp (_put_packet c buffer len) s Q.
Proof.
  intros Hc Hl Hrx Ha HQ. unfold _put_packet. apply wp_until_acknowledged. wp_steps. apply wp_putc. wp_steps.
  assert (∀ s', g_rx s' = a :: rx → g_tx s' = g_tx s ++ 36 :: (if c =? 0 then [] else [c]) → g_mem s' = g_mem s → set_tx (g_tx s) s' = s →
    wp (_put_buf buffer len) s' (λ sum s1, wp (put_checksum (u8 (c + sum))) s1 (λ ok s2, ok = true ∧ Q tt s2))) as Hrest.
  { intros s' Hrx' Htx Hm Hs. apply put_buf_spec; [done|].
    replace (u8 (c + checksum (bytes_at (g_mem s') buffer len))) with (checksum (payload (g_mem s) c buffer len)).
    - apply (put_checksum_spec _ a rx); [apply checksum_range | done|]. rewrite Ha. split; [done|].
      destruct s, s'; unfold set_rx, set_tx, packet, payload in *; cbn in *. injection Hs as -> -> -> -> -> ->. subst.
      rewrite <- !app_assoc in *. cbn in *. by rewrite <- ?app_assoc in *.
    - unfold payload. rewrite Hm. case_cmp; subst; cbn [app]; [|by rewrite checksum_cons].
      symmetry. apply wrapu_small, checksum_range. }
  destruct (c =? 0) eqn:E; cbn [negb when]; wp_steps.
  - apply Hrest; try done. by destruct s.
  - apply wp_putc. rewrite (wrapu_small 8 c) by done. wp_steps. apply Hrest; try done; [|by destruct s].
    cbn [set_tx g_tx]. by rewrite <- app_assoc.
Qed.

(** Bytes the receiver takes as data: seven bits wide and not the number sign. *)
Definition plain (c : Z) : Prop := 0 ≤ c < 128 ∧ c ≠ 35.

Lemma plain_land c : plain c → Z.land c 127 = c.
Proof. intros [Hc _]. change 127 with (Z.ones 7). rewrite Z.land_ones by lia. apply Z.mod_small. lia. Qed.

Lemma wp_wait_start rx s (Q : unit → gdb → Prop) : g_rx s = 36 :: rx → Q tt (set_rx rx s) → wp wait_start s Q.
Proof.
  intros Hrx HQ. unfold wait_start. wp_steps. unfold wp, iterM. cbn [iter]. unfold _gdb_getc, mbind, M_bind, outcome_bind. by rewrite Hrx.
Qed.

Lemma read_data_spec B l rx s (Q : Z * Z → gdb → Prop) :
  Forall plain l → Z.of_nat (length l) ≤ GDB_RX_BUF_LEN → g_rx s = l ++ 35 :: rx →
  Q (Z.of_nat (length l), checksum l) (set_rx rx (set_mem (store_bytes (g_mem s) B l) s)) →
  wp (read_data B) s Q.
Proof.
  unfold GDB_RX_BUF_LEN. intros Hl Hn Hrx HQ. unfold read_data. wp_steps.
  apply (wp_iterM (λ '(len, csum) s', ∃ l1 l2, l = l1 ++ l2 ∧ len = Z.of_nat (length l1) ∧ csum = checksum l1 ∧
    s' = set_rx (l2 ++ 35 :: rx) (set_mem (store_bytes (g_mem s) B l1) s)) (λ _ s', length (g_rx s'))).
  - exists [], l. rewrite <- Hrx. split_and!; try done. by destruct s.
  - lia.
  - intros [len csum] s' (l1 & l2 & El & -> & -> & ->). subst l. cbn [read_byte]. wp_steps. destruct l2 as [|c l2].
    + eapply wp_getc; [done|]. rewrite app_nil_r in *. wp_steps. done.
    + rewrite Forall_app, Forall_cons, length_app in *. cbn [length] in *. destruct Hl as (_ & Hc & _).
      apply (wp_getc c (l2 ++ 35 :: rx)); [done|]. rewrite (plain_land c Hc). destruct Hc as [Hc Hc35].
      apply Z.eqb_neq in Hc35 as ->. wp_steps. unfold rx_store, GDB_RX_BUF_LEN.
      destruct (Z.ltb_spec (Z.of_nat (length l1)) 512); [|lia]. wp_steps. split; [|cbn; lia].
      exists (l1 ++ [c]), l2. rewrite <- app_assoc, length_app, checksum_snoc, store_bytes_snoc. cbn [length app].
      split_and!; try done. rewrite wrapu_small; lia.
Qed.

(** What the two characters behind the number sign say. *)
Definition sent_checksum (h l : Z) : Z :=
  u8 (_hex_digit_to_integer (Z.land l 127) + Z.shiftl (u8 (_hex_digit_to_integer (Z.land h 127))) 4).

(** The receive buffer after a payload, and the state after a packet. *)
Definition received (B : Z) (l : list Z) (m : mem) : mem := store_bytes m B (l ++ [0]).
Definition after_packet (B : Z) (l rest : list Z) (reply : Z) (s : gdb) : gdb :=
  set_rx rest (set_tx (g_tx s ++ [reply]) (set_mem (received B l (g_mem s)) s)).

Lemma get_packet_spec B l h d rest s (Q : unit → gdb → Prop) :
  Forall plain l → Z.of_nat (length l) < GDB_RX_BUF_LEN → g_rx s = 36 :: l ++ 35 :: h :: d :: rest →
  let good := checksum l =? sent_checksum h d in
  (good = true → load8 (received B l (g_mem s)) (B + 2) ≠ 58) →
  Q tt (after_packet B l rest (if good then 43 else 45) s) →
  wp (_get_packet B) s Q.
Proof.
  intros Hl Hn Hrx good Hseq HQ. unfold _get_packet. wp_steps. eapply wp_wait_start; [done|]. wp_steps.
  eapply (read_data_spec B l); [done | lia | done|]. wp_steps. unfold rx_store. rewrite (proj2 (Z.ltb_lt _ _) Hn). wp_steps.
  eapply wp_getc; [done|]. wp_steps. eapply wp_getc; [done|]. wp_steps. fold (sent_checksum h d). fold good.
  destruct good; cbn [negb]; wp_steps; apply wp_putc; wp_steps.
  - cbn. unfold received in Hseq. rewrite store_bytes_snoc in Hseq. by rewrite (proj2 (Z.eqb_neq _ _) (Hseq eq_refl)).
  - unfold after_packet, received in HQ. by rewrite store_bytes_snoc in HQ.
  - unfold after_packet, received in HQ. by rewrite store_bytes_snoc in HQ.
Qed.

Lemma received_in B l m i c : Forall plain l → 0 ≤ i → l !! Z.to_nat i = Some c → load8 (received B l m) (B + i) = c.
Proof.
  intros Hl Hi Hc. pose proof (Forall_lookup_1 _ _ _ _ Hl Hc) as [Hr _]. unfold received.
  rewrite (store_bytes_in _ _ _ i c); [|lia|by apply lookup_app_l_Some]. apply wrapu_small. lia.
Qed.

Lemma received_end B l m : load8 (received B l m) (B + Z.of_nat (length l)) = 0.
Proof.
  unfold received. rewrite (store_bytes_in _ _ _ _ 0); [done | lia|]. by rewrite Nat2Z.id, list_lookup_middle.
Qed.

Lemma bytes_at_received B l m : Forall plain l → bytes_at (received B l m) B (Z.of_nat (length l)) = l.
Proof.
  intros Hl. unfold bytes_at. apply list_eq. intros i. rewrite list_lookup_fmap. destruct (l !! i) as [c|] eqn:E.
  - pose proof (lookup_lt_Some _ _ _ E). rewrite lookup_seqZ_lt by lia. cbn. f_equal.
    apply received_in; [done | lia|]. by replace (Z.to_nat (0 + Z.of_nat i)) with i by lia.
  - apply lookup_ge_None in E. by rewrite lookup_seqZ_ge by lia.
Qed.

(** ** Claims on the wire *)

(** C30: A block of memory that [_mem_to_hex_buffer] has written out in
    hexadecimal is read back by [_hex_buffer_to_mem] byte for byte, at any
    address that does not overlap the text, and nothing outside the text and the
    target changes. Both directions choose between words, halfwords and bytes by
    the alignment of each address. *)
Theorem gdb_hex_round_trip m addr h dst len :
  in_u32 addr → in_u32 dst → 0 ≤ len → addr + len ≤ 2 ^ 32 → dst + len ≤ 2 ^ 32 →
  (addr + len ≤ h ∨ h + 2 * len ≤ addr) → (dst + len ≤ h ∨ h + 2 * len ≤ dst) →
  yields (a ← _mem_to_hex_buffer m addr h len; _hex_buffer_to_mem a.1 h dst len) (λ '(m', e),
    e = u32 (dst + len) ∧ (∀ i, 0 ≤ i < len → load8 m' (dst + i) = load8 m (addr + i)) ∧
    (∀ x, x < h ∨ h + 2 * len ≤ x → x < dst ∨ dst + len ≤ x → load8 m' x = load8 m x)).
Proof.
  intros Ha Hd Hl Hw1 Hw2 Hd1 Hd2. apply yields_bind. eapply yields_mono; [by apply mem_to_hex_spec|].
  intros [m1 n] (_ & Hhex & Hout). cbn [fst]. eapply yields_mono; [by apply hex_to_mem_spec|].
  intros [m2 e] (He & Hin2 & Hout2). split_and!; [done | |].
  - intros i Hi. rewrite Hin2 by done. by apply (hex_byte_of m addr m1 h len).
  - intros x Hx Hx'. rewrite Hout2 by done. by apply Hout.
Qed.

Definition wire_memory : mem := <[4097 := 200]> (<[4098 := 17]> (<[4099 := 255]> ∅)).

Lemma gdb_hex_round_trip_witness :
  yields (a ← _mem_to_hex_buffer wire_memory 4097 8192 7; _hex_buffer_to_mem a.1 8192 4098 7) (λ '(m', e),
    e = u32 (4098 + 7) ∧ (∀ i, 0 ≤ i < 7 → load8 m' (4098 + i) = load8 wire_memory (4097 + i)) ∧
    (∀ x, x < 8192 ∨ 8192 + 2 * 7 ≤ x → x < 4098 ∨ 4098 + 7 ≤ x → load8 m' x = load8 wire_memory x)).
Proof. apply (gdb_hex_round_trip wire_memory 4097 8192 4098 7); lia. Defined.

(** C29: A packet that [_put_packet] sends arrives: fed the bytes on the wire,
    [_get_packet] stores the payload with a terminator in its buffer, accepts the
    checksum, answers '+' and consumes no more than the packet. The payload must be
    seven-bit characters without '#', shorter than the buffer, with no ':' as its
    third character. *)
Theorem gdb_packet_arrives c buffer len a rx B rest s s2 :
  let l := payload (g_mem s) c buffer len in
  in_u8 c → 0 ≤ len → g_rx s = a :: rx → Z.land a 127 = 43 → g_tx s = [] →
  Forall plain l → Z.of_nat (length l) < GDB_RX_BUF_LEN → g_rx s2 = packet l ++ rest →
  load8 (received B l (g_mem s2)) (B + 2) ≠ 58 →
  wp (_put_packet c buffer len) s (λ _ s1, g_tx s1 = packet l ∧ g_mem s1 = g_mem s ∧ g_rx s1 = rx) ∧
  wp (_get_packet B) s2 (λ _ s3, bytes_at (g_mem s3) B (Z.of_nat (length l)) = l ∧
    load8 (g_mem s3) (B + Z.of_nat (length l)) = 0 ∧ g_tx s3 = g_tx s2 ++ [43] ∧ g_rx s3 = rest).
Proof.
  intros l Hc Hl Hrx Ha Htx Hp Hn Hrx2 Hseq. split.
  - eapply put_packet_spec; [done..|]. cbn. by rewrite Htx.
  - destruct (checksum_digits (checksum l) (checksum_range l)) as (_ & _ & E).
    eapply (get_packet_spec B l); [done | done | | |].
    + rewrite Hrx2. unfold packet. cbn [app]. by rewrite <- app_assoc.
    + done.
    + unfold sent_checksum. rewrite E, Z.eqb_refl. cbn [after_packet set_rx set_tx set_mem g_mem g_tx g_rx].
      split_and!; [by apply bytes_at_received | by apply received_end | done | done].
Qed.

Definition idle_registers : cpu_registers := mk_registers 0 (replicate 15 0) 0 0 0 0 0 0 0.
Definition idle (rx : list Z) (m : mem) : gdb := mk_gdb rx [] m idle_registers false (mk_bp 0 0) [].
Definition ok_memory : mem := <[4096 := 79]> (<[4097 := 75]> ∅).

Lemma gdb_packet_arrives_witness :
  wp (_put_packet 0 4096 2) (idle [43] ok_memory) (λ _ s1, g_tx s1 = packet [79; 75] ∧ g_mem s1 = ok_memory ∧ g_rx s1 = []) ∧
  wp (_get_packet 8192) (idle (packet [79; 75] ++ [3]) ∅) (λ _ s3, bytes_at (g_mem s3) 8192 2 = [79; 75] ∧
    load8 (g_mem s3) (8192 + 2) = 0 ∧ g_tx s3 = [] ++ [43] ∧ g_rx s3 = [3]).
Proof.
  apply (gdb_packet_arrives 0 4096 2 43 [] 8192 [3] (idle [43] ok_memory) (idle (packet [79; 75] ++ [3]) ∅)); try done; try lia.
  change (payload _ _ _ _) with [79; 75]. repeat constructor; lia.
Defined.

(** A packet with a wrong checksum is answered '-', and [_get_packet] returns
    with its payload in the buffer all the same: the [continue] leaves the
    [do ... while (false)], so that the command in it is carried out instead of
    being received again. *)
Theorem gdb_bad_checksum_delivered B l h d rest s :
  Forall plain l → Z.of_nat (length l) < GDB_RX_BUF_LEN → g_rx s = 36 :: l ++ 35 :: h :: d :: rest →
  sent_checksum h d ≠ checksum l →
  wp (_get_packet B) s (λ _ s', g_tx s' = g_tx s ++ [45] ∧ g_rx s' = rest ∧
    bytes_at (g_mem s') B (Z.of_nat (length l)) = l ∧ load8 (g_mem s') (B + Z.of_nat (length l)) = 0).
Proof.
  intros Hl Hn Hrx Hbad. assert ((checksum l =? sent_checksum h d) = false) as E by (apply Z.eqb_neq; congruence).
  eapply get_packet_spec; [done | done | done | by rewrite E|]. rewrite E.
  split_and!; [done | done | by apply bytes_at_received | by apply received_end].
Qed.

(** The command 'k', kill, with the checksum 00. *)
Lemma gdb_bad_checksum_delivered_witness :
  wp (_get_packet 8192) (idle [36; 107; 35; 48; 48] ∅) (λ _ s', g_tx s' = [] ++ [45] ∧ g_rx s' = [] ∧
    bytes_at (g_mem s') 8192 1 = [107] ∧ load8 (g_mem s') (8192 + 1) = 0).
Proof.
  apply (gdb_bad_checksum_delivered 8192 [107] 48 48 [] (idle [36; 107; 35; 48; 48] ∅)); try done.
  repeat constructor; lia.
Defined.
