(* ===== verification/GdbBreak.v ===== *)
(** Breakpoints leave the program they are set in as it was: the stub's list of
    breakpoints implements a set of addresses, under the commands that insert and
    remove them, under stops and under single steps. *)

From S2P Require Import Prelude Bits Memory MemCopy Gdb.
Import Memcpy.

(** ** Commands and their meaning *)

(** The commands 'Z' and 'z' with what the allocator has, a stop of the program
    with the program counter [pc], and a step to [address] with the stop behind
    it. *)
Inductive bp_command :=
| Insert (alloc : bool) (type addr kind : Z)
| Remove (type addr kind : Z)
| Stop (pc : Z)
| Step (address : Z).

(** The trap is two bytes long, and the program counter is behind it. *)
Definition stop_at (pc : Z) : M gdb Z :=
  _ ← modify (λ s, set_regs (set_pc pc (g_regs s)) s);
  _ ← _gdb_monitor_entry;
  mret 0.

Definition bp_exec (c : bp_command) : M gdb Z :=
  match c with
  | Insert alloc type addr kind => _gdb_break alloc type addr kind
  | Remove type addr kind => _gdb_remove_break type addr kind
  | Stop pc => stop_at pc
  | Step address =>
      _ ← _gdb_step address;
      x ← gets g_bp_step;
      stop_at (u32 (bp_addr x + 2))
  end.

Fixpoint bp_run (l : list bp_command) : M gdb (list Z) :=
  match l with
  | [] => mret []
  | c :: l => r ← bp_exec c; rs ← bp_run l; mret (r :: rs)
  end.

(** The specification: a set of addresses. *)
Definition set_exec (B : gset Z) (c : bp_command) : gset Z * Z :=
  match c with
  | Insert alloc type addr _ =>
      if (addr =? 0) || negb (type =? 0) then (B, -1)
      else if bool_decide (addr ∈ B) then (B, 0)
      else if alloc then ({[addr]} ∪ B, 0) else (B, -1)
  | Remove type addr _ =>
      if (addr =? 0) || negb (type =? 0) || bool_decide (addr ∉ B) then (B, -1) else (B ∖ {[addr]}, 0)
  | Stop _ | Step _ => (B, 0)
  end.

Fixpoint set_run (B : gset Z) (l : list bp_command) : gset Z * list Z :=
  match l with
  | [] => (B, [])
  | c :: l => let '(B, r) := set_exec B c in let '(B, rs) := set_run B l in (B, r :: rs)
  end.

(** What the commands must satisfy: instructions are at even addresses, and a
    step is given its target. *)
Definition even (a : Z) : Prop := a mod 2 = 0.
Definition command_ok (c : bp_command) : Prop :=
  match c with
  | Insert _ _ addr _ | Remove _ addr _ => even addr
  | Stop _ => True
  | Step address => even address ∧ address ≠ 0 ∧ in_u32 address
  end.

(** ** The invariant *)

Definition trap : Z := INSTRN_TRAPA GDB_TRAPA_VECTOR_NUMBER.

(** [m0] is the memory without breakpoints: [m] is it but for the instructions
    of the list, which are remembered, and are the trap or what they were. *)
Record bp_inv (m0 : mem) (B : gset Z) (s : gdb) : Prop := {
  inv_distinct : NoDup (bp_addr <$> g_bp_list s);
  inv_even b : b ∈ g_bp_list s → even (bp_addr b);
  inv_saved b : b ∈ g_bp_list s → bp_instruction b = load16 m0 (bp_addr b);
  inv_mem a : even a → load16 (g_mem s) a = load16 m0 a ∨ (load16 (g_mem s) a = trap ∧ a ∈ bp_addr <$> g_bp_list s);
  inv_set a : a ∈ B ↔ a ∈ bp_addr <$> g_bp_list s;
  inv_idle : g_stepping s = false;
}.

Lemma load16_store16_ne m a b v : even a → even b → a ≠ b → load16 (store16 m a v) b = load16 m b.
Proof.
  unfold even. intros Ha Hb Hab. assert (a ≠ b + 1 ∧ a + 1 ≠ b) by (split; dlia).
  unfold load16, store16. by rewrite !load8_store8_ne by lia.
Qed.

Lemma wp_load16a m a s (Q : Z → gdb → Prop) : even a → Q (load16 m a) s → wp (lift (load16a m a)) s Q.
Proof. intros Ha HQ. eapply wp_lift; [|done]. unfold load16a. by rewrite Ha. Qed.

Lemma wp_store16a m a v s (Q : mem → gdb → Prop) : even a → Q (store16 m a v) s → wp (lift (store16a m a v)) s Q.
Proof. intros Ha HQ. eapply wp_lift; [|done]. unfold store16a. by rewrite Ha. Qed.

Lemma bp_find_Some l a b : _bp_list_breakpoint_find l a = Some b → b ∈ l ∧ bp_addr b = a.
Proof. intros H. apply find_some in H as [H1 H2]. apply list_elem_of_In in H1. by apply Z.eqb_eq in H2. Qed.

Lemma bp_find_None l a : _bp_list_breakpoint_find l a = None → a ∉ bp_addr <$> l.
Proof.
  intros H (b & -> & Hb)%list_elem_of_fmap. apply list_elem_of_In in Hb. pose proof (find_none _ _ H b Hb) as E. by apply Z.eqb_neq in E.
Qed.

Lemma bp_remove_spec l a b : NoDup (bp_addr <$> l) → b ∈ bp_list_remove l a ↔ b ∈ l ∧ bp_addr b ≠ a.
Proof.
  induction l as [|x l IH]; cbn [fmap list_fmap bp_list_remove]; [set_solver|]. rewrite NoDup_cons. intros [Hx Hl].
  case_cmp; [subst|by rewrite !elem_of_cons, IH by done; naive_solver].
  assert (b ∈ l → bp_addr b ≠ bp_addr x). { intros Hb E. apply Hx. rewrite <- E. by apply list_elem_of_fmap_2. }
  rewrite elem_of_cons. naive_solver.
Qed.

Lemma bp_remove_NoDup l a : NoDup (bp_addr <$> l) → NoDup (bp_addr <$> bp_list_remove l a).
Proof.
  induction l as [|x l IH]; cbn [fmap list_fmap bp_list_remove]; [done|]. rewrite NoDup_cons. intros [Hx Hl].
  case_cmp; [done|]. cbn [fmap list_fmap]. apply NoDup_cons. split; [|by apply IH].
  intros (b & E & Hb)%list_elem_of_fmap. apply bp_remove_spec in Hb as [Hb _]; [|done].
  apply Hx. rewrite E. by apply list_elem_of_fmap_2.
Qed.

Lemma bp_remove_addrs l a x : NoDup (bp_addr <$> l) → x ∈ bp_addr <$> bp_list_remove l a ↔ x ∈ bp_addr <$> l ∧ x ≠ a.
Proof. intros Hl. rewrite !list_elem_of_fmap. setoid_rewrite bp_remove_spec; [|done]. naive_solver. Qed.

(** ** Every command preserves it *)

(** The invariant depends on the memory by its instructions only. *)
Lemma bp_inv_mem m0 B s s' : bp_inv m0 B s → g_bp_list s' = g_bp_list s → g_stepping s' = false →
  (∀ a, even a → load16 (g_mem s') a = load16 (g_mem s) a ∨ load16 (g_mem s') a = load16 m0 a) → bp_inv m0 B s'.
Proof.
  intros [] El Es Hm. split; rewrite ?El; try done. intros a Ha. destruct (Hm a Ha) as [-> | ->]; [by apply inv_mem0 | by left].
Qed.

Lemma insert_inv m0 B alloc type addr kind s : bp_inv m0 B s → even addr →
  wp (_gdb_break alloc type addr kind) s (λ r s',
    r = (set_exec B (Insert alloc type addr kind)).2 ∧ bp_inv m0 (set_exec B (Insert alloc type addr kind)).1 s').
Proof.
  intros Hi Ha. unfold _gdb_break. cbn [set_exec]. case_cmp; cbn [orb fst snd]; [wp_steps; done|].
  case_cmp; cbn [negb fst snd]; [|wp_steps; done]. wp_steps. unfold _bp_list_breakpoint_add. wp_steps.
  destruct (_bp_list_breakpoint_find _ _) as [b|] eqn:E.
  - apply bp_find_Some in E as [Hb <-]. rewrite bool_decide_eq_true_2; [wp_steps; done|].
    apply (inv_set _ _ _ Hi). by apply list_elem_of_fmap_2.
  - apply bp_find_None in E. rewrite bool_decide_eq_false_2 by (by rewrite (inv_set _ _ _ Hi)).
    destruct alloc; cbn [negb fst snd]; wp_steps; [|done].
    apply wp_load16a; [done|]. wp_steps. apply wp_store16a; [done|]. wp_steps. split; [done|].
    assert (load16 (g_mem s) addr = load16 m0 addr) as Hs by (destruct (inv_mem _ _ _ Hi addr Ha) as [?|[_ ?]]; done).
    destruct Hi. split; cbn [set_bps set_mem g_bp_list g_mem g_stepping]; rewrite ?fmap_app; cbn [fmap list_fmap bp_addr].
    + apply NoDup_app. split_and!; [done | set_solver | apply NoDup_singleton].
    + intros b [Hb|Hb%list_elem_of_singleton]%elem_of_app; [by apply inv_even0 | by subst].
    + intros b [Hb|Hb%list_elem_of_singleton]%elem_of_app; [by apply inv_saved0 | by subst].
    + intros a Hev. destruct (decide (a = addr)) as [->|].
      * right. rewrite load16_store16_eq by (compute; split; congruence). set_solver.
      * rewrite load16_store16_ne by done. destruct (inv_mem0 a Hev) as [?|[??]]; [by left | right; set_solver].
    + intros a. rewrite elem_of_union, inv_set0, elem_of_app. set_solver.
    + done.
Qed.

Lemma free_inv m0 B b s : bp_inv m0 B s → b ∈ g_bp_list s →
  wp (_bp_list_breakpoint_free b) s (λ _ s', bp_inv m0 (B ∖ {[bp_addr b]}) s').
Proof.
  intros Hi Hb. unfold _bp_list_breakpoint_free. wp_steps.
  destruct (_bp_list_empty (g_bp_list s)) eqn:E; [by destruct (g_bp_list s); [apply not_elem_of_nil in Hb|]|].
  wp_steps. apply wp_store16a; [by apply (inv_even _ _ _ Hi)|]. wp_steps. destruct Hi.
  split; cbn [set_bps set_mem g_bp_list g_mem g_stepping].
  - by apply bp_remove_NoDup.
  - intros x [Hx _]%bp_remove_spec; [|done]. by apply inv_even0.
  - intros x [Hx _]%bp_remove_spec; [|done]. by apply inv_saved0.
  - intros a Hev. destruct (decide (a = bp_addr b)) as [->|].
    + left. rewrite inv_saved0 by done. apply load16_store16_eq, load16_range.
    + rewrite load16_store16_ne by (done || by apply inv_even0).
      destruct (inv_mem0 a Hev) as [?|[??]]; [by left | right]. by rewrite bp_remove_addrs.
  - intros a. rewrite elem_of_difference, inv_set0, bp_remove_addrs by done. set_solver.
  - done.
Qed.

Lemma remove_inv m0 B type addr kind s : bp_inv m0 B s →
  wp (_gdb_remove_break type addr kind) s (λ r s',
    r = (set_exec B (Remove type addr kind)).2 ∧ bp_inv m0 (set_exec B (Remove type addr kind)).1 s').
Proof.
  intros Hi. unfold _gdb_remove_break. cbn [set_exec]. case_cmp; cbn [orb fst snd]; [wp_steps; done|].
  case_cmp; cbn [negb orb fst snd]; [|wp_steps; done]. wp_steps.
  destruct (_bp_list_breakpoint_find _ _) as [b|] eqn:E.
  - apply bp_find_Some in E as [Hb <-].
    rewrite bool_decide_eq_false_2 by (rewrite (inv_set _ _ _ Hi); intros []; by apply list_elem_of_fmap_2).
    wp_steps. eapply wp_mono; [by apply free_inv|]. intros ? s' Hs'. wp_steps. done.
  - apply bp_find_None in E. rewrite bool_decide_eq_true_2 by (by rewrite (inv_set _ _ _ Hi)). wp_steps. done.
Qed.

(** What [_gdb_monitor_entry] leaves at an address. *)
Definition at_entry (s : gdb) (a : Z) : Z :=
  if g_stepping s && (a =? bp_addr (g_bp_step s)) then bp_instruction (g_bp_step s)
  else match _bp_list_breakpoint_find (g_bp_list s) a with
       | Some b => if u32 (r_pc (g_regs s) - 2) =? a then bp_instruction b else load16 (g_mem s) a
       | None => load16 (g_mem s) a
       end.

(** The breakpoints that are written back are instructions at even addresses. *)
Definition bps_valid (s : gdb) : Prop :=
  (∀ b, b ∈ g_bp_list s → even (bp_addr b) ∧ in_u16 (bp_instruction b)) ∧
  (g_stepping s = true → even (bp_addr (g_bp_step s)) ∧ in_u16 (bp_instruction (g_bp_step s))).

Lemma monitor_entry_spec s : bps_valid s →
  wp _gdb_monitor_entry s (λ _ s', g_bp_list s' = g_bp_list s ∧ g_stepping s' = false ∧
    ∀ a, even a → load16 (g_mem s') a = at_entry s a).
Proof.
  intros [Hl Hs]. unfold _gdb_monitor_entry. wp_steps.
  destruct (negb (g_stepping s) && _bp_list_empty (g_bp_list s)) eqn:E.
  { apply andb_prop in E as [E1 E2]. apply negb_true_iff in E1. wp_steps. split_and!; [done.. |].
    intros a Ha. unfold at_entry. rewrite E1. by destruct (g_bp_list s). }
  wp_steps. set (pc := u32 (r_pc (g_regs s) - 2)).
  apply (wp_mono _ _ (λ m s', s' = set_regs (set_pc pc (g_regs s)) s ∧ ∀ a, even a → load16 m a =
    match _bp_list_breakpoint_find (g_bp_list s) a with Some b => if pc =? a then bp_instruction b else load16 (g_mem s) a | None => load16 (g_mem s) a end)).
  - destruct (_bp_list_breakpoint_find (g_bp_list s) pc) as [b|] eqn:Ef.
    + pose proof Ef as [Hb Eb]%bp_find_Some. destruct (Hl b Hb) as [Hev Hin]. apply wp_store16a; [done|]. split; [done|].
      intros a Ha. destruct (Z.eq_dec pc a) as [<-|Hne].
      * rewrite Ef, Z.eqb_refl, <- Eb. by apply load16_store16_eq.
      * rewrite load16_store16_ne by (done || congruence). apply Z.eqb_neq in Hne as ->. by destruct (_bp_list_breakpoint_find _ a).
    + wp_steps. split; [done|]. intros a Ha. destruct (Z.eqb_spec pc a) as [<-|]; [by rewrite Ef | by destruct (_bp_list_breakpoint_find _ a)].
  - intros m s' [-> Hm]. wp_steps. destruct (g_stepping s) eqn:Es; wp_steps.
    + destruct (Hs eq_refl) as [Hev Hin]. apply wp_store16a; [done|]. wp_steps. split_and!; [done.. |].
      intros a Ha. unfold at_entry. rewrite Es. cbn [andb set_step set_mem set_regs g_mem g_bp_step].
      destruct (Z.eqb_spec a (bp_addr (g_bp_step s))) as [->|]; [by apply load16_store16_eq|].
      rewrite load16_store16_ne by done. by rewrite Hm.
    + split_and!; [done.. |]. intros a Ha. unfold at_entry. rewrite Es. by apply Hm.
Qed.

Lemma bp_inv_valid m0 B s : bp_inv m0 B s → ∀ b, b ∈ g_bp_list s → even (bp_addr b) ∧ in_u16 (bp_instruction b).
Proof. intros Hi b Hb. rewrite (inv_saved _ _ _ Hi b Hb). split; [by apply (inv_even _ _ _ Hi) | apply load16_range]. Qed.

Lemma stop_inv m0 B pc s : bp_inv m0 B s → wp (stop_at pc) s (λ r s', r = 0 ∧ bp_inv m0 B s').
Proof.
  intros Hi. unfold stop_at. wp_steps. eapply wp_mono.
  { apply monitor_entry_spec. split; [by apply (bp_inv_valid m0 B s) | cbn; by rewrite (inv_idle _ _ _ Hi)]. }
  cbn [set_regs g_bp_list]. intros u s' (El & Es & Hm). wp_steps. split; [done|].
  eapply bp_inv_mem; [done.. |]. intros a Ha. rewrite Hm by done. unfold at_entry. cbn [set_regs g_stepping g_bp_list g_mem g_regs].
  rewrite (inv_idle _ _ _ Hi). cbn [andb].
  destruct (_bp_list_breakpoint_find _ a) as [b|] eqn:E; [|by left]. apply bp_find_Some in E as [Hb <-].
  case_cmp; [right; by apply (inv_saved _ _ _ Hi) | by left].
Qed.

Lemma step_inv m0 B address s : bp_inv m0 B s → even address → address ≠ 0 → in_u32 address →
  wp (bp_exec (Step address)) s (λ r s', r = 0 ∧ bp_inv m0 B s').
Proof.
  intros Hi Ha Hz Hu. cbn [bp_exec]. unfold _gdb_step. wp_steps. rewrite (proj2 (testz_true address) Hz). wp_steps.
  apply wp_load16a; [done|]. wp_steps. apply wp_store16a; [done|]. wp_steps. unfold stop_at. wp_steps. eapply wp_mono.
  { apply monitor_entry_spec. split; [by apply (bp_inv_valid m0 B s)|]. intros _. split; [done | apply load16_range]. }
  intros u s' (El & Es & Hm). wp_steps. split; [done|]. cbn [set_step set_mem set_regs g_bp_list g_bp_step bp_addr] in *.
  eapply bp_inv_mem; [done.. |]. intros a Hev. left. rewrite Hm by done. unfold at_entry. cbn [set_step set_mem set_regs set_pc g_stepping g_bp_step g_bp_list g_regs g_mem r_pc bp_addr bp_instruction andb].
  destruct (Z.eqb_spec a address) as [->|]; [done|]. replace (u32 (u32 (address + 2) - 2)) with address by (unfold wrapu; dlia).
  rewrite load16_store16_ne by done. destruct (_bp_list_breakpoint_find _ a); [|done]. by case_cmp.
Qed.

Lemma bp_exec_inv m0 B c s : bp_inv m0 B s → command_ok c →
  wp (bp_exec c) s (λ r s', r = (set_exec B c).2 ∧ bp_inv m0 (set_exec B c).1 s').
Proof.
  intros Hi. destruct c as [alloc type addr kind|type addr kind|pc|address]; intros Hc.
  - by apply insert_inv.
  - by apply remove_inv.
  - by apply stop_inv.
  - destruct Hc as (? & ? & ?). by apply step_inv.
Qed.

Lemma bp_run_inv m0 l B s : bp_inv m0 B s → Forall command_ok l →
  wp (bp_run l) s (λ rs s', rs = (set_run B l).2 ∧ bp_inv m0 (set_run B l).1 s').
Proof.
  revert B s. induction l as [|c l IH]; intros B s Hi Hl; cbn [bp_run set_run]; wp_steps; [done|].
  inversion_clear Hl as [|? ? Hc Hl']. eapply wp_mono; [by apply bp_exec_inv|]. intros r s1 [-> H1]. cbn beta in *. wp_steps.
  eapply wp_mono; [by apply IH|]. intros rs s2 [-> H2]. wp_steps. destruct (set_exec B c), (set_run _ l). done.
Qed.

Lemma bp_inv_start s : g_bp_list s = [] → g_stepping s = false → bp_inv (g_mem s) ∅ s.
Proof. intros El Es. split; rewrite ?El; try done; try set_solver. by left. Qed.

(** C9: The breakpoints of the stub are a set of addresses.  From a program
    without breakpoints, any sequence of insertions, removals, stops and steps
    answers as the set does and leaves its addresses in the list; an instruction
    in memory is the program's own, or the trap where a breakpoint is set; and the
    list has the program's instruction for each breakpoint.  When no breakpoint is
    left every byte of the program is as it was. *)
Theorem gdb_breakpoints_refine_set l s : g_bp_list s = [] → g_stepping s = false → Forall command_ok l →
  let '(B, answers) := set_run ∅ l in
  wp (bp_run l) s (λ rs s', rs = answers ∧ (∀ a, a ∈ B ↔ a ∈ bp_addr <$> g_bp_list s') ∧
    (∀ a, even a → load16 (g_mem s') a = load16 (g_mem s) a ∨ (load16 (g_mem s') a = trap ∧ a ∈ B)) ∧
    (∀ b, b ∈ g_bp_list s' → bp_instruction b = load16 (g_mem s) (bp_addr b)) ∧
    (B = ∅ → ∀ a, load8 (g_mem s') a = load8 (g_mem s) a)).
Proof.
  intros El Es Hl. pose proof (bp_run_inv (g_mem s) l ∅ s (bp_inv_start s El Es) Hl) as H. destruct (set_run ∅ l) as [B answers].
  eapply wp_mono; [exact H|]. intros rs s' [-> Hi]. cbn [fst snd] in *.
  assert (∀ a, even a → load16 (g_mem s') a = load16 (g_mem s) a ∨ (load16 (g_mem s') a = trap ∧ a ∈ B)) as Hm.
  { intros a Ha. rewrite (inv_set _ _ _ Hi). by apply (inv_mem _ _ _ Hi). }
  split_and!; [done | by apply (inv_set _ _ _ Hi) | done | by apply (inv_saved _ _ _ Hi)|].
  intros -> a. destruct (Z.eq_dec (a mod 2) 0) as [E|E].
  - destruct (Hm a E) as [H2|[_ []%not_elem_of_empty]]. by apply load16_bytes in H2 as [? _].
  - assert (even (a - 1)) as E1 by (unfold even; dlia). destruct (Hm (a - 1) E1) as [H2|[_ []%not_elem_of_empty]].
    apply load16_bytes in H2 as [_ H2]. by replace (a - 1 + 1) with a in H2 by lia.
Qed.

Definition program : gdb := mk_gdb [] [] (<[4096 := 0]> (<[4097 := 9]> ∅)) (mk_registers 0 (replicate 15 0) 0 0 0 0 0 0 0) false (mk_bp 0 0) [].

Lemma gdb_breakpoints_refine_set_witness :
  let l := [Insert true 0 4096 2; Insert true 0 4096 2; Step 4096; Stop 4098; Insert false 0 4100 2; Remove 0 4096 2] in
  let '(B, answers) := set_run ∅ l in
  wp (bp_run l) program (λ rs s', rs = answers ∧ (∀ a, a ∈ B ↔ a ∈ bp_addr <$> g_bp_list s') ∧
    (∀ a, even a → load16 (g_mem s') a = load16 (g_mem program) a ∨ (load16 (g_mem s') a = trap ∧ a ∈ B)) ∧
    (∀ b, b ∈ g_bp_list s' → bp_instruction b = load16 (g_mem program) (bp_addr b)) ∧
    (B = ∅ → ∀ a, load8 (g_mem s') a = load8 (g_mem program) a)).
Proof.
  apply (gdb_breakpoints_refine_set [Insert true 0 4096 2; Insert true 0 4096 2; Step 4096; Stop 4098; Insert false 0 4100 2; Remove 0 4096 2] program);
    [done | done|]. repeat constructor; cbn; lia.
Defined.
