(* ===== verification/Tga.v ===== *)
(** The TGA image reader (src/libtga/tga.c, tga.h): the header, colour maps, images
    with a colour map, plain or in tiles, and true-colour images, plain or run-length
    encoded.  The file and the image are in the byte memory.  A local variable that
    no case of a switch sets has the value [uninit], an argument. *)

From S2P Require Import Prelude Bits Memory MemCopy.
Import Memcpy.

(** ** tga.h *)

Definition TGA_FILE_OK : Z := 0.
Definition TGA_FILE_CORRUPTED : Z := -2.
Definition TGA_FILE_NOT_SUPPORTED : Z := -3.
Definition TGA_MEMORY_UNALIGNMENT_ERROR : Z := -5.

Definition TGA_IMAGE_TYPE_CMAP : Z := 1.
Definition TGA_IMAGE_TYPE_TRUE_COLOR : Z := 2.
Definition TGA_IMAGE_TYPE_GRAYSCALE : Z := 3.
Definition TGA_IMAGE_TYPE_RLE_CMAP : Z := 9.
Definition TGA_IMAGE_TYPE_RLE_TRUE_COLOR : Z := 10.
Definition TGA_IMAGE_TYPE_RLE_GRAYSCALE : Z := 11.

Record tga_t := mk_tga {
  tga_file : Z;
  tga_type : Z;
  tga_bpp : Z;
  tga_width : Z;
  tga_height : Z;
  tga_cmap_bpp : Z;
  tga_cmap_len : Z;
  tga_cmap_bytes : Z;
  transparent_pixel : Z;
  msb : bool;
}.

(** ** Pixels *)

Definition BGR16_DATA_TO_RGB555 (m : mem) (c : Z) : outcome Z :=
  v ← load16a m c;
  Ok (Z.lor (Z.lor (Z.shiftl (Z.land v 31) 10) (Z.land v 992)) (Z.shiftr (Z.land v 31744) 10)).

(** The colour of three bytes: blue, green and red. *)
Definition RGB24_TO_RGB555 (r g b : Z) : Z :=
  Z.lor (Z.lor (Z.shiftl (Z.shiftr b 3) 10) (Z.shiftl (Z.shiftr g 3) 5)) (Z.shiftr r 3).
Definition BGR24_DATA_TO_RGB555 (m : mem) (c : Z) : Z :=
  Z.lor (Z.lor (Z.shiftl (Z.shiftr (load8 m c) 3) 10) (Z.shiftl (Z.shiftr (load8 m (c + 1)) 3) 5)) (Z.shiftr (load8 m (c + 2)) 3).
Definition BGRA32_DATA_TO_RGB555 (m : mem) (c : Z) : Z := BGR24_DATA_TO_RGB555 m c.

Definition READ_LITTLE_ENDIAN_16 (m : mem) (a i : Z) : Z := Z.lor (load8 m (a + i)) (Z.shiftl (load8 m (a + i + 1)) 8).

(** The pixel at an address. *)
Definition read_pixel (m : mem) (uninit bytes_pp c : Z) : outcome Z :=
  if bytes_pp =? 2 then BGR16_DATA_TO_RGB555 m c
  else if bytes_pp =? 3 then Ok (BGR24_DATA_TO_RGB555 m c)
  else if bytes_pp =? 4 then Ok (BGRA32_DATA_TO_RGB555 m c)
  else Ok uninit.

(** ** tga_read *)

Definition TGA_HEADER_LEN : Z := 18.
Definition TGA_IMAGE_ORIGIN_TOP : Z := 32.
Definition TGA_IMAGE_ORIGIN_LEFT : Z := 0.
Definition TGA_IMAGE_ORIGIN_MASK : Z := 48.

(** The first switch over the type of the image: whether it is left without a
    return. *)
Definition type_consistent (image_type bytes_pp have_cmap cmap_offset cmap_len cmap_bpp : Z) : bool :=
  if (image_type =? TGA_IMAGE_TYPE_GRAYSCALE) || (image_type =? TGA_IMAGE_TYPE_RLE_GRAYSCALE) then
    negb (negb (bytes_pp =? 1) || testz have_cmap)
  else if (image_type =? TGA_IMAGE_TYPE_TRUE_COLOR) || (image_type =? TGA_IMAGE_TYPE_RLE_TRUE_COLOR) then
    negb ((negb (bytes_pp =? 2) && negb (bytes_pp =? 3) && negb (bytes_pp =? 4)) || testz have_cmap)
  else if (image_type =? TGA_IMAGE_TYPE_CMAP) || (image_type =? TGA_IMAGE_TYPE_RLE_CMAP) then
    negb (negb (testz have_cmap) || (cmap_len <=? cmap_offset)) &&
    ((cmap_bpp =? 15) || (cmap_bpp =? 16) || (cmap_bpp =? 24) || (cmap_bpp =? 32))
  else false.

Definition tga_read (m : mem) (tga : tga_t) (file : Z) : tga_t * Z :=
  let header := file in
  let image_type := load8 m (header + 2) in
  let bpp := load8 m (header + 16) in
  let bytes_pp := Z.shiftr (load8 m (header + 16)) 3 in
  let width := u16 (READ_LITTLE_ENDIAN_16 m header 12) in
  let height := u16 (READ_LITTLE_ENDIAN_16 m header 14) in
  let origin := Z.land (load8 m (header + 17)) TGA_IMAGE_ORIGIN_MASK in
  let have_cmap := load8 m (header + 1) in
  let cmap_offset := u16 (READ_LITTLE_ENDIAN_16 m header 3) in
  let cmap_len := u16 (READ_LITTLE_ENDIAN_16 m header 5) in
  let cmap_bpp := load8 m (header + 7) in
  let cmap_bytes := u32 (cmap_len * Z.shiftr cmap_bpp 3) in
  if (width =? 0) || (height =? 0) || (512 <? width) || (482 <? height) then (tga, TGA_FILE_CORRUPTED) else
  if negb (Z.land origin TGA_IMAGE_ORIGIN_MASK =? Z.lor TGA_IMAGE_ORIGIN_TOP TGA_IMAGE_ORIGIN_LEFT) then (tga, TGA_FILE_NOT_SUPPORTED) else
  if negb (type_consistent image_type bytes_pp have_cmap cmap_offset cmap_len cmap_bpp) then (tga, TGA_FILE_CORRUPTED) else
  if (image_type =? TGA_IMAGE_TYPE_GRAYSCALE) || (image_type =? TGA_IMAGE_TYPE_RLE_GRAYSCALE) then (tga, TGA_FILE_NOT_SUPPORTED) else
  if (image_type =? TGA_IMAGE_TYPE_CMAP) && negb (testz have_cmap) then (tga, TGA_FILE_CORRUPTED) else
  if image_type =? TGA_IMAGE_TYPE_RLE_CMAP then (tga, TGA_FILE_NOT_SUPPORTED) else
  (mk_tga header image_type bpp width height cmap_bpp cmap_len cmap_bytes (transparent_pixel tga) (msb tga), TGA_FILE_OK).

Definition _image_calculate_offset (m : mem) (tga : tga_t) : Z :=
  u32 (TGA_HEADER_LEN + load8 m (tga_file tga) + tga_cmap_bytes tga).

Definition _cmap_calculate_offset (m : mem) (tga : tga_t) : Z := TGA_HEADER_LEN + load8 m (tga_file tga).

(** [(uint32_t)tga->tga_file + _image_calculate_offset(tga)] *)
Definition image_buf (m : mem) (tga : tga_t) : Z := u32 (tga_file tga + _image_calculate_offset m tga).

(** [tga->tga_options.transparent_pixel & ~0x8000] as a half word, and the colour
    stored for a pixel. *)
Definition transparent (tga : tga_t) : Z := u16 (Z.land (transparent_pixel tga) (Z.lnot 32768)).
Definition put_pixel (tga : tga_t) (pixel : Z) : Z :=
  if pixel =? transparent tga then if msb tga then 32768 else 0 else Z.lor 32768 pixel.

(** ** Colour maps *)

Definition tga_cmap_decode (uninit : Z → Z) (m : mem) (tga : tga_t) (dst : Z) : outcome (mem * Z) :=
  if negb (tga_type tga =? TGA_IMAGE_TYPE_CMAP) && negb (tga_type tga =? TGA_IMAGE_TYPE_RLE_CMAP)
  then Ok (m, TGA_FILE_NOT_SUPPORTED) else
  let cmap_buf := u32 (tga_file tga + _cmap_calculate_offset m tga) in
  '(m, cmap_transparent_idx) ← for_up (Z.to_nat (tga_cmap_len tga)) 0 (λ cmap_idx '(m, t),
    let bytes_pp := Z.shiftr (tga_cmap_bpp tga) 3 in
    pixel ← read_pixel m (uninit cmap_idx) bytes_pp (cmap_buf + cmap_idx * bytes_pp);
    m ← store16a m (dst + 2 * cmap_idx) (Z.lor 32768 pixel);
    Ok (m, if pixel =? transparent tga then cmap_idx else t)) (m, -1);
  m ← (if 0 <? cmap_transparent_idx then
         pixel ← load16a m dst;
         x ← load16a m (dst + 2 * cmap_transparent_idx);
         m ← store16a m dst x;
         store16a m (dst + 2 * cmap_transparent_idx) pixel
       else Ok m);
  Ok (m, tga_cmap_len tga).

(** ** Images with a colour map *)

Definition tile_width (tga : tga_t) : Z := if tga_bpp tga =? 4 then 4 else if tga_bpp tga =? 8 then 8 else 0.
Definition tile_height (tga : tga_t) : Z := if tga_bpp tga =? 4 then 8 else if tga_bpp tga =? 8 then 8 else 0.
Definition tile_bytes (tga : tga_t) : Z := u16 (tile_width tga * tile_height tga).
Definition tile_base (tga : tga_t) (tx ty : Z) : Z := u16 (tile_bytes tga * (tx + tga_width tga / 8 * ty)).

Definition _cmap_image_tile_draw (tga : tga_t) (dst tx ty : Z) (m : mem) : outcome mem :=
  let buf := image_buf m tga in
  for_up (Z.to_nat (tile_height tga)) 0 (λ y,
    for_up (Z.to_nat (tile_width tga)) 0 (λ x m,
      let x_offset := tile_width tga * tx + x in
      let y_offset := (tile_width tga * ty + y) * tga_width tga in
      let offset := u32 (x_offset + y_offset) in
      Ok (store8 m (dst + (tile_base tga tx ty + (x + tile_width tga * y))) (load8 m (buf + offset))))) m.

Definition cmap_image_decode_tiled (m : mem) (tga : tga_t) (dst : Z) : outcome (mem * Z) :=
  m ← for_up (Z.to_nat (tga_width tga / 8)) 0 (λ tx,
        for_up (Z.to_nat (tga_height tga / 8)) 0 (λ ty, _cmap_image_tile_draw tga dst tx ty)) m;
  Ok (m, TGA_FILE_OK).

Definition cmap_rle_image_decode_tiled (m : mem) : mem * Z := (m, TGA_FILE_NOT_SUPPORTED).
Definition cmap_rle_image_decode (m : mem) : mem * Z := (m, TGA_FILE_NOT_SUPPORTED).

Definition tga_pixels (tga : tga_t) : Z := u32 (tga_width tga * tga_height tga).

Definition cmap_image_decode (m : mem) (tga : tga_t) (dst : Z) : outcome (mem * Z) :=
  let buf := image_buf m tga in
  if tga_cmap_len tga - 1 <=? 16 then
    iter (S (Z.to_nat (tga_pixels tga))) (λ '(m, dst, pixel_idx),
      Ok (if pixel_idx <? tga_pixels tga then
            inl (store8 m dst (Z.lor (Z.shiftl (Z.land (load8 m (buf + pixel_idx)) 15) 4) (Z.land (load8 m (buf + (pixel_idx + 1))) 15)),
                 dst + 1, u32 (pixel_idx + 2))
          else inr (m, i32 pixel_idx))) (m, dst, 0)
  else
    m ← for_up (Z.to_nat (tga_pixels tga)) 0 (λ pixel_idx m, Ok (store8 m (dst + pixel_idx) (load8 m (buf + pixel_idx)))) m;
    Ok (m, i32 (tga_pixels tga)).

(** ** True-colour images *)

Definition true_color_image_decode (uninit : Z → Z) (m : mem) (tga : tga_t) (dst : Z) : outcome (mem * Z) :=
  let buf := image_buf m tga in
  let bytes_pp := Z.shiftr (tga_bpp tga) 3 in
  m ← for_up (Z.to_nat (tga_pixels tga)) 0 (λ pixel_idx m,
        pixel ← read_pixel m (uninit pixel_idx) bytes_pp (buf + u32 (bytes_pp * pixel_idx));
        store16a m (dst + 2 * pixel_idx) (put_pixel tga pixel)) m;
  Ok (m, i32 (tga_pixels tga)).

(** The loops of [_true_color_image_fill]: four words at a time, then single
    ones. *)
Definition fill_4_words (value : Z) (x : mem * Z * Z) : outcome (mem * Z * Z + mem * Z * Z) :=
  let '(m, dst_32, amt) := x in
  if 4 * 4 <=? amt then
    m ← store32a m dst_32 value;
    m ← store32a m (dst_32 + 4) value;
    m ← store32a m (dst_32 + 8) value;
    m ← store32a m (dst_32 + 12) value;
    Ok (inl (m, dst_32 + 16, amt - 4 * 4))
  else Ok (inr (m, dst_32, amt)).

Definition fill_word (value : Z) (x : mem * Z * Z) : outcome (mem * Z * Z + mem * Z * Z) :=
  let '(m, dst_32, amt) := x in
  if 4 <=? amt then m ← store32a m dst_32 value; Ok (inl (m, dst_32 + 4, amt - 4))
  else Ok (inr (m, dst_32, amt)).

Definition _true_color_image_fill (m : mem) (dst s length : Z) : outcome (mem * Z) :=
  if negb (Z.land dst 1 =? 0) then Ok (m, TGA_MEMORY_UNALIGNMENT_ERROR) else
  if negb (Z.land length 1 =? 0) then Ok (m, TGA_MEMORY_UNALIGNMENT_ERROR) else
  let amt := length in
  '(m, dst, amt) ←
    (if Z.land dst 2 =? 2 then m ← store16a m dst s; Ok (m, dst + 2, u32 (amt - 2)) else Ok (m, dst, amt));
  let value := u32 (Z.lor (Z.shiftl s 16) s) in
  '(m, dst, amt) ← iter (S (Z.to_nat amt)) (fill_4_words value) (m, dst, amt);
  '(m, dst, amt) ← iter (S (Z.to_nat amt)) (fill_word value) (m, dst, amt);
  '(m, amt) ← (if negb (amt =? 0) then m ← store16a m dst s; Ok (m, u32 (amt - 2)) else Ok (m, amt));
  if negb (amt =? 0) then Ok (m, TGA_MEMORY_UNALIGNMENT_ERROR) else
  Ok (m, i32 length).

(** A packet of a run-length encoded image.  The state is the memory, the
    destination, the packet and the number of pixels so far; the result of the
    image is an error or the number of its pixels. *)
Definition rle_packet (uninit : Z → Z) (tga : tga_t) (x : mem * Z * Z * Z) : outcome (mem * Z * Z * Z + mem * Z) :=
  let '(m, dst, packet, pixel_idx) := x in
  if negb (u32 pixel_idx <? tga_pixels tga) then Ok (inr (m, pixel_idx)) else
  let bytes_pp := Z.shiftr (tga_bpp tga) 3 in
  let packet_type := Z.shiftr (Z.land (load8 m packet) 128) 7 in
  let rcf := u8 (Z.land (load8 m packet) (Z.lnot 128) + 1) in
  if packet_type =? 0 then
    m ← for_up (Z.to_nat rcf) 0 (λ rcf_idx m,
          pixel ← read_pixel m (uninit (pixel_idx + rcf_idx)) bytes_pp (packet + (1 + bytes_pp * rcf_idx));
          store16a m (dst + 2 * rcf_idx) (put_pixel tga pixel)) m;
    Ok (inl (m, dst + 2 * rcf, packet + rcf * bytes_pp + 1, i32 (pixel_idx + rcf)))
  else
    pixel ← read_pixel m (uninit pixel_idx) bytes_pp (packet + 1);
    '(m, amt) ← _true_color_image_fill m dst (put_pixel tga pixel) (rcf * 2);
    if amt <? 0 then Ok (inr (m, TGA_MEMORY_UNALIGNMENT_ERROR)) else
    Ok (inl (m, dst + 2 * rcf, packet + bytes_pp + 1, i32 (pixel_idx + rcf))).

(** Every packet has a pixel. *)
Definition true_color_rle_image_decode (uninit : Z → Z) (m : mem) (tga : tga_t) (dst : Z) : outcome (mem * Z) :=
  iter (S (Z.to_nat (tga_pixels tga))) (rle_packet uninit tga) (m, dst, image_buf m tga, 0).

(** ** Dispatch *)

Definition tga_image_decode_tiled (m : mem) (tga : tga_t) (dst : Z) : outcome (mem * Z) :=
  let t := tga_type tga in
  if (t =? TGA_IMAGE_TYPE_GRAYSCALE) || (t =? TGA_IMAGE_TYPE_RLE_GRAYSCALE) then Ok (m, TGA_FILE_NOT_SUPPORTED)
  else if t =? TGA_IMAGE_TYPE_CMAP then cmap_image_decode_tiled m tga dst
  else if (t =? TGA_IMAGE_TYPE_TRUE_COLOR) || (t =? TGA_IMAGE_TYPE_RLE_TRUE_COLOR) then Ok (m, TGA_FILE_NOT_SUPPORTED)
  else if t =? TGA_IMAGE_TYPE_RLE_CMAP then Ok (cmap_rle_image_decode_tiled m)
  else Ok (m, TGA_FILE_CORRUPTED).

Definition tga_image_decode (uninit : Z → Z) (m : mem) (tga : tga_t) (dst : Z) : outcome (mem * Z) :=
  let t := tga_type tga in
  if (t =? TGA_IMAGE_TYPE_GRAYSCALE) || (t =? TGA_IMAGE_TYPE_RLE_GRAYSCALE) then Ok (m, TGA_FILE_NOT_SUPPORTED)
  else if t =? TGA_IMAGE_TYPE_CMAP then cmap_image_decode m tga dst
  else if t =? TGA_IMAGE_TYPE_TRUE_COLOR then true_color_image_decode uninit m tga dst
  else if t =? TGA_IMAGE_TYPE_RLE_TRUE_COLOR then true_color_rle_image_decode uninit m tga dst
  else if t =? TGA_IMAGE_TYPE_RLE_CMAP then Ok (cmap_rle_image_decode_tiled m)
  else Ok (m, TGA_FILE_CORRUPTED).
