(* ===== verification/TgaProof.v ===== *)
(** Run-length encoded true-colour images decode to the same pixels as plain ones,
    and images in tiles have every pixel in its place. *)

From S2P Require Import Prelude Bits Memory MemCopy MemCopyProof Tga.
Import Memcpy.

(** ** Half words in a row *)

Fixpoint store_halves (m : mem) (a : Z) (l : list Z) : mem :=
  match l with
  | [] => m
  | v :: l => store_halves (store16 m a v) (a + 2) l
  end.

Lemma store_halves_app m a l1 l2 :
  store_halves m a (l1 ++ l2) = store_halves (store_halves m a l1) (a + 2 * Z.of_nat (length l1)) l2.
Proof.
  revert m a. induction l1 as [|v l1 IH]; intros m a; cbn [app store_halves length]; [f_equal; lia|].
  rewrite IH. f_equal. lia.
Qed.

Lemma store_halves_out m a l x : x < a ∨ a + 2 * Z.of_nat (length l) ≤ x → load8 (store_halves m a l) x = load8 m x.
Proof.
  revert m a. induction l as [|v l IH]; intros m a Hx; cbn [store_halves length] in *; [done|].
  rewrite IH by lia. unfold store16. by rewrite !load8_store8_ne by lia.
Qed.

Lemma store32_halves m a s : in_u16 s → store32 m a (u32 (Z.lor (Z.shiftl s 16) s)) = store_halves m a [s; s].
Proof.
  intros Hs. rewrite Z.shiftl_mul_pow2 by lia. rewrite lor_add by lia. unfold store32. cbn [store_halves]. unfold store16.
  replace (a + 2 + 1) with (a + 3) by lia. unfold store8. rewrite (Z.shiftr_div_pow2 s 8) by lia.
  assert (∀ v w, u8 v = u8 w → ∀ b m', <[b := u8 v]> m' = (<[b := u8 w]> m' : mem)) as E by congruence.
  assert (in_u32 (s * 2 ^ 16 + s)) by lia. rewrite (wrapu_small 32) by lia.
  rewrite (E ((s * 2 ^ 16 + s) / 2 ^ 24) (s / 2 ^ 8)), (E ((s * 2 ^ 16 + s) / 2 ^ 16) s), (E ((s * 2 ^ 16 + s) / 2 ^ 8) (s / 2 ^ 8)), (E (s * 2 ^ 16 + s) s);
    [done | unfold wrapu; dlia..].
Qed.

(** ** Filling *)

Lemma replicate_halves m a s n k : store_halves (store_halves m a (replicate n s)) (a + 2 * Z.of_nat n) (replicate k s) =
  store_halves m a (replicate (n + k) s).
Proof. rewrite replicate_add, store_halves_app, length_replicate. done. Qed.

Lemma store16a_even m a v : a mod 2 = 0 → store16a m a v = Ok (store_halves m a [v]).
Proof. intros E. unfold store16a. by rewrite E. Qed.

Lemma store32a_halves m a s : in_u16 s → a mod 4 = 0 →
  store32a m a (u32 (Z.lor (Z.shiftl s 16) s)) = Ok (store_halves m a (replicate 2 s)).
Proof. intros Hs E. unfold store32a. rewrite E. cbn [Z.eqb replicate]. by rewrite store32_halves. Qed.

(** The loops of the fill: what is filled grows from [n] half words. *)
Section Fill.
Context (m : mem) (dst s len : Z).
Hypothesis Hs : in_u16 s.

Definition filled (x : mem * Z * Z) : Prop :=
  let '(m', d, amt) := x in
  ∃ n, m' = store_halves m dst (replicate n s) ∧ d = dst + 2 * Z.of_nat n ∧ amt = len - 2 * Z.of_nat n ∧ d mod 4 = 0 ∧ 0 ≤ amt.

Lemma fill_4_words_spec x fuel : filled x → (Z.to_nat x.2 < fuel)%nat →
  yields (iter fuel (fill_4_words (u32 (Z.lor (Z.shiftl s 16) s))) x) filled.
Proof.
  intros Hx Hf. apply (iter_inv filled (λ x, Z.to_nat x.2)); [done | done|].
  intros [[m' d] amt] (n & -> & -> & -> & E & Hamt). unfold fill_4_words. destruct (Z.leb_spec (4 * 4) (len - 2 * Z.of_nat n)).
  - rewrite store32a_halves by done. cbn [mbind outcome_bind]. rewrite replicate_halves.
    replace (dst + 2 * Z.of_nat n + 4) with (dst + 2 * Z.of_nat (n + 2)) by lia.
    rewrite store32a_halves by (done || dlia). cbn [mbind outcome_bind]. rewrite replicate_halves.
    replace (dst + 2 * Z.of_nat n + 8) with (dst + 2 * Z.of_nat (n + 2 + 2)) by lia.
    rewrite store32a_halves by (done || dlia). cbn [mbind outcome_bind]. rewrite replicate_halves.
    replace (dst + 2 * Z.of_nat n + 12) with (dst + 2 * Z.of_nat (n + 2 + 2 + 2)) by lia.
    rewrite store32a_halves by (done || dlia). cbn [mbind outcome_bind yields snd]. rewrite replicate_halves.
    split; [|lia]. exists (n + 2 + 2 + 2 + 2)%nat. split_and!; [done | lia | lia | dlia | lia].
  - by exists n.
Qed.

Lemma fill_word_spec x fuel : filled x → (Z.to_nat x.2 < fuel)%nat →
  yields (iter fuel (fill_word (u32 (Z.lor (Z.shiftl s 16) s))) x) (λ y, filled y ∧ y.2 < 4).
Proof.
  intros Hx Hf. apply (iter_inv filled (λ x, Z.to_nat x.2)); [done | done|].
  intros [[m' d] amt] (n & -> & -> & -> & E & Hamt). unfold fill_word. destruct (Z.leb_spec 4 (len - 2 * Z.of_nat n)).
  - rewrite store32a_halves by done. cbn [mbind outcome_bind yields snd]. rewrite replicate_halves.
    split; [|lia]. exists (n + 2)%nat. split_and!; [done | lia | lia | dlia | lia].
  - cbn [yields snd]. split; [by exists n | lia].
Qed.

End Fill.

Lemma land_2 x : (Z.land x 2 =? 2) = (2 <=? x mod 4).
Proof.
  change 2 with (Z.land 3 2) at 1. rewrite Z.land_assoc, (land_mask x 2) by lia. change (2 ^ 2) with 4.
  assert (x mod 4 = 0 ∨ x mod 4 = 1 ∨ x mod 4 = 2 ∨ x mod 4 = 3) as [E|[E|[E|E]]] by dlia; by rewrite E.
Qed.

Lemma fill_spec m dst s n : in_u16 s → dst mod 2 = 0 → 0 < Z.of_nat n < 65536 →
  _true_color_image_fill m dst s (Z.of_nat n * 2) = Ok (store_halves m dst (replicate n s), Z.of_nat n * 2).
Proof.
  intros Hs Ha Hn. apply yields_eq. unfold _true_color_image_fill.
  rewrite (land_mask dst 1), (land_mask (Z.of_nat n * 2) 1) by lia. change (2 ^ 1) with 2. rewrite Ha, Z.mod_mul by lia.
  cbn [Z.eqb negb]. apply yields_bind. eapply (yields_mono _ (filled m dst s (Z.of_nat n * 2))).
  { rewrite land_2. destruct (Z.leb_spec 2 (dst mod 4)).
    - rewrite store16a_even by done. cbn [mbind outcome_bind yields snd]. rewrite wrapu_small by lia.
      exists 1%nat. split_and!; [done | lia | lia | dlia | lia].
    - exists 0%nat. split_and!; [done | lia | lia | dlia | lia]. }
  intros [[m1 d1] amt1] H1. apply yields_bind.
  eapply yields_mono; [apply (fill_4_words_spec m dst s (Z.of_nat n * 2)); [done | done | cbn; lia]|].
  intros [[m2 d2] amt2] H2. apply yields_bind.
  eapply yields_mono; [apply (fill_word_spec m dst s (Z.of_nat n * 2)); [done | done | cbn; lia]|].
  intros [[m3 d3] amt3] [(k & -> & -> & -> & E & Hk) Hlt]. cbn [snd] in Hlt. rewrite (wraps_small 32) by lia.
  destruct (Z.eqb_spec (Z.of_nat n * 2 - 2 * Z.of_nat k) 0) as [Hz|Hz]; cbn [negb].
  - cbn [mbind outcome_bind]. rewrite Hz. cbn. by replace n with k by lia.
  - rewrite store16a_even by dlia. cbn [mbind outcome_bind]. rewrite wrapu_small by lia.
    replace (Z.of_nat n * 2 - 2 * Z.of_nat k - 2) with 0 by lia. cbn [Z.eqb negb yields]. f_equal.
    change [s] with (replicate 1 s). rewrite replicate_halves. by replace (k + 1)%nat with n by lia.
Qed.

(** ** Bytes in memory *)

Definition holds (m : mem) (a : Z) (l : list Z) : Prop := ∀ i b, l !! i = Some b → load8 m (a + Z.of_nat i) = b.

Lemma holds_app m a l1 l2 : holds m a (l1 ++ l2) → holds m a l1 ∧ holds m (a + Z.of_nat (length l1)) l2.
Proof.
  intros H. split; intros i b Hb.
  - apply H. by apply lookup_app_l_Some.
  - replace (a + Z.of_nat (length l1) + Z.of_nat i) with (a + Z.of_nat (length l1 + i)) by lia. apply H.
    rewrite lookup_app_r by lia. by replace (length l1 + i - length l1)%nat with i by lia.
Qed.

Lemma holds_cons m a b l : holds m a (b :: l) → load8 m a = b ∧ holds m (a + 1) l.
Proof. intros [H1 H2]%(holds_app m a [b]). split; [|done]. rewrite <- (Z.add_0_r a). by apply (H1 0%nat). Qed.

Lemma holds_store m a l dst h : holds m a l →
  dst + 2 * Z.of_nat (length h) ≤ a ∨ a + Z.of_nat (length l) ≤ dst → holds (store_halves m dst h) a l.
Proof.
  intros H Hd i b Hb. pose proof (lookup_lt_Some _ _ _ Hb). rewrite store_halves_out by lia. by apply H.
Qed.

(** ** Pixels *)

(** The colour of the bytes of a pixel: blue, green, red and, in four, one that
    is ignored. *)
Definition rgb555 (tga : tga_t) (px : list Z) : Z :=
  put_pixel tga (RGB24_TO_RGB555 (px !!! 2%nat) (px !!! 1%nat) (px !!! 0%nat)).

(** Pixels of [n] bytes, where [n] is 3 or 4. *)
Definition pixel_ok (n : Z) (px : list Z) : Prop := Z.of_nat (length px) = n ∧ Forall (λ b, in_u8 b) px.

Lemma read_pixel_spec tga m u n c px : n = 3 ∨ n = 4 → pixel_ok n px → holds m c px →
  ∃ p, read_pixel m u n c = Ok p ∧ put_pixel tga p = rgb555 tga px.
Proof.
  intros Hn [Hl Hb] H. destruct px as [|b [|g [|r px]]]; cbn [length] in Hl; try lia.
  assert (load8 m c = b) as E0 by (rewrite <- (Z.add_0_r c); by apply (H 0%nat)).
  assert (load8 m (c + 1) = g) as E1 by (by apply (H 1%nat)). assert (load8 m (c + 2) = r) as E2 by (by apply (H 2%nat)).
  exists (RGB24_TO_RGB555 r g b). split; [|done]. unfold read_pixel.
  destruct Hn as [-> | ->]; cbn [Z.eqb Pos.eqb]; unfold BGRA32_DATA_TO_RGB555, BGR24_DATA_TO_RGB555; by rewrite E0, E1, E2.
Qed.

Lemma rgb24_range r g b : in_u8 r → in_u8 g → in_u8 b → 0 ≤ RGB24_TO_RGB555 r g b < 2 ^ 15.
Proof.
  intros Hr Hg Hb. unfold RGB24_TO_RGB555. rewrite !Z.shiftr_div_pow2, !Z.shiftl_mul_pow2 by lia. change (2 ^ 3) with 8.
  rewrite <- Z.lor_assoc, (lor_add (r / 8) (g / 8) 5) by dlia.
  rewrite lor_add by dlia. dlia.
Qed.

Lemma put_pixel_range tga p : 0 ≤ p < 2 ^ 15 → in_u16 (put_pixel tga p).
Proof.
  intros Hp. unfold put_pixel. case_cmp; [destruct (msb tga); lia|]. change 32768 with (1 * 2 ^ 15). rewrite lor_add by lia. lia.
Qed.

Lemma rgb555_range tga n px : n = 3 ∨ n = 4 → pixel_ok n px → in_u16 (rgb555 tga px).
Proof.
  intros Hn [Hl Hb]. destruct px as [|b [|g [|r px]]]; cbn [length] in Hl; try lia. rewrite !Forall_cons in Hb.
  destruct Hb as (? & ? & ? & _). apply put_pixel_range. by apply rgb24_range.
Qed.

Lemma length_concat_pixels n l : Forall (pixel_ok n) l → Z.of_nat (length (concat l)) = n * Z.of_nat (length l).
Proof. induction 1 as [|px l [Hl _] _ IH]; cbn [concat length]; [lia|]. rewrite length_app. lia. Qed.

Lemma holds_concat m c n l i px : Forall (pixel_ok n) l → l !! i = Some px → holds m c (concat l) → holds m (c + n * Z.of_nat i) px.
Proof.
  intros Hl. revert c i. induction Hl as [|x l [Hx _] _ IH]; intros c i Hi H; [done|]. cbn [concat] in H.
  apply holds_app in H as [H1 H2]. destruct i as [|i]; cbn in Hi.
  - injection Hi as ->. by rewrite Z.mul_0_r, Z.add_0_r.
  - rewrite Hx in H2. replace (c + n * Z.of_nat (S i)) with (c + n + n * Z.of_nat i) by lia. by apply IH.
Qed.

(** Pixels one behind the other, in the file and in the image. *)
Lemma pixel_row tga u m dst n c l (addr : Z → Z) : n = 3 ∨ n = 4 → Forall (pixel_ok n) l → dst mod 2 = 0 → holds m c (concat l) →
  (∀ i, 0 ≤ i < Z.of_nat (length l) → addr i = c + n * i) →
  dst + 2 * Z.of_nat (length l) ≤ c ∨ c + n * Z.of_nat (length l) ≤ dst →
  for_up (length l) 0 (λ i m, pixel ← read_pixel m (u i) n (addr i); store16a m (dst + 2 * i) (put_pixel tga pixel)) m =
  Ok (store_halves m dst (rgb555 tga <$> l)).
Proof.
  intros Hn Hl Hd Hm Hc Hdis. apply yields_eq. eapply yields_mono.
  { apply (for_up_inv (λ i m', m' = store_halves m dst (rgb555 tga <$> take (Z.to_nat i) l))); [done|].
    intros i m' Hi ->. rewrite Hc by lia. destruct (lookup_lt_is_Some_2 l (Z.to_nat i)) as [px Hpx]; [lia|].
    pose proof (Forall_lookup_1 _ _ _ _ Hl Hpx) as Hok.
    assert (length (take (Z.to_nat i) l) = Z.to_nat i) as Hlen by (rewrite length_take; lia).
    destruct (read_pixel_spec tga (store_halves m dst (rgb555 tga <$> take (Z.to_nat i) l)) (u i) n (c + n * i) px) as (p & -> & Hp); [done.. | |].
    { apply holds_store; [|rewrite length_fmap; destruct Hok as [-> _]; nia].
      replace i with (Z.of_nat (Z.to_nat i)) at 1 by lia. by apply (holds_concat m c n l). }
    cbn [mbind outcome_bind]. rewrite store16a_even by dlia. cbn [yields].
    replace (Z.to_nat (i + 1)) with (S (Z.to_nat i)) by lia. rewrite (take_S_r _ _ px) by done.
    rewrite fmap_app, store_halves_app, length_fmap, Hlen, Hp. cbn [fmap list_fmap]. f_equal. lia. }
  intros m' ->. rewrite take_ge by lia. done.
Qed.

(** ** Run-length packets *)

Inductive rle :=
| Raw (l : list (list Z))
| Run (k : nat) (px : list Z).

Definition encode (p : rle) : list Z :=
  match p with
  | Raw l => Z.of_nat (length l) - 1 :: concat l
  | Run k px => 128 + (Z.of_nat k - 1) :: px
  end.

Definition expand (p : rle) : list (list Z) := match p with Raw l => l | Run k px => replicate k px end.

Definition packet_ok (n : Z) (p : rle) : Prop := 1 ≤ Z.of_nat (length (expand p)) ≤ 128 ∧ Forall (pixel_ok n) (expand p).

Lemma packet_header x : in_u8 x →
  (Z.shiftr (Z.land x 128) 7 =? 0) = (x <? 128) ∧ u8 (Z.land x (Z.lnot 128) + 1) = x mod 128 + 1.
Proof.
  intros Hx.
  assert (eqb (Z.shiftr (Z.land x 128) 7 =? 0) (x <? 128) && (u8 (Z.land x (Z.lnot 128) + 1) =? x mod 128 + 1) = true) as H.
  { revert x Hx. apply (all_bytes (λ x, _)). vm_compute. reflexivity. }
  apply andb_prop in H as [H1 H2]. apply eqb_prop in H1. by apply Z.eqb_eq in H2.
Qed.

Definition disjoint (a n b k : Z) : Prop := a + n ≤ b ∨ b + k ≤ a.

Lemma rle_packet_spec u tga m dst a k p n : n = 3 ∨ n = 4 → n = Z.shiftr (tga_bpp tga) 3 → packet_ok n p → dst mod 2 = 0 →
  0 ≤ k < tga_pixels tga → k + Z.of_nat (length (expand p)) ≤ 2 ^ 30 → holds m a (encode p) →
  disjoint dst (2 * Z.of_nat (length (expand p))) a (Z.of_nat (length (encode p))) →
  rle_packet u tga (m, dst, a, k) = Ok (inl (store_halves m dst (rgb555 tga <$> expand p),
    dst + 2 * Z.of_nat (length (expand p)), a + Z.of_nat (length (encode p)), k + Z.of_nat (length (expand p)))).
Proof.
  intros Hn En [Hlen Hok] Hd Hk Hmax Hm Hdis. unfold rle_packet, disjoint in *. rewrite <- En.
  rewrite (wrapu_small 32) by lia. rewrite (proj2 (Z.ltb_lt _ _) (proj2 Hk)). cbn [negb].
  destruct p as [l|c px]; cbn [encode expand length] in *; apply holds_cons in Hm as [Hh Hm].
  - destruct (packet_header (load8 m a) (load8_range _ _)) as [-> ->]. rewrite Hh.
    rewrite (proj2 (Z.ltb_lt _ _)) by lia. rewrite Z.mod_small by lia. replace (Z.of_nat (length l) - 1 + 1) with (Z.of_nat (length l)) by lia.
    pose proof (length_concat_pixels n l Hok) as Hc. rewrite Nat2Z.id.
    rewrite (pixel_row tga (λ i, u (k + i)) m dst n (a + 1) l) by (done || (intros; lia) || lia).
    cbn [mbind outcome_bind]. rewrite wraps_small by lia.
    by replace (a + Z.of_nat (length l) * n + 1) with (a + Z.of_nat (S (length (concat l)))) by lia.
  - destruct (packet_header (load8 m a) (load8_range _ _)) as [-> ->]. rewrite Hh. rewrite length_replicate in *.
    rewrite (proj2 (Z.ltb_ge _ _)) by lia. replace ((128 + (Z.of_nat c - 1)) mod 128 + 1) with (Z.of_nat c) by dlia.
    assert (pixel_ok n px) as Hpx by (apply (Forall_lookup_1 _ _ 0%nat _ Hok); apply lookup_replicate_2; lia).
    destruct (read_pixel_spec tga m (u k) n (a + 1) px) as (p & -> & Hp); [done.. |]. cbn [mbind outcome_bind]. rewrite Hp.
    rewrite fill_spec by (lia || done || by apply (rgb555_range tga n)). cbn [mbind outcome_bind].
    rewrite (proj2 (Z.ltb_ge _ _)) by lia. rewrite wraps_small by lia. destruct Hpx as [Hpl _].
    rewrite fmap_replicate. by replace (a + n + 1) with (a + Z.of_nat (S (length px))) by lia.
Qed.

Lemma rle_packets_spec u tga n ps fuel m dst a k : n = 3 ∨ n = 4 → n = Z.shiftr (tga_bpp tga) 3 → Forall (packet_ok n) ps → dst mod 2 = 0 →
  0 ≤ k → tga_pixels tga = k + Z.of_nat (length (ps ≫= expand)) → tga_pixels tga ≤ 2 ^ 30 → holds m a (ps ≫= encode) →
  disjoint dst (2 * Z.of_nat (length (ps ≫= expand))) a (Z.of_nat (length (ps ≫= encode))) → (length ps < fuel)%nat →
  iter fuel (rle_packet u tga) (m, dst, a, k) = Ok (store_halves m dst (rgb555 tga <$> ps ≫= expand), tga_pixels tga).
Proof.
  intros Hn En Hps. revert fuel m dst a k. unfold disjoint.
  induction Hps as [|p ps Hp Hps IH]; intros fuel m dst a k Hd Hk Hpix Hmax Hm Hdis Hf; destruct fuel as [|fuel]; try lia.
  - cbn in Hpix |- *. rewrite (wrapu_small 32) by lia. rewrite (proj2 (Z.ltb_ge _ _)) by lia. cbn. repeat f_equal. lia.
  - cbn [mbind list_bind length] in *. rewrite !length_app in *. apply holds_app in Hm as [Hm1 Hm2]. pose proof (proj1 Hp) as Hlen.
    cbn [iter]. rewrite (rle_packet_spec u tga m dst a k p n) by (done || lia || (unfold disjoint; lia)). cbn [mbind outcome_bind].
    rewrite IH; try done; try lia.
    + by rewrite fmap_app, store_halves_app, length_fmap.
    + dlia.
    + apply holds_store; [done|]. rewrite length_fmap. lia.
Qed.

(** ** Files *)

(** What [tga_read] accepts: images of 1 by 1 to 512 by 482 pixels, with the
    options the caller has set. *)
Lemma tga_read_spec m tga file t : tga_read m tga file = (t, TGA_FILE_OK) →
  tga_file t = file ∧ 0 < tga_width t ≤ 512 ∧ 0 < tga_height t ≤ 482 ∧
  transparent_pixel t = transparent_pixel tga ∧ msb t = msb tga ∧
  (tga_type t = TGA_IMAGE_TYPE_CMAP ∨ tga_type t = TGA_IMAGE_TYPE_TRUE_COLOR ∨ tga_type t = TGA_IMAGE_TYPE_RLE_TRUE_COLOR) ∧
  (tga_type t ≠ TGA_IMAGE_TYPE_CMAP → 2 ≤ Z.shiftr (tga_bpp t) 3 ≤ 4).
Proof.
  unfold tga_read. intros H.
  pose proof (wrapu_range 16 (READ_LITTLE_ENDIAN_16 m file 12) ltac:(lia)) as Hw.
  pose proof (wrapu_range 16 (READ_LITTLE_ENDIAN_16 m file 14) ltac:(lia)) as Hh.
  set (w := u16 (READ_LITTLE_ENDIAN_16 m file 12)) in *. set (h := u16 (READ_LITTLE_ENDIAN_16 m file 14)) in *.
  destruct ((w =? 0) || (h =? 0) || (512 <? w) || (482 <? h)) eqn:E1; [done|]. rewrite !orb_false_iff in E1.
  destruct E1 as [[[E1 E2] E3] E4]. apply Z.eqb_neq in E1, E2. apply Z.ltb_ge in E3, E4.
  destruct (negb (Z.land _ _ =? _)); [done|]. destruct (type_consistent _ _ _ _ _ _) eqn:Et; [|done]. cbn [negb] in H.
  set (ty := load8 m (file + 2)) in *. destruct ((ty =? _) || (ty =? _)) eqn:E5; [done|].
  destruct ((ty =? _) && _); [done|]. destruct (ty =? TGA_IMAGE_TYPE_RLE_CMAP) eqn:E6; [done|].
  injection H as <-. cbn. unfold type_consistent in Et. rewrite E5, E6, orb_false_r in Et. split_and!; try done; try lia.
  - destruct (ty =? TGA_IMAGE_TYPE_TRUE_COLOR) eqn:E7; [apply Z.eqb_eq in E7; tauto|].
    destruct (ty =? TGA_IMAGE_TYPE_RLE_TRUE_COLOR) eqn:E8; [apply Z.eqb_eq in E8; tauto|].
    cbn [orb] in Et. destruct (ty =? TGA_IMAGE_TYPE_CMAP) eqn:E9; [apply Z.eqb_eq in E9; tauto | done].
  - intros Hc. apply Z.eqb_neq in Hc. rewrite Hc in Et. destruct (_ || _); [|done].
    apply negb_true_iff, orb_false_iff in Et as [Et _].
    set (b := Z.shiftr (load8 m (file + 16)) 3) in *.
    destruct (Z.eqb_spec b 2), (Z.eqb_spec b 3), (Z.eqb_spec b 4); cbn in Et; lia || done.
Qed.

Lemma length_packets n ps : Forall (packet_ok n) ps → (length ps ≤ length (ps ≫= expand))%nat.
Proof. induction 1 as [|p ps [Hp _] _ IH]; [done|]. rewrite bind_cons, length_app. cbn [length]. lia. Qed.

(** C25: A true-colour image decodes to the same pixels whether it is stored plain
    or run-length encoded.  For two files of one size that [tga_read] accepts, with
    pixels of 24 or 32 bits, the one with the packets [ps] and the other with the
    pixels they stand for, [tga_image_decode] writes exactly the colours of those
    pixels, one behind the other, and returns their number.  The image must be at an
    even address and must not overlap the data of the files. *)
Theorem tga_rle_equals_plain u m tga file file' t t' ps dst :
  tga_read m tga file = (t, TGA_FILE_OK) → tga_read m tga file' = (t', TGA_FILE_OK) →
  tga_type t = TGA_IMAGE_TYPE_RLE_TRUE_COLOR → tga_type t' = TGA_IMAGE_TYPE_TRUE_COLOR →
  tga_width t = tga_width t' → tga_height t = tga_height t' → tga_bpp t = tga_bpp t' →
  let n := Z.shiftr (tga_bpp t) 3 in
  n = 3 ∨ n = 4 → Forall (packet_ok n) ps →
  Z.of_nat (length (ps ≫= expand)) = tga_width t * tga_height t →
  holds m (image_buf m t) (ps ≫= encode) → holds m (image_buf m t') (concat (ps ≫= expand)) →
  dst mod 2 = 0 →
  disjoint dst (2 * (tga_width t * tga_height t)) (image_buf m t) (Z.of_nat (length (ps ≫= encode))) →
  disjoint dst (2 * (tga_width t * tga_height t)) (image_buf m t') (n * (tga_width t * tga_height t)) →
  let image := Ok (store_halves m dst (rgb555 tga <$> ps ≫= expand), tga_width t * tga_height t) in
  tga_image_decode u m t dst = image ∧ tga_image_decode u m t' dst = image.
Proof.
  intros Hr Hr' Ht Ht' Ew Eh Eb n Hn Hps Hlen Hm Hm' Hd Hdis Hdis' image.
  apply tga_read_spec in Hr as (_ & Hw & Hh & Etp & Em & _), Hr' as (_ & Hw' & Hh' & Etp' & Em' & _).
  assert (tga_pixels t = tga_width t * tga_height t) as Hpix by (unfold tga_pixels; apply wrapu_small; nia).
  assert (tga_pixels t' = tga_width t * tga_height t) as Hpix' by (unfold tga_pixels in *; congruence).
  assert (∀ px, rgb555 t px = rgb555 tga px ∧ rgb555 t' px = rgb555 tga px) as Hrgb.
  { intros px. unfold rgb555, put_pixel, transparent. by rewrite Etp, Em, Etp', Em'. }
  assert (Forall (pixel_ok n) (ps ≫= expand)) as Hok.
  { apply Forall_bind. eapply Forall_impl; [done|]. by intros p [_ ?]. }
  unfold image. rewrite <- Hlen in *. split.
  - unfold tga_image_decode. rewrite Ht. cbn [Z.eqb Pos.eqb orb]. unfold true_color_rle_image_decode.
    rewrite (rle_packets_spec u t n ps); try done; try lia; try nia.
    + rewrite Hpix. do 2 f_equal. f_equal. apply list_fmap_ext. intros ? px _. apply Hrgb.
    + pose proof (length_packets n ps Hps). lia.
  - unfold tga_image_decode. rewrite Ht'. cbn [Z.eqb Pos.eqb orb]. unfold true_color_image_decode. rewrite Hpix', Nat2Z.id, <- Eb.
    fold n. rewrite (pixel_row t' u m dst n (image_buf m t') (ps ≫= expand)); try done.
    + cbn [mbind outcome_bind]. rewrite wraps_small by nia. do 2 f_equal. f_equal. apply list_fmap_ext. intros ? px _. apply Hrgb.
    + intros i Hi. rewrite wrapu_small; [done | nia].
Qed.

Fixpoint holds_b (m : mem) (a : Z) (l : list Z) : bool :=
  match l with
  | [] => true
  | b :: l => (load8 m a =? b) && holds_b m (a + 1) l
  end.

Lemma holds_b_spec m a l : holds_b m a l = true → holds m a l.
Proof.
  revert a. induction l as [|b l IH]; intros a H i x Hx; [done|]. cbn [holds_b] in H. apply andb_prop in H as [H1 H2].
  destruct i as [|i]; cbn in Hx.
  - injection Hx as <-. rewrite Z.add_0_r. by apply Z.eqb_eq.
  - replace (a + Z.of_nat (S i)) with (a + 1 + Z.of_nat i) by lia. by apply IH.
Qed.

(** Two pixels by two: three times one colour, then another. *)
Definition demo_packets : list rle := [Run 3 [10; 200; 77]; Raw [[1; 2; 3]]].
Definition demo_header (ty : Z) : list Z := [0; 0; ty; 0; 0; 0; 0; 0; 0; 0; 0; 0; 2; 0; 2; 0; 24; 32].
Definition demo_memory : mem :=
  store_bytes (store_bytes ∅ 4096 (demo_header 10 ++ (demo_packets ≫= encode)))
    8192 (demo_header 2 ++ concat (demo_packets ≫= expand)).
Definition demo_options : tga_t := mk_tga 0 0 0 0 0 0 0 0 0 false.

Lemma tga_rle_equals_plain_witness :
  let image := Ok (store_halves demo_memory 16386 (rgb555 demo_options <$> demo_packets ≫= expand), 2 * 2) in
  tga_image_decode (λ _, 0) demo_memory (tga_read demo_memory demo_options 4096).1 16386 = image ∧
  tga_image_decode (λ _, 0) demo_memory (tga_read demo_memory demo_options 8192).1 16386 = image.
Proof.
  apply (tga_rle_equals_plain (λ _, 0) demo_memory demo_options 4096 8192 (tga_read demo_memory demo_options 4096).1
           (tga_read demo_memory demo_options 8192).1 demo_packets 16386).
  1-7: by vm_compute.
  - left. by vm_compute.
  - repeat constructor; vm_compute; congruence.
  - by vm_compute.
  - apply holds_b_spec. by vm_compute.
  - apply holds_b_spec. by vm_compute.
  - by vm_compute.
  - right. vm_compute. congruence.
  - right. vm_compute. congruence.
Defined.

(** ** Tiles *)

Section Tiles.
Context (m : mem) (t : tga_t) (dst : Z).
Hypothesis Hbpp : tga_bpp t = 8.
Hypothesis Hw : 0 < tga_width t ≤ 512.
Hypothesis Hh : 0 < tga_height t ≤ 482.

(** The pixels of the image, and of its whole tiles, which are what is drawn.  The
    image and the byte of the header that is read again are not in the destination. *)
Definition area : Z := tga_width t * tga_height t.
Definition tiled_area : Z := 64 * (tga_width t / 8 * (tga_height t / 8)).
Hypothesis Hsize : tiled_area ≤ 65536.
Hypothesis Hd1 : disjoint dst tiled_area (image_buf m t) area.
Hypothesis Hd2 : disjoint dst tiled_area (tga_file t) 1.

(** Where pixel [j] of a tile comes from. *)
Definition source_of (tx ty j : Z) : Z := image_buf m t + (8 * tx + j mod 8) + (8 * ty + j / 8) * tga_width t.
Definition base_of (tx ty : Z) : Z := 64 * (tx + tga_width t / 8 * ty).
Definition in_grid (tx ty : Z) : Prop := 0 ≤ tx < tga_width t / 8 ∧ 0 ≤ ty < tga_height t / 8.

Lemma base_of_bound tx ty : in_grid tx ty → 0 ≤ base_of tx ty ∧ base_of tx ty + 64 ≤ tiled_area.
Proof. unfold in_grid, base_of, tiled_area. intros [Hx Hy]. nia. Qed.

Lemma source_of_bound tx ty j : in_grid tx ty → 0 ≤ j < 64 → image_buf m t ≤ source_of tx ty j < image_buf m t + area.
Proof.
  unfold in_grid, source_of, area. intros [Hx Hy] Hj. assert (0 ≤ j mod 8 < 8) by dlia. assert (0 ≤ j / 8 < 8) by dlia.
  assert (8 * (tga_width t / 8) ≤ tga_width t) by dlia. assert (8 * (tga_height t / 8) ≤ tga_height t) by dlia. nia.
Qed.

(** The first [k] pixels of a tile are drawn on [m1]. *)
Definition drawn (m1 : mem) (tx ty k : Z) (m' : mem) : Prop :=
  (∀ j, 0 ≤ j < k → load8 m' (dst + base_of tx ty + j) = load8 m (source_of tx ty j)) ∧
  (∀ a, a < dst + base_of tx ty ∨ dst + base_of tx ty + k ≤ a → load8 m' a = load8 m1 a).

(** Outside the destination nothing has changed. *)
Definition kept (m1 : mem) : Prop := ∀ a, a < dst ∨ dst + tiled_area ≤ a → load8 m1 a = load8 m a.

Lemma image_buf_kept m1 : kept m1 → image_buf m1 t = image_buf m t.
Proof. intros Hk. unfold image_buf, _image_calculate_offset. rewrite Hk; [done|]. unfold disjoint in Hd2. lia. Qed.

Lemma tile_draw_spec m1 tx ty : in_grid tx ty → kept m1 → yields (_cmap_image_tile_draw t dst tx ty m1) (drawn m1 tx ty 64).
Proof.
  intros Hg Hk. pose proof (base_of_bound tx ty Hg) as Hb. unfold _cmap_image_tile_draw. rewrite image_buf_kept by done.
  assert (tile_width t = 8) as Htw by (unfold tile_width; by rewrite Hbpp).
  assert (tile_height t = 8) as Hth by (unfold tile_height; by rewrite Hbpp).
  assert (tile_base t tx ty = base_of tx ty) as Hbase.
  { unfold tile_base, tile_bytes. rewrite Htw, Hth. change (u16 (8 * 8)) with 64. apply wrapu_small. unfold base_of in *. lia. }
  rewrite Htw, Hth, Hbase. apply (yields_mono _ (drawn m1 tx ty (8 * (0 + Z.of_nat (Z.to_nat 8))))); [|done].
  apply (for_up_inv (λ y m', drawn m1 tx ty (8 * y) m')); [split; [lia | done]|].
  intros y my Hy Hdy. replace (8 * (y + 1)) with (8 * y + (0 + Z.of_nat (Z.to_nat 8))) by lia.
  apply (for_up_inv (λ x m', drawn m1 tx ty (8 * y + x) m')); [by rewrite Z.add_0_r|].
  intros x m' Hx [Hin Hout]. cbn [yields].
  assert (image_buf m t + u32 (8 * tx + x + (8 * ty + y) * tga_width t) = source_of tx ty (8 * y + x)) as ->.
  { unfold source_of. replace ((8 * y + x) mod 8) with x by dlia. replace ((8 * y + x) / 8) with y by dlia.
    rewrite wrapu_small; [lia|]. destruct Hg. assert (8 * (tga_width t / 8) ≤ tga_width t) by dlia. assert (8 * (tga_height t / 8) ≤ tga_height t) by dlia. nia. }
  pose proof (source_of_bound tx ty (8 * y + x) Hg ltac:(lia)) as Hs.
  assert (load8 m' (source_of tx ty (8 * y + x)) = load8 m (source_of tx ty (8 * y + x))) as ->.
  { unfold disjoint in Hd1. rewrite Hout by lia. apply Hk. lia. }
  replace (dst + (base_of tx ty + (x + 8 * y))) with (dst + base_of tx ty + (8 * y + x)) by lia. split.
  - intros j Hj. destruct (Z.eq_dec j (8 * y + x)) as [->|].
    + rewrite load8_store8_eq. apply wrapu_small, load8_range.
    + rewrite load8_store8_ne by lia. apply Hin. lia.
  - intros a Ha. rewrite load8_store8_ne by lia. apply Hout. lia.
Qed.

Lemma base_of_apart tx ty tx' ty' : in_grid tx ty → in_grid tx' ty' → (tx, ty) ≠ (tx', ty') →
  base_of tx ty + 64 ≤ base_of tx' ty' ∨ base_of tx' ty' + 64 ≤ base_of tx ty.
Proof.
  unfold in_grid, base_of. intros [Hx Hy] [Hx' Hy'] Hne.
  destruct (Z.eq_dec ty ty') as [->|]; [assert (tx ≠ tx') by congruence; lia | nia].
Qed.

(** The tiles of [P] are drawn. *)
Definition placed (P : Z → Z → Prop) (m1 : mem) : Prop :=
  kept m1 ∧ ∀ tx ty j, in_grid tx ty → P tx ty → 0 ≤ j < 64 → load8 m1 (dst + base_of tx ty + j) = load8 m (source_of tx ty j).

Lemma placed_draw P m1 tx ty : in_grid tx ty → placed P m1 →
  yields (_cmap_image_tile_draw t dst tx ty m1) (placed (λ tx' ty', P tx' ty' ∨ (tx', ty') = (tx, ty))).
Proof.
  intros Hg [Hk HP]. eapply yields_mono; [by apply tile_draw_spec|]. intros m' [Hin Hout]. pose proof (base_of_bound tx ty Hg). split.
  - intros a Ha. rewrite Hout by lia. by apply Hk.
  - intros tx' ty' j Hg' HP' Hj. destruct (decide ((tx', ty') = (tx, ty))) as [E|E].
    + injection E as -> ->. by apply Hin.
    + destruct HP' as [HP'|]; [|done]. destruct (base_of_apart _ _ _ _ Hg' Hg E); rewrite Hout by lia; by apply HP.
Qed.

Lemma placed_mono (P Q : Z → Z → Prop) m1 : (∀ tx ty, in_grid tx ty → Q tx ty → P tx ty) → placed P m1 → placed Q m1.
Proof. intros H [Hk HP]. split; [done|]. intros tx ty j Hg HQ Hj. apply HP; auto. Qed.

Lemma tiles_spec : yields (cmap_image_decode_tiled m t dst) (λ '(m', r), r = TGA_FILE_OK ∧ placed (λ _ _, True) m').
Proof.
  unfold cmap_image_decode_tiled. apply yields_bind. eapply yields_mono.
  { apply (for_up_inv (λ tx m', placed (λ tx' _, tx' < tx) m')); [split; [done|]; unfold in_grid; lia|].
    intros tx m1 Htx Hm1. eapply yields_mono.
    { apply (for_up_inv (λ ty m', placed (λ tx' ty', tx' < tx ∨ (tx' = tx ∧ ty' < ty)) m') (Z.to_nat (tga_height t / 8)) 0).
      - eapply placed_mono; [|done]. unfold in_grid. intros; cbn in *; lia.
      - intros ty m2 Hty Hm2. assert (0 ≤ tga_height t / 8) by dlia. assert (0 ≤ tga_width t / 8) by dlia.
        eapply yields_mono; [apply placed_draw; [split; lia | exact Hm2]|].
        intros m3. apply placed_mono. intros tx' ty' Hg HQ. cbn in *.
        destruct (decide ((tx', ty') = (tx, ty))) as [|Hne]; [by right | left].
        destruct (Z.eq_dec tx' tx) as [->|]; [|lia]. destruct (Z.eq_dec ty' ty) as [->|]; [done | lia]. }
    intros m2. apply placed_mono. unfold in_grid. cbn. intros; lia. }
  intros m' Hm'. cbn [yields]. split; [done|]. eapply placed_mono; [|exact Hm']. unfold in_grid. cbn. intros; lia.
Qed.

End Tiles.

(** C26: A decoded image of tiles has every pixel of its whole tiles in its place.
    For an image with a colour map and 8 bits a pixel that [tga_read] accepts, of
    any width and height with at most 1024 whole tiles of 8 by 8, pixel (x, y) is
    byte x mod 8 + 8 (y mod 8) of the tile in column x / 8 and row y / 8, and nothing
    outside those tiles changes.  Pixels in the last columns and rows that fill no
    tile are not drawn. *)
Theorem tga_tiles_in_place m tga file t dst :
  tga_read m tga file = (t, TGA_FILE_OK) → tga_type t = TGA_IMAGE_TYPE_CMAP → tga_bpp t = 8 → tiled_area t ≤ 65536 →
  disjoint dst (tiled_area t) (image_buf m t) (area t) → disjoint dst (tiled_area t) file 1 →
  yields (tga_image_decode_tiled m t dst) (λ '(m', r), r = TGA_FILE_OK ∧
    (∀ x y, 0 ≤ x → x / 8 < tga_width t / 8 → 0 ≤ y → y / 8 < tga_height t / 8 →
      load8 m' (dst + 64 * (x / 8 + tga_width t / 8 * (y / 8)) + (x mod 8 + 8 * (y mod 8))) = load8 m (image_buf m t + x + y * tga_width t)) ∧
    (∀ a, a < dst ∨ dst + tiled_area t ≤ a → load8 m' a = load8 m a)).
Proof.
  intros Hr Ht Hb Ha Hd1 Hd2. apply tga_read_spec in Hr as (<- & Hw & Hh & _).
  unfold tga_image_decode_tiled. rewrite Ht. cbn [Z.eqb Pos.eqb orb]. eapply yields_mono; [by apply tiles_spec|].
  intros [m' r] [-> [Hk HP]]. split_and!; [done | | done]. intros x y Hx Hx' Hy Hy'.
  assert (in_grid t (x / 8) (y / 8)) as Hg by (split; dlia).
  etransitivity; [apply (HP (x / 8) (y / 8) (x mod 8 + 8 * (y mod 8)) Hg I); dlia|].
  unfold source_of. f_equal. replace ((x mod 8 + 8 * (y mod 8)) mod 8) with (x mod 8) by dlia.
  replace ((x mod 8 + 8 * (y mod 8)) / 8) with (y mod 8) by dlia.
  replace (8 * (x / 8) + x mod 8) with x by dlia. replace (8 * (y / 8) + y mod 8) with y by dlia. done.
Qed.

(** Nineteen pixels by nine, with a colour map of one colour: two whole tiles. *)
Definition tiles_memory : mem := store_bytes ∅ 4096 ([0; 1; 1; 0; 0; 1; 0; 24; 0; 0; 0; 0; 19; 0; 9; 0; 8; 32; 9; 9; 9] ++ seqZ 0 171).

Lemma tga_tiles_in_place_witness : let t := (tga_read tiles_memory demo_options 4096).1 in
  yields (tga_image_decode_tiled tiles_memory t 8192) (λ '(m', r), r = TGA_FILE_OK ∧
    (∀ x y, 0 ≤ x → x / 8 < tga_width t / 8 → 0 ≤ y → y / 8 < tga_height t / 8 →
      load8 m' (8192 + 64 * (x / 8 + tga_width t / 8 * (y / 8)) + (x mod 8 + 8 * (y mod 8))) =
      load8 tiles_memory (image_buf tiles_memory t + x + y * tga_width t)) ∧
    (∀ a, a < 8192 ∨ 8192 + tiled_area t ≤ a → load8 m' a = load8 tiles_memory a)).
Proof.
  apply (tga_tiles_in_place tiles_memory demo_options 4096 (tga_read tiles_memory demo_options 4096).1 8192).
  1-3: by vm_compute.
  - vm_compute. congruence.
  - right. vm_compute. congruence.
  - right. vm_compute. congruence.
Defined.

(** ** Where the reader fails *)

(** Of an image of 512 pixels by 136 the first tile of the last row is drawn over
    the first tile: the position of a tile has 16 bits. *)
Lemma tga_tile_base_wraps : let t := mk_tga 0 TGA_IMAGE_TYPE_CMAP 8 512 136 24 1 3 0 false in tile_base t 0 16 = tile_base t 0 0.
Proof. vm_compute. reflexivity. Qed.

(** A run-length encoded image of 16-bit pixels stops at a misaligned access: the
    data of its first packet is at an odd address. *)
Lemma tga_rle_16_bit_misaligned u m t dst : tga_type t = TGA_IMAGE_TYPE_RLE_TRUE_COLOR → Z.shiftr (tga_bpp t) 3 = 2 → 0 < tga_pixels t →
  image_buf m t mod 2 = 0 → tga_image_decode u m t dst = Fault Misaligned.
Proof.
  intros Ht Hb Hp Ha. unfold tga_image_decode. rewrite Ht. cbn [Z.eqb Pos.eqb orb]. unfold true_color_rle_image_decode.
  cbn [iter]. unfold rle_packet. rewrite Hb. change (u32 0) with 0. rewrite (proj2 (Z.ltb_lt _ _) Hp). cbn [negb].
  assert (∀ c, c mod 2 = 0 → load16a m (c + 1) = Fault Misaligned) as Hf.
  { intros c Hc. unfold load16a. by replace ((c + 1) mod 2) with 1 by dlia. }
  destruct (packet_header (load8 m (image_buf m t)) (load8_range _ _)) as [_ Hr].
  destruct (_ =? 0).
  - rewrite Hr. destruct (Z.to_nat (load8 m (image_buf m t) mod 128 + 1)) eqn:E; [dlia|]. cbn [for_up].
    unfold read_pixel, BGR16_DATA_TO_RGB555. cbn [Z.eqb Pos.eqb Z.mul Z.add]. by rewrite Hf.
  - unfold read_pixel, BGR16_DATA_TO_RGB555. cbn [Z.eqb Pos.eqb]. by rewrite Hf.
Qed.

(** The last packet of an image may hold more pixels than are left: an image of
    one pixel with a packet of 128 writes 256 bytes. *)
Lemma tga_rle_overruns : let m := store_bytes ∅ 4096 ([0; 0; 10; 0; 0; 0; 0; 0; 0; 0; 0; 0; 1; 0; 1; 0; 24; 32] ++ [255; 8; 8; 8]) in
  yields (tga_image_decode (λ _, 0) m (tga_read m demo_options 4096).1 8192) (λ '(m', n), n = 128 ∧ load16 m' (8192 + 2 * 127) = 33825).
Proof. vm_compute. done. Qed.

(** With a colour map of 17 colours the last one becomes the first. *)
Lemma tga_colour_16_lost : let m := store_bytes ∅ 4096 ([0; 1; 1; 0; 0; 17; 0; 24; 0; 0; 0; 0; 2; 0; 1; 0; 8; 32] ++ replicate 51 0 ++ [16; 3]) in
  yields (tga_image_decode (λ _, 0) m (tga_read m demo_options 4096).1 8192) (λ '(m', n), n = 2 ∧ load8 m' 8192 = 3).
Proof. vm_compute. done. Qed.

(** A colour map of 15 bits is accepted, but its colours are never read. *)
Lemma tga_cmap_15_uninitialised u m t dst : tga_type t = TGA_IMAGE_TYPE_CMAP → tga_cmap_bpp t = 15 → tga_cmap_len t = 1 → dst mod 2 = 0 →
  tga_cmap_decode u m t dst = Ok (store16 m dst (Z.lor 32768 (u 0)), 1).
Proof.
  intros Ht Hb Hl Hd. unfold tga_cmap_decode. rewrite Ht, Hb, Hl. cbn [Z.eqb Pos.eqb negb andb].
  change (Z.to_nat 1) with 1%nat. cbn [for_up]. change (Z.shiftr 15 3) with 1. unfold read_pixel. cbn [Z.eqb Pos.eqb mbind outcome_bind].
  unfold store16a. rewrite Z.mul_0_r, Z.add_0_r, Hd. cbn. by destruct (_ =? _).
Qed.
