(* ===== verification/Smpc.v ===== *)
(** Peripherals (src/libyaul/scu/bus/cpu/smpc): the interrupt handler that collects
    what the SMPC reports, the parser of the report, and the state of digital pads.

    What the output registers hold at an interrupt, and the status register, are
    arguments of the handler; its answer is the value written to IREG0.  The records
    of the peripherals are blocks of a pool of Memb.v, kept by address; the lists of
    those behind a multitap are lists of addresses. *)

From S2P Require Import Prelude Bits Memb.

(** ** Constants *)

Definition MAX_PORTS : Z := 2.
Definition MAX_PERIPHERALS : Z := 6.
Definition MAX_PERIPHERAL_DATA_SIZE : Z := 255.
Definition SMPC_OREGS : Z := 32.
Definition NPE : Z := 32.
Definition BR : Z := 64.
Definition CONT : Z := 128.

Definition ID_DIGITAL : Z := 2.
Definition ID_RACING : Z := 19.
Definition ID_ANALOG : Z := 22.
Definition ID_MOUSE : Z := 35.
Definition ID_KEYBOARD : Z := 52.
Definition ID_MD3B : Z := 225.
Definition ID_MD6B : Z := 226.
Definition ID_MDMOUSE : Z := 227.
Definition ID_GUN : Z := 250.

Definition TYPE_DIGITAL : Z := 0.
Definition TYPE_ANALOG : Z := 1.
Definition TYPE_POINTER : Z := 2.
Definition TYPE_KEYBOARD : Z := 3.
Definition TYPE_MD : Z := 14.

(** ** State *)

(** [parent]: the port of the multitap, if there is one. *)
Record smpc_peripheral := mk_peripheral {
  connected : Z;
  port : Z;
  type : Z;
  size : Z;
  data : list Z;
  previous_data : list Z;
  parent : option Z;
}.

(** The pool is cleared when it is made. *)
#[global] Instance smpc_peripheral_inhabited : Inhabited smpc_peripheral :=
  populate (mk_peripheral 0 0 0 0 (replicate 256 0) (replicate 256 0) None).

Definition set_connected (n : Z) (p : smpc_peripheral) : smpc_peripheral :=
  mk_peripheral n (port p) (type p) (size p) (data p) (previous_data p) (parent p).
Definition set_data (d pd : list Z) (p : smpc_peripheral) : smpc_peripheral :=
  mk_peripheral (connected p) (port p) (type p) (size p) d pd (parent p).

Record smpc_peripheral_port := mk_port { peripheral : Z; peripherals : list Z }.

Record cpu_smpc_time := mk_time { year : Z; day : Z; month : Z; days : Z; hours : Z; minutes : Z; seconds : Z }.

Record smpc := mk_smpc {
  s_time : cpu_smpc_time;
  s_port_1 : smpc_peripheral_port;
  s_port_2 : smpc_peripheral_port;
  s_complete : bool;
  s_oreg_offset : Z;
  s_oreg_buf : list Z;
  s_handler_offset : Z;
  s_pool : memb_t;
  s_blocks : gmap Z smpc_peripheral;
}.

Definition set_time (t : cpu_smpc_time) (s : smpc) : smpc :=
  mk_smpc t (s_port_1 s) (s_port_2 s) (s_complete s) (s_oreg_offset s) (s_oreg_buf s) (s_handler_offset s) (s_pool s) (s_blocks s).
Definition set_complete (b : bool) (s : smpc) : smpc :=
  mk_smpc (s_time s) (s_port_1 s) (s_port_2 s) b (s_oreg_offset s) (s_oreg_buf s) (s_handler_offset s) (s_pool s) (s_blocks s).
Definition set_oreg_offset (o : Z) (s : smpc) : smpc :=
  mk_smpc (s_time s) (s_port_1 s) (s_port_2 s) (s_complete s) o (s_oreg_buf s) (s_handler_offset s) (s_pool s) (s_blocks s).
Definition set_collected (b : list Z) (o : Z) (s : smpc) : smpc :=
  mk_smpc (s_time s) (s_port_1 s) (s_port_2 s) (s_complete s) (s_oreg_offset s) b o (s_pool s) (s_blocks s).
Definition set_pool (p : memb_t) (s : smpc) : smpc :=
  mk_smpc (s_time s) (s_port_1 s) (s_port_2 s) (s_complete s) (s_oreg_offset s) (s_oreg_buf s) (s_handler_offset s) p (s_blocks s).
Definition set_block (a : Z) (x : smpc_peripheral) (s : smpc) : smpc :=
  mk_smpc (s_time s) (s_port_1 s) (s_port_2 s) (s_complete s) (s_oreg_offset s) (s_oreg_buf s) (s_handler_offset s) (s_pool s) (<[a := x]> (s_blocks s)).
(** [memb_init] clears the bytes of the pool. *)
Definition clear_blocks (s : smpc) : smpc :=
  mk_smpc (s_time s) (s_port_1 s) (s_port_2 s) (s_complete s) (s_oreg_offset s) (s_oreg_buf s) (s_handler_offset s) (s_pool s) ∅.

Definition get_port (i : Z) (s : smpc) : smpc_peripheral_port := if i =? 1 then s_port_1 s else s_port_2 s.
Definition set_port (i : Z) (x : smpc_peripheral_port) (s : smpc) : smpc :=
  mk_smpc (s_time s) (if i =? 1 then x else s_port_1 s) (if i =? 1 then s_port_2 s else x)
    (s_complete s) (s_oreg_offset s) (s_oreg_buf s) (s_handler_offset s) (s_pool s) (s_blocks s).

Definition update_block (a : Z) (f : smpc_peripheral → smpc_peripheral) : M smpc unit :=
  modify (λ s, set_block a (f (s_blocks s !!! a)) s).

(** ** The pool *)

Definition peripheral_alloc : M smpc Z :=
  p ← gets s_pool;
  '(a, p) ← lift (memb_alloc (Some p));
  _ ← match p with Some p => modify (set_pool p) | None => mret tt end;
  _ ← assert_ (negb (a =? 0));
  _ ← update_block a (set_connected 0);
  mret a.

Definition peripheral_free (a : Z) : M smpc unit :=
  _ ← assert_ (negb (a =? 0));
  p ← gets s_pool;
  '(ret, p) ← lift (memb_free (Some p) a);
  _ ← match p with Some p => modify (set_pool p) | None => mret tt end;
  assert_ (ret =? 0).

Fixpoint free_all (l : list Z) (i : Z) : M smpc unit :=
  match l with
  | [] => mret tt
  | a :: l =>
      _ ← modify (λ s, set_port i (mk_port (peripheral (get_port i s)) l) s);
      _ ← peripheral_free a;
      free_all l i
  end.

Definition port_peripherals_free (i : Z) : M smpc unit :=
  l ← gets (λ s, peripherals (get_port i s));
  free_all l i.

(** ** Initialisation *)

Definition sizeof_smpc_peripheral : Z := 528.

Definition start (pool : Z) : smpc :=
  mk_smpc (mk_time 0 0 0 0 0 0 0) (mk_port 0 []) (mk_port 0 []) false 0
    (replicate (Z.to_nat (MAX_PERIPHERALS * (MAX_PERIPHERAL_DATA_SIZE + 1) + SMPC_OREGS)) 0) 0
    (MEMB sizeof_smpc_peripheral (2 * MAX_PERIPHERALS + MAX_PORTS) pool) ∅.

Definition _internal_smpc_peripheral_init : M smpc unit :=
  p ← gets s_pool;
  '(p, _) ← lift (memb_init p ∅);
  _ ← modify (λ s, clear_blocks (set_pool p s));
  a ← peripheral_alloc;
  _ ← modify (set_port 1 (mk_port a []));
  b ← peripheral_alloc;
  modify (set_port 2 (mk_port b [])).

(** ** The report *)

Definition OREG_GET (x : Z) : M smpc Z := b ← gets s_oreg_buf; lift (arr_get b x).
Definition PC_GET_MULTITAP_ID (x : Z) : M smpc Z := v ← OREG_GET x; mret (Z.land (Z.shiftr v 4) 15).
Definition PC_GET_NUM_CONNECTIONS (x : Z) : M smpc Z := v ← OREG_GET x; mret (Z.land v 15).
Definition PC_GET_ID (x : Z) : M smpc Z := v ← OREG_GET x; mret (Z.land v 255).
Definition PC_GET_TYPE (x : Z) : M smpc Z := v ← OREG_GET x; mret (Z.land (Z.shiftr v 4) 15).
Definition PC_GET_SIZE (x : Z) : M smpc Z := v ← OREG_GET x; mret (Z.land v 15).
Definition PC_GET_EXT_SIZE (x : Z) : M smpc Z := v ← OREG_GET x; mret (Z.land v 255).
Definition PC_GET_DATA_BYTE (x y : Z) : M smpc Z := OREG_GET (x + y).

Definition next_oreg : M smpc unit := modify (λ s, set_oreg_offset (u32 (s_oreg_offset s + 1)) s).

(** How many peripherals are connected, by the first byte of a port. *)
Definition multitap_connected (multitap_id n : Z) : Z :=
  if (multitap_id =? 0) || (multitap_id =? 1) || (multitap_id =? 2) || (multitap_id =? 3) || (multitap_id =? 14)
  then if n <? 2 then 0 else n
  else if multitap_id =? 15 then if 1 <? n then 0 else n
  else 0.

Definition type_valid (type : Z) : bool :=
  (type =? TYPE_DIGITAL) || (type =? TYPE_ANALOG) || (type =? TYPE_POINTER) || (type =? TYPE_KEYBOARD) || (type =? TYPE_MD).
Definition id_valid (id : Z) : bool :=
  (id =? ID_MD3B) || (id =? ID_MD6B) || (id =? ID_MDMOUSE) || (id =? ID_DIGITAL) || (id =? ID_RACING) || (id =? ID_ANALOG) ||
  (id =? ID_MOUSE) || (id =? ID_KEYBOARD) || (id =? ID_GUN).

(** [previous_data[i] = data[i]] for the first [n], then the two bytes of data. *)
Fixpoint save_data (n : nat) (i : Z) (d pd : list Z) : outcome (list Z) :=
  match n with
  | O => Ok pd
  | S n => x ← arr_get d i; pd ← arr_set pd i x; save_data n (i + 1) d pd
  end.

Definition take_data (a : Z) (n : nat) (o : Z) : M smpc unit :=
  x ← gets (λ s, s_blocks s !!! a);
  pd ← lift (save_data n 0 (data x) (previous_data x));
  b0 ← PC_GET_DATA_BYTE o 0;
  b1 ← PC_GET_DATA_BYTE o 1;
  d ← lift (arr_set (data x) 0 (Z.lxor b0 255));
  d ← lift (arr_set d 1 (Z.lxor b1 255));
  update_block a (set_data d pd).

(** The size of the data of a peripheral, of which the first byte has been
    accepted; the offset moves to the data. *)
Definition data_size (sz : Z) : M smpc Z :=
  sz ← (if sz =? 0 then _ ← next_oreg; o ← gets s_oreg_offset; PC_GET_EXT_SIZE o else mret sz);
  _ ← next_oreg;
  mret sz.

(** A single peripheral: 1, or -1 where the report has none that is known. *)
Definition update_single (par : option Z) (a prt multitap_id conn : Z) : M smpc Z :=
  o ← gets s_oreg_offset;
  ty ← PC_GET_TYPE o;
  if negb (type_valid ty) then mret (-1) else
  sz ← PC_GET_SIZE o;
  id ← PC_GET_ID o;
  if (0 <? sz) && negb (id_valid id) then mret (-1) else
  sz ← data_size sz;
  o ← gets s_oreg_offset;
  _ ← (if sz =? 2 then take_data a 2 o else if sz =? 6 then take_data a 6 o else assert_ false);
  _ ← update_block a (λ x, mk_peripheral 1 prt multitap_id 0 (data x) (previous_data x) par);
  _ ← modify (λ s, set_oreg_offset (u32 (s_oreg_offset s + sz)) s);
  mret conn.

(** The answer is the number of connections, or -1. *)
Definition peripheral_update (par : option Z) (a prt : Z) : M smpc Z :=
  '(multitap_id, conn) ←
    match par with
    | None =>
        o ← gets s_oreg_offset;
        multitap_id ← PC_GET_MULTITAP_ID o;
        n ← PC_GET_NUM_CONNECTIONS o;
        _ ← next_oreg;
        mret (multitap_id, multitap_connected multitap_id n)
    | Some _ => mret (0, 0)
    end;
  if conn =? 0 then mret (-1) else
  if 1 <? conn then
    _ ← update_block a (λ x, mk_peripheral conn prt multitap_id 0 (data x) (previous_data x) par);
    mret conn
  else update_single par a prt multitap_id conn.

(** The peripherals behind a multitap. *)
Fixpoint sub_ports (n : nat) (i sub_port : Z) : M smpc unit :=
  match n with
  | O => mret tt
  | S n =>
      a ← peripheral_alloc;
      _ ← assert_ (negb (a =? 0));
      r ← peripheral_update (Some i) a (u8 sub_port);
      _ ← (if r <? 0 then peripheral_free a
           else
             _ ← modify (λ s, set_port i (mk_port (peripheral (get_port i s)) (peripherals (get_port i s) ++ [a])) s);
             b ← gets (λ s, peripheral (get_port i s));
             update_block b (λ x, set_connected (u8 (connected x + 1)) x));
      sub_ports n i (sub_port + 1)
  end.

Definition process_port (i : Z) : M smpc unit :=
  a ← gets (λ s, peripheral (get_port i s));
  conn ← peripheral_update None a i;
  if conn <? 0 then
    _ ← update_block a (set_connected 0);
    port_peripherals_free i
  else
    _ ← port_peripherals_free i;
    when (1 <? conn) (
      _ ← update_block a (set_connected 0);
      sub_ports (Z.to_nat conn) i 1).

Definition read_time : M smpc unit :=
  _ ← modify (set_oreg_offset 0);
  _ ← next_oreg;
  o ← gets s_oreg_offset; y1 ← OREG_GET o; y0 ← OREG_GET (o + 1); _ ← next_oreg; _ ← next_oreg;
  o ← gets s_oreg_offset; d ← OREG_GET o; _ ← next_oreg;
  o ← gets s_oreg_offset; ds ← OREG_GET o; _ ← next_oreg;
  o ← gets s_oreg_offset; h ← OREG_GET o; _ ← next_oreg;
  o ← gets s_oreg_offset; mi ← OREG_GET o; _ ← next_oreg;
  o ← gets s_oreg_offset; se ← OREG_GET o; _ ← next_oreg;
  modify (set_time (mk_time (u16 (Z.lor (Z.shiftl y1 8) y0)) (Z.land d 240) (Z.land d 15) ds h mi se)).

Definition smpc_peripheral_process : M smpc unit :=
  c ← gets s_complete;
  if negb c then mret tt else
  _ ← modify (set_complete false);
  _ ← read_time;
  _ ← modify (set_oreg_offset SMPC_OREGS);
  _ ← process_port 1;
  process_port 2.

(** ** The interrupt *)

Fixpoint oreg_copy (oregs : list Z) (buf : list Z) (offset : Z) : outcome (list Z * Z) :=
  match oregs with
  | [] => Ok (buf, offset)
  | v :: oregs => buf ← arr_set buf offset v; oreg_copy oregs buf (u32 (offset + 1))
  end.

Definition _system_manager_handler (oregs : list Z) (sr : Z) : M smpc Z :=
  buf ← gets s_oreg_buf;
  offset ← gets s_handler_offset;
  '(buf, offset) ← lift (oreg_copy oregs buf offset);
  _ ← modify (set_collected buf offset);
  if (Z.land sr 128 =? 128) && (Z.land sr NPE =? 0) then
    _ ← modify (λ s, set_complete true (set_collected (s_oreg_buf s) 0 s));
    mret BR
  else mret CONT.

(** ** Digital and analog pads *)

Record smpc_peripheral_digital := mk_digital {
  d_connected : bool;
  d_port : Z;
  d_type : Z;
  d_size : Z;
  d_previous_pressed : Z;
  d_pressed : Z;
  d_held : Z;
  d_released : Z;
  d_parent : option Z;
}.

(** The half word at the start of an array of bytes. *)
Definition raw16 (l : list Z) : outcome Z := a ← arr_get l 0; b ← arr_get l 1; Ok (a * 256 + b).

Definition smpc_peripheral_digital_get (x : smpc_peripheral) : outcome smpc_peripheral_digital :=
  previous ← raw16 (previous_data x);
  pressed ← raw16 (data x);
  let diff := Z.lxor pressed previous in
  Ok (mk_digital (testz (connected x)) (port x) (type x) (size x) previous pressed
        (Z.land diff pressed) (Z.land diff previous) (parent x)).

(** A null pointer is no block of the pool. *)
Definition smpc_peripheral_digital_port (s : smpc) (i : Z) : outcome smpc_peripheral_digital :=
  if negb ((i =? 1) || (i =? 2)) then Fault AssertFailed else
  let a := peripheral (get_port i s) in
  if a =? 0 then Fault AssertFailed else smpc_peripheral_digital_get (s_blocks s !!! a).

Record smpc_peripheral_analog := mk_analog {
  a_connected : bool;
  a_port : Z;
  a_type : Z;
  a_size : Z;
  a_previous_pressed : list Z;
  a_pressed : list Z;
  a_held : Z;
  a_released : Z;
  a_parent : option Z;
}.

(** [a]: the address of the peripheral, whose data begin at byte 4 and previous
    data at byte 260.  The second argument of [memset] is an address. *)
Definition smpc_peripheral_analog_get (a : Z) (x : smpc_peripheral) : outcome smpc_peripheral_analog :=
  let previous := replicate 6 (u8 (a + 260)) in
  let pressed := replicate 6 (u8 (a + 4)) in
  raw ← raw16 pressed;
  previous_raw ← raw16 previous;
  let diff := Z.lxor raw previous_raw in
  Ok (mk_analog (testz (connected x)) (port x) (type x) (size x) previous pressed
        (Z.land diff raw) (Z.land diff previous_raw) (parent x)).

Definition smpc_peripheral_analog_port (s : smpc) (i : Z) : outcome smpc_peripheral_analog :=
  if negb ((i =? 1) || (i =? 2)) then Fault AssertFailed else
  let a := peripheral (get_port i s) in
  if a =? 0 then Fault AssertFailed else smpc_peripheral_analog_get a (s_blocks s !!! a).

(** The ports by number; other numbers have none. *)
Definition smpc_peripheral_raw_port (s : smpc) (i : Z) : option smpc_peripheral_port :=
  if (i =? 1) || (i =? 2) then Some (get_port i s) else None.
Definition port_peripheral (s : smpc) (i : Z) : Z :=
  if i =? 1 then peripheral (s_port_1 s) else if i =? 2 then peripheral (s_port_2 s) else 0.
Definition smpc_peripheral_keyboard_port (s : smpc) (i : Z) : Z := port_peripheral s i.
Definition smpc_peripheral_mouse_port (s : smpc) (i : Z) : Z := port_peripheral s i.
Definition smpc_peripheral_racing_port (s : smpc) (i : Z) : Z := port_peripheral s i.
