(* ===== verification/SmpcProof.v ===== *)
(** The parser of Smpc.v stays inside the report whatever it holds, digital pads
    are reported with the buttons that were pressed and released, and peripherals
    behind a multitap are lost. *)

From S2P Require Import Prelude Bits Memory Memb MembSet Smpc.

(** ** Computations that may stop at an assertion *)

Section Swp.
Context {S : Type}.

(** [m] returns with [Q], or stops at an assertion, which it may do only if [F]. *)
Definition swp {A} (F : Prop) (m : M S A) (s : S) (Q : A → S → Prop) : Prop :=
  match m s with Ok (a, s') => Q a s' | Fault e => e = AssertFailed ∧ F end.

Lemma swp_of_wp {A} F (m : M S A) s Q : wp m s Q → swp F m s Q.
Proof. unfold wp, swp. by destruct (m s) as [[a s']|]. Qed.

Lemma swp_mono {A} (F F' : Prop) (m : M S A) s (P Q : A → S → Prop) :
  swp F m s P → (F → F') → (∀ a s', P a s' → Q a s') → swp F' m s Q.
Proof. unfold swp. destruct (m s) as [[a s']|]; [auto | intros [-> H]; auto]. Qed.

Lemma swp_bind {A B} F (m : M S A) (f : A → M S B) s Q : swp F m s (λ a s', swp F (f a) s' Q) → swp F (mbind f m) s Q.
Proof. unfold swp, mbind, M_bind, outcome_bind. by destruct (m s) as [[a s']|]. Qed.

Lemma swp_ret {A} F (a : A) s (Q : A → S → Prop) : Q a s → swp F (mret a) s Q.
Proof. done. Qed.
Lemma swp_gets {A} F (f : S → A) s (Q : A → S → Prop) : Q (f s) s → swp F (gets f) s Q.
Proof. done. Qed.
Lemma swp_modify F (f : S → S) s (Q : unit → S → Prop) : Q tt (f s) → swp F (modify f) s Q.
Proof. done. Qed.
Lemma swp_assert_false {A} (F : Prop) (f : unit → M S A) s Q : F → swp F (mbind f (assert_ false)) s Q.
Proof. done. Qed.

End Swp.

Ltac swp_step :=
  lazymatch goal with
  | |- swp _ (mbind _ _) _ _ => apply swp_bind
  | |- swp _ (mret _) _ _ => apply swp_ret
  | |- swp _ (gets _) _ _ => apply swp_gets
  | |- swp _ (modify _) _ _ => apply swp_modify
  | |- swp _ (update_block _ _) _ _ => apply swp_modify
  end; cbv beta.
Ltac swp_steps := repeat swp_step.

(** ** The invariant *)

Definition bytes256 (l : list Z) : Prop := Z.of_nat (length l) = 256 ∧ Forall (λ b, in_u8 b) l.
Definition good (x : smpc_peripheral) : Prop := bytes256 (data x) ∧ bytes256 (previous_data x).

(** The pool is at [P]; of its 14 blocks [i1] and [i2] are those of the two ports,
    and no other is in use; the handler is at [h] in the buffer. *)
Record smpc_wf (P i1 i2 h : Z) (s : smpc) : Prop := {
  wf_buf : Z.of_nat (length (s_oreg_buf s)) = 1568;
  wf_bytes : Forall (λ b, in_u8 b) (s_oreg_buf s);
  wf_ports : s_port_1 s = mk_port (pool_block 528 P i1) [] ∧ s_port_2 s = mk_port (pool_block 528 P i2) [];
  wf_apart : i1 ≠ i2;
  wf_handler : s_handler_offset s = h;
  wf_blocks : pool_rep 528 14 P (s_pool s) {[i1; i2]};
  wf_good a : good (s_blocks s !!! a);
}.

Lemma good_default : good inhabitant.
Proof. split; (split; [done | apply Forall_replicate; lia]). Qed.

Lemma good_connected n x : good x → good (set_connected n x).
Proof. done. Qed.

Lemma set_block_good a x s b : good x → (∀ b, good (s_blocks s !!! b)) → good (s_blocks (set_block a x s) !!! b).
Proof.
  intros Hx Hs. cbn. destruct (decide (a = b)) as [->|]; [by rewrite lookup_total_insert_eq | by rewrite lookup_total_insert_ne].
Qed.

Lemma wf_set_block P i1 i2 h a x s : smpc_wf P i1 i2 h s → good x → smpc_wf P i1 i2 h (set_block a x s).
Proof. intros [] Hx. split; try done. intros b. by apply set_block_good. Qed.

Lemma wf_set_oreg_offset P i1 i2 h o s : smpc_wf P i1 i2 h s → smpc_wf P i1 i2 h (set_oreg_offset o s).
Proof. by intros []. Qed.

Lemma pool_block_inj P i j : pool_block 528 P i = pool_block 528 P j → i = j.
Proof. unfold pool_block. lia. Qed.

(** ** Peripherals behind a multitap *)

(** Only the pool and blocks that belong to no port differ. *)
Definition pool_only (s s' : smpc) : Prop :=
  s' = mk_smpc (s_time s) (s_port_1 s) (s_port_2 s) (s_complete s) (s_oreg_offset s) (s_oreg_buf s) (s_handler_offset s) (s_pool s') (s_blocks s') ∧
  ∀ a, a = peripheral (s_port_1 s) ∨ a = peripheral (s_port_2 s) → s_blocks s' !!! a = s_blocks s !!! a.

Lemma pool_only_refl s : pool_only s s.
Proof. split; [by destruct s | done]. Qed.

Lemma pool_only_trans s1 s2 s3 : pool_only s1 s2 → pool_only s2 s3 → pool_only s1 s3.
Proof.
  intros [E1 H1] [E2 H2]. split.
  - rewrite E2. rewrite E1. done.
  - intros a Ha. rewrite H2; [by apply H1|]. by rewrite E1.
Qed.

Lemma pool_has_room P i1 i2 h s : smpc_wf P i1 i2 h s → ∃ i, 1 ≤ i < 14 ∧ i ∉ ({[i1; i2]} : gset Z).
Proof.
  intros _. destruct (decide (1 ∈ ({[i1; i2]} : gset Z))) as [H1|]; [|by exists 1].
  destruct (decide (2 ∈ ({[i1; i2]} : gset Z))) as [H2|]; [|by exists 2].
  exists 3. split; [lia|]. set_unfold. lia.
Qed.

Lemma wp_peripheral_alloc sz num P R s (Q : Z → smpc → Prop) : pool_rep sz num P (s_pool s) R → (∃ i, 1 ≤ i < num ∧ i ∉ R) →
  (∀ i mb, i ∉ R → 0 < pool_block sz P i → pool_rep sz num P mb ({[i]} ∪ R) → let a := pool_block sz P i in
    Q a (set_block a (set_connected 0 (s_blocks s !!! a)) (set_pool mb s))) →
  wp peripheral_alloc s Q.
Proof.
  intros Hrep Hroom HQ. destruct (pool_rep_alloc _ _ _ _ _ Hrep Hroom) as (i & mb & Ha & Hpos & Hi & Hrep').
  unfold peripheral_alloc. wp_steps. eapply wp_lift; [exact Ha|]. cbv beta iota. wp_steps.
  { apply negb_true_iff, Z.eqb_neq. lia. }
  unfold update_block. wp_steps. by apply HQ.
Qed.

Lemma wp_peripheral_free sz num P R i s (Q : unit → smpc → Prop) : pool_rep sz num P (s_pool s) R → i ∈ R → 0 < pool_block sz P i →
  (∀ mb, pool_rep sz num P mb (R ∖ {[i]}) → Q tt (set_pool mb s)) → wp (peripheral_free (pool_block sz P i)) s Q.
Proof.
  intros Hrep Hi Hpos HQ. destruct (pool_rep_free _ _ _ _ _ i Hrep Hi) as (mb & Hf & Hrep').
  unfold peripheral_free. wp_steps. { apply negb_true_iff, Z.eqb_neq. lia. }
  eapply wp_lift; [exact Hf|]. cbv beta iota. wp_steps; [done|]. by apply HQ.
Qed.

(** With a parent the number of connections is never read. *)
Lemma update_with_parent i a prt s : peripheral_update (Some i) a prt s = Ok (-1, s).
Proof. done. Qed.

(** A block is taken, not filled, and given back. *)
Lemma sub_port_lost P i1 i2 h i prt s (Q : unit → smpc → Prop) (k : M smpc unit) : smpc_wf P i1 i2 h s →
  (∀ s', smpc_wf P i1 i2 h s' → pool_only s s' → wp k s' Q) →
  wp (a ← peripheral_alloc;
      _ ← assert_ (negb (a =? 0));
      r ← peripheral_update (Some i) a prt;
      _ ← (if r <? 0 then peripheral_free a
           else
             _ ← modify (λ s, set_port i (mk_port (peripheral (get_port i s)) (peripherals (get_port i s) ++ [a])) s);
             b ← gets (λ s, peripheral (get_port i s));
             update_block b (λ x, set_connected (u8 (connected x + 1)) x));
      k) s Q.
Proof.
  intros Hwf HQ. pose proof Hwf as [].
  wp_steps. apply (wp_peripheral_alloc _ _ _ _ _ _ wf_blocks0 (pool_has_room _ _ _ _ _ Hwf)). intros j mb Hj Hpos Hrep. cbv zeta.
  wp_steps. { apply negb_true_iff, Z.eqb_neq. lia. }
  unfold wp at 1. rewrite update_with_parent. wp_steps. change (-1 <? 0) with true. cbv iota.
  apply (wp_peripheral_free 528 14 P ({[j]} ∪ {[i1; i2]})); [done | set_solver | done|]. intros mb' Hrep'.
  replace (({[j]} ∪ {[i1; i2]}) ∖ {[j]}) with ({[i1; i2]} : gset Z) in Hrep' by set_solver. apply HQ.
  - split; try done. intros b. apply (set_block_good (pool_block 528 P j) _ s b); [|done]. apply wf_good0.
  - split; [done|]. intros a Hpa. apply lookup_total_insert_ne. destruct wf_ports0 as [E1 E2]. rewrite E1, E2 in Hpa. cbn in Hpa.
    intros E. destruct Hpa as [-> | ->]; apply pool_block_inj in E; set_solver.
Qed.

Lemma sub_ports_lost P i1 i2 h n i sp s : smpc_wf P i1 i2 h s →
  wp (sub_ports n i sp) s (λ _ s', smpc_wf P i1 i2 h s' ∧ pool_only s s').
Proof.
  revert sp s. induction n as [|n IH]; intros sp s Hwf; cbn [sub_ports].
  - wp_steps. split; [done | apply pool_only_refl].
  - apply (sub_port_lost P i1 i2 h); [done|]. intros s1 H1 Hq. eapply wp_mono; [by apply IH|].
    intros u s2 [H2 Hq2]. split; [done | by apply (pool_only_trans s s1)].
Qed.

(** ** What the driver makes of a report *)

Definition byte_at (buf : list Z) (o : Z) : Z := buf !!! Z.to_nat o.

(** The size of the data behind the identification at [o], which is the low half
    [sz] of that byte or the byte after it, and where the data start. *)
Definition size_at (buf : list Z) (sz o : Z) : Z * Z :=
  if sz =? 0 then (byte_at buf (o + 1), o + 2) else (sz, o + 1).

(** A peripheral whose identification is at [o]: where the report goes on, or [None]
    where it is of a known kind and the size of its data is neither 2 nor 6. *)
Definition single_report (buf : list Z) (o : Z) : option Z :=
  let id := byte_at buf o in
  let sz := Z.land id 15 in
  if negb (type_valid (Z.land (Z.shiftr id 4) 15)) || ((0 <? sz) && negb (id_valid id)) then Some o
  else let '(size, d) := size_at buf sz o in
    if (size =? 2) || (size =? 6) then Some (d + size) else None.

(** A port, whose first byte is at [o]; behind a multitap nothing is read. *)
Definition port_report (buf : list Z) (o : Z) : option Z :=
  let v := byte_at buf o in
  if multitap_connected (Z.land (Z.shiftr v 4) 15) (Z.land v 15) =? 1 then single_report buf (o + 1) else Some (o + 1).

(** Both ports. *)
Definition report_supported (buf : list Z) : bool :=
  match port_report buf SMPC_OREGS with
  | Some o => match port_report buf o with Some _ => true | None => false end
  | None => false
  end.

(** ** Reading the report *)

Lemma wp_oreg x s (Q : Z → smpc → Prop) : 0 ≤ x < Z.of_nat (length (s_oreg_buf s)) →
  (∀ v, s_oreg_buf s !! Z.to_nat x = Some v → Q v s) → wp (OREG_GET x) s Q.
Proof.
  intros Hx HQ. destruct (arr_get_in_range (s_oreg_buf s) x Hx) as (v & E & Hv).
  unfold OREG_GET. wp_steps. eapply wp_lift; [exact E|]. by apply HQ.
Qed.

Lemma swp_oreg P i1 i2 h F x s (Q : Z → smpc → Prop) : smpc_wf P i1 i2 h s → 0 ≤ x < 1568 →
  (in_u8 (byte_at (s_oreg_buf s) x) → Q (byte_at (s_oreg_buf s) x) s) → swp F (OREG_GET x) s Q.
Proof.
  intros [] Hx HQ. apply swp_of_wp, wp_oreg; [lia|]. intros v Hv.
  assert (byte_at (s_oreg_buf s) x = v) as E by (by apply list_lookup_total_correct). rewrite E in HQ.
  apply HQ. by apply (Forall_lookup_1 _ _ _ _ wf_bytes0 Hv).
Qed.

Lemma nibble_range v : in_u8 v → 0 ≤ Z.land v 15 ≤ 15 ∧ 0 ≤ Z.land (Z.shiftr v 4) 15 ≤ 15 ∧ Z.land v 255 = v.
Proof.
  intros Hv. rewrite (land_mask v 4), (land_mask _ 4), (land_mask v 8) by lia. rewrite Z.shiftr_div_pow2 by lia.
  change (2 ^ 4) with 16. change (2 ^ 8) with 256. dlia.
Qed.

Lemma arr_set_bytes l i v : bytes256 l → 0 ≤ i < 256 → in_u8 v → ∃ l', arr_set l i v = Ok l' ∧ bytes256 l' ∧ l' = <[Z.to_nat i := v]> l.
Proof.
  intros [Hl Hb] Hi Hv. exists (<[Z.to_nat i := v]> l). rewrite arr_set_in_range by lia. split_and!; try done.
  split; [by rewrite length_insert | by apply Forall_insert].
Qed.

Lemma save_data_spec n i d pd : bytes256 d → bytes256 pd → 0 ≤ i → i + Z.of_nat n ≤ 256 →
  ∃ pd', save_data n i d pd = Ok pd' ∧ bytes256 pd' ∧
    (∀ j, pd' !! j = if decide (Z.to_nat i ≤ j < Z.to_nat i + n)%nat then d !! j else pd !! j).
Proof.
  intros Hd. revert i pd. induction n as [|n IH]; intros i pd Hpd Hi Hn; cbn [save_data].
  { exists pd. split_and!; try done. intros j. case_decide; [lia | done]. }
  destruct (lookup_lt_is_Some_2 d (Z.to_nat i)) as [x Hx]; [destruct Hd; lia|]. rewrite (proj2 (arr_get_Ok d i x)) by done. cbn [mbind outcome_bind].
  destruct (arr_set_bytes pd i x) as (pd1 & -> & Hpd1 & E); [done | lia | by apply (Forall_lookup_1 _ _ _ _ (proj2 Hd) Hx)|].
  cbn [mbind outcome_bind]. destruct (IH (i + 1) pd1 Hpd1) as (pd2 & -> & Hpd2 & Hj); [lia..|]. exists pd2. split_and!; try done.
  intros j. rewrite Hj. subst pd1. destruct (decide (j = Z.to_nat i)) as [->|].
  - repeat case_decide; try lia. rewrite list_lookup_insert_eq; [done | destruct Hpd; lia].
  - rewrite list_lookup_insert_ne by done. repeat case_decide; try lia; done.
Qed.

Lemma lxor_255 v : in_u8 v → Z.lxor v 255 = 255 - v.
Proof.
  intros Hv. assert ((Z.lxor v 255 =? 255 - v) = true) as H by (revert v Hv; apply (all_bytes (λ v, _)); by vm_compute).
  by apply Z.eqb_eq.
Qed.

(** What [take_data] leaves in a block. *)
Definition taken (n : nat) (b0 b1 : Z) (x y : smpc_peripheral) : Prop :=
  good y ∧ y = set_data (data y) (previous_data y) x ∧
  data y = <[1%nat := 255 - b1]> (<[0%nat := 255 - b0]> (data x)) ∧
  ∀ j, previous_data y !! j = if decide (j < n)%nat then data x !! j else previous_data x !! j.

Lemma wp_take_data P i1 i2 h a n o s (Q : unit → smpc → Prop) : smpc_wf P i1 i2 h s → (n ≤ 6)%nat → 0 ≤ o ≤ 1566 →
  (∀ b0 b1 y, s_oreg_buf s !! Z.to_nat o = Some b0 → s_oreg_buf s !! Z.to_nat (o + 1) = Some b1 →
    taken n b0 b1 (s_blocks s !!! a) y → Q tt (set_block a y s)) → wp (take_data a n o) s Q.
Proof.
  intros [] Hn Ho HQ. unfold take_data, PC_GET_DATA_BYTE, OREG_GET. wp_steps. destruct (wf_good0 a) as [Hd Hpd].
  destruct (save_data_spec n 0 _ _ Hd Hpd) as (pd & Hs & Hgpd & Hj); [lia..|]. eapply wp_lift; [exact Hs|]. cbv beta. wp_steps.
  destruct (arr_get_in_range (s_oreg_buf s) (o + 0)) as (b0 & E0 & L0); [lia|]. eapply wp_lift; [exact E0|]. cbv beta. wp_steps.
  destruct (arr_get_in_range (s_oreg_buf s) (o + 1)) as (b1 & E1 & L1); [lia|]. eapply wp_lift; [exact E1|]. cbv beta. wp_steps.
  rewrite Z.add_0_r in L0. pose proof (Forall_lookup_1 _ _ _ _ wf_bytes0 L0). pose proof (Forall_lookup_1 _ _ _ _ wf_bytes0 L1).
  cbv beta in *. rewrite !lxor_255 by done.
  destruct (arr_set_bytes _ 0 (255 - b0) Hd) as (d & Ed & Hgd & Dd); [lia..|]. eapply wp_lift; [exact Ed|]. cbv beta. wp_steps.
  destruct (arr_set_bytes _ 1 (255 - b1) Hgd) as (d' & Ed' & Hgd' & Dd'); [lia..|]. eapply wp_lift; [exact Ed'|]. cbv beta. wp_steps.
  unfold update_block. wp_steps. apply (HQ b0 b1); [done | done|].
  split; [done|]. split; [done|]. cbn. subst d' d. split; [done|]. intros j. rewrite Hj. repeat case_decide; done || lia.
Qed.

Lemma multitap_range id n : 0 ≤ n ≤ 15 → 0 ≤ multitap_connected id n ≤ 15.
Proof.
  intros Hn. unfold multitap_connected. destruct (_ || _); [destruct (n <? 2); lia|].
  destruct (id =? 15); [destruct (1 <? n)|]; lia.
Qed.

Lemma data_size_spec P i1 i2 h F sz s (Q : Z → smpc → Prop) : smpc_wf P i1 i2 h s → 32 ≤ s_oreg_offset s ≤ 1510 →
  (let '(size, d) := size_at (s_oreg_buf s) sz (s_oreg_offset s) in Q size (set_oreg_offset d s)) → swp F (data_size sz) s Q.
Proof.
  intros Hwf Ho HQ. unfold data_size, next_oreg, PC_GET_EXT_SIZE, size_at in *. destruct (sz =? 0); swp_steps.
  - rewrite (wrapu_small 32) by lia. eapply swp_oreg; [by apply wf_set_oreg_offset | cbn; lia|].
    cbn [set_oreg_offset s_oreg_offset s_oreg_buf]. intros Hv. swp_steps. cbn [set_oreg_offset s_oreg_offset].
    destruct (nibble_range _ Hv) as (_ & _ & ->). rewrite (wrapu_small 32) by lia.
    by replace (s_oreg_offset s + 1 + 1) with (s_oreg_offset s + 2) by lia.
  - by rewrite (wrapu_small 32) by lia.
Qed.

(** What parsing leaves of the state: the offset has moved to [o]. *)
Definition parsed (P i1 i2 h : Z) (s : smpc) (o : Z) (s' : smpc) : Prop :=
  smpc_wf P i1 i2 h s' ∧ s_oreg_offset s' = o ∧ s_oreg_buf s' = s_oreg_buf s ∧ s_complete s' = s_complete s.

Lemma single_spec P i1 i2 h par a prt id conn s : smpc_wf P i1 i2 h s → 32 ≤ s_oreg_offset s ≤ 1510 →
  let r := single_report (s_oreg_buf s) (s_oreg_offset s) in
  swp (r = None) (update_single par a prt id conn) s
    (λ v s', (v = -1 ∨ v = conn) ∧ ∃ o, r = Some o ∧ s_oreg_offset s ≤ o ≤ s_oreg_offset s + 8 ∧ parsed P i1 i2 h s o s').
Proof.
  intros Hwf Ho r. subst r. unfold update_single, PC_GET_TYPE, PC_GET_SIZE, PC_GET_ID, single_report. swp_steps.
  eapply swp_oreg; [done | lia|]. intros Hv. swp_steps. set (v := byte_at _ _) in *.
  assert (parsed P i1 i2 h s (s_oreg_offset s) s) as Hsame by done.
  destruct (negb (type_valid _)); cbn [orb]; swp_steps; [split; [by left | eexists; split_and!; try done; lia]|].
  eapply swp_oreg; [done | lia|]. intros _. swp_steps. eapply swp_oreg; [done | lia|]. intros _. swp_steps. fold v.
  destruct (nibble_range _ Hv) as (_ & _ & ->).
  destruct ((0 <? Z.land v 15) && _); swp_steps; [split; [by left | eexists; split_and!; try done; lia]|].
  apply (data_size_spec P i1 i2 h); [done | lia|].
  assert (let '(_, d) := size_at (s_oreg_buf s) (Z.land v 15) (s_oreg_offset s) in s_oreg_offset s + 1 ≤ d ≤ s_oreg_offset s + 2) as Hd.
  { unfold size_at. destruct (_ =? 0); lia. }
  destruct (size_at _ _ _) as [sz d]. swp_steps. cbn [set_oreg_offset s_oreg_offset]. set (s1 := set_oreg_offset d s).
  assert (smpc_wf P i1 i2 h s1) as H1 by (by apply wf_set_oreg_offset).
  assert (∀ n : nat, (n ≤ 6)%nat → 0 ≤ sz ≤ 6 → swp (Some (d + sz) = None) (take_data a n d) s1 (λ _ s', swp (Some (d + sz) = None)
    (_ ← update_block a (λ x, mk_peripheral 1 prt id 0 (data x) (previous_data x) par);
     _ ← modify (λ s, set_oreg_offset (u32 (s_oreg_offset s + sz)) s); mret conn) s' (λ v s', (v = -1 ∨ v = conn) ∧ ∃ o,
    Some (d + sz) = Some o ∧ s_oreg_offset s ≤ o ≤ s_oreg_offset s + 8 ∧ parsed P i1 i2 h s o s'))) as Hrest.
  { intros n Hn Hsz. apply swp_of_wp. eapply wp_take_data; [exact H1 | done | lia|]. intros b0 b1 y _ _ Hy. swp_steps.
    assert (smpc_wf P i1 i2 h (set_block a y s1)) as H2 by (apply wf_set_block; [done | apply Hy]).
    split; [by right|]. exists (d + sz). split_and!; [done | lia | lia|]. split_and!; try done.
    - apply wf_set_oreg_offset, wf_set_block; [done|]. exact (wf_good _ _ _ _ _ H2 a).
    - cbn. by rewrite (wrapu_small 32) by lia. }
  destruct (Z.eqb_spec sz 2) as [E2|]; [apply (Hrest 2%nat); lia|].
  destruct (Z.eqb_spec sz 6); [apply (Hrest 6%nat); lia | done].
Qed.

Lemma update_spec P i1 i2 h a prt s : smpc_wf P i1 i2 h s → 32 ≤ s_oreg_offset s ≤ 1500 →
  let r := port_report (s_oreg_buf s) (s_oreg_offset s) in
  swp (r = None) (peripheral_update None a prt) s
    (λ v s', -1 ≤ v ≤ 15 ∧ ∃ o, r = Some o ∧ s_oreg_offset s ≤ o ≤ s_oreg_offset s + 9 ∧ parsed P i1 i2 h s o s').
Proof.
  intros Hwf Ho r. unfold peripheral_update, PC_GET_MULTITAP_ID, PC_GET_NUM_CONNECTIONS, next_oreg. swp_steps.
  apply (swp_oreg P i1 i2 h); [done | lia|]. intros Hv. swp_steps. apply (swp_oreg P i1 i2 h); [done | lia|]. intros _. swp_steps.
  unfold port_report in r. set (v := byte_at _ _) in *. pose proof (nibble_range v Hv) as (Hn & _). set (id := Z.land (Z.shiftr v 4) 15) in *.
  set (conn := multitap_connected id (Z.land v 15)) in *.
  assert (0 ≤ conn ≤ 15) as Hc by (by apply multitap_range). rewrite (wrapu_small 32 (s_oreg_offset s + 1)) by lia.
  set (s1 := set_oreg_offset (s_oreg_offset s + 1) s). assert (smpc_wf P i1 i2 h s1) as H1 by (by apply wf_set_oreg_offset).
  assert (parsed P i1 i2 h s (s_oreg_offset s + 1) s1) as Hsame by done.
  destruct (Z.eqb_spec conn 0) as [E0|]; swp_steps; [|destruct (Z.ltb_spec 1 conn); swp_steps].
  - subst r. rewrite E0. split; [lia|]. eexists. split_and!; [done | lia | lia | done].
  - subst r. rewrite (proj2 (Z.eqb_neq conn 1)) by lia. split; [lia|]. eexists. split_and!; [done | lia | lia|].
    split_and!; try done. apply wf_set_block; [done|]. exact (wf_good _ _ _ _ _ H1 a).
  - assert (r = single_report (s_oreg_buf s1) (s_oreg_offset s1)) as -> by (unfold r; by rewrite (proj2 (Z.eqb_eq conn 1)) by lia).
    eapply swp_mono; [apply (single_spec P i1 i2 h); [done | cbn; lia] | done|].
    intros w s2 (Hw & o & -> & Hr & Hp). cbn [s1 set_oreg_offset s_oreg_offset] in Hr. split; [lia|]. exists o. split_and!; [done | lia | lia | exact Hp].
Qed.

(** ** Processing a report *)

Definition is_port (i : Z) : Prop := i = 1 ∨ i = 2.

Lemma ports_free P i1 i2 h i s : smpc_wf P i1 i2 h s → is_port i → port_peripherals_free i s = Ok (tt, s).
Proof. intros [] [-> | ->]; unfold port_peripherals_free, mbind, M_bind, gets, get_port; cbn; destruct wf_ports0 as [E1 E2]; by rewrite ?E1, ?E2. Qed.

Lemma update_block_wf P i1 i2 h a f s : smpc_wf P i1 i2 h s → (∀ x, good x → good (f x)) → smpc_wf P i1 i2 h (set_block a (f (s_blocks s !!! a)) s).
Proof. intros Hwf Hf. apply wf_set_block; [done|]. apply Hf, (wf_good _ _ _ _ _ Hwf). Qed.

Lemma process_port_spec P i1 i2 h i s : smpc_wf P i1 i2 h s → is_port i → 32 ≤ s_oreg_offset s ≤ 1500 →
  let r := port_report (s_oreg_buf s) (s_oreg_offset s) in
  swp (r = None) (process_port i) s
    (λ _ s', ∃ o, r = Some o ∧ s_oreg_offset s ≤ o ≤ s_oreg_offset s + 9 ∧ parsed P i1 i2 h s o s').
Proof.
  intros Hwf Hi Ho r. unfold process_port. swp_steps. eapply swp_mono; [apply (update_spec P i1 i2 h); [done | lia] | done|].
  intros v s1 (Hv & o & Er & Hr & H1 & Eo & Eb & Ec). fold r in Er. rewrite Er. cbv beta. destruct (v <? 0); swp_steps.
  - unfold swp. rewrite (ports_free P i1 i2 h) by (done || by apply update_block_wf).
    exists o. split; [done|]. split; [done|]. split_and!; [by apply update_block_wf | done..].
  - unfold swp at 1. rewrite (ports_free P i1 i2 h) by done. destruct (1 <? v); cbn [when]; swp_steps; [|by exists o].
    apply swp_of_wp. eapply wp_mono; [apply (sub_ports_lost P i1 i2 h); by apply update_block_wf|].
    intros u s2 [H2 [Hq _]]. exists o. split; [done|]. split; [done|]. split; [done|]. rewrite Hq. done.
Qed.

Lemma read_time_spec P i1 i2 h s : smpc_wf P i1 i2 h s → wp read_time s (λ _ s', smpc_wf P i1 i2 h s' ∧ ∃ t o, s' = set_time t (set_oreg_offset o s)).
Proof.
  intros Hwf. pose proof Hwf as []. unfold read_time, next_oreg.
  repeat (wp_steps; lazymatch goal with |- wp (OREG_GET _) _ _ =>
    apply wp_oreg; [cbn [set_oreg_offset s_oreg_buf]; rewrite wf_buf0; split; [vm_compute; discriminate | vm_compute; reflexivity]|];
    intros ? _; cbv beta end).
  wp_steps. split; [by split | by eexists _, _].
Qed.

Lemma process_report_spec P i1 i2 h s : smpc_wf P i1 i2 h s →
  let r := negb (s_complete s) || report_supported (s_oreg_buf s) in
  swp (r = false) smpc_peripheral_process s
    (λ _ s', r = true ∧ smpc_wf P i1 i2 h s' ∧ s_oreg_buf s' = s_oreg_buf s ∧ s_complete s' = false).
Proof.
  intros Hwf r. unfold smpc_peripheral_process. swp_steps. destruct (s_complete s) eqn:Ec; cbn [negb]; swp_steps; [|done].
  assert (r = report_supported (s_oreg_buf s)) as Hr by done. clearbody r. unfold report_supported, SMPC_OREGS in Hr.
  eapply swp_mono; [eapply (swp_of_wp False), (read_time_spec P i1 i2 h); by destruct Hwf | done|].
  intros u s1 (H1 & tm & o & ->). cbv beta. swp_steps. set (s2 := set_oreg_offset SMPC_OREGS _).
  eapply swp_mono; [apply (process_port_spec P i1 i2 h _ s2); [by apply wf_set_oreg_offset | by left | by vm_compute]| |].
  { cbn. unfold SMPC_OREGS. intros Hno. by rewrite Hno in Hr. }
  intros u' s3 (o1 & Er & Hro & H3 & Eo & Eb & Ec3). cbn in Er, Hro, Eb, Ec3. cbv beta. unfold SMPC_OREGS in *. rewrite Er in Hr.
  eapply swp_mono; [apply (process_port_spec P i1 i2 h); [done | by right | lia]| |].
  { rewrite Eo, Eb. intros Hno. by rewrite Hno in Hr. }
  intros u'' s4 (o2 & Er2 & _ & H4 & _ & Eb4 & Ec4). rewrite Eo, Eb in Er2. rewrite Er2 in Hr. split_and!; [done | done | congruence | congruence].
Qed.

(** ** Sessions *)

(** What happens to the driver: an interrupt with the output registers and the
    status register, and the program processing a report. *)
Inductive smpc_event :=
| Interrupt (oregs : list Z) (sr : Z)
| Process.

Definition smpc_step (e : smpc_event) : M smpc unit :=
  match e with
  | Interrupt oregs sr => _ ← _system_manager_handler oregs sr; mret tt
  | Process => smpc_peripheral_process
  end.

Fixpoint smpc_steps (l : list smpc_event) : M smpc unit :=
  match l with
  | [] => mret tt
  | e :: l => _ ← smpc_step e; smpc_steps l
  end.

(** The states of the driver with its pool at [P]. *)
Definition smpc_session (P : Z) (l : list smpc_event) : outcome smpc :=
  '(_, s) ← (_ ← _internal_smpc_peripheral_init; smpc_steps l) (start P);
  Ok s.

(** The last part of a report. *)
Definition report_ends (sr : Z) : bool := (Z.land sr 128 =? 128) && (Z.land sr NPE =? 0).

(** A report has at most 49 parts, the size of the buffer; [k] of the present one
    have come. *)
Fixpoint session_ok (k : Z) (l : list smpc_event) : Prop :=
  match l with
  | [] => True
  | Interrupt oregs sr :: l =>
      Z.of_nat (length oregs) = SMPC_OREGS ∧ Forall (λ b, in_u8 b) oregs ∧ k < 49 ∧
      session_ok (if report_ends sr then 0 else k + 1) l
  | Process :: l => session_ok k l
  end.

(** The registers of a part go to place [k] of the buffer. *)
Definition collect (buf oregs : list Z) (k : Z) : list Z :=
  take (Z.to_nat (32 * k)) buf ++ oregs ++ drop (Z.to_nat (32 * k) + length oregs) buf.

(** Every report that is processed is one the driver supports; [buf] and [complete]
    are the buffer and the flag the handler leaves for the program. *)
Fixpoint session_supported (buf : list Z) (k : Z) (complete : bool) (l : list smpc_event) : bool :=
  match l with
  | [] => true
  | Interrupt oregs sr :: l =>
      session_supported (collect buf oregs k) (if report_ends sr then 0 else k + 1) (complete || report_ends sr) l
  | Process :: l => (negb complete || report_supported buf) && session_supported buf k false l
  end.

(** The invariant between events: [k] parts of a report are in the buffer. *)
Definition smpc_inv (P k : Z) (s : smpc) : Prop := ∃ i1 i2, smpc_wf P i1 i2 (32 * k) s.

Lemma oreg_copy_spec l buf o : Forall (λ b, in_u8 b) l → Forall (λ b, in_u8 b) buf → 0 ≤ o → Z.of_nat (length buf) ≤ 1568 →
  o + Z.of_nat (length l) ≤ Z.of_nat (length buf) →
  let buf' := take (Z.to_nat o) buf ++ l ++ drop (Z.to_nat o + length l) buf in
  oreg_copy l buf o = Ok (buf', o + Z.of_nat (length l)) ∧ length buf' = length buf ∧ Forall (λ b, in_u8 b) buf'.
Proof.
  intros Hl Hb Ho Hmax Hn. cbv zeta. split_and!.
  - clear Hb Hl. revert buf o Ho Hmax Hn. induction l as [|v l IH]; intros buf o Ho Hmax Hn; cbn [oreg_copy length] in *.
    { rewrite Nat.add_0_r, app_nil_l, take_drop. do 2 f_equal. lia. }
    rewrite arr_set_in_range by lia. cbn [mbind outcome_bind]. rewrite (wrapu_small 32) by lia.
    rewrite IH by (rewrite ?length_insert; lia). do 2 f_equal; [|lia].
    replace (Z.to_nat (o + 1)) with (S (Z.to_nat o)) by lia.
    rewrite (take_S_r _ _ v) by (apply list_lookup_insert_eq; lia). rewrite take_insert_ge, drop_insert_lt by lia.
    rewrite <- app_assoc. cbn [app]. do 3 f_equal. f_equal. lia.
  - rewrite !length_app, length_take, length_drop. lia.
  - apply Forall_app. split; [by apply Forall_take|]. apply Forall_app. split; [done | by apply Forall_drop].
Qed.

Lemma handler_spec P k oregs sr s : smpc_inv P k s → Z.of_nat (length oregs) = SMPC_OREGS → Forall (λ b, in_u8 b) oregs → 0 ≤ k < 49 →
  wp (_system_manager_handler oregs sr) s (λ _ s', smpc_inv P (if report_ends sr then 0 else k + 1) s' ∧
    s_oreg_buf s' = collect (s_oreg_buf s) oregs k ∧ s_complete s' = s_complete s || report_ends sr).
Proof.
  unfold SMPC_OREGS. intros (i1 & i2 & []) Hl Hb Hk. unfold _system_manager_handler. wp_steps.
  destruct (oreg_copy_spec oregs (s_oreg_buf s) (s_handler_offset s)) as (E & El & Hbuf); try done; try lia.
  rewrite wf_handler0 in *. fold (collect (s_oreg_buf s) oregs k) in *.
  eapply wp_lift; [exact E|]. cbv beta iota. wp_steps. fold (report_ends sr).
  destruct (report_ends sr); wp_steps; (split_and!; [exists i1, i2; split; cbn; try done; lia | done | cbn; by rewrite ?orb_true_r, ?orb_false_r]).
Qed.

Lemma insert_good (m : gmap Z smpc_peripheral) b x c : (∀ b, good (m !!! b)) → good x → good (<[b := x]> m !!! c).
Proof. intros Hm Hx. destruct (decide (b = c)) as [->|]; [by rewrite lookup_total_insert_eq | by rewrite lookup_total_insert_ne]. Qed.

Lemma init_spec P s : s_handler_offset s = 0 → Z.of_nat (length (s_oreg_buf s)) = 1568 → Forall (λ b, in_u8 b) (s_oreg_buf s) →
  pool_rep 528 14 P (s_pool s) ∅ → wp _internal_smpc_peripheral_init s (λ _ s', smpc_inv P 0 s' ∧ s_oreg_buf s' = s_oreg_buf s ∧ s_complete s' = s_complete s).
Proof.
  intros Ho Hbuf Hb Hpool. unfold _internal_smpc_peripheral_init. wp_steps.
  destruct (pool_rep_init 528 14 P (s_pool s) ∅ ∅ Hpool) as (mb & m' & E & Hrep).
  eapply wp_lift; [exact E|]. cbv beta iota. wp_steps.
  eapply (wp_peripheral_alloc 528 14 P ∅); [exact Hrep | exists 1; split; [lia | apply not_elem_of_empty]|].
  intros i1 mb1 H1 _ Hrep1. cbv zeta. wp_steps.
  eapply (wp_peripheral_alloc 528 14 P ({[i1]} ∪ ∅)); [exact Hrep1 | |].
  { destruct (decide (i1 = 1)); [exists 2 | exists 1]; (split; [lia | set_solver]). }
  intros i2 mb2 H2 _ Hrep2. cbv zeta. wp_steps. split; [|done]. exists i1, i2.
  assert (∀ b, good ((∅ : gmap Z smpc_peripheral) !!! b)) as H0 by (intros b; rewrite lookup_total_empty; apply good_default).
  split; cbn [set_port set_block set_pool clear_blocks s_oreg_buf s_port_1 s_port_2 s_pool s_blocks Z.eqb Pos.eqb].
  - exact Hbuf.
  - exact Hb.
  - done.
  - set_solver.
  - exact Ho.
  - by replace ({[i1; i2]} : gset Z) with ({[i2]} ∪ ({[i1]} ∪ ∅) : gset Z) by set_solver.
  - assert (∀ b x, good x → ∀ c, good ((<[b := x]> ∅ : gmap Z smpc_peripheral) !!! c)) as H3 by (intros; by apply insert_good).
    intros a. apply insert_good; [intros b|]; [|apply good_connected]; apply H3, good_connected, H0.
Qed.

Lemma start_inv P : memb_params 528 14 P → wp _internal_smpc_peripheral_init (start P) (λ _ s, smpc_inv P 0 s ∧
  s_oreg_buf s = replicate 1568 0 ∧ s_complete s = false).
Proof.
  intros HP. apply (init_spec P (start P)); unfold start; cbn [s_handler_offset s_oreg_buf s_pool].
  - done.
  - rewrite length_replicate. reflexivity.
  - apply Forall_replicate. lia.
  - by apply pool_rep_declared.
Qed.

Lemma steps_spec P l k s : smpc_inv P k s → 0 ≤ k → session_ok k l →
  let r := session_supported (s_oreg_buf s) k (s_complete s) l in
  swp (r = false) (smpc_steps l) s (λ _ s', r = true ∧ ∃ k, smpc_inv P k s').
Proof.
  revert k s. induction l as [|[oregs sr|] l IH]; intros k s Hi Hk Hl; cbv zeta;
    cbn [smpc_steps smpc_step session_ok session_supported] in *; swp_steps.
  - split; [done | by exists k].
  - destruct Hl as (Hn & Hb & Hk49 & Hl).
    eapply swp_mono; [apply (swp_of_wp False), (handler_spec P k); [done | done | done | lia] | done|].
    intros r s1 (H1 & <- & <-). cbv beta in *. swp_steps. apply (IH _ _ H1); [destruct (report_ends sr); lia | done].
  - destruct Hi as (i1 & i2 & Hwf). eapply swp_mono; [by apply (process_report_spec P i1 i2 (32 * k))| |].
    { by intros ->. }
    intros u s1 (-> & H1 & <- & Ec). cbv beta. cbn [andb].
    pose proof (IH k s1) as Hs. rewrite Ec in Hs. apply Hs; [by exists i1, i2 | done | done].
Qed.

(** The buffer is cleared when the driver is loaded. *)
Definition supported (l : list smpc_event) : bool := session_supported (replicate 1568 0) 0 false l.

Lemma session_inv P l : memb_params 528 14 P → session_ok 0 l →
  match smpc_session P l with
  | Ok s => supported l = true ∧ ∃ k, smpc_inv P k s
  | Fault e => e = AssertFailed ∧ supported l = false
  end.
Proof.
  intros HP Hl. unfold smpc_session.
  assert (swp (supported l = false) (_ ← _internal_smpc_peripheral_init; smpc_steps l) (start P)
    (λ _ s, supported l = true ∧ ∃ k, smpc_inv P k s)) as H.
  { swp_steps. eapply swp_mono; [by apply (swp_of_wp False), start_inv | done|]. intros u s (Hs & Eb & Ec). cbv beta.
    pose proof (steps_spec P l 0 s Hs ltac:(lia) Hl) as H. cbv zeta in H. by rewrite Eb, Ec in H. }
  unfold swp in H. by destruct ((_internal_smpc_peripheral_init ≫= _) (start P)) as [[u s]|e].
Qed.

Lemma session_wf P l s : memb_params 528 14 P → session_ok 0 l → smpc_session P l = Ok s → ∃ k i1 i2, smpc_wf P i1 i2 (32 * k) s.
Proof. intros HP Hl E. pose proof (session_inv P l HP Hl) as H. rewrite E in H. destruct H as (_ & k & i1 & i2 & H). by exists k, i1, i2. Qed.

(** ** Digital pads *)

(** A digital pad in the report at an offset: no multitap, one connection, the
    identification and two bytes of data. *)
Definition pad_at (s : smpc) (o b0 b1 : Z) : Prop :=
  s_oreg_buf s !! Z.to_nat o = Some 241 ∧ s_oreg_buf s !! Z.to_nat (o + 1) = Some ID_DIGITAL ∧
  s_oreg_buf s !! Z.to_nat (o + 2) = Some b0 ∧ s_oreg_buf s !! Z.to_nat (o + 3) = Some b1.

Lemma wp_oreg_at x v s (Q : Z → smpc → Prop) : 0 ≤ x → s_oreg_buf s !! Z.to_nat x = Some v → Q v s → wp (OREG_GET x) s Q.
Proof.
  intros Hx Hv HQ. apply wp_oreg; [pose proof (lookup_lt_Some _ _ _ Hv); lia|]. intros v' Hv'. by simplify_eq.
Qed.

Definition pad_block (prt : Z) (y : smpc_peripheral) : smpc_peripheral := mk_peripheral 1 prt 15 0 (data y) (previous_data y) None.

Lemma pad_update P i1 i2 h a prt b0 b1 s : smpc_wf P i1 i2 h s → 32 ≤ s_oreg_offset s ≤ 1500 → pad_at s (s_oreg_offset s) b0 b1 →
  wp (peripheral_update None a prt) s (λ r s', r = 1 ∧ ∃ y, taken 2 b0 b1 (s_blocks s !!! a) y ∧
    s' = set_oreg_offset (s_oreg_offset s + 4) (set_block a (pad_block prt y) s)).
Proof.
  intros Hwf Ho (L0 & L1 & L2 & L3). set (o := s_oreg_offset s) in *.
  unfold peripheral_update, PC_GET_MULTITAP_ID, PC_GET_NUM_CONNECTIONS, next_oreg. wp_steps.
  apply (wp_oreg_at _ 241); [lia | done|]. wp_steps. apply (wp_oreg_at _ 241); [lia | done|]. wp_steps. fold o.
  change (multitap_connected _ _) with 1. change (1 =? 0) with false. change (1 <? 1) with false. cbv iota.
  rewrite (wrapu_small 32 (o + 1)) by lia. unfold update_single, PC_GET_TYPE, PC_GET_SIZE, PC_GET_ID. wp_steps.
  cbn [set_oreg_offset s_oreg_offset]. apply (wp_oreg_at _ ID_DIGITAL); [lia | done|]. wp_steps.
  replace (type_valid (Z.land (Z.shiftr ID_DIGITAL 4) 15)) with true by done. cbn [negb]. wp_steps.
  apply (wp_oreg_at _ ID_DIGITAL); [lia | done|]. wp_steps. apply (wp_oreg_at _ ID_DIGITAL); [lia | done|]. wp_steps.
  replace (id_valid (Z.land ID_DIGITAL 255)) with true by done. cbn [negb]. rewrite andb_false_r. unfold data_size, next_oreg. wp_steps.
  change (Z.land ID_DIGITAL 15) with 2. change (2 =? 0) with false. cbv iota. wp_steps. change (2 =? 2) with true. cbv iota.
  cbn [set_oreg_offset s_oreg_offset]. rewrite (wrapu_small 32) by lia. replace (o + 1 + 1) with (o + 2) by lia.
  apply (wp_take_data P i1 i2 h); [by repeat apply wf_set_oreg_offset | lia | lia|]. intros c0 c1 y Hc0 Hc1 Hy.
  replace (o + 2 + 1) with (o + 3) in Hc1 by lia. cbn [set_oreg_offset s_oreg_buf s_blocks] in *. simplify_eq.
  unfold update_block. wp_steps. split; [done|]. exists y. split; [done|].
  unfold set_oreg_offset, set_block, pad_block. cbn. rewrite lookup_total_insert_eq, insert_insert_eq, (wrapu_small 32) by lia. f_equal. lia.
Qed.

Lemma wf_pad P i1 i2 h a prt o b0 b1 x y s : smpc_wf P i1 i2 h s → taken 2 b0 b1 x y →
  smpc_wf P i1 i2 h (set_oreg_offset o (set_block a (pad_block prt y) s)).
Proof. intros Hwf [Hy _]. apply wf_set_oreg_offset, wf_set_block; [done|]. exact Hy. Qed.

Lemma pad_port P i1 i2 h i b0 b1 s : smpc_wf P i1 i2 h s → is_port i → 32 ≤ s_oreg_offset s ≤ 1500 → pad_at s (s_oreg_offset s) b0 b1 →
  wp (process_port i) s (λ _ s', ∃ y, let a := peripheral (get_port i s) in taken 2 b0 b1 (s_blocks s !!! a) y ∧
    s' = set_oreg_offset (s_oreg_offset s + 4) (set_block a (pad_block i y) s)).
Proof.
  intros Hwf Hi Ho Hpad. unfold process_port. wp_steps. eapply wp_mono; [by apply (pad_update P i1 i2 h)|].
  intros r s1 (-> & y & Hy & ->). cbv beta. change (1 <? 0) with false. cbv iota. wp_steps. unfold wp at 1.
  rewrite (ports_free P i1 i2 h) by (done || by eapply wf_pad). change (1 <? 1) with false. cbn [when]. wp_steps. by exists y.
Qed.

Lemma raw16_bytes l a b : l !! 0%nat = Some a → l !! 1%nat = Some b → raw16 l = Ok (a * 256 + b).
Proof. intros Ha Hb. unfold raw16. rewrite (proj2 (arr_get_Ok l 0 a)), (proj2 (arr_get_Ok l 1 b)) by done. done. Qed.

(** A pad of [s'] at port [i] with the bytes [b0] and [b1], where [s] is the state
    before: a button is pressed where the report has a zero. *)
Definition pad_reported (s s' : smpc) (i b0 b1 : Z) : Prop :=
  ∃ d0 d, smpc_peripheral_digital_port s i = Ok d0 ∧ smpc_peripheral_digital_port s' i = Ok d ∧
    d_connected d = true ∧ d_port d = i ∧ d_parent d = None ∧
    d_pressed d = 65535 - (b0 * 256 + b1) ∧ d_previous_pressed d = d_pressed d0 ∧
    (∀ k, Z.testbit (d_held d) k = Z.testbit (d_pressed d) k && negb (Z.testbit (d_pressed d0) k)) ∧
    (∀ k, Z.testbit (d_released d) k = Z.testbit (d_pressed d0) k && negb (Z.testbit (d_pressed d) k)).

Lemma pad_reported_block s s' i b0 b1 y : is_port i → let a := peripheral (get_port i s) in
  a ≠ 0 → peripheral (get_port i s') = a → good (s_blocks s !!! a) → taken 2 b0 b1 (s_blocks s !!! a) y →
  s_blocks s' !!! a = pad_block i y → pad_reported s s' i b0 b1.
Proof.
  intros Hi a Hz Ea [[Hd _] [Hpd _]] (_ & _ & Ed & Epd) Eb. set (x := s_blocks s !!! a) in *.
  destruct (lookup_lt_is_Some_2 (data x) 0) as [x0 H0]; [lia|]. destruct (lookup_lt_is_Some_2 (data x) 1) as [x1 H1]; [lia|].
  destruct (lookup_lt_is_Some_2 (previous_data x) 0) as [p0 Hp0]; [lia|].
  destruct (lookup_lt_is_Some_2 (previous_data x) 1) as [p1 Hp1]; [lia|].
  unfold pad_reported, smpc_peripheral_digital_port.
  assert (negb ((i =? 1) || (i =? 2)) = false) as -> by (by destruct Hi as [-> | ->]). fold a. rewrite Ea.
  apply Z.eqb_neq in Hz as ->. rewrite Eb. fold x. unfold smpc_peripheral_digital_get.
  rewrite (raw16_bytes _ _ _ H0 H1), (raw16_bytes _ _ _ Hp0 Hp1). cbn [pad_block data previous_data].
  rewrite (raw16_bytes (data y) (255 - b0) (255 - b1)).
  2:{ rewrite Ed, list_lookup_insert_ne, list_lookup_insert_eq by lia. done. }
  2:{ rewrite Ed, list_lookup_insert_eq by (rewrite length_insert; lia). done. }
  rewrite (raw16_bytes (previous_data y) x0 x1) by (by rewrite Epd). cbn [mbind outcome_bind].
  eexists _, _. split; [done|]. split; [done|]. cbn. split_and!; try done; try lia.
  - intros k. rewrite Z.land_spec, Z.lxor_spec. by destruct (Z.testbit _ k), (Z.testbit _ k).
  - intros k. rewrite Z.land_spec, Z.lxor_spec. by destruct (Z.testbit _ k), (Z.testbit _ k).
Qed.

Lemma port_block P i1 i2 h i s : smpc_wf P i1 i2 h s → is_port i → peripheral (get_port i s) ≠ 0.
Proof.
  intros [] Hi. destruct wf_ports0 as [E1 E2], wf_blocks0 as [Hwf Hsh Hr _]. unfold shape in Hsh. injection Hsh as _ _ HP.
  pose proof (wf_pool _ Hwf) as [Hpos _]. pose proof (Hr i1 ltac:(set_solver)). pose proof (Hr i2 ltac:(set_solver)).
  destruct Hi as [-> | ->]; unfold get_port; cbn [Z.eqb Pos.eqb]; rewrite ?E1, ?E2; cbn; unfold pool_block; lia.
Qed.

Lemma ports_differ P i1 i2 h s : smpc_wf P i1 i2 h s → peripheral (s_port_1 s) ≠ peripheral (s_port_2 s).
Proof. intros []. destruct wf_ports0 as [-> ->]. cbn. intros E%pool_block_inj. done. Qed.

(** ** Claims *)

(** C18: Whatever the SMPC reports, in any sequence of interrupts and calls of
    [smpc_peripheral_process] after the initialisation, with reports of at most the
    49 parts the buffer has room for: if every report that is processed is
    supported (no peripheral of a known kind has data of a size other than 2 and 6,
    [supported]), the driver runs through, staying inside the report and the tables
    of the peripherals and finding a block in the pool whenever it needs one, and
    has given back every block it took but those of the two ports.  Otherwise it
    stops at an assertion, which is the one on the size. *)
Theorem smpc_session_safe P l : memb_params 528 14 P → session_ok 0 l →
  if supported l
  then ∃ s i1 i2, smpc_session P l = Ok s ∧ pool_rep 528 14 P (s_pool s) {[i1; i2]} ∧ i1 ≠ i2 ∧
    s_port_1 s = mk_port (pool_block 528 P i1) [] ∧ s_port_2 s = mk_port (pool_block 528 P i2) []
  else smpc_session P l = Fault AssertFailed.
Proof.
  intros HP Hl. pose proof (session_inv P l HP Hl) as H. destruct (smpc_session P l) as [s|e].
  - destruct H as (-> & k & i1 & i2 & []). exists s, i1, i2. by destruct wf_ports0.
  - by destruct H as [-> ->].
Qed.

(** C19: When both ports report a digital pad, [smpc_peripheral_process] makes
    [smpc_peripheral_digital_port] return it as connected to its port, with the
    buttons that are zero in the report pressed; [held] are the buttons pressed now
    and not in the state before, and [released] those pressed before and not now. *)
Theorem smpc_pads_reported P l s a0 a1 b0 b1 :
  memb_params 528 14 P → session_ok 0 l → smpc_session P l = Ok s → s_complete s = true →
  pad_at s 32 a0 a1 → pad_at s 36 b0 b1 →
  wp smpc_peripheral_process s (λ _ s', pad_reported s s' 1 a0 a1 ∧ pad_reported s s' 2 b0 b1 ∧ s_complete s' = false).
Proof.
  intros HP Hl Hs Hc Ha Hb. destruct (session_wf P l s HP Hl Hs) as (k & i1 & i2 & Hwf). set (h := 32 * k) in *.
  unfold smpc_peripheral_process. wp_steps. rewrite Hc. cbn [negb]. wp_steps.
  eapply wp_mono; [apply (read_time_spec P i1 i2 h); by destruct Hwf|]. intros u s1 (H1 & t & o & ->). cbv beta. wp_steps.
  eapply wp_mono; [apply (pad_port P i1 i2 h _ a0 a1); [by apply wf_set_oreg_offset | by left | by vm_compute | done]|].
  intros u' s2 (y1 & Hy1 & ->). cbn [set_oreg_offset s_oreg_offset]. cbv beta.
  eapply wp_mono; [apply (pad_port P i1 i2 h _ b0 b1); [eapply wf_pad; [by apply wf_set_oreg_offset | exact Hy1] | by right | by vm_compute | done]|].
  intros u'' s3 (y2 & Hy2 & ->). pose proof (ports_differ _ _ _ _ _ Hwf) as Hne.
  split_and!; [| |done].
  - apply (pad_reported_block _ _ _ _ _ y1); [by left | by apply (port_block P i1 i2 h); [|left] | done | apply (wf_good _ _ _ _ _ Hwf) | exact Hy1|].
    cbn. rewrite lookup_total_insert_ne by done. by rewrite lookup_total_insert_eq.
  - apply (pad_reported_block _ _ _ _ _ y2); [by right | by apply (port_block P i1 i2 h); [|right] | done | apply (wf_good _ _ _ _ _ Hwf) | |].
    + cbn in Hy2. by rewrite lookup_total_insert_ne in Hy2 by done.
    + cbn. by rewrite lookup_total_insert_eq.
Qed.

(** A report of two parts: the time, and a pad at each port, with the right and
    start buttons of the first pressed. *)
Definition demo_report : list smpc_event :=
  [Interrupt (replicate 32 0) 0; Interrupt ([241; 2; 119; 255; 241; 2; 255; 255] ++ replicate 24 0) 128].
Definition demo_state : smpc := match smpc_session 4096 demo_report with Ok s => s | Fault _ => start 4096 end.

Lemma demo_report_ok : memb_params 528 14 4096 ∧ session_ok 0 demo_report.
Proof. split; [split_and!; lia|]. split_and!; try done; repeat constructor; lia. Qed.

(** Supported, so the driver returns. *)
Lemma smpc_session_safe_witness :
  ∃ s i1 i2, smpc_session 4096 (demo_report ++ [Process]) = Ok s ∧ pool_rep 528 14 4096 (s_pool s) {[i1; i2]} ∧ i1 ≠ i2 ∧
    s_port_1 s = mk_port (pool_block 528 4096 i1) [] ∧ s_port_2 s = mk_port (pool_block 528 4096 i2) [].
Proof.
  pose proof (smpc_session_safe 4096 (demo_report ++ [Process])) as H.
  assert (supported (demo_report ++ [Process]) = true) as E by (vm_compute; reflexivity). rewrite E in H. apply H.
  - apply demo_report_ok.
  - split_and!; try done; repeat constructor; lia.
Defined.

Lemma smpc_pads_reported_witness :
  wp smpc_peripheral_process demo_state (λ _ s', pad_reported demo_state s' 1 119 255 ∧ pad_reported demo_state s' 2 255 255 ∧ s_complete s' = false).
Proof.
  apply (smpc_pads_reported 4096 demo_report demo_state 119 255 255 255).
  - apply demo_report_ok.
  - apply demo_report_ok.
  - vm_compute. reflexivity.
  - vm_compute. reflexivity.
  - split_and!; vm_compute; reflexivity.
  - split_and!; vm_compute; reflexivity.
Defined.

(** ** Where the driver fails *)

(** Peripherals behind a multitap are lost: where the first port reports a
    multitap with two or more connections, processing the port leaves it with no
    connection and an empty list.  [peripheral_update] reads the number of
    connections only without a parent, so with one it is 0 and every peripheral
    behind the tap is rejected. *)
Theorem smpc_multitap_lost P l s v :
  memb_params 528 14 P → session_ok 0 l → smpc_session P l = Ok s →
  s_oreg_buf s !! 32%nat = Some v → 1 < multitap_connected (Z.land (Z.shiftr v 4) 15) (Z.land v 15) →
  wp (process_port 1) (set_oreg_offset SMPC_OREGS s) (λ _ s', peripherals (s_port_1 s') = [] ∧
    connected (s_blocks s' !!! peripheral (s_port_1 s')) = 0).
Proof.
  intros HP Hl Hs Hv Hc. destruct (session_wf P l s HP Hl Hs) as (k & i1 & i2 & Hwf). set (h := 32 * k) in *.
  set (conn := multitap_connected _ _) in *. unfold process_port, peripheral_update, PC_GET_MULTITAP_ID, PC_GET_NUM_CONNECTIONS, next_oreg.
  wp_steps. apply (wp_oreg_at _ v); [done | done|]. wp_steps. apply (wp_oreg_at _ v); [done | done|]. wp_steps. fold conn.
  assert ((conn =? 0) = false) as -> by (apply Z.eqb_neq; lia). assert ((1 <? conn) = true) as Hc' by (apply Z.ltb_lt; lia). rewrite Hc'.
  unfold update_block. wp_steps. assert ((conn <? 0) = false) as -> by (apply Z.ltb_ge; lia). cbv iota. wp_steps. unfold wp at 1.
  assert (∀ x f, good x → good (mk_peripheral f 1 (Z.land (Z.shiftr v 4) 15) 0 (data x) (previous_data x) None)) as Hg by (by intros x f).
  erewrite (ports_free P i1 i2 h); [|apply wf_set_block; [by repeat apply wf_set_oreg_offset | apply Hg, (wf_good _ _ _ _ _ Hwf)] | by left].
  rewrite Hc'. cbn [when]. wp_steps. eapply wp_mono.
  { apply (sub_ports_lost P i1 i2 h). repeat apply wf_set_block; [by repeat apply wf_set_oreg_offset|..].
    - apply Hg, (wf_good _ _ _ _ _ Hwf).
    - apply good_connected. apply set_block_good; [apply Hg, (wf_good _ _ _ _ _ Hwf) | apply (wf_good _ _ _ _ _ Hwf)]. }
  intros u s' [[] [Eq Hq]]. destruct wf_ports0 as [E1 _]. rewrite E1. split; [done|]. cbn [peripheral].
  rewrite Hq by (left; rewrite Eq in E1; cbn in E1 |- *; by rewrite E1). cbn.
  destruct (wf_ports _ _ _ _ _ Hwf) as [-> _]. by rewrite lookup_total_insert_eq.
Qed.

(** A multitap with six connections. *)
Definition multitap_report : list smpc_event := [Interrupt (replicate 32 0) 0; Interrupt (22 :: replicate 31 0) 128].
Definition multitap_state : smpc := match smpc_session 4096 multitap_report with Ok s => s | Fault _ => start 4096 end.

Lemma smpc_multitap_lost_witness :
  wp (process_port 1) (set_oreg_offset SMPC_OREGS multitap_state) (λ _ s', peripherals (s_port_1 s') = [] ∧
    connected (s_blocks s' !!! peripheral (s_port_1 s')) = 0).
Proof.
  apply (smpc_multitap_lost 4096 multitap_report multitap_state 22).
  - apply demo_report_ok.
  - split_and!; try done; repeat constructor; lia.
  - vm_compute. reflexivity.
  - vm_compute. reflexivity.
  - vm_compute. reflexivity.
Defined.

(** The fiftieth part of a report is stored behind the buffer: the handler does not
    check its offset. *)
Lemma smpc_report_overruns : smpc_session 4096 (replicate 50 (Interrupt (replicate 32 0) 0)) = Fault OutOfBounds.
Proof. vm_compute. reflexivity. Qed.

(** A keyboard, whose identification is accepted, stops the parser at its
    assertion. *)
Lemma smpc_keyboard_asserts :
  smpc_session 4096 [Interrupt (replicate 32 0) 0; Interrupt ([241; ID_KEYBOARD] ++ replicate 30 0) 128; Process] = Fault AssertFailed.
Proof. vm_compute. reflexivity. Qed.

(** The bytes of an analog pad are those of an address: what the pad sends is
    ignored. *)
Lemma smpc_analog_ignores_data a x y : connected x = connected y → port x = port y → type x = type y → size x = size y → parent x = parent y →
  smpc_peripheral_analog_get a x = smpc_peripheral_analog_get a y.
Proof. intros E1 E2 E3 E4 E5. unfold smpc_peripheral_analog_get. by rewrite E1, E2, E3, E4, E5. Qed.
